(** * G1Robot: the telemetry client of a streamed humanoid robot

  A shallow embedding of
  [packages/web/src/cesium/vehicles/g1/G1Robot.ts] (class [G1Robot], with
  the fields it inherits from [Vehicle]) and of the few functions of
  Cesium's [Math] namespace that it calls.

  Conventions of the embedding.
  - A JavaScript [number] is a value of [num]: [NaN], the two infinities,
    or a finite value carried as an exact rational.  Arithmetic on finite
    values is exact (binary64 rounding is not modelled), a decimal literal
    denotes the rational it spells, and the two zeros are identified.
  - Payloads are taken at their declared TypeScript types; an optional
    field is an [option], and [Number(undefined)] is [NaN].
  - Results of the platform (clocks, terrain queries) are inputs of the
    call that reads them; transcendental functions and Cesium's geometry
    are parameters ([Lib]).
  - A [while] loop is a fuelled fixpoint; a function that contains one
    returns [None] when the loop does not exit. *)

From Stdlib Require Import QArith Qround Qabs ZArith List String Bool Lia Lqa.
Import ListNotations.

(** ** JavaScript numbers *)

Inductive num : Type :=
| NaN
| PInf
| NInf
| Fin (q : Q).

Declare Scope num_scope.
Delimit Scope num_scope with num.
Bind Scope num_scope with num.

Module Num.

Definition Qltb (a b : Q) : bool := negb (Qle_bool b a).

Definition neg (a : num) : num :=
  match a with
  | NaN => NaN
  | PInf => NInf
  | NInf => PInf
  | Fin q => Fin (- q)
  end.

Definition add (a b : num) : num :=
  match a, b with
  | NaN, _ | _, NaN => NaN
  | PInf, NInf | NInf, PInf => NaN
  | PInf, _ | _, PInf => PInf
  | NInf, _ | _, NInf => NInf
  | Fin x, Fin y => Fin (x + y)
  end.

Definition sub (a b : num) : num := add a (neg b).

Definition mul (a b : num) : num :=
  match a, b with
  | NaN, _ | _, NaN => NaN
  | Fin x, Fin y => Fin (x * y)
  | PInf, PInf | NInf, NInf => PInf
  | PInf, NInf | NInf, PInf => NInf
  | PInf, Fin y | Fin y, PInf =>
      match y ?= 0 with Gt => PInf | Lt => NInf | Eq => NaN end
  | NInf, Fin y | Fin y, NInf =>
      match y ?= 0 with Gt => NInf | Lt => PInf | Eq => NaN end
  end.

(** Division; a zero divisor counts as [+0]. *)
Definition div (a b : num) : num :=
  match a, b with
  | NaN, _ | _, NaN => NaN
  | Fin x, Fin y =>
      if Qeq_bool y 0
      then match x ?= 0 with Gt => PInf | Lt => NInf | Eq => NaN end
      else Fin (x / y)
  | Fin _, (PInf | NInf) => Fin 0
  | (PInf | NInf), (PInf | NInf) => NaN
  | PInf, Fin y => if Qltb y 0 then NInf else PInf
  | NInf, Fin y => if Qltb y 0 then PInf else NInf
  end.

Definition ltb (a b : num) : bool :=
  match a, b with
  | NaN, _ | _, NaN => false
  | Fin x, Fin y => Qltb x y
  | NInf, NInf => false
  | NInf, _ => true
  | _, NInf => false
  | PInf, _ => false
  | _, PInf => true
  end.

(** Strict equality [===] on numbers. *)
Definition eqb (a b : num) : bool :=
  match a, b with
  | Fin x, Fin y => Qeq_bool x y
  | PInf, PInf | NInf, NInf => true
  | _, _ => false
  end.

Definition leb (a b : num) : bool := ltb a b || eqb a b.
Definition gtb (a b : num) : bool := ltb b a.
Definition geb (a b : num) : bool := leb b a.

Definition abs (a : num) : num :=
  match a with
  | NaN => NaN
  | PInf | NInf => PInf
  | Fin q => Fin (Qabs q)
  end.

(** [Math.max] of two arguments. *)
Definition max (a b : num) : num :=
  match a, b with
  | NaN, _ | _, NaN => NaN
  | _, _ => if ltb a b then b else a
  end.

(** The magnitude from which a result is an infinity in binary64:
    [2^1024 - 2^970], half a unit in the last place above
    [Number.MAX_VALUE]. *)
Definition overflowThreshold : Q := inject_Z (2 ^ 1024 - 2 ^ 970).

(** What binary64 keeps of an exact result that may leave the finite
    range: an infinity from the overflow threshold on.  Rounding below the
    threshold is left out. *)
Definition rounded (a : num) : num :=
  match a with
  | Fin q =>
      if Qle_bool overflowThreshold q then PInf
      else if Qle_bool q (- overflowThreshold) then NInf
      else a
  | _ => a
  end.

Definition floor (a : num) : num :=
  match a with
  | Fin q => Fin (inject_Z (Qfloor q))
  | _ => a
  end.

Definition Qtrunc (q : Q) : Z :=
  if Qle_bool 0 q then Qfloor q else Qceiling q.

(** The remainder operator [%]: the result takes the sign of the
    dividend. *)
Definition rem (m n : num) : num :=
  match m, n with
  | Fin x, Fin y =>
      if Qeq_bool y 0 then NaN else Fin (x - y * inject_Z (Qtrunc (x / y)))
  | Fin x, (PInf | NInf) => Fin x
  | _, _ => NaN
  end.

Definition isFinite (a : num) : bool :=
  match a with Fin _ => true | _ => false end.

(** [Number(x)] of an optional numeric field. *)
Definition ofOption (o : option num) : num :=
  match o with Some v => v | None => NaN end.

End Num.

Infix "+" := Num.add : num_scope.
Infix "-" := Num.sub : num_scope.
Infix "*" := Num.mul : num_scope.
Infix "/" := Num.div : num_scope.
Infix "<?" := Num.ltb : num_scope.
Infix "<=?" := Num.leb : num_scope.
Infix ">?" := Num.gtb : num_scope.
Infix ">=?" := Num.geb : num_scope.
Infix "===" := Num.eqb (at level 70, no associativity) : num_scope.
Infix "%%" := Num.rem (at level 40, left associativity) : num_scope.

(** ** The loop monad: [None] is a loop that does not exit *)

Definition bind {A B : Type} (m : option A) (k : A -> option B) : option B :=
match m with
| Some a => k a
| None => None
end.

Notation "x <- m ;; k" := (bind m (fun x => k))
(at level 61, m at next level, right associativity).

(** ** Constants and functions of [Math] and of Cesium's [Math] *)

Module JsMath.

(** [Math.PI], the binary64 value. *)
Definition PI : Q := 884279719003555 # 281474976710656.

(** [Math.SQRT1_2], the binary64 value. *)
Definition SQRT1_2 : Q := 6369051672525773 # 9007199254740992.

End JsMath.

Module CesiumMath.

Definition TWO_PI : Q := 2 * JsMath.PI.
Definition EPSILON14 : Q := 1 # 100000000000000.
Definition RADIANS_PER_DEGREE : Q := JsMath.PI / 180.

Definition toRadians (degrees : num) : num :=
  (degrees * Fin RADIANS_PER_DEGREE)%num.

Definition clamp (value min max : num) : num :=
  if (value <? min)%num then min
  else if (value >? max)%num then max
  else value.

(** [Math.sign]. *)
Definition sign (value : num) : num :=
  match value with
  | NaN => NaN
  | PInf => Fin 1
  | NInf => Fin (-1)
  | Fin q =>
      match q ?= 0 with
      | Eq => Fin 0
      | Gt => Fin 1
      | Lt => Fin (-1)
      end
  end.

Definition mod_ (m n : num) : num :=
  if (sign m === sign n)%num && (Num.abs m <? Num.abs n)%num
  then m
  else (((m %% n) + n) %% n)%num.

Definition zeroToTwoPi (angle : num) : num :=
  if (angle >=? Fin 0)%num && (angle <=? Fin TWO_PI)%num then angle
  else
    let m := mod_ angle (Fin TWO_PI) in
    if (Num.abs m <? Fin EPSILON14)%num && (Num.abs angle >? Fin EPSILON14)%num
    then Fin TWO_PI
    else m.

End CesiumMath.

(** ** Data model *)

Inductive StreamState : Type := offline | connecting | live.

(** [Partial<G1RootPose>]; [quat] is whatever array arrived. *)
Record G1RootPose : Type := {
  root_lat : option num;
  root_lon : option num;
  root_height : option num;
  root_quat : option (list num)
}.

(** [Partial<G1LinkPose>]. *)
Record G1LinkPose : Type := {
  link_pos : option (list num);
  link_quat : option (list num)
}.

(** The [currentWaypoint] field as it arrives. *)
Inductive RawWaypoint : Type :=
| wp_undefined
| wp_null
| wp_array (entries : list num).

(** [Partial<G1NavigationPayload>] as it arrives. *)
Record RawNavigation : Type := {
  raw_currentWaypoint : RawWaypoint;
  raw_remainingWaypoints : option num;
  raw_running : option bool;
  raw_simTimeS : option num;
  raw_wallTimeS : option num;
  raw_speedRequested : option num;
  raw_speedAchieved : option num;
  raw_crossTrackErrorM : option num;
  raw_progressPct : option num;
  raw_offRoute : option bool;
  raw_terrainBlockReason : option string;
  raw_obstacleBlockReason : option string
}.

(** [G1NavigationPayload] as handed to [onNavigationContext]; the outer
    [option] of [currentWaypoint] is [undefined], the inner one [null]. *)
Record G1NavigationPayload : Type := {
  currentWaypoint : option (option (num * num));
  remainingWaypoints : option num;
  running : option bool;
  nav_simTimeS : option num;
  nav_wallTimeS : option num;
  speedRequested : option num;
  speedAchieved : option num;
  crossTrackErrorM : option num;
  progressPct : option num;
  offRoute : option bool;
  terrainBlockReason : option string;
  obstacleBlockReason : option string
}.

Record G1PosePayload : Type := {
  p_type : option string;
  p_message : option string;
  p_t : option num;
  p_simTimeS : option num;
  p_wallTimeS : option num;
  p_root : option G1RootPose;
  p_links : option (list (string * G1LinkPose));
  p_nav : option RawNavigation;
  p_error : option string
}.

Record G1RobotTelemetry : Type := {
  tel_lat : num;
  tel_lon : num;
  tel_heading : num;
  tel_speed : num
}.

Record G1RuntimeMetrics : Type := {
  poseApplyHz : num;
  terrainQueryHz : num;
  terrainProbeHz : num;
  wsInHz : num;
  wsOutHz : num;
  avgCaptureMs : num
}.

(** A [Cesium.Cartesian3] is kept as the call that built it. *)
Inductive Cartesian3 : Type :=
| Cartesian3_fromDegrees (lon lat height : num)
| Cartesian3_xyz (x y z : num).

Record HeadingPitchRoll : Type := {
  heading : num;
  pitch : num;
  roll : num
}.

(** A model matrix is kept as the composition that built it:
    [Transforms.headingPitchRollToFixedFrame] ([Vehicle]) or
    [eastNorthUpToFixedFrame(position)] times the rotation of a
    heading-pitch-roll ([applyRootTransform]). *)
Inductive Matrix4 : Type :=
| headingPitchRollToFixedFrame (origin : Cartesian3) (hpr : HeadingPitchRoll)
| eastNorthUp_times_rotation (origin : Cartesian3) (hpr : HeadingPitchRoll).

(** A node matrix, [Matrix4.fromRotationTranslation] of a quaternion
    [(x, y, z, w)] and a translation. *)
Record NodeMatrix : Type := {
  node_rotation : num * num * num * num;
  node_translation : num * num * num
}.

(** The [Cesium.Model]: its model matrix, the names of the nodes of the
    glTF, and the node matrices written so far. *)
Record Model : Type := {
  modelMatrix : Matrix4;
  gltfNodes : list string;
  nodeMatrices : list (string * NodeMatrix)
}.

(** Status messages; the ones that format a number keep the number. *)
Inductive StatusMessage : Type :=
| status_text (s : string)
| status_headingLockComplete (offsetRad : num)
| status_headingAutoCalibrated (offsetRad : num)
| status_perfClient (m : G1RuntimeMetrics).

Record Obstacle : Type := {
  ob_id : string;
  ob_lat : num;
  ob_lon : num;
  ob_radiusM : num;
  ob_kind : string;
  ob_speedMps : num
}.

Record ProbeSample : Type := {
  ps_bearingDeg : Q;
  ps_distanceM : Q;
  ps_heightM : num;
  ps_groundHeightM : num;
  ps_surfaceDeltaM : num;
  ps_deltaM : num
}.

(** Outbound messages of [sendWsPayload]. *)
Inductive WsPayload : Type :=
| session_start (t : num)
| terrain_probe (seq : nat) (capturedAtMs : num) (baseHeightM : num)
    (samples : list ProbeSample) (robot : G1RobotTelemetry)
| dynamic_obstacles (seq : nat) (capturedAtMs : num) (obstacles : list Obstacle).

(** *** The browser *)

Inductive ReadyState : Type := CONNECTING | OPEN | CLOSING | CLOSED.

Inductive TimerCallback : Type :=
| cb_connectStream
| cb_sendCameraFrame
| cb_sendTerrainProbe.

(** A pending [setTimeout] ([timer_repeat = false]) or [setInterval]. *)
Record Timer : Type := {
  timer_id : nat;
  timer_repeat : bool;
  timer_delayMs : Q;
  timer_callback : TimerCallback
}.

(** [localStorage] under the key [g1_heading_offset_v1]: it throws, or it
    holds an item ([None]: no item, or the empty string), kept as the
    number [Number] reads in it. *)
Inductive Storage : Type :=
| storage_throws
| storage_item (item : option num).

Record Browser : Type := {
  sockets : list ReadyState;
  timers : list Timer;
  nextTimerId : nat;
  postRenderListeners : list nat;
  camera : nat;
  localStorage : Storage
}.

(** *** The robot *)

Record Config : Type := {
  cfg_position : Cartesian3;
  cfg_heading : option num;
  cfg_pitch : option num;
  cfg_roll : option num;
  cfg_modelHeadingOffset : option num;
  cfg_linkScale : option num;
  onStreamStateChange : bool;
  onStatus : bool;
  onNavigationContext : bool
}.

Record Ingest : Type := {
  latestPayload : option G1PosePayload;
  lastProcessedT : num;
  lastPoseApplyMs : num
}.

Record TerrainHeightState : Type := {
  terrainHeightM : num;
  terrainHeightValid : bool;
  lastTerrainSampleMs : num
}.

Record HeadingCalibrationState : Type := {
  modelHeadingOffset : num;
  headingCalibrationSamples : nat;
  headingFastLockComplete : bool;
  headingAlignedStreak : nat
}.

Record Render : Type := {
  position : Cartesian3;
  hpRoll : HeadingPitchRoll;
  smoothedHeadingRad : num;
  primitive : option Model;
  isReady : bool;
  sceneRef : bool
}.

Record Motion : Type := {
  lastPosePosition : option Cartesian3;
  lastPoseTimeMs : option num;
  lastGeoLat : option num;
  lastGeoLon : option num;
  currentLat : option num;
  currentLon : option num;
  lastStaticPoseRefreshMs : num;
  velocity : num;
  speed : num
}.

Record Perf : Type := {
  perfWindowStartedMs : num;
  perfPoseApplied : nat;
  perfTerrainQueries : nat;
  perfTerrainProbes : nat;
  perfFramesCaptured : nat;
  perfFrameCaptureMsTotal : num;
  perfWsIn : nat;
  perfWsOut : nat;
  lastMetrics : G1RuntimeMetrics
}.

Record Links : Type := {
  nodeMap : list (string * string);
  ignoredNodes : list string;
  nodeCache : list string;
  enableLinkAnimation : bool;
  linkScale : num
}.

Record Conn : Type := {
  ws : option nat;
  reconnectTimer : option nat;
  destroyed : bool;
  frameCaptureTimer : option nat;
  terrainProbeTimer : option nat;
  pendingVisionCapture : bool;
  pendingVisionCaptureListener : option nat;
  pendingVisionCaptureRestore : option nat;
  terrainProbeSeq : nat;
  dynamicObstacleSeq : nat
}.

(** What the robot has handed to its callbacks and sockets. *)
Record Out : Type := {
  streamStates : list StreamState;
  statuses : list StatusMessage;
  navigationContexts : list G1NavigationPayload;
  sent : list (nat * WsPayload)
}.

Record G1Robot : Type := {
  config : Config;
  ingest : Ingest;
  terrain : TerrainHeightState;
  calibration : HeadingCalibrationState;
  render : Render;
  motion : Motion;
  perf : Perf;
  links : Links;
  conn : Conn;
  browser : Browser;
  out : Out
}.

(** *** Field updates *)

Definition set_ingest (v : Ingest) (r : G1Robot) : G1Robot :=
  {| config := config r; ingest := v; terrain := terrain r;
     calibration := calibration r; render := render r; motion := motion r;
     perf := perf r; links := links r; conn := conn r; browser := browser r;
     out := out r |}.

Definition set_terrain (v : TerrainHeightState) (r : G1Robot) : G1Robot :=
  {| config := config r; ingest := ingest r; terrain := v;
     calibration := calibration r; render := render r; motion := motion r;
     perf := perf r; links := links r; conn := conn r; browser := browser r;
     out := out r |}.

Definition set_calibration (v : HeadingCalibrationState) (r : G1Robot) : G1Robot :=
  {| config := config r; ingest := ingest r; terrain := terrain r;
     calibration := v; render := render r; motion := motion r;
     perf := perf r; links := links r; conn := conn r; browser := browser r;
     out := out r |}.

Definition set_render (v : Render) (r : G1Robot) : G1Robot :=
  {| config := config r; ingest := ingest r; terrain := terrain r;
     calibration := calibration r; render := v; motion := motion r;
     perf := perf r; links := links r; conn := conn r; browser := browser r;
     out := out r |}.

Definition set_motion (v : Motion) (r : G1Robot) : G1Robot :=
  {| config := config r; ingest := ingest r; terrain := terrain r;
     calibration := calibration r; render := render r; motion := v;
     perf := perf r; links := links r; conn := conn r; browser := browser r;
     out := out r |}.

Definition set_perf (v : Perf) (r : G1Robot) : G1Robot :=
  {| config := config r; ingest := ingest r; terrain := terrain r;
     calibration := calibration r; render := render r; motion := motion r;
     perf := v; links := links r; conn := conn r; browser := browser r;
     out := out r |}.

Definition set_links (v : Links) (r : G1Robot) : G1Robot :=
  {| config := config r; ingest := ingest r; terrain := terrain r;
     calibration := calibration r; render := render r; motion := motion r;
     perf := perf r; links := v; conn := conn r; browser := browser r;
     out := out r |}.

Definition set_conn (v : Conn) (r : G1Robot) : G1Robot :=
  {| config := config r; ingest := ingest r; terrain := terrain r;
     calibration := calibration r; render := render r; motion := motion r;
     perf := perf r; links := links r; conn := v; browser := browser r;
     out := out r |}.

Definition set_browser (v : Browser) (r : G1Robot) : G1Robot :=
  {| config := config r; ingest := ingest r; terrain := terrain r;
     calibration := calibration r; render := render r; motion := motion r;
     perf := perf r; links := links r; conn := conn r; browser := v;
     out := out r |}.

Definition set_out (v : Out) (r : G1Robot) : G1Robot :=
  {| config := config r; ingest := ingest r; terrain := terrain r;
     calibration := calibration r; render := render r; motion := motion r;
     perf := perf r; links := links r; conn := conn r; browser := browser r;
     out := v |}.

(** *** The platform as the robot sees it *)

(** Transcendental functions of [Math] and the geometry of Cesium. *)
Record Lib : Type := {
  Math_cos : num -> num;
  Math_hypot : num -> num -> num;
  Math_atan2 : num -> num -> num;
  (** [HeadingPitchRoll.fromQuaternion] of [(x, y, z, w)]. *)
  HeadingPitchRoll_fromQuaternion : num * num * num * num -> HeadingPitchRoll;
  Cartesian3_distance : Cartesian3 -> Cartesian3 -> num
}.

(** A call into the scene returns or throws. *)
Inductive Query (A : Type) : Type :=
| throws
| returns (a : A).
Arguments throws {A}.
Arguments returns {A} a.

(** What one rendering tick reads from the platform, per read site. *)
Record TickEnv : Type := {
  (** [performance.now()] in [update]. *)
  update_now : Q;
  (** [Date.now()] in [update]. *)
  update_Date_now : Q;
  (** [performance.now()] in [applyPose]. *)
  applyPose_now : Q;
  (** [performance.now()] in [sampleTerrainHeight]. *)
  terrain_now : Q;
  (** [sceneRef.globe?.getHeight?.(cartographic)]. *)
  globe_getHeight : Query (option num);
  (** The height of [sceneRef.clampToHeight(probe, exclude)], when it hits. *)
  scene_clampToHeight : Query (option num);
  (** [Date.now()] in [updateSpeedEstimate]. *)
  speed_Date_now : Q;
  (** [performance.now()] in [maybeEmitPerfStatus]. *)
  perf_now : Q
}.

Definition ofNat (n : nat) : num := Fin (inject_Z (Z.of_nat n)).

(** ** Angles *)

(** [while (value > Math.PI) value -= Math.PI * 2]. *)
Fixpoint while_above_PI (fuel : nat) (value : num) : option num :=
  if (value >? Fin JsMath.PI)%num then
    match fuel with
    | O => None
    | S n => while_above_PI n (value - Fin (JsMath.PI * 2))%num
    end
  else Some value.

(** [while (value < -Math.PI) value += Math.PI * 2]. *)
Fixpoint while_below_minus_PI (fuel : nat) (value : num) : option num :=
  if (value <? Fin (- JsMath.PI))%num then
    match fuel with
    | O => None
    | S n => while_below_minus_PI n (value + Fin (JsMath.PI * 2))%num
    end
  else Some value.

(** [normalizeSignedAngle] with at most [fuel] turns of each loop. *)
Definition normalizeSignedAngle_fuel (fuel : nat) (rad : num) : option num :=
  value <- while_above_PI fuel rad ;;
  while_below_minus_PI fuel value.

(** A number of turns that either loop needs at most on a finite
    argument ([normalizeSignedAngle_enough]); on an infinity the loops do
    not exit whatever the fuel ([normalizeSignedAngle_diverges]).  The
    count is that of exact arithmetic.  In binary64 a magnitude above
    [2^56] is not changed by adding or subtracting [2 * PI], and the loop
    does not exit there either: that the call returns on an argument given
    from outside is stated for modest angles only ([modestAngle]), where
    both counts agree. *)
Definition turns (rad : num) : nat :=
  match rad with
  | Fin q => S (Z.to_nat (Qceiling (Qabs q / (JsMath.PI * 2))))
  | _ => O
  end.

Definition normalizeSignedAngle (rad : num) : option num :=
  normalizeSignedAngle_fuel (turns rad) rad.

Definition lerpAngle (start end_ factor : num) : num :=
  let normalizedStart := CesiumMath.zeroToTwoPi start in
  let normalizedEnd := CesiumMath.zeroToTwoPi end_ in
  let delta := (normalizedEnd - normalizedStart)%num in
  let delta :=
    if (delta >? Fin JsMath.PI)%num then (delta - Fin CesiumMath.TWO_PI)%num
    else if (delta <? Fin (- JsMath.PI))%num then (delta + Fin CesiumMath.TWO_PI)%num
    else delta in
  CesiumMath.zeroToTwoPi (normalizedStart + delta * factor)%num.

(** ** Callbacks, storage and the socket *)

(** [this.onStatus?.(message)]. *)
Definition emitStatus (m : StatusMessage) (r : G1Robot) : G1Robot :=
  if onStatus (config r) then
    set_out {| streamStates := streamStates (out r);
               statuses := statuses (out r) ++ [m];
               navigationContexts := navigationContexts (out r);
               sent := sent (out r) |} r
  else r.

Definition emitStreamState (s : StreamState) (r : G1Robot) : G1Robot :=
  if onStreamStateChange (config r) then
    set_out {| streamStates := streamStates (out r) ++ [s];
               statuses := statuses (out r);
               navigationContexts := navigationContexts (out r);
               sent := sent (out r) |} r
  else r.

Definition set_localStorage (s : Storage) (r : G1Robot) : G1Robot :=
  set_browser {| sockets := sockets (browser r);
                 timers := timers (browser r);
                 nextTimerId := nextTimerId (browser r);
                 postRenderListeners := postRenderListeners (browser r);
                 camera := camera (browser r);
                 localStorage := s |} r.

Definition persistHeadingOffset (r : G1Robot) : G1Robot :=
  match localStorage (browser r) with
  | storage_throws => r
  | storage_item _ =>
      set_localStorage (storage_item (Some (modelHeadingOffset (calibration r)))) r
  end.

Definition set_modelHeadingOffset (v : num) (r : G1Robot) : G1Robot :=
  set_calibration
    {| modelHeadingOffset := v;
       headingCalibrationSamples := headingCalibrationSamples (calibration r);
       headingFastLockComplete := headingFastLockComplete (calibration r);
       headingAlignedStreak := headingAlignedStreak (calibration r) |} r.

Definition loadHeadingOffsetFromStorage (r : G1Robot) : option G1Robot :=
  match localStorage (browser r) with
  | storage_throws => Some r
  | storage_item None => Some r
  | storage_item (Some parsed) =>
      if Num.isFinite parsed then
        v <- normalizeSignedAngle parsed ;;
        Some (set_modelHeadingOffset v r)
      else Some r
  end.

Definition readyState (r : G1Robot) (sock : nat) : option ReadyState :=
  nth_error (sockets (browser r)) sock.

Definition canSendToServer (r : G1Robot) : bool :=
  match ws (conn r) with
  | Some sock =>
      match readyState r sock with
      | Some OPEN => true
      | _ => false
      end
  | None => false
  end.

Definition bump_perfWsOut (r : G1Robot) : G1Robot :=
  set_perf {| perfWindowStartedMs := perfWindowStartedMs (perf r);
              perfPoseApplied := perfPoseApplied (perf r);
              perfTerrainQueries := perfTerrainQueries (perf r);
              perfTerrainProbes := perfTerrainProbes (perf r);
              perfFramesCaptured := perfFramesCaptured (perf r);
              perfFrameCaptureMsTotal := perfFrameCaptureMsTotal (perf r);
              perfWsIn := perfWsIn (perf r);
              perfWsOut := S (perfWsOut (perf r));
              lastMetrics := lastMetrics (perf r) |} r.

(** [sendWsPayload]; [send] on an open socket does not throw. *)
Definition sendWsPayload (payload : WsPayload) (r : G1Robot) : G1Robot :=
  if negb (canSendToServer r) then r
  else
    match ws (conn r) with
    | None => r
    | Some sock =>
        bump_perfWsOut
          (set_out {| streamStates := streamStates (out r);
                      statuses := statuses (out r);
                      navigationContexts := navigationContexts (out r);
                      sent := sent (out r) ++ [(sock, payload)] |} r)
    end.

(** ** Runtime metrics *)

Definition maybeEmitPerfStatus (now : Q) (r : G1Robot) : G1Robot :=
  let nowMs := Fin now in
  let elapsedS := ((nowMs - perfWindowStartedMs (perf r)) / Fin 1000)%num in
  if (elapsedS <? Fin 5)%num then r
  else
    let avgCaptureMs :=
      if (0 <? perfFramesCaptured (perf r))%nat
      then (perfFrameCaptureMsTotal (perf r) / ofNat (perfFramesCaptured (perf r)))%num
      else Fin 0 in
    let metrics :=
      {| poseApplyHz := (ofNat (perfPoseApplied (perf r)) / elapsedS)%num;
         terrainQueryHz := (ofNat (perfTerrainQueries (perf r)) / elapsedS)%num;
         terrainProbeHz := (ofNat (perfTerrainProbes (perf r)) / elapsedS)%num;
         wsInHz := (ofNat (perfWsIn (perf r)) / elapsedS)%num;
         wsOutHz := (ofNat (perfWsOut (perf r)) / elapsedS)%num;
         avgCaptureMs := avgCaptureMs |} in
    let r := emitStatus (status_perfClient metrics) r in
    set_perf {| perfWindowStartedMs := nowMs;
                perfPoseApplied := 0;
                perfTerrainQueries := 0;
                perfTerrainProbes := 0;
                perfFramesCaptured := 0;
                perfFrameCaptureMsTotal := Fin 0;
                perfWsIn := 0;
                perfWsOut := 0;
                lastMetrics := metrics |} r.

Definition getRuntimeMetrics (r : G1Robot) : G1RuntimeMetrics :=
  lastMetrics (perf r).

(** ** Heading calibration *)

Definition getModelHeadingOffsetRad (r : G1Robot) : num :=
  modelHeadingOffset (calibration r).

Definition maybeAutoCalibrateHeading (moveHeading : option num) (r : G1Robot)
  : option G1Robot :=
  match moveHeading with
  | None => Some r
  | Some moveHeading =>
      if (velocity (motion r) <? Fin 0.12)%num then Some r
      else if (360 <=? headingCalibrationSamples (calibration r))%nat then Some r
      else
        let modelHeading :=
          (heading (hpRoll (render r)) + modelHeadingOffset (calibration r))%num in
        error <- normalizeSignedAngle (moveHeading - modelHeading)%num ;;
        if negb (Num.isFinite error)
           || (Num.abs error >? CesiumMath.toRadians (Fin 70))%num
        then Some r
        else if negb (headingFastLockComplete (calibration r)) then
          let fastCorrection :=
            (CesiumMath.clamp error (Fin (-0.22)) (Fin 0.22) * Fin 0.35)%num in
          r <- (if (Num.abs fastCorrection >? Fin (1 # 10000))%num then
                  v <- normalizeSignedAngle
                         (modelHeadingOffset (calibration r) + fastCorrection)%num ;;
                  Some (set_modelHeadingOffset v r)
                else Some r) ;;
          let samples := S (headingCalibrationSamples (calibration r)) in
          let streak :=
            if (Num.abs error <=? CesiumMath.toRadians (Fin 15))%num
            then S (headingAlignedStreak (calibration r))
            else O in
          if (20 <=? streak)%nat || (90 <=? samples)%nat then
            let r :=
              set_calibration
                {| modelHeadingOffset := modelHeadingOffset (calibration r);
                   headingCalibrationSamples := samples;
                   headingFastLockComplete := true;
                   headingAlignedStreak := streak |} r in
            let r := persistHeadingOffset r in
            Some (emitStatus
                    (status_headingLockComplete (modelHeadingOffset (calibration r))) r)
          else
            Some (set_calibration
                    {| modelHeadingOffset := modelHeadingOffset (calibration r);
                       headingCalibrationSamples := samples;
                       headingFastLockComplete := headingFastLockComplete (calibration r);
                       headingAlignedStreak := streak |} r)
        else
          let correction :=
            (CesiumMath.clamp error (Fin (-0.04)) (Fin 0.04) * Fin 0.06)%num in
          if (Num.abs correction <? Fin (1 # 10000))%num then Some r
          else
            v <- normalizeSignedAngle
                   (modelHeadingOffset (calibration r) + correction)%num ;;
            let samples := S (headingCalibrationSamples (calibration r)) in
            let r :=
              set_calibration
                {| modelHeadingOffset := v;
                   headingCalibrationSamples := samples;
                   headingFastLockComplete := headingFastLockComplete (calibration r);
                   headingAlignedStreak := headingAlignedStreak (calibration r) |} r in
            if (samples mod 45 =? 0)%nat then
              let r := persistHeadingOffset r in
              Some (emitStatus
                      (status_headingAutoCalibrated (modelHeadingOffset (calibration r))) r)
            else Some r
  end.

(** [Vehicle.updateModelMatrix]. *)
Definition updateModelMatrix (r : G1Robot) : G1Robot :=
  match primitive (render r) with
  | None => r
  | Some m =>
      let hpr :=
        {| heading := (heading (hpRoll (render r))
                       + modelHeadingOffset (calibration r))%num;
           pitch := pitch (hpRoll (render r));
           roll := roll (hpRoll (render r)) |} in
      set_render
        {| position := position (render r);
           hpRoll := hpRoll (render r);
           smoothedHeadingRad := smoothedHeadingRad (render r);
           primitive :=
             Some {| modelMatrix :=
                       headingPitchRollToFixedFrame (position (render r)) hpr;
                     gltfNodes := gltfNodes m;
                     nodeMatrices := nodeMatrices m |};
           isReady := isReady (render r);
           sceneRef := sceneRef (render r) |} r
  end.

(** [setModelHeadingOffsetRad]: the robot after the call and the value
    returned. *)
Definition setModelHeadingOffsetRad (offsetRad : num) (r : G1Robot)
  : option (G1Robot * num) :=
  let next := offsetRad in
  if negb (Num.isFinite next) then Some (r, modelHeadingOffset (calibration r))
  else
    v <- normalizeSignedAngle next ;;
    let r := set_modelHeadingOffset v r in
    let r := persistHeadingOffset r in
    let r :=
      set_calibration
        {| modelHeadingOffset := modelHeadingOffset (calibration r);
           headingCalibrationSamples := 360;
           headingFastLockComplete := true;
           headingAlignedStreak := 0 |} r in
    let r := updateModelMatrix r in
    Some (r, modelHeadingOffset (calibration r)).

(** ** Terrain height *)

Definition bump_perfTerrainQueries (r : G1Robot) : G1Robot :=
  set_perf {| perfWindowStartedMs := perfWindowStartedMs (perf r);
              perfPoseApplied := perfPoseApplied (perf r);
              perfTerrainQueries := S (perfTerrainQueries (perf r));
              perfTerrainProbes := perfTerrainProbes (perf r);
              perfFramesCaptured := perfFramesCaptured (perf r);
              perfFrameCaptureMsTotal := perfFrameCaptureMsTotal (perf r);
              perfWsIn := perfWsIn (perf r);
              perfWsOut := perfWsOut (perf r);
              lastMetrics := lastMetrics (perf r) |} r.

(** The value [sampleTerrainHeight] returns when it gives up. *)
Definition cachedHeightOrZero (r : G1Robot) : num :=
  if terrainHeightValid (terrain r) then terrainHeightM (terrain r) else Fin 0.

(** [sampledHeight] after the two probes. *)
Definition combineHeights (globeHeight clampedHeight : option num) : num :=
  let sampledHeight :=
    match globeHeight with
    | Some g => if Num.isFinite g then g else NaN
    | None => NaN
    end in
  match clampedHeight with
  | None => sampledHeight
  | Some clampedHeight =>
      if negb (Num.isFinite sampledHeight) then clampedHeight
      else
        let delta := (clampedHeight - sampledHeight)%num in
        if (delta >=? Fin (-2))%num then clampedHeight else sampledHeight
  end.

(** The smoothing of an accepted sample into the cache. *)
Definition blendHeight (sampledHeight : num) (t : TerrainHeightState)
  : TerrainHeightState :=
  if negb (terrainHeightValid t) then
    {| terrainHeightM := sampledHeight;
       terrainHeightValid := true;
       lastTerrainSampleMs := lastTerrainSampleMs t |}
  else
    let delta := (sampledHeight - terrainHeightM t)%num in
    let next :=
      if (Num.abs delta >? Fin 12)%num then sampledHeight
      else if (Num.abs delta >? Fin 2)%num
           then (terrainHeightM t + delta * Fin 0.75)%num
           else (terrainHeightM t + delta * Fin 0.5)%num in
    {| terrainHeightM := next;
       terrainHeightValid := terrainHeightValid t;
       lastTerrainSampleMs := lastTerrainSampleMs t |}.

(** [sampleTerrainHeight]: the height returned and the robot after the
    call. *)
Definition sampleTerrainHeight (e : TickEnv) (r : G1Robot) : num * G1Robot :=
  if negb (sceneRef (render r)) then (Fin 0, r)
  else
    let nowMs := Fin (terrain_now e) in
    if (nowMs - lastTerrainSampleMs (terrain r) <? Fin 300)%num
       && terrainHeightValid (terrain r)
    then (terrainHeightM (terrain r), r)
    else
      let r :=
        set_terrain {| terrainHeightM := terrainHeightM (terrain r);
                       terrainHeightValid := terrainHeightValid (terrain r);
                       lastTerrainSampleMs := nowMs |} r in
      let maxTerrainHeightM := Fin 3000 in
      let r := bump_perfTerrainQueries r in
      match globe_getHeight e with
      | throws => (cachedHeightOrZero r, r)
      | returns globeHeight =>
          let r := bump_perfTerrainQueries r in
          match scene_clampToHeight e with
          | throws => (cachedHeightOrZero r, r)
          | returns clamped =>
              let sampledHeight := combineHeights globeHeight clamped in
              if negb (Num.isFinite sampledHeight)
                 || (Num.abs sampledHeight >? maxTerrainHeightM)%num
              then (cachedHeightOrZero r, r)
              else
                let r := set_terrain (blendHeight sampledHeight (terrain r)) r in
                (terrainHeightM (terrain r), r)
          end
      end.

(** ** Navigation context *)

Definition finiteOrUndefined (o : option num) : option num :=
  let v := Num.ofOption o in
  if Num.isFinite v then Some v else None.

Definition sanitizeNavigation (nav : RawNavigation) : G1NavigationPayload :=
  let currentWaypoint :=
    match raw_currentWaypoint nav with
    | wp_array [lat; lon] =>
        if Num.isFinite lat && Num.isFinite lon
        then Some (Some (lat, lon))
        else Some None
    | wp_array _ => None
    | wp_null => Some None
    | wp_undefined => None
    end in
  let remainingWaypoints := Num.ofOption (raw_remainingWaypoints nav) in
  {| currentWaypoint := currentWaypoint;
     remainingWaypoints :=
       if Num.isFinite remainingWaypoints
       then Some (Num.max (Fin 0) (Num.floor remainingWaypoints))
       else None;
     running := raw_running nav;
     nav_simTimeS := finiteOrUndefined (raw_simTimeS nav);
     nav_wallTimeS := finiteOrUndefined (raw_wallTimeS nav);
     speedRequested := finiteOrUndefined (raw_speedRequested nav);
     speedAchieved := finiteOrUndefined (raw_speedAchieved nav);
     crossTrackErrorM := finiteOrUndefined (raw_crossTrackErrorM nav);
     progressPct := finiteOrUndefined (raw_progressPct nav);
     offRoute := raw_offRoute nav;
     terrainBlockReason := raw_terrainBlockReason nav;
     obstacleBlockReason := raw_obstacleBlockReason nav |}.

Definition emitNavigationContext (rawNav : option RawNavigation) (r : G1Robot)
  : G1Robot :=
  match rawNav with
  | None => r
  | Some nav =>
      if negb (onNavigationContext (config r)) then r
      else
        set_out {| streamStates := streamStates (out r);
                   statuses := statuses (out r);
                   navigationContexts :=
                     navigationContexts (out r) ++ [sanitizeNavigation nav];
                   sent := sent (out r) |} r
  end.

(** ** Link retargeting *)

Definition remapLinkPosition (x y z : num) : num * num * num :=
  (x, z, Num.neg y).

Definition remapLinkQuat (w x y z : num) : num * num * num * num :=
  let s := Fin JsMath.SQRT1_2 in
  let aW := s in
  let aX := Num.neg s in
  let aY := Fin 0 in
  let aZ := Fin 0 in
  let aiW := s in
  let aiX := s in
  let aiY := Fin 0 in
  let aiZ := Fin 0 in
  let tW := (aW * w - aX * x - aY * y - aZ * z)%num in
  let tX := (aW * x + aX * w + aY * z - aZ * y)%num in
  let tY := (aW * y - aX * z + aY * w + aZ * x)%num in
  let tZ := (aW * z + aX * y - aY * x + aZ * w)%num in
  let outW := (tW * aiW - tX * aiX - tY * aiY - tZ * aiZ)%num in
  let outX := (tW * aiX + tX * aiW + tY * aiZ - tZ * aiY)%num in
  let outY := (tW * aiY - tX * aiZ + tY * aiW + tZ * aiX)%num in
  let outZ := (tW * aiZ + tX * aiY - tY * aiX + tZ * aiW)%num in
  (outW, outX, outY, outZ).

Fixpoint lookup {A : Type} (key : string) (l : list (string * A)) : option A :=
  match l with
  | [] => None
  | (k, v) :: rest => if String.eqb k key then Some v else lookup key rest
  end.

Definition member (key : string) (l : list string) : bool :=
  existsb (String.eqb key) l.

(** [mapNodeName]; [None] is [null]. *)
Definition mapNodeName (sourceName : string) (r : G1Robot) : option string :=
  if member sourceName (ignoredNodes (links r)) then None
  else
    match lookup sourceName (nodeMap (links r)) with
    | Some target => if String.eqb target EmptyString then Some sourceName else Some target
    | None => Some sourceName
    end.

(** [getNode]: whether the node resolves, and the robot with its cache. *)
Definition getNode (m : Model) (nodeName : string) (r : G1Robot) : bool * G1Robot :=
  if member nodeName (nodeCache (links r)) then (true, r)
  else if member nodeName (gltfNodes m) then
    (true,
     set_links {| nodeMap := nodeMap (links r);
                  ignoredNodes := ignoredNodes (links r);
                  nodeCache := nodeName :: nodeCache (links r);
                  enableLinkAnimation := enableLinkAnimation (links r);
                  linkScale := linkScale (links r) |} r)
  else (false, r).

Fixpoint setNodeMatrix (name : string) (v : NodeMatrix)
  (l : list (string * NodeMatrix)) : list (string * NodeMatrix) :=
  match l with
  | [] => [(name, v)]
  | (k, old) :: rest =>
      if String.eqb k name then (k, v) :: rest
      else (k, old) :: setNodeMatrix name v rest
  end.

Definition set_primitive (p : option Model) (r : G1Robot) : G1Robot :=
  set_render {| position := position (render r);
                hpRoll := hpRoll (render r);
                smoothedHeadingRad := smoothedHeadingRad (render r);
                primitive := p;
                isReady := isReady (render r);
                sceneRef := sceneRef (render r) |} r.

(** One turn of the loop of [applyLinkAnimation]. *)
Definition applyLink (sourceName : string) (pose : G1LinkPose) (r : G1Robot)
  : G1Robot :=
  match primitive (render r) with
  | None => r
  | Some m =>
      match mapNodeName sourceName r with
      | None => r
      | Some nodeName =>
          if String.eqb nodeName EmptyString then r
          else
            let '(found, r) := getNode m nodeName r in
            if negb found then r
            else
              match link_pos pose, link_quat pose with
              | Some [px; py; pz], Some [q0; q1; q2; q3] =>
                  if negb (forallb Num.isFinite [px; py; pz; q0; q1; q2; q3]) then r
                  else
                    let '(adjX, adjY, adjZ) := remapLinkPosition px py pz in
                    if (Num.abs adjX >? Fin 2.5)%num
                       || (Num.abs adjY >? Fin 2.5)%num
                       || (Num.abs adjZ >? Fin 2.5)%num
                    then r
                    else
                      let '(rw, rx, ry, rz) := remapLinkQuat q0 q1 q2 q3 in
                      let linkScale := linkScale (links r) in
                      let matrix :=
                        {| node_rotation := (rx, ry, rz, rw);
                           node_translation :=
                             ((adjX * linkScale)%num,
                              (adjY * linkScale)%num,
                              (adjZ * linkScale)%num) |} in
                      set_primitive
                        (Some {| modelMatrix := modelMatrix m;
                                 gltfNodes := gltfNodes m;
                                 nodeMatrices :=
                                   setNodeMatrix nodeName matrix (nodeMatrices m) |})
                        r
              | _, _ => r
              end
      end
  end.

Definition applyLinkAnimation (poses : option (list (string * G1LinkPose)))
  (r : G1Robot) : G1Robot :=
  if negb (enableLinkAnimation (links r)) then r
  else
    match poses, primitive (render r) with
    | Some poses, Some _ =>
        if negb (isReady (render r)) then r
        else fold_left (fun r entry => applyLink (fst entry) (snd entry) r) poses r
    | _, _ => r
    end.

(** ** The pose pipeline *)

Definition sanitizeQuat (raw : option (list num)) : num * num * num * num :=
  match raw with
  | Some [q0; q1; q2; q3] =>
      if forallb Num.isFinite [q0; q1; q2; q3]
      then (q0, q1, q2, q3)
      else (Fin 1, Fin 0, Fin 0, Fin 0)
  | _ => (Fin 1, Fin 0, Fin 0, Fin 0)
  end.

Definition set_position (p : Cartesian3) (r : G1Robot) : G1Robot :=
  set_render {| position := p;
                hpRoll := hpRoll (render r);
                smoothedHeadingRad := smoothedHeadingRad (render r);
                primitive := primitive (render r);
                isReady := isReady (render r);
                sceneRef := sceneRef (render r) |} r.

Section Pipeline.

Variable L : Lib.

(** [estimateMotionHeading]: the heading ([None] is [null]) and the robot
    after the call. *)
Definition estimateMotionHeading (lat lon : num) (r : G1Robot)
  : option num * G1Robot :=
  let prevLat := lastGeoLat (motion r) in
  let prevLon := lastGeoLon (motion r) in
  let r :=
    set_motion {| lastPosePosition := lastPosePosition (motion r);
                  lastPoseTimeMs := lastPoseTimeMs (motion r);
                  lastGeoLat := Some lat;
                  lastGeoLon := Some lon;
                  currentLat := currentLat (motion r);
                  currentLon := currentLon (motion r);
                  lastStaticPoseRefreshMs := lastStaticPoseRefreshMs (motion r);
                  velocity := velocity (motion r);
                  speed := speed (motion r) |} r in
  match prevLat, prevLon with
  | Some prevLat, Some prevLon =>
      let toRad := Fin (JsMath.PI / 180) in
      let dLat := ((lat - prevLat) * toRad)%num in
      let dLon := ((lon - prevLon) * toRad)%num in
      let meanLat := (((lat + prevLat) * Fin 0.5) * toRad)%num in
      let east := (dLon * Math_cos L meanLat)%num in
      let north := dLat in
      let movement := Math_hypot L east north in
      if (movement <? Fin (5 # 1000000000))%num then (None, r)
      else (Some (Math_atan2 L east north), r)
  | _, _ => (None, r)
  end.

Definition applyRootTransform (quatWxyz : num * num * num * num)
  (moveHeading : option num) (r : G1Robot) : option G1Robot :=
  let '(qw, qx, qy, qz) := quatWxyz in
  let scratchRobotHPR := HeadingPitchRoll_fromQuaternion L (qx, qy, qz, qw) in
  let rawHeading := heading scratchRobotHPR in
  let heading0 :=
    if Num.isFinite rawHeading then rawHeading else smoothedHeadingRad (render r) in
  heading1 <-
    match moveHeading with
    | Some moveHeading =>
        targetBodyHeading <-
          normalizeSignedAngle
            (moveHeading - modelHeadingOffset (calibration r))%num ;;
        if Num.isFinite heading0
        then Some (lerpAngle heading0 targetBodyHeading (Fin 0.72))
        else Some targetBodyHeading
    | None => Some heading0
    end ;;
  let heading2 := if negb (Num.isFinite heading1) then Fin 0 else heading1 in
  let smoothed :=
    if negb (Num.isFinite (smoothedHeadingRad (render r))) then heading2
    else
      let smoothing :=
        match moveHeading with Some _ => Fin 0.32 | None => Fin 0.08 end in
      lerpAngle (smoothedHeadingRad (render r)) heading2 smoothing in
  let r :=
    set_render {| position := position (render r);
                  hpRoll := {| heading := CesiumMath.zeroToTwoPi smoothed;
                               pitch := pitch scratchRobotHPR;
                               roll := roll scratchRobotHPR |};
                  smoothedHeadingRad := smoothed;
                  primitive := primitive (render r);
                  isReady := isReady (render r);
                  sceneRef := sceneRef (render r) |} r in
  r <- maybeAutoCalibrateHeading moveHeading r ;;
  match primitive (render r) with
  | None => Some r
  | Some m =>
      let scratchModelHPR :=
        {| heading := (heading (hpRoll (render r))
                       + modelHeadingOffset (calibration r))%num;
           pitch := pitch (hpRoll (render r));
           roll := roll (hpRoll (render r)) |} in
      Some (set_primitive
              (Some {| modelMatrix :=
                         eastNorthUp_times_rotation (position (render r))
                           scratchModelHPR;
                       gltfNodes := gltfNodes m;
                       nodeMatrices := nodeMatrices m |}) r)
  end.

(** [updateSpeedEstimate].  The timestamp comes from the payload
    unchecked, so the products, differences and quotients of this function
    can leave the finite range of binary64: [Num.rounded] makes them the
    infinities the platform gives. *)
Definition updateSpeedEstimate (date_now : Q) (simTimeS : option num)
  (r : G1Robot) : G1Robot :=
  let nowMs :=
    if Num.isFinite (Num.ofOption simTimeS)
    then Num.rounded (Num.ofOption simTimeS * Fin 1000)%num
    else Fin date_now in
  match lastPosePosition (motion r), lastPoseTimeMs (motion r) with
  | Some lastPosePosition, Some lastPoseTimeMs =>
      let dt :=
        Num.max (Fin 0.03) (Num.rounded (nowMs - lastPoseTimeMs) / Fin 1000)%num in
      let distance := Cartesian3_distance L (position (render r)) lastPosePosition in
      let speedMps := Num.max (Fin 0) (Num.rounded (distance / dt))%num in
      set_motion {| lastPosePosition := Some (position (render r));
                    lastPoseTimeMs := Some nowMs;
                    lastGeoLat := lastGeoLat (motion r);
                    lastGeoLon := lastGeoLon (motion r);
                    currentLat := currentLat (motion r);
                    currentLon := currentLon (motion r);
                    lastStaticPoseRefreshMs := lastStaticPoseRefreshMs (motion r);
                    velocity := speedMps;
                    speed := Num.rounded (speedMps * Fin 3.6)%num |} r
  | _, _ =>
      set_motion {| lastPosePosition := Some (position (render r));
                    lastPoseTimeMs := Some nowMs;
                    lastGeoLat := lastGeoLat (motion r);
                    lastGeoLon := lastGeoLon (motion r);
                    currentLat := currentLat (motion r);
                    currentLon := currentLon (motion r);
                    lastStaticPoseRefreshMs := lastStaticPoseRefreshMs (motion r);
                    velocity := Fin 0;
                    speed := Fin 0 |} r
  end.

(** Whether [applyPose] returns at its stationary check. *)
Definition stationaryHold (lat lon nowMs : num) (r : G1Robot) : bool :=
  match currentLat (motion r), currentLon (motion r) with
  | Some currentLat, Some currentLon =>
      let dLat := Num.abs (lat - currentLat)%num in
      let dLon := Num.abs (lon - currentLon)%num in
      (dLat <? Fin (1 # 1000000000))%num && (dLon <? Fin (1 # 1000000000))%num
      && (nowMs - lastStaticPoseRefreshMs (motion r) <? Fin 220)%num
  | _, _ => false
  end.

Definition pelvisToGroundOffsetM : num := Fin 0.86.

Definition applyPose (e : TickEnv) (payload : G1PosePayload) (r : G1Robot)
  : option G1Robot :=
  match p_root payload with
  | None => Some r
  | Some root =>
      let r := emitNavigationContext (p_nav payload) r in
      let lat := Num.ofOption (root_lat root) in
      let lon := Num.ofOption (root_lon root) in
      if negb (Num.isFinite lat) || negb (Num.isFinite lon) then Some r
      else
        let nowMs := Fin (applyPose_now e) in
        if stationaryHold lat lon nowMs r then Some r
        else
          let r :=
            set_motion {| lastPosePosition := lastPosePosition (motion r);
                          lastPoseTimeMs := lastPoseTimeMs (motion r);
                          lastGeoLat := lastGeoLat (motion r);
                          lastGeoLon := lastGeoLon (motion r);
                          currentLat := Some lat;
                          currentLon := Some lon;
                          lastStaticPoseRefreshMs := nowMs;
                          velocity := velocity (motion r);
                          speed := speed (motion r) |} r in
          let '(terrainHeight, r) := sampleTerrainHeight e r in
          let altitude := (terrainHeight + pelvisToGroundOffsetM)%num in
          let r := set_position (Cartesian3_fromDegrees lon lat altitude) r in
          let '(moveHeading, r) := estimateMotionHeading lat lon r in
          let quat := sanitizeQuat (root_quat root) in
          r <- applyRootTransform quat moveHeading r ;;
          let r := applyLinkAnimation (p_links payload) r in
          let simTimeCandidate :=
            Num.ofOption
              match p_nav payload with
              | Some nav =>
                  match raw_simTimeS nav with
                  | Some v => Some v
                  | None => p_simTimeS payload
                  end
              | None => p_simTimeS payload
              end in
          Some (updateSpeedEstimate (speed_Date_now e)
                  (if Num.isFinite simTimeCandidate
                   then Some simTimeCandidate
                   else p_t payload) r)
  end.

Definition set_lastProcessedT (v : num) (r : G1Robot) : G1Robot :=
  set_ingest {| latestPayload := latestPayload (ingest r);
                lastProcessedT := v;
                lastPoseApplyMs := lastPoseApplyMs (ingest r) |} r.

Definition set_lastPoseApplyMs (v : num) (r : G1Robot) : G1Robot :=
  set_ingest {| latestPayload := latestPayload (ingest r);
                lastProcessedT := lastProcessedT (ingest r);
                lastPoseApplyMs := v |} r.

Definition bump_perfPoseApplied (r : G1Robot) : G1Robot :=
  set_perf {| perfWindowStartedMs := perfWindowStartedMs (perf r);
              perfPoseApplied := S (perfPoseApplied (perf r));
              perfTerrainQueries := perfTerrainQueries (perf r);
              perfTerrainProbes := perfTerrainProbes (perf r);
              perfFramesCaptured := perfFramesCaptured (perf r);
              perfFrameCaptureMsTotal := perfFrameCaptureMsTotal (perf r);
              perfWsIn := perfWsIn (perf r);
              perfWsOut := perfWsOut (perf r);
              lastMetrics := lastMetrics (perf r) |} r.

(** The tail of [update], once a payload has passed the duplicate check
    and the rate limit. *)
Definition applyFrame (e : TickEnv) (payload : G1PosePayload) (r : G1Robot)
  : option G1Robot :=
  let r := set_lastPoseApplyMs (Fin (update_now e)) r in
  let r := bump_perfPoseApplied r in
  r <- applyPose e payload r ;;
  Some (maybeEmitPerfStatus (perf_now e) r).

(** [update], the per-tick step. *)
Definition update (e : TickEnv) (r : G1Robot) : option G1Robot :=
  match latestPayload (ingest r) with
  | None => Some r
  | Some payload =>
      match p_root payload with
      | None => Some r
      | Some _ =>
          let stamp := Num.ofOption (p_t payload) in
          if Num.isFinite stamp && (stamp === lastProcessedT (ingest r))%num
          then Some r
          else
            let r :=
              if Num.isFinite stamp
              then set_lastProcessedT stamp r
              else set_lastProcessedT (Fin (update_Date_now e)) r in
            let nowMs := Fin (update_now e) in
            if (nowMs - lastPoseApplyMs (ingest r) <? Fin 33)%num then Some r
            else applyFrame e payload r
      end
  end.

End Pipeline.

(** ** Dynamic obstacles *)

(** The object [sendDynamicObstacles] maps each candidate to. *)
Definition cleanObstacle (item : Obstacle) : Obstacle :=
  {| ob_id := ob_id item;
     ob_lat := ob_lat item;
     ob_lon := ob_lon item;
     ob_radiusM := ob_radiusM item;
     ob_kind :=
       if String.eqb (ob_kind item) EmptyString then "vehicle"%string
       else ob_kind item;
     ob_speedMps := ob_speedMps item |}.

(** The predicate [sendDynamicObstacles] filters by. *)
Definition validObstacle (item : Obstacle) : bool :=
  (0 <? String.length (ob_id item))%nat
  && Num.isFinite (ob_lat item)
  && Num.isFinite (ob_lon item)
  && Num.isFinite (ob_radiusM item)
  && (ob_radiusM item >? Fin 0)%num.

Definition set_dynamicObstacleSeq (v : nat) (r : G1Robot) : G1Robot :=
  set_conn {| ws := ws (conn r);
              reconnectTimer := reconnectTimer (conn r);
              destroyed := destroyed (conn r);
              frameCaptureTimer := frameCaptureTimer (conn r);
              terrainProbeTimer := terrainProbeTimer (conn r);
              pendingVisionCapture := pendingVisionCapture (conn r);
              pendingVisionCaptureListener := pendingVisionCaptureListener (conn r);
              pendingVisionCaptureRestore := pendingVisionCaptureRestore (conn r);
              terrainProbeSeq := terrainProbeSeq (conn r);
              dynamicObstacleSeq := v |} r.

(** [sendDynamicObstacles]; [date_now] is what [Date.now()] reads. *)
Definition sendDynamicObstacles (date_now : Q) (obstacles : list Obstacle)
  (r : G1Robot) : G1Robot :=
  if negb (canSendToServer r) then r
  else if (List.length obstacles =? 0)%nat then r
  else
    let cleaned := filter validObstacle (map cleanObstacle obstacles) in
    if (List.length cleaned =? 0)%nat then r
    else
      let r := set_dynamicObstacleSeq (S (dynamicObstacleSeq (conn r))) r in
      sendWsPayload
        (dynamic_obstacles (dynamicObstacleSeq (conn r)) (Fin date_now) cleaned) r.

(** ** Timers, sockets and the perception scheduler *)

Definition set_timers (l : list Timer) (next : nat) (r : G1Robot) : G1Robot :=
  set_browser {| sockets := sockets (browser r);
                 timers := l;
                 nextTimerId := next;
                 postRenderListeners := postRenderListeners (browser r);
                 camera := camera (browser r);
                 localStorage := localStorage (browser r) |} r.

(** [window.setTimeout] and [window.setInterval]: the id and the robot
    in the browser that holds the timer. *)
Definition setTimer (repeat : bool) (cb : TimerCallback) (delayMs : Q)
  (r : G1Robot) : nat * G1Robot :=
  let id := nextTimerId (browser r) in
  (id,
   set_timers
     (timers (browser r)
      ++ [{| timer_id := id; timer_repeat := repeat;
             timer_delayMs := delayMs; timer_callback := cb |}])
     (S id) r).

(** [window.clearTimeout] and [window.clearInterval]. *)
Definition clearTimer (id : nat) (r : G1Robot) : G1Robot :=
  set_timers
    (filter (fun t => negb (Nat.eqb (timer_id t) id)) (timers (browser r)))
    (nextTimerId (browser r)) r.

Definition set_sockets (l : list ReadyState) (r : G1Robot) : G1Robot :=
  set_browser {| sockets := l;
                 timers := timers (browser r);
                 nextTimerId := nextTimerId (browser r);
                 postRenderListeners := postRenderListeners (browser r);
                 camera := camera (browser r);
                 localStorage := localStorage (browser r) |} r.

Fixpoint setReadyState (sock : nat) (s : ReadyState) (l : list ReadyState)
  : list ReadyState :=
  match l, sock with
  | [], _ => []
  | _ :: rest, O => s :: rest
  | x :: rest, S n => x :: setReadyState n s rest
  end.

(** [WebSocket.close()]: a socket that is connecting or open starts to
    close. *)
Definition socket_close (sock : nat) (r : G1Robot) : G1Robot :=
  match readyState r sock with
  | Some CONNECTING | Some OPEN =>
      set_sockets (setReadyState sock CLOSING (sockets (browser r))) r
  | _ => r
  end.

Definition cancelPendingVisionCapture (r : G1Robot) : G1Robot :=
  let listeners :=
    match pendingVisionCaptureListener (conn r) with
    | Some l => filter (fun x => negb (Nat.eqb x l)) (postRenderListeners (browser r))
    | None => postRenderListeners (browser r)
    end in
  let view :=
    match pendingVisionCaptureRestore (conn r) with
    | Some saved => if sceneRef (render r) then saved else camera (browser r)
    | None => camera (browser r)
    end in
  let r :=
    set_browser {| sockets := sockets (browser r);
                   timers := timers (browser r);
                   nextTimerId := nextTimerId (browser r);
                   postRenderListeners := listeners;
                   camera := view;
                   localStorage := localStorage (browser r) |} r in
  set_conn {| ws := ws (conn r);
              reconnectTimer := reconnectTimer (conn r);
              destroyed := destroyed (conn r);
              frameCaptureTimer := frameCaptureTimer (conn r);
              terrainProbeTimer := terrainProbeTimer (conn r);
              pendingVisionCapture := false;
              pendingVisionCaptureListener := None;
              pendingVisionCaptureRestore := None;
              terrainProbeSeq := terrainProbeSeq (conn r);
              dynamicObstacleSeq := dynamicObstacleSeq (conn r) |} r.

Definition set_perceptionTimers (frame probe : option nat) (r : G1Robot)
  : G1Robot :=
  set_conn {| ws := ws (conn r);
              reconnectTimer := reconnectTimer (conn r);
              destroyed := destroyed (conn r);
              frameCaptureTimer := frame;
              terrainProbeTimer := probe;
              pendingVisionCapture := pendingVisionCapture (conn r);
              pendingVisionCaptureListener := pendingVisionCaptureListener (conn r);
              pendingVisionCaptureRestore := pendingVisionCaptureRestore (conn r);
              terrainProbeSeq := terrainProbeSeq (conn r);
              dynamicObstacleSeq := dynamicObstacleSeq (conn r) |} r.

Definition stopPerceptionStreaming (r : G1Robot) : G1Robot :=
  let r := cancelPendingVisionCapture r in
  let r :=
    match frameCaptureTimer (conn r) with
    | Some id =>
        set_perceptionTimers None (terrainProbeTimer (conn r)) (clearTimer id r)
    | None => r
    end in
  match terrainProbeTimer (conn r) with
  | Some id =>
      set_perceptionTimers (frameCaptureTimer (conn r)) None (clearTimer id r)
  | None => r
  end.

Definition buildRobotTelemetry (r : G1Robot) : option G1RobotTelemetry :=
  match currentLat (motion r), currentLon (motion r) with
  | Some lat, Some lon =>
      Some {| tel_lat := lat; tel_lon := lon;
              tel_heading := heading (hpRoll (render r));
              tel_speed := velocity (motion r) |}
  | _, _ => None
  end.

(** What a terrain probe reads from the platform: the scene's answers at
    the point of each bearing and distance ([globe.getHeight], then the
    height of [clampToHeight], which may throw), and the clocks. *)
Record ProbeEnv : Type := {
  probe_getHeight : Q -> Q -> option num;
  probe_clampToHeight : Q -> Q -> Query (option num);
  probe_Date_now : Q;
  probe_perf_now : Q
}.

(** A call returns, or throws out of its handler. *)
Inductive Completion : Type :=
| completes (r : G1Robot)
| aborts (r : G1Robot).

(** The robot when the call ends, either way. *)
Definition settled (c : Completion) : G1Robot :=
  match c with
  | completes r => r
  | aborts r => r
  end.

(** [sampleProbeHeights] at the point of a bearing and a distance:
    [(heightM, groundHeightM, surfaceDeltaM)], or [None] for [null]. *)
Definition sampleProbeHeights (e : ProbeEnv) (bearingDeg distanceM : Q)
  (r : G1Robot) : Query (option (num * num * num)) * G1Robot :=
  if negb (sceneRef (render r)) then (returns None, r)
  else
    let r := bump_perfTerrainQueries r in
    let groundRaw := Num.ofOption (probe_getHeight e bearingDeg distanceM) in
    let groundHeightM := if Num.isFinite groundRaw then groundRaw else NaN in
    let r := bump_perfTerrainQueries r in
    match probe_clampToHeight e bearingDeg distanceM with
    | throws => (throws, r)
    | returns clamped =>
        let surfaceHeightM := Num.ofOption clamped in
        let hasGround := Num.isFinite groundHeightM in
        let hasSurface := Num.isFinite surfaceHeightM in
        if negb hasGround && negb hasSurface then (returns None, r)
        else if hasGround && hasSurface then
          (returns (Some (groundHeightM, groundHeightM,
                          (surfaceHeightM - groundHeightM)%num)), r)
        else
          let height := if hasGround then groundHeightM else surfaceHeightM in
          (returns (Some (height, height, Fin 0)), r)
    end.

Definition probeBearingsDeg : list Q := [-60; -40; -20; -10; 0; 10; 20; 40; 60].
Definition probeDistancesM : list Q := [1.5; 3; 5; 7].

(** The two nested loops of [sendTerrainProbe] over the fan. *)
Fixpoint probeFan (e : ProbeEnv) (baseHeight : num) (fan : list (Q * Q))
  (samples : list ProbeSample) (r : G1Robot)
  : Query (list ProbeSample) * G1Robot :=
  match fan with
  | [] => (returns samples, r)
  | (bearingDeg, distanceM) :: rest =>
      match sampleProbeHeights e bearingDeg distanceM r with
      | (throws, r) => (throws, r)
      | (returns None, r) => probeFan e baseHeight rest samples r
      | (returns (Some (heightM, groundHeightM, surfaceDeltaM)), r) =>
          probeFan e baseHeight rest
            (samples ++ [{| ps_bearingDeg := bearingDeg;
                            ps_distanceM := distanceM;
                            ps_heightM := heightM;
                            ps_groundHeightM := groundHeightM;
                            ps_surfaceDeltaM := surfaceDeltaM;
                            ps_deltaM := (heightM - baseHeight)%num |}]) r
      end
  end.

Definition bump_terrainProbe (r : G1Robot) : G1Robot :=
  let r :=
    set_conn {| ws := ws (conn r);
                reconnectTimer := reconnectTimer (conn r);
                destroyed := destroyed (conn r);
                frameCaptureTimer := frameCaptureTimer (conn r);
                terrainProbeTimer := terrainProbeTimer (conn r);
                pendingVisionCapture := pendingVisionCapture (conn r);
                pendingVisionCaptureListener := pendingVisionCaptureListener (conn r);
                pendingVisionCaptureRestore := pendingVisionCaptureRestore (conn r);
                terrainProbeSeq := S (terrainProbeSeq (conn r));
                dynamicObstacleSeq := dynamicObstacleSeq (conn r) |} r in
  set_perf {| perfWindowStartedMs := perfWindowStartedMs (perf r);
              perfPoseApplied := perfPoseApplied (perf r);
              perfTerrainQueries := perfTerrainQueries (perf r);
              perfTerrainProbes := S (perfTerrainProbes (perf r));
              perfFramesCaptured := perfFramesCaptured (perf r);
              perfFrameCaptureMsTotal := perfFrameCaptureMsTotal (perf r);
              perfWsIn := perfWsIn (perf r);
              perfWsOut := perfWsOut (perf r);
              lastMetrics := lastMetrics (perf r) |} r.

Definition sendTerrainProbe (e : ProbeEnv) (r : G1Robot) : Completion :=
  if negb (canSendToServer r) || negb (sceneRef (render r)) then completes r
  else
    match buildRobotTelemetry r with
    | None => completes r
    | Some robot =>
        let baseHeight := cachedHeightOrZero r in
        match probeFan e baseHeight (list_prod probeBearingsDeg probeDistancesM) [] r with
        | (throws, r) => aborts r
        | (returns samples, r) =>
            if (List.length samples =? 0)%nat then completes r
            else
              let r := bump_terrainProbe r in
              let r :=
                sendWsPayload
                  (terrain_probe (terrainProbeSeq (conn r))
                     (Fin (probe_Date_now e)) baseHeight samples robot) r in
              completes (maybeEmitPerfStatus (probe_perf_now e) r)
        end
    end.

Definition frameCaptureIntervalMs : Q := 2300.
Definition terrainProbeIntervalMs : Q := 1500.

Definition startPerceptionStreaming (e : ProbeEnv) (r : G1Robot) : Completion :=
  let r := stopPerceptionStreaming r in
  let '(frame, r) := setTimer true cb_sendCameraFrame frameCaptureIntervalMs r in
  let r := set_perceptionTimers (Some frame) (terrainProbeTimer (conn r)) r in
  let '(probe, r) := setTimer true cb_sendTerrainProbe terrainProbeIntervalMs r in
  let r := set_perceptionTimers (frameCaptureTimer (conn r)) (Some probe) r in
  sendTerrainProbe e r.

(** ** The stream connection *)

Definition set_ws (v : option nat) (r : G1Robot) : G1Robot :=
  set_conn {| ws := v;
              reconnectTimer := reconnectTimer (conn r);
              destroyed := destroyed (conn r);
              frameCaptureTimer := frameCaptureTimer (conn r);
              terrainProbeTimer := terrainProbeTimer (conn r);
              pendingVisionCapture := pendingVisionCapture (conn r);
              pendingVisionCaptureListener := pendingVisionCaptureListener (conn r);
              pendingVisionCaptureRestore := pendingVisionCaptureRestore (conn r);
              terrainProbeSeq := terrainProbeSeq (conn r);
              dynamicObstacleSeq := dynamicObstacleSeq (conn r) |} r.

Definition set_reconnectTimer (v : option nat) (r : G1Robot) : G1Robot :=
  set_conn {| ws := ws (conn r);
              reconnectTimer := v;
              destroyed := destroyed (conn r);
              frameCaptureTimer := frameCaptureTimer (conn r);
              terrainProbeTimer := terrainProbeTimer (conn r);
              pendingVisionCapture := pendingVisionCapture (conn r);
              pendingVisionCaptureListener := pendingVisionCaptureListener (conn r);
              pendingVisionCaptureRestore := pendingVisionCaptureRestore (conn r);
              terrainProbeSeq := terrainProbeSeq (conn r);
              dynamicObstacleSeq := dynamicObstacleSeq (conn r) |} r.

Definition set_destroyed (v : bool) (r : G1Robot) : G1Robot :=
  set_conn {| ws := ws (conn r);
              reconnectTimer := reconnectTimer (conn r);
              destroyed := v;
              frameCaptureTimer := frameCaptureTimer (conn r);
              terrainProbeTimer := terrainProbeTimer (conn r);
              pendingVisionCapture := pendingVisionCapture (conn r);
              pendingVisionCaptureListener := pendingVisionCaptureListener (conn r);
              pendingVisionCaptureRestore := pendingVisionCaptureRestore (conn r);
              terrainProbeSeq := terrainProbeSeq (conn r);
              dynamicObstacleSeq := dynamicObstacleSeq (conn r) |} r.

(** [if (this.ws) { try { this.ws.close() } catch {} this.ws = null }]. *)
Definition closeSocket (r : G1Robot) : G1Robot :=
  match ws (conn r) with
  | Some sock => set_ws None (socket_close sock r)
  | None => r
  end.

(** [connectStream]; [new WebSocket(streamUrl)] adds a connecting socket
    to the browser. *)
Definition connectStream (r : G1Robot) : G1Robot :=
  if destroyed (conn r) then r
  else
    let r := stopPerceptionStreaming r in
    let r := closeSocket r in
    let r := emitStreamState connecting r in
    let sock := List.length (sockets (browser r)) in
    let r := set_sockets (sockets (browser r) ++ [CONNECTING]) r in
    set_ws (Some sock) r.

Record OpenEnv : Type := {
  (** [Date.now()] in the [onopen] handler. *)
  open_Date_now : Q;
  open_probe : ProbeEnv
}.

Definition ws_onopen (e : OpenEnv) (r : G1Robot) : G1Robot :=
  let r := emitStreamState live r in
  let r := emitStatus (status_text "Pose stream connected.") r in
  match startPerceptionStreaming (open_probe e) r with
  | aborts r => r
  | completes r =>
      sendWsPayload (session_start (Fin (open_Date_now e) / Fin 1000)%num) r
  end.

Definition bump_perfWsIn (r : G1Robot) : G1Robot :=
  set_perf {| perfWindowStartedMs := perfWindowStartedMs (perf r);
              perfPoseApplied := perfPoseApplied (perf r);
              perfTerrainQueries := perfTerrainQueries (perf r);
              perfTerrainProbes := perfTerrainProbes (perf r);
              perfFramesCaptured := perfFramesCaptured (perf r);
              perfFrameCaptureMsTotal := perfFrameCaptureMsTotal (perf r);
              perfWsIn := S (perfWsIn (perf r));
              perfWsOut := perfWsOut (perf r);
              lastMetrics := lastMetrics (perf r) |} r.

Definition set_latestPayload (p : option G1PosePayload) (r : G1Robot) : G1Robot :=
  set_ingest {| latestPayload := p;
                lastProcessedT := lastProcessedT (ingest r);
                lastPoseApplyMs := lastPoseApplyMs (ingest r) |} r.

Definition isStatusMessage (payload : G1PosePayload) : option string :=
  match p_type payload, p_message payload with
  | Some type, Some message =>
      if String.eqb type "status" then Some message else None
  | _, _ => None
  end.

Definition truthy (s : option string) : bool :=
  match s with
  | Some s => negb (String.eqb s EmptyString)
  | None => false
  end.

(** The [onmessage] handler; [data] is [None] when [JSON.parse] throws. *)
Definition ws_onmessage (data : option G1PosePayload) (r : G1Robot) : G1Robot :=
  let r := bump_perfWsIn r in
  match data with
  | None => r
  | Some payload =>
      match isStatusMessage payload with
      | Some message => emitStatus (status_text message) r
      | None =>
          if truthy (p_error payload) then
            match p_error payload with
            | Some error => emitStatus (status_text error) r
            | None => r
            end
          else
            match p_root payload with
            | Some _ => set_latestPayload (Some payload) r
            | None => r
            end
      end
  end.

Definition ws_onerror (r : G1Robot) : G1Robot :=
  let r := emitStreamState offline r in
  stopPerceptionStreaming r.

Definition reconnectDelayMs : Q := 1500.

Definition ws_onclose (r : G1Robot) : G1Robot :=
  let r := emitStreamState offline r in
  let r := stopPerceptionStreaming r in
  if destroyed (conn r) then r
  else
    let r :=
      match reconnectTimer (conn r) with
      | Some id => clearTimer id r
      | None => r
      end in
    let '(id, r) := setTimer false cb_connectStream reconnectDelayMs r in
    set_reconnectTimer (Some id) r.

(** [Vehicle.destroy]. *)
Definition Vehicle_destroy (r : G1Robot) : G1Robot :=
  match primitive (render r) with
  | Some _ =>
      set_render {| position := position (render r);
                    hpRoll := hpRoll (render r);
                    smoothedHeadingRad := smoothedHeadingRad (render r);
                    primitive := None;
                    isReady := false;
                    sceneRef := sceneRef (render r) |} r
  | None => r
  end.

Definition destroy (r : G1Robot) : G1Robot :=
  let r := set_destroyed true r in
  let r := cancelPendingVisionCapture r in
  let r := stopPerceptionStreaming r in
  let r :=
    match reconnectTimer (conn r) with
    | Some id => set_reconnectTimer None (clearTimer id r)
    | None => r
    end in
  let r := closeSocket r in
  let r := emitStreamState offline r in
  Vehicle_destroy r.

(** ** Construction and initialisation *)

(** [x || 0] on an optional number. *)
Definition orZero (o : option num) : num :=
  match o with
  | Some (Fin q) => if Qeq_bool q 0 then Fin 0 else Fin q
  | Some PInf => PInf
  | Some NInf => NInf
  | Some NaN | None => Fin 0
  end.

Definition noMetrics : G1RuntimeMetrics :=
  {| poseApplyHz := Fin 0; terrainQueryHz := Fin 0; terrainProbeHz := Fin 0;
     wsInHz := Fin 0; wsOutHz := Fin 0; avgCaptureMs := Fin 0 |}.

(** The fields of a [new G1Robot(id, config)] in a browser [b], before the
    body of the constructor runs; [now] is what [performance.now()] reads
    in the field initialisers. *)
Definition fields (cfg : Config) (now : Q) (b : Browser) : G1Robot :=
    {| config := cfg;
       ingest := {| latestPayload := None; lastProcessedT := NaN;
                    lastPoseApplyMs := Fin 0 |};
       terrain := {| terrainHeightM := Fin 0; terrainHeightValid := false;
                     lastTerrainSampleMs := Fin 0 |};
       calibration := {| modelHeadingOffset := orZero (cfg_modelHeadingOffset cfg);
                         headingCalibrationSamples := 0;
                         headingFastLockComplete := false;
                         headingAlignedStreak := 0 |};
       render := {| position := cfg_position cfg;
                    hpRoll := {| heading := orZero (cfg_heading cfg);
                                 pitch := orZero (cfg_pitch cfg);
                                 roll := orZero (cfg_roll cfg) |};
                    smoothedHeadingRad := NaN;
                    primitive := None;
                    isReady := false;
                    sceneRef := false |};
       motion := {| lastPosePosition := None; lastPoseTimeMs := None;
                    lastGeoLat := None; lastGeoLon := None;
                    currentLat := None; currentLon := None;
                    lastStaticPoseRefreshMs := Fin 0;
                    velocity := Fin 0; speed := Fin 0 |};
       perf := {| perfWindowStartedMs := Fin now;
                  perfPoseApplied := 0; perfTerrainQueries := 0;
                  perfTerrainProbes := 0; perfFramesCaptured := 0;
                  perfFrameCaptureMsTotal := Fin 0;
                  perfWsIn := 0; perfWsOut := 0;
                  lastMetrics := noMetrics |};
       links := {| nodeMap := []; ignoredNodes := []; nodeCache := [];
                   enableLinkAnimation := false;
                   linkScale := match cfg_linkScale cfg with
                                | Some v => v
                                | None => Fin 1
                                end |};
       conn := {| ws := None; reconnectTimer := None; destroyed := false;
                  frameCaptureTimer := None; terrainProbeTimer := None;
                  pendingVisionCapture := false;
                  pendingVisionCaptureListener := None;
                  pendingVisionCaptureRestore := None;
                  terrainProbeSeq := 0; dynamicObstacleSeq := 0 |};
       browser := b;
       out := {| streamStates := []; statuses := [];
                 navigationContexts := []; sent := [] |} |}.

(** [new G1Robot(id, config)]. *)
Definition construct (cfg : Config) (now : Q) (b : Browser) : option G1Robot :=
  loadHeadingOffsetFromStorage (fields cfg now b).

(** What [loadNodeMap] finds: the fetch or the parse throws, the response
    is not ok, or a file with its map, its ignore list and whether
    [enable] is [false]. *)
Inductive NodeMapFetch : Type :=
| fetch_throws
| fetch_not_ok
| fetch_file (map : list (string * string)) (ignore : list string)
    (enable_is_false : bool).

Definition loadNodeMap (f : NodeMapFetch) (r : G1Robot) : G1Robot :=
  match f with
  | fetch_not_ok => r
  | fetch_throws =>
      set_links {| nodeMap := []; ignoredNodes := [];
                   nodeCache := nodeCache (links r);
                   enableLinkAnimation := true;
                   linkScale := linkScale (links r) |} r
  | fetch_file map ignore enable_is_false =>
      set_links {| nodeMap := map; ignoredNodes := ignore;
                   nodeCache := nodeCache (links r);
                   enableLinkAnimation := negb enable_is_false;
                   linkScale := linkScale (links r) |} r
  end.

(** [Vehicle.initialize]; [gltf] is the node list of the model, or [None]
    when loading it fails. *)
Definition Vehicle_initialize (gltf : option (list string)) (r : G1Robot)
  : G1Robot :=
  let hpr :=
    {| heading := (heading (hpRoll (render r))
                   + modelHeadingOffset (calibration r))%num;
       pitch := pitch (hpRoll (render r));
       roll := roll (hpRoll (render r)) |} in
  set_render
    {| position := position (render r);
       hpRoll := hpRoll (render r);
       smoothedHeadingRad := smoothedHeadingRad (render r);
       primitive :=
         match gltf with
         | Some nodes =>
             Some {| modelMatrix :=
                       headingPitchRollToFixedFrame (position (render r)) hpr;
                     gltfNodes := nodes;
                     nodeMatrices := [] |}
         | None => primitive (render r)
         end;
       isReady := isReady (render r);
       sceneRef := true |} r.

Definition initialize (gltf : option (list string)) (f : NodeMapFetch)
  (r : G1Robot) : G1Robot :=
  connectStream (loadNodeMap f (Vehicle_initialize gltf r)).

(** The listener of the model's [readyEvent]. *)
Definition modelReady (r : G1Robot) : G1Robot :=
  emitStatus (status_text "G1 model ready.")
    (set_render {| position := position (render r);
                   hpRoll := hpRoll (render r);
                   smoothedHeadingRad := smoothedHeadingRad (render r);
                   primitive := primitive (render r);
                   isReady := true;
                   sceneRef := sceneRef (render r) |} r).

(** ** The robot as a machine driven by its callers and by the browser *)

Inductive Event : Type :=
| ev_initialize (gltf : option (list string)) (f : NodeMapFetch)
| ev_modelReady
| ev_update (e : TickEnv)
| ev_setModelHeadingOffsetRad (offsetRad : num)
| ev_sendDynamicObstacles (date_now : Q) (obstacles : list Obstacle)
| ev_open (sock : nat) (e : OpenEnv)
| ev_message (sock : nat) (data : option G1PosePayload)
| ev_error (sock : nat)
| ev_close (sock : nat)
| ev_timeout (id : nat)
| ev_probeInterval (id : nat) (e : ProbeEnv)
| ev_destroy.

Definition pendingTimer (id : nat) (r : G1Robot) : option Timer :=
  find (fun t => Nat.eqb (timer_id t) id) (timers (browser r)).

Section Machine.

Variable L : Lib.

(** One event.  A socket event first moves the socket's ready state, as
    the browser does before it calls the handler; a timer event runs the
    callback of a timer that is pending, and nothing otherwise.  The
    camera-frame interval is not part of the machine. *)
Definition step (ev : Event) (r : G1Robot) : option G1Robot :=
  match ev with
  | ev_initialize gltf f => Some (initialize gltf f r)
  | ev_modelReady => Some (modelReady r)
  | ev_update e => update L e r
  | ev_setModelHeadingOffsetRad offsetRad =>
      res <- setModelHeadingOffsetRad offsetRad r ;;
      Some (fst res)
  | ev_sendDynamicObstacles date_now obstacles =>
      Some (sendDynamicObstacles date_now obstacles r)
  | ev_open sock e =>
      Some (ws_onopen e (set_sockets (setReadyState sock OPEN (sockets (browser r))) r))
  | ev_message sock data => Some (ws_onmessage data r)
  | ev_error sock => Some (ws_onerror r)
  | ev_close sock =>
      Some (ws_onclose (set_sockets (setReadyState sock CLOSED (sockets (browser r))) r))
  | ev_timeout id =>
      match pendingTimer id r with
      | Some t =>
          match timer_repeat t, timer_callback t with
          | false, cb_connectStream => Some (connectStream (clearTimer id r))
          | _, _ => Some r
          end
      | None => Some r
      end
  | ev_probeInterval id e =>
      match pendingTimer id r with
      | Some t =>
          match timer_repeat t, timer_callback t with
          | true, cb_sendTerrainProbe => Some (settled (sendTerrainProbe e r))
          | _, _ => Some r
          end
      | None => Some r
      end
  | ev_destroy => Some (destroy r)
  end.

Fixpoint run (evs : list Event) (r : G1Robot) : option G1Robot :=
  match evs with
  | [] => Some r
  | ev :: rest => r <- step ev r ;; run rest r
  end.

End Machine.

(** ** A test double of the platform, and a robot to run examples on *)

(** A platform on flat ground that never turns: enough to run the
    pipeline on concrete inputs. *)
Definition flatLib : Lib :=
  {| Math_cos := fun _ => Fin 1;
     Math_hypot := fun a b => (Num.abs a + Num.abs b)%num;
     Math_atan2 := fun _ _ => Fin 0;
     HeadingPitchRoll_fromQuaternion :=
       fun _ => {| heading := Fin 0; pitch := Fin 0; roll := Fin 0 |};
     Cartesian3_distance := fun _ _ => Fin 0 |}.

Definition exampleConfig : Config :=
  {| cfg_position := Cartesian3_xyz (Fin 0) (Fin 0) (Fin 0);
     cfg_heading := None;
     cfg_pitch := None;
     cfg_roll := None;
     cfg_modelHeadingOffset := None;
     cfg_linkScale := None;
     onStreamStateChange := true;
     onStatus := true;
     onNavigationContext := true |}.

Definition exampleBrowser : Browser :=
  {| sockets := [];
     timers := [];
     nextTimerId := 1;
     postRenderListeners := [];
     camera := 0;
     localStorage := storage_item None |}.

(** The robot right after [new G1Robot] at time 0, nothing stored. *)
Definition exampleRobot : G1Robot :=
  Eval vm_compute in fields exampleConfig 0 exampleBrowser.

(** A pose message with the timestamp [t], and nothing but a root pose. *)
Definition examplePayload (t : option num) (root : G1RootPose) : G1PosePayload :=
  {| p_type := None; p_message := None; p_t := t; p_simTimeS := None;
     p_wallTimeS := None; p_root := Some root; p_links := None;
     p_nav := None; p_error := None |}.

Definition exampleRoot : G1RootPose :=
  {| root_lat := Some (Fin 10); root_lon := Some (Fin 20);
     root_height := Some (Fin 0);
     root_quat := Some [Fin 1; Fin 0; Fin 0; Fin 0] |}.

(** A tick at [now] milliseconds, over terrain at 5 metres. *)
Definition exampleTick (now : Q) : TickEnv :=
  {| update_now := now;
     update_Date_now := 1700000000000 + now;
     applyPose_now := now;
     terrain_now := now;
     globe_getHeight := returns (Some (Fin 5));
     scene_clampToHeight := returns None;
     speed_Date_now := 1700000000000 + now;
     perf_now := now |}.

(** ** Predicates the properties are stated with *)

(** A quaternion array that [sanitizeQuat] does not take: missing, of a
    length other than four, or with an entry that is not finite. *)
Definition badQuat (raw : option (list num)) : bool :=
  match raw with
  | Some [q0; q1; q2; q3] => negb (forallb Num.isFinite [q0; q1; q2; q3])
  | _ => true
  end.

(** The payload with the quaternion of its root pose replaced. *)
Definition withQuat (raw : option (list num)) (payload : G1PosePayload)
  : G1PosePayload :=
  {| p_type := p_type payload; p_message := p_message payload;
     p_t := p_t payload; p_simTimeS := p_simTimeS payload;
     p_wallTimeS := p_wallTimeS payload;
     p_root :=
       match p_root payload with
       | Some root =>
           Some {| root_lat := root_lat root; root_lon := root_lon root;
                   root_height := root_height root; root_quat := raw |}
       | None => None
       end;
     p_links := p_links payload; p_nav := p_nav payload;
     p_error := p_error payload |}.

Definition identityQuat : list num := [Fin 1; Fin 0; Fin 0; Fin 0].

(** The error [maybeAutoCalibrateHeading] computes for a motion heading. *)
Definition calibrationError (moveHeading : num) (r : G1Robot) : option num :=
  normalizeSignedAngle
    (moveHeading
     - (heading (hpRoll (render r)) + modelHeadingOffset (calibration r)))%num.

(** A sample that passes the guards of [maybeAutoCalibrateHeading]: the
    speed is at least the threshold, the budget is not exhausted, and the
    error is finite and at most 70 degrees. *)
Definition acceptedSample (moveHeading : num) (r : G1Robot) (error : num) : Prop :=
  (velocity (motion r) <? Fin 0.12)%num = false
  /\ (headingCalibrationSamples (calibration r) < 360)%nat
  /\ calibrationError moveHeading r = Some error
  /\ Num.isFinite error = true
  /\ (Num.abs error >? CesiumMath.toRadians (Fin 70))%num = false.

(** While fast lock is not complete, neither exit threshold has been
    reached. *)
Definition fastLockPending (c : HeadingCalibrationState) : Prop :=
  headingFastLockComplete c = false ->
  (headingAlignedStreak c < 20)%nat /\ (headingCalibrationSamples c < 90)%nat.

(** What [persistHeadingOffset] leaves in the storage. *)
Definition persisted (offset : num) (s : Storage) : Storage :=
  match s with
  | storage_throws => storage_throws
  | storage_item _ => storage_item (Some offset)
  end.

(** What [onStatus?.(m)] leaves in the status log. *)
Definition announced (m : StatusMessage) (r : G1Robot) : list StatusMessage :=
  if onStatus (config r) then statuses (out r) ++ [m] else statuses (out r).

Definition isManualOverride (ev : Event) : bool :=
  match ev with
  | ev_setModelHeadingOffsetRad _ => true
  | _ => false
  end.

(** The calibration changes from [r] to [r'] through
    [maybeAutoCalibrateHeading] or not at all. *)
Definition calibrates (r r' : G1Robot) : Prop :=
  calibration r' = calibration r
  \/ exists moveHeading r0 r1,
       calibration r0 = calibration r
       /\ maybeAutoCalibrateHeading moveHeading r0 = Some r1
       /\ calibration r' = calibration r1.

(** ** More robots to run examples on *)

Definition rootWithBadQuat : G1RootPose :=
  {| root_lat := Some (Fin 10); root_lon := Some (Fin 20);
     root_height := None;
     root_quat := Some [NaN; Fin 0; Fin 0; Fin 0] |}.

Definition rootWithoutLat : G1RootPose :=
  {| root_lat := None; root_lon := Some (Fin 20);
     root_height := Some (Fin 0);
     root_quat := Some identityQuat |}.

(** The robot of the examples once a pose message stamped [t] has
    arrived. *)
Definition robotWithPose (t : option num) : G1Robot :=
  ws_onmessage (Some (examplePayload t exampleRoot)) exampleRobot.

(** The robot of the examples, with a frame already applied at 100 ms and
    a new payload stamped 2 arriving right after. *)
Definition robotAfterFrame : G1Robot :=
  match update flatLib (exampleTick 100) (robotWithPose (Some (Fin 1))) with
  | Some r => ws_onmessage (Some (examplePayload (Some (Fin 2)) exampleRoot)) r
  | None => exampleRobot
  end.

(** The robot of the examples walking at 1 m/s, one aligned sample short
    of the end of fast lock. *)
Definition lockingRobot : G1Robot :=
  set_motion
    {| lastPosePosition := None; lastPoseTimeMs := None;
       lastGeoLat := None; lastGeoLon := None;
       currentLat := None; currentLon := None;
       lastStaticPoseRefreshMs := Fin 0;
       velocity := Fin 1; speed := Fin 3.6 |}
    (set_calibration
       {| modelHeadingOffset := Fin 0;
          headingCalibrationSamples := 50;
          headingFastLockComplete := false;
          headingAlignedStreak := 19 |} exampleRobot).

(** The robot of the examples standing in a scene, with a valid cached
    terrain height of 5 metres sampled at time 0. *)
Definition groundedRobot : G1Robot :=
  set_terrain
    {| terrainHeightM := Fin 5; terrainHeightValid := true;
       lastTerrainSampleMs := Fin 0 |}
    (Vehicle_initialize None exampleRobot).

(** A tick at [now] over a globe at height [h], with no surface hit. *)
Definition tickOver (now : Q) (h : num) : TickEnv :=
  {| update_now := now;
     update_Date_now := 1700000000000 + now;
     applyPose_now := now;
     terrain_now := now;
     globe_getHeight := returns (Some h);
     scene_clampToHeight := returns None;
     speed_Date_now := 1700000000000 + now;
     perf_now := now |}.

(** A candidate obstacle near the robot, and the same with a negative
    radius. *)
Definition exampleObstacle : Obstacle :=
  {| ob_id := "car-1"; ob_lat := Fin 10; ob_lon := Fin 20;
     ob_radiusM := Fin 1.5; ob_kind := "vehicle"; ob_speedMps := Fin 3 |}.

Definition negativeRadiusObstacle : Obstacle :=
  {| ob_id := "car-2"; ob_lat := Fin 10; ob_lon := Fin 20;
     ob_radiusM := Fin (-1); ob_kind := "vehicle"; ob_speedMps := Fin 3 |}.

(** The robot of the examples with its stream open on socket 0. *)
Definition liveRobot : G1Robot :=
  set_sockets [OPEN] (connectStream exampleRobot).

(** ** Views of the robot *)

(** The configuration, the connection and the browser's sockets, timers,
    listeners and camera. *)
Definition wiring (r : G1Robot) :=
  (config r, conn r, sockets (browser r), timers (browser r),
   nextTimerId (browser r), postRenderListeners (browser r), camera (browser r)).

(** ** The reconnect schedule *)

(** A pending timer is the one its owner field names: a reconnect timeout
    is [reconnectTimer] and runs once after the reconnect delay; a
    perception interval is [frameCaptureTimer] or [terrainProbeTimer]. *)
Definition timerOwned (r : G1Robot) (t : Timer) : Prop :=
  match timer_callback t with
  | cb_connectStream =>
      reconnectTimer (conn r) = Some (timer_id t)
      /\ timer_repeat t = false
      /\ timer_delayMs t = reconnectDelayMs
  | cb_sendCameraFrame => frameCaptureTimer (conn r) = Some (timer_id t)
  | cb_sendTerrainProbe => terrainProbeTimer (conn r) = Some (timer_id t)
  end.

Definition owned (r : G1Robot) : Prop :=
  Forall (timerOwned r) (timers (browser r)).

Definition noReconnectPending (r : G1Robot) : Prop :=
  Forall (fun t => timer_callback t <> cb_connectStream) (timers (browser r)).

(** The robot is destroyed, the browser holds [n] sockets, and no
    reconnect is pending. *)
Definition tornDown (n : nat) (r : G1Robot) : Prop :=
  destroyed (conn r) = true
  /\ List.length (sockets (browser r)) = n
  /\ noReconnectPending r.

Definition reconnectTimeout (id : nat) : Timer :=
  {| timer_id := id; timer_repeat := false;
     timer_delayMs := reconnectDelayMs; timer_callback := cb_connectStream |}.

(** [if (this.reconnectTimer !== null) window.clearTimeout(...)]. *)
Definition clearReconnect (r : G1Robot) : G1Robot :=
  match reconnectTimer (conn r) with
  | Some id => clearTimer id r
  | None => r
  end.

(** The part of the robot that the scheduling of timers and sockets
    reads. *)
Definition schedule (r : G1Robot) :=
  (timers (browser r), nextTimerId (browser r), sockets (browser r),
   reconnectTimer (conn r), frameCaptureTimer (conn r),
   terrainProbeTimer (conn r), destroyed (conn r), ws (conn r)).

(** The events of [socks] closes in a row, each followed by the firing
    of the reconnect timeout it set; [id] is the next timer id. *)
Fixpoint closesAndRetries (socks : list nat) (id : nat) : list Event :=
  match socks with
  | [] => []
  | sock :: rest => ev_close sock :: ev_timeout id :: closesAndRetries rest (S id)
  end.

Definition exampleProbe : ProbeEnv :=
  {| probe_getHeight := fun _ _ => Some (Fin 5);
     probe_clampToHeight := fun _ _ => returns None;
     probe_Date_now := 1700000000000;
     probe_perf_now := 0 |}.

Definition exampleOpen : OpenEnv :=
  {| open_Date_now := 1700000000000; open_probe := exampleProbe |}.

(** The robot of the examples is initialised and its first socket opens. *)
Definition exampleHistory : list Event :=
  [ev_initialize None fetch_not_ok; ev_open 0 exampleOpen].

Definition streamingRobot : G1Robot :=
  Eval vm_compute in
    match run flatLib exampleHistory exampleRobot with
    | Some r => r
    | None => exampleRobot
    end.

(** ** Signed angles and the progress of the calibration *)

(** An angle in [[-PI, PI]]. *)
Definition signedAngle (x : num) : Prop :=
  exists v, x = Fin v /\ - JsMath.PI <= v /\ v <= JsMath.PI.

(** The calibration state has made progress from [c] to [c']: the sample
    count has not gone down and is within the budget, and a completed
    fast lock is still complete. *)
Definition calibrationProgress (c c' : HeadingCalibrationState) : Prop :=
  (headingCalibrationSamples c <= headingCalibrationSamples c'
   /\ headingCalibrationSamples c' <= 360)%nat
  /\ (headingFastLockComplete c = true -> headingFastLockComplete c' = true).

(** The robot of the examples walking at 1 m/s after fast lock, one
    counted sample short of a sample count of 90. *)
Definition trimmingRobot : G1Robot :=
  set_calibration
    {| modelHeadingOffset := Fin 0;
       headingCalibrationSamples := 89;
       headingFastLockComplete := true;
       headingAlignedStreak := 20 |} lockingRobot.

(** ** The terrain cache *)

(** A finite height of magnitude at most 3000, the bound of
    [sampleTerrainHeight]. *)
Definition plausibleHeight (x : num) : Prop :=
  exists h, x = Fin h /\ Qabs h <= 3000.

(** The terrain cache changes from [r] to [r'] through
    [sampleTerrainHeight] or not at all. *)
Definition resamples (r r' : G1Robot) : Prop :=
  terrain r' = terrain r
  \/ exists e r0,
       terrain r0 = terrain r
       /\ terrain r' = terrain (snd (sampleTerrainHeight e r0)).

(** ** What has been sent *)

(** The messages handed to sockets so far. *)
Definition sentLog (r : G1Robot) : list (nat * WsPayload) := sent (out r).

(** The socket [sock] is the robot's current socket and it is open. *)
Definition currentOpenSocket (r : G1Robot) (sock : nat) : Prop :=
  ws (conn r) = Some sock /\ readyState r sock = Some OPEN.

(** From [r] to [r'] the robot has sent [new], every message of it to
    the socket that is current and open in [r']. *)
Definition sendsOnOpenSocket (r r' : G1Robot) (new : list (nat * WsPayload)) : Prop :=
  sentLog r' = sentLog r ++ new
  /\ forall sock p, In (sock, p) new -> currentOpenSocket r' sock.

(** ** Terrain probes *)

(** A sample as [sendTerrainProbe] builds it from what
    [sampleProbeHeights] returns at a point of the fan. *)
Definition probeSampleOk (base : num) (fan : list (Q * Q)) (s : ProbeSample) : Prop :=
  In (ps_bearingDeg s, ps_distanceM s) fan
  /\ Num.isFinite (ps_heightM s) = true
  /\ ps_groundHeightM s = ps_heightM s
  /\ Num.isFinite (ps_surfaceDeltaM s) = true
  /\ ps_deltaM s = (ps_heightM s - base)%num.

(** The robot of the examples after its first pose frame: initialised,
    its socket open, a pose message received and applied at 100 ms. *)
Definition walkingHistory : list Event :=
  exampleHistory
  ++ [ev_message 0 (Some (examplePayload (Some (Fin 1)) exampleRoot));
      ev_update (exampleTick 100)].

Definition walkingRobot : G1Robot :=
  Eval vm_compute in
    match run flatLib walkingHistory exampleRobot with
    | Some r => r
    | None => exampleRobot
    end.

(** A scene whose [clampToHeight] throws. *)
Definition throwingProbe : ProbeEnv :=
  {| probe_getHeight := fun _ _ => Some (Fin 5);
     probe_clampToHeight := fun _ _ => throws;
     probe_Date_now := 1700000000000;
     probe_perf_now := 0 |}.

Definition throwingOpen : OpenEnv :=
  {| open_Date_now := 1700000000000; open_probe := throwingProbe |}.

(** ** Link retargeting and navigation contexts *)


Definition finiteOrAbsent (o : option num) : Prop :=
  match o with
  | Some v => Num.isFinite v = true
  | None => True
  end.

(** A navigation context with nothing in it that is not a number where a
    number is expected. *)
Definition cleanNavigation (c : G1NavigationPayload) : Prop :=
  (forall lat lon, currentWaypoint c = Some (Some (lat, lon)) ->
     Num.isFinite lat = true /\ Num.isFinite lon = true)
  /\ (forall v, remainingWaypoints c = Some v ->
        exists n : nat, v = Fin (inject_Z (Z.of_nat n)))
  /\ finiteOrAbsent (nav_simTimeS c)
  /\ finiteOrAbsent (nav_wallTimeS c)
  /\ finiteOrAbsent (speedRequested c)
  /\ finiteOrAbsent (speedAchieved c)
  /\ finiteOrAbsent (crossTrackErrorM c)
  /\ finiteOrAbsent (progressPct c).

(** ** Link animation *)

(** The node matrix [mat] of the node [name] is what [applyLinkAnimation]
    writes for an entry of [poses]: the entry maps to the node, its seven
    numbers are finite, no coordinate is beyond 2.5, and the matrix holds
    the remapped rotation and the remapped, scaled translation. *)
Definition linkWrite (r : G1Robot) (poses : list (string * G1LinkPose))
  (name : string) (mat : NodeMatrix) : Prop :=
  exists source pose x y z q0 q1 q2 q3,
    In (source, pose) poses
    /\ mapNodeName source r = Some name
    /\ name <> EmptyString
    /\ link_pos pose = Some [Fin x; Fin y; Fin z]
    /\ link_quat pose = Some [Fin q0; Fin q1; Fin q2; Fin q3]
    /\ Qabs x <= 2.5 /\ Qabs y <= 2.5 /\ Qabs z <= 2.5
    /\ node_translation mat
       = ((Fin x * linkScale (links r))%num,
          (Fin z * linkScale (links r))%num,
          (Fin (- y) * linkScale (links r))%num)
    /\ node_rotation mat
       = (let '(rw, rx, ry, rz) := remapLinkQuat (Fin q0) (Fin q1) (Fin q2) (Fin q3) in
          (rx, ry, rz, rw)).

(** What the loop of [applyLinkAnimation] keeps, from the robot [r0] with
    the model [m0] it started on. *)
Definition animates (r0 : G1Robot) (m0 : Model) (poses : list (string * G1LinkPose))
  (r : G1Robot) : Prop :=
  nodeMap (links r) = nodeMap (links r0)
  /\ ignoredNodes (links r) = ignoredNodes (links r0)
  /\ linkScale (links r) = linkScale (links r0)
  /\ (forall n, member n (nodeCache (links r)) = true ->
        member n (nodeCache (links r0)) = true \/ member n (gltfNodes m0) = true)
  /\ position (render r) = position (render r0)
  /\ hpRoll (render r) = hpRoll (render r0)
  /\ exists m,
       primitive (render r) = Some m
       /\ modelMatrix m = modelMatrix m0
       /\ gltfNodes m = gltfNodes m0
       /\ forall name mat, In (name, mat) (nodeMatrices m) ->
            In (name, mat) (nodeMatrices m0)
            \/ ((member name (nodeCache (links r0)) = true
                 \/ member name (gltfNodes m0) = true)
                /\ linkWrite r0 poses name mat).

(** The robot of the examples with its model loaded and ready, and the
    node map missing. *)
Definition animatedRobot : G1Robot :=
  Eval vm_compute in
    match run flatLib
            [ev_initialize (Some ["pelvis"%string; "head_link"%string]) fetch_throws;
             ev_modelReady] exampleRobot with
    | Some r => r
    | None => exampleRobot
    end.

Definition animatedModel : Model :=
  {| modelMatrix :=
       headingPitchRollToFixedFrame (Cartesian3_xyz (Fin 0) (Fin 0) (Fin 0))
         {| heading := Fin 0; pitch := Fin 0; roll := Fin 0 |};
     gltfNodes := ["pelvis"%string; "head_link"%string];
     nodeMatrices := [] |}.

(** Link poses: a head half a metre up, a pelvis nine metres away, and a
    link that the model does not have. *)
Definition exampleLinks : list (string * G1LinkPose) :=
  [("head_link"%string,
    {| link_pos := Some [Fin 0; Fin 0; Fin 0.5];
       link_quat := Some [Fin 1; Fin 0; Fin 0; Fin 0] |});
   ("pelvis"%string,
    {| link_pos := Some [Fin 0; Fin 9; Fin 0];
       link_quat := Some [Fin 1; Fin 0; Fin 0; Fin 0] |});
   ("left_toe"%string,
    {| link_pos := Some [Fin 0; Fin 0; Fin 0];
       link_quat := Some [Fin 1; Fin 0; Fin 0; Fin 0] |})].

(** A platform on which consecutive poses are three metres apart. *)
Definition pacingLib : Lib :=
  {| Math_cos := Math_cos flatLib;
     Math_hypot := Math_hypot flatLib;
     Math_atan2 := Math_atan2 flatLib;
     HeadingPitchRoll_fromQuaternion := HeadingPitchRoll_fromQuaternion flatLib;
     Cartesian3_distance := fun _ _ => Fin 3 |}.

(** ** A scene surface below the terrain *)

(** A tick over a globe at 12 metres with a scene surface hit at 3
    metres. *)
Definition tickUnderBridge : TickEnv :=
  {| update_now := 1000;
     update_Date_now := 1700000001000;
     applyPose_now := 1000;
     terrain_now := 1000;
     globe_getHeight := returns (Some (Fin 12));
     scene_clampToHeight := returns (Some (Fin 3));
     speed_Date_now := 1700000001000;
     perf_now := 1000 |}.

(** ** The vehicle manager's obstacle feed *)

(** What [VehicleManager] holds as [activeVehicle]: a [G1Robot], or a
    vehicle of another class. *)
Inductive Vehicle : Type :=
| vehicle_g1 (r : G1Robot)
| vehicle_other.

(** The fields of [VehicleManager] that [maybeSendDynamicObstacles]
    reads and writes. *)
Record VehicleManager : Type := {
  activeVehicle : option Vehicle;
  trafficEnabled : bool;
  lastDynamicObstacleSentMs : Q
}.

Definition dynamicObstacleIntervalMs : Q := 160.

(** [maybeSendDynamicObstacles(nowMs)]; [snapshot] is what
    [trafficManager.getObstacleSnapshot()] returns and [date_now] what
    [Date.now()] reads in the robot. *)
Definition maybeSendDynamicObstacles (nowMs date_now : Q) (snapshot : list Obstacle)
  (m : VehicleManager) : VehicleManager :=
  if negb (trafficEnabled m) then m
  else if (Fin nowMs - Fin (lastDynamicObstacleSentMs m)
           <? Fin dynamicObstacleIntervalMs)%num then m
  else
    let m := {| activeVehicle := activeVehicle m;
                trafficEnabled := trafficEnabled m;
                lastDynamicObstacleSentMs := nowMs |} in
    match activeVehicle m with
    | Some (vehicle_g1 active) =>
        if (List.length snapshot =? 0)%nat then m
        else
          {| activeVehicle :=
               Some (vehicle_g1 (sendDynamicObstacles date_now snapshot active));
             trafficEnabled := trafficEnabled m;
             lastDynamicObstacleSentMs := lastDynamicObstacleSentMs m |}
    | _ => m
    end.

(** What happens to a manager: its per-frame obstacle feed, an event of
    the active robot, the traffic switch, and a change of the active
    vehicle. *)
Inductive ManagerEvent : Type :=
| mev_maybeSendDynamicObstacles (nowMs date_now : Q) (snapshot : list Obstacle)
| mev_robot (ev : Event)
| mev_setTrafficEnabled (enabled : bool)
| mev_setActiveVehicle (v : option Vehicle).

Section ManagerMachine.

Variable L : Lib.

Definition managerStep (ev : ManagerEvent) (m : VehicleManager)
  : option VehicleManager :=
  match ev with
  | mev_maybeSendDynamicObstacles nowMs date_now snapshot =>
      Some (maybeSendDynamicObstacles nowMs date_now snapshot m)
  | mev_robot ev =>
      match activeVehicle m with
      | Some (vehicle_g1 r) =>
          r <- step L ev r ;;
          Some {| activeVehicle := Some (vehicle_g1 r);
                  trafficEnabled := trafficEnabled m;
                  lastDynamicObstacleSentMs := lastDynamicObstacleSentMs m |}
      | _ => Some m
      end
  | mev_setTrafficEnabled enabled =>
      Some {| activeVehicle := activeVehicle m;
              trafficEnabled := enabled;
              lastDynamicObstacleSentMs := lastDynamicObstacleSentMs m |}
  | mev_setActiveVehicle v =>
      Some {| activeVehicle := v;
              trafficEnabled := trafficEnabled m;
              lastDynamicObstacleSentMs := lastDynamicObstacleSentMs m |}
  end.

Fixpoint managerRun (evs : list ManagerEvent) (m : VehicleManager)
  : option VehicleManager :=
  match evs with
  | [] => Some m
  | ev :: rest => m <- managerStep ev m ;; managerRun rest m
  end.

End ManagerMachine.

(** The messages the active robot has handed to its sockets. *)
Definition robotSent (m : VehicleManager) : list (nat * WsPayload) :=
  match activeVehicle m with
  | Some (vehicle_g1 r) => sent (out r)
  | _ => []
  end.

(** The call at [nowMs] is past the rate limit of the feed. *)
Definition feedDue (nowMs : Q) (m : VehicleManager) : Prop :=
  trafficEnabled m = true
  /\ dynamicObstacleIntervalMs <= nowMs - lastDynamicObstacleSentMs m.

Definition liveManager : VehicleManager :=
  {| activeVehicle := Some (vehicle_g1 liveRobot);
     trafficEnabled := true;
     lastDynamicObstacleSentMs := 0 |}.

(** ** The black-frame check of the camera capture *)

(** What the 64 by 36 probe canvas gives [isFrameLikelyBlack]: no 2D
    context, a call that throws, or the bytes of [getImageData], four to
    a pixel. *)
Inductive ProbeFrame : Type :=
| frame_no_context
| frame_throws
| frame_pixels (pixels : list nat).

(** [pixels[i]]; a read past the end is [undefined]. *)
Definition pixelAt (pixels : list nat) (i : nat) : num :=
  match nth_error pixels i with
  | Some v => ofNat v
  | None => NaN
  end.

(** The values [i] takes in [for (let i = 0; i < pixels.length; i += 16)]. *)
Definition sampleIndices (length : nat) : list nat :=
  filter (fun i => (i mod 16 =? 0)%nat) (seq 0 length).

(** One turn of the loop: [lumaSum] and [count] after the pixel at [i]. *)
Definition lumaStep (pixels : list nat) (acc : num * nat) (i : nat) : num * nat :=
  let r := pixelAt pixels i in
  let g := pixelAt pixels (i + 1) in
  let b := pixelAt pixels (i + 2) in
  ((fst acc + (Fin 0.2126 * r + Fin 0.7152 * g + Fin 0.0722 * b))%num,
   S (snd acc)).

(** [lumaSum] and [count] when the loop ends. *)
Definition frameLuma (pixels : list nat) : num * nat :=
  fold_left (lumaStep pixels) (sampleIndices (List.length pixels)) (Fin 0, 0%nat).

Definition isFrameLikelyBlack (frame : ProbeFrame) (r : G1Robot) : bool :=
  if negb (sceneRef (render r)) then false
  else
    match frame with
    | frame_no_context => false
    | frame_throws => false
    | frame_pixels pixels =>
        let '(lumaSum, count) := frameLuma pixels in
        if (count <=? 0)%nat then false
        else
          let avgLuma := (lumaSum / ofNat count)%num in
          (avgLuma <? Fin 2.5)%num
    end.

(** The bytes the loop reads: the red, green and blue byte of every
    fourth pixel. *)
Definition sampledBytes (pixels : list nat) : list nat :=
  flat_map (fun i => [i; i + 1; i + 2]%nat) (sampleIndices (List.length pixels)).

(** Every byte the loop reads is there and satisfies [P]. *)
Definition sampledAll (P : nat -> Prop) (pixels : list nat) : Prop :=
  Forall (fun j => exists v, nth_error pixels j = Some v /\ P v) (sampledBytes pixels).

(** Four pixels of which the loop reads the first: it is dark, the other
    three are bright. *)
Definition darkSampleFrame : list nat :=
  [1; 1; 1; 255; 200; 200; 200; 255; 200; 200; 200; 255; 200; 200; 200; 255]%nat.

(** ** Vehicle state snapshots *)

(** A position as a caller holds it: the static [scratchPositionClone]
    of [Vehicle], shared by all vehicles, or an object of the caller's
    own. *)
Inductive PositionRef : Type :=
| ref_scratchPositionClone
| ref_own (value : Cartesian3).

(** [VehicleState]. *)
Record VehicleState : Type := {
  vs_position : PositionRef;
  vs_heading : num;
  vs_pitch : num;
  vs_roll : num;
  vs_velocity : num;
  vs_speed : num
}.

(** What a position reads as while [scratch] is in
    [scratchPositionClone]. *)
Definition deref (scratch : Cartesian3) (p : PositionRef) : Cartesian3 :=
  match p with
  | ref_scratchPositionClone => scratch
  | ref_own value => value
  end.

(** [getState]: the state returned and the new content of the scratch
    position. *)
Definition getState (r : G1Robot) (scratch : Cartesian3) : VehicleState * Cartesian3 :=
  ({| vs_position := ref_scratchPositionClone;
      vs_heading := heading (hpRoll (render r));
      vs_pitch := pitch (hpRoll (render r));
      vs_roll := roll (hpRoll (render r));
      vs_velocity := velocity (motion r);
      vs_speed := speed (motion r) |},
   position (render r)).

(** [getPosition]. *)
Definition getPosition (r : G1Robot) (scratch : Cartesian3) : PositionRef * Cartesian3 :=
  (ref_scratchPositionClone, position (render r)).

(** [setState]. *)
Definition setState (state : VehicleState) (scratch : Cartesian3) (r : G1Robot)
  : G1Robot :=
  let r :=
    set_render {| position := deref scratch (vs_position state);
                  hpRoll := {| heading := vs_heading state;
                               pitch := vs_pitch state;
                               roll := vs_roll state |};
                  smoothedHeadingRad := smoothedHeadingRad (render r);
                  primitive := primitive (render r);
                  isReady := isReady (render r);
                  sceneRef := sceneRef (render r) |} r in
  let r :=
    set_motion {| lastPosePosition := lastPosePosition (motion r);
                  lastPoseTimeMs := lastPoseTimeMs (motion r);
                  lastGeoLat := lastGeoLat (motion r);
                  lastGeoLon := lastGeoLon (motion r);
                  currentLat := currentLat (motion r);
                  currentLon := currentLon (motion r);
                  lastStaticPoseRefreshMs := lastStaticPoseRefreshMs (motion r);
                  velocity := vs_velocity state;
                  speed := vs_speed state |} r in
  updateModelMatrix r.

(** The scratch position after the vehicles of [readers] have been asked
    for their position or state, one after the other. *)
Definition readBy (readers : list G1Robot) (scratch : Cartesian3) : Cartesian3 :=
  fold_left (fun scratch reader => snd (getPosition reader scratch)) readers scratch.

(** ** A robot that has been destroyed *)

(** The robot holds nothing that [destroy] would release: no socket, no
    timer, no pending capture and no model, and it is marked destroyed. *)
Definition released (r : G1Robot) : Prop :=
  ws (conn r) = None
  /\ reconnectTimer (conn r) = None
  /\ frameCaptureTimer (conn r) = None
  /\ terrainProbeTimer (conn r) = None
  /\ pendingVisionCapture (conn r) = false
  /\ pendingVisionCaptureListener (conn r) = None
  /\ pendingVisionCaptureRestore (conn r) = None
  /\ destroyed (conn r) = true
  /\ primitive (render r) = None.

(** ** Sequence numbers *)

(** The two counters that number outgoing messages. *)
Definition seqs (r : G1Robot) : nat * nat :=
  (terrainProbeSeq (conn r), dynamicObstacleSeq (conn r)).

(** The sequence numbers of the [terrain_probe] messages of a log, in the
    order they were sent, and those of its [dynamic_obstacles]
    messages. *)
Definition probeSeqs (log : list (nat * WsPayload)) : list nat :=
  flat_map (fun m => match snd m with
                     | terrain_probe n _ _ _ _ => [n]
                     | _ => []
                     end) log.

Definition obstacleSeqs (log : list (nat * WsPayload)) : list nat :=
  flat_map (fun m => match snd m with
                     | dynamic_obstacles n _ _ => [n]
                     | _ => []
                     end) log.

(** From [r] to [r'] messages were only appended, and the new ones of
    either kind carry the numbers that follow the counter of [r], up to
    the counter of [r']. *)
Definition numbers (r r' : G1Robot) : Prop :=
  exists new,
    sentLog r' = sentLog r ++ new
    /\ (terrainProbeSeq (conn r) <= terrainProbeSeq (conn r'))%nat
    /\ probeSeqs new
       = seq (S (terrainProbeSeq (conn r)))
           (terrainProbeSeq (conn r') - terrainProbeSeq (conn r))
    /\ (dynamicObstacleSeq (conn r) <= dynamicObstacleSeq (conn r'))%nat
    /\ obstacleSeqs new
       = seq (S (dynamicObstacleSeq (conn r)))
           (dynamicObstacleSeq (conn r') - dynamicObstacleSeq (conn r)).

(** ** The mount node of the vision rig *)

(** The two fields of [G1Robot] that remember where the vision rig is
    mounted. *)
Record VisionMount : Type := {
  visionMountNodeName : option string;
  visionMountAnnounced : bool
}.

Definition visionNodeCandidates : list string :=
  ["head_link"; "Head"; "head"; "d435_link"; "mid360_link"; "logo_link"]%string.

(** The loop of [resolveVisionMountNodeName] over the candidates that
    are left: the name returned ([None] is [null]), the two fields and
    the robot afterwards. *)
Fixpoint resolveCandidates (m : Model) (candidates : list string)
  (v : VisionMount) (r : G1Robot) : option string * VisionMount * G1Robot :=
  match candidates with
  | [] => (None, v, r)
  | candidate :: rest =>
      let '(found, r) := getNode m candidate r in
      if negb found then resolveCandidates m rest v r
      else
        let r :=
          if negb (visionMountAnnounced v)
          then emitStatus
                 (status_text ("Gemini vision rig mounted to " ++ candidate ++ "."))
                 r
          else r in
        (Some candidate,
         {| visionMountNodeName := Some candidate; visionMountAnnounced := true |},
         r)
  end.

Definition resolveVisionMountNodeName (m : Model) (v : VisionMount) (r : G1Robot)
  : option string * VisionMount * G1Robot :=
  if truthy (visionMountNodeName v) then (visionMountNodeName v, v, r)
  else resolveCandidates m visionNodeCandidates v r.

(** The node [name] resolves on the model [m] for the robot [r]. *)
Definition resolvable (m : Model) (r : G1Robot) (name : string) : bool :=
  member name (nodeCache (links r)) || member name (gltfNodes m).

(** ** Angles and magnitudes the platform's numbers handle *)

(** An angle of at most 1000 radians in magnitude: each loop of
    [normalizeSignedAngle] is left after at most 160 iterations. *)
Definition modestAngle (q : Q) : Prop := Qabs q <= 1000.

(** A magnitude far below the largest finite number of the platform:
    sums, products by 1000 and quotients by 0.03 of such values stay
    finite. *)
Definition noOverflow (q : Q) : Prop := Qabs q <= inject_Z (10 ^ 300).

(** ** A walk to the north *)

(** The root pose [i] thousandths of a degree north of the example
    position. *)
Definition stepNorth (i : nat) : G1RootPose :=
  {| root_lat := Some (Fin (10 + inject_Z (Z.of_nat i) / 1000));
     root_lon := Some (Fin 20);
     root_height := Some (Fin 0);
     root_quat := Some [Fin 1; Fin 0; Fin 0; Fin 0] |}.

(** Frame [i] of the walk: its message, and the tick that applies it. *)
Definition walkFrame (i : nat) : list Event :=
  [ev_message 0 (Some (examplePayload (Some (ofNat i)) (stepNorth i)));
   ev_update (exampleTick (100 * inject_Z (Z.of_nat i)))].

Definition walk (first count : nat) : list Event :=
  flat_map walkFrame (seq first count).

(** A browser whose storage holds the heading offset [v]. *)
Definition storedBrowser (v : Q) : Browser :=
  {| sockets := []; timers := []; nextTimerId := 1; postRenderListeners := [];
     camera := 0; localStorage := storage_item (Some (Fin v)) |}.

(** The robot constructed over a stored offset of 4 radians. *)
Definition reloadedRobot : G1Robot :=
  Eval vm_compute in
    match construct exampleConfig 0 (storedBrowser 4) with
    | Some r => r
    | None => exampleRobot
    end.

(** Five frames of the walk; the last two are accepted as calibration
    samples. *)
Definition calibratingHistory : list Event := exampleHistory ++ walk 1 5.

Definition calibratingRobot : G1Robot :=
  Eval vm_compute in
    match run pacingLib calibratingHistory reloadedRobot with
    | Some r => r
    | None => exampleRobot
    end.

(** The same walk followed by a manual override. *)
Definition overriddenHistory : list Event :=
  calibratingHistory ++ [ev_setModelHeadingOffsetRad (Fin 7)].

Definition overriddenRobot : G1Robot :=
  Eval vm_compute in
    match run pacingLib overriddenHistory reloadedRobot with
    | Some r => r
    | None => exampleRobot
    end.

(** One more frame of the walk after either. *)
Definition calibratedOnceMore : G1Robot :=
  Eval vm_compute in
    match run pacingLib (walk 6 1) calibratingRobot with
    | Some r => r
    | None => exampleRobot
    end.

Definition overriddenOnceMore : G1Robot :=
  Eval vm_compute in
    match run pacingLib (walk 6 1) overriddenRobot with
    | Some r => r
    | None => exampleRobot
    end.

(** ** A robot constructed again after a manual override *)

(** The example robot after a manual override of 4 radians, and the value
    the call returns. *)
Definition overrideOutcome : G1Robot * num :=
  Eval vm_compute in
    match setModelHeadingOffsetRad (Fin 4) exampleRobot with
    | Some o => o
    | None => (exampleRobot, NaN)
    end.

(** The robot constructed over the storage that override has written. *)
Definition robotAfterOverride : G1Robot :=
  Eval vm_compute in
    match construct exampleConfig 0 (browser (fst overrideOutcome)) with
    | Some r => r
    | None => exampleRobot
    end.

(** Four frames of the walk; the last one is accepted as a calibration
    sample. *)
Definition recalibratingHistory : list Event := exampleHistory ++ walk 1 4.

Definition recalibratedRobot : G1Robot :=
  Eval vm_compute in
    match run pacingLib recalibratingHistory robotAfterOverride with
    | Some r => r
    | None => exampleRobot
    end.

(** ** Probes and obstacle messages on the open socket *)

Definition probingHistory : list Event :=
  walkingHistory
  ++ [ev_probeInterval 2 exampleProbe;
      ev_sendDynamicObstacles 1700000000300 [exampleObstacle];
      ev_probeInterval 2 exampleProbe;
      ev_sendDynamicObstacles 1700000000500 [negativeRadiusObstacle; exampleObstacle]].

Definition probingRobot : G1Robot :=
  Eval vm_compute in
    match run flatLib probingHistory exampleRobot with
    | Some r => r
    | None => exampleRobot
    end.

(** A timestamp of 1e306 seconds: finite, but its milliseconds are not. *)
Definition overflowingTime : num := Fin (inject_Z (10 ^ 306)).

(** ** Where a pose puts the robot *)

(** Where the robot stands: its position, its geographic fix and the time
    the fix was last refreshed. *)
Definition placement (r : G1Robot) : Cartesian3 * option num * option num * num :=
  (position (render r), currentLat (motion r), currentLon (motion r),
   lastStaticPoseRefreshMs (motion r)).

(** The stationary check of [applyPose] cannot hold a pose back: the
    robot has no fix yet, or the last refresh is at least 220 ms old. *)
Definition refreshDue (e : TickEnv) (r : G1Robot) : Prop :=
  currentLat (motion r) = None
  \/ exists t0, lastStaticPoseRefreshMs (motion r) = Fin t0
                /\ 220 <= applyPose_now e - t0.

(** What a tick leaves when it applies the root pose [root]: the time of
    the application, and, for finite coordinates that are not held back,
    the robot placed at them. *)
Definition poseApplied (e : TickEnv) (root : G1RootPose) (r r' : G1Robot) : Prop :=
  lastPoseApplyMs (ingest r') = Fin (update_now e)
  /\ forall lat lon,
       root_lat root = Some (Fin lat) ->
       root_lon root = Some (Fin lon) ->
       refreshDue e r ->
       exists h,
         placement r'
         = (Cartesian3_fromDegrees (Fin lon) (Fin lat) (h + pelvisToGroundOffsetM)%num,
            Some (Fin lat), Some (Fin lon), Fin (applyPose_now e)).

(** The example payload without a timestamp, after a tick at 100 ms and
    after a second one at 400 ms. *)
Definition unstampedOnce : G1Robot :=
  Eval vm_compute in
    match update flatLib (exampleTick 100) (robotWithPose None) with
    | Some r => r
    | None => exampleRobot
    end.

Definition unstampedTwice : G1Robot :=
  Eval vm_compute in
    match update flatLib (exampleTick 400) unstampedOnce with
    | Some r => r
    | None => exampleRobot
    end.

(** * Properties *)

(** ** Numbers *)

Lemma Qltb_true (a b : Q) : Num.Qltb a b = true <-> a < b.
Proof.
  unfold Num.Qltb. rewrite negb_true_iff. split; intro H.
  - apply Qnot_le_lt. intro Hle. apply Qle_bool_iff in Hle. congruence.
  - destruct (Qle_bool b a) eqn:E; auto. apply Qle_bool_iff in E. lra.
Qed.

Lemma Qltb_false (a b : Q) : Num.Qltb a b = false <-> b <= a.
Proof.
  unfold Num.Qltb. rewrite negb_false_iff. apply Qle_bool_iff.
Qed.

Lemma PI_pos : 0 < JsMath.PI.
Proof. reflexivity. Qed.

Lemma Qscaled_bounds (q f y : Q) :
  0 < y -> f <= q -> q < f + 1 ->
  0 <= q * y - y * f /\ q * y - y * f < y.
Proof.
  intros Hy H1 H2.
  assert (E : q * y - y * f == (q - f) * y) by ring.
  rewrite E. split.
  - apply Qmult_le_0_compat; lra.
  - assert (H : (q - f) * y < 1 * y) by (apply Qmult_lt_compat_r; lra).
    lra.
Qed.

Lemma Qscaled_bounds_neg (q c y : Q) :
  0 < y -> c - 1 < q -> q <= c ->
  - y < q * y - y * c /\ q * y - y * c <= 0.
Proof.
  intros Hy H1 H2.
  assert (E : q * y - y * c == - ((c - q) * y)) by ring.
  rewrite E. split.
  - assert (H : (c - q) * y < 1 * y) by (apply Qmult_lt_compat_r; lra).
    lra.
  - assert (H : 0 <= (c - q) * y) by (apply Qmult_le_0_compat; lra).
    lra.
Qed.

Lemma Qrem_nonneg (x y : Q) :
  0 < y -> 0 <= x ->
  0 <= x - y * inject_Z (Num.Qtrunc (x / y)) /\ x - y * inject_Z (Num.Qtrunc (x / y)) < y.
Proof.
  intros Hy Hx. unfold Num.Qtrunc.
  assert (Hq : 0 <= x / y) by (apply Qle_shift_div_l; lra).
  assert (E : Qle_bool 0 (x / y) = true) by (apply Qle_bool_iff; exact Hq).
  rewrite E.
  pose proof (Qfloor_le (x / y)) as H1.
  pose proof (Qlt_floor (x / y)) as H2.
  rewrite inject_Z_plus in H2.
  assert (Hxy : x == (x / y) * y) by (field; lra).
  remember (x / y) as q. remember (inject_Z (Qfloor q)) as f.
  rewrite Hxy. apply Qscaled_bounds; auto.
Qed.

Lemma Qrem_neg (x y : Q) :
  0 < y -> x < 0 ->
  - y < x - y * inject_Z (Num.Qtrunc (x / y)) /\ x - y * inject_Z (Num.Qtrunc (x / y)) <= 0.
Proof.
  intros Hy Hx. unfold Num.Qtrunc.
  assert (Hq : x / y < 0) by (apply Qlt_shift_div_r; lra).
  assert (E : Qle_bool 0 (x / y) = false).
  { destruct (Qle_bool 0 (x / y)) eqn:E; auto. apply Qle_bool_iff in E. lra. }
  rewrite E.
  pose proof (Qle_ceiling (x / y)) as H1.
  pose proof (Qceiling_lt (x / y)) as H2.
  unfold Z.sub in H2. rewrite inject_Z_plus in H2.
  assert (Hxy : x == (x / y) * y) by (field; lra).
  remember (x / y) as q. remember (inject_Z (Qceiling q)) as c.
  rewrite Hxy. apply Qscaled_bounds_neg; auto.
Qed.


(** ** Angles *)

Lemma TWO_PI_pos : 0 < CesiumMath.TWO_PI.
Proof. reflexivity. Qed.

Lemma rem_TWO_PI (q : Q) :
  exists m, (Fin q %% Fin CesiumMath.TWO_PI)%num = Fin m
            /\ (0 <= q -> 0 <= m /\ m < CesiumMath.TWO_PI)
            /\ (q < 0 -> - CesiumMath.TWO_PI < m /\ m <= 0).
Proof.
  pose proof TWO_PI_pos as Hpos.
  unfold Num.rem.
  destruct (Qeq_bool CesiumMath.TWO_PI 0) eqn:E.
  - apply Qeq_bool_iff in E. lra.
  - eexists; split; [reflexivity|]. split; intro H.
    + apply Qrem_nonneg; auto.
    + apply Qrem_neg; auto.
Qed.

Lemma mod_TWO_PI (q : Q) :
  exists m, CesiumMath.mod_ (Fin q) (Fin CesiumMath.TWO_PI) = Fin m
            /\ 0 <= m /\ m < CesiumMath.TWO_PI.
Proof.
  pose proof TWO_PI_pos as Hpos.
  unfold CesiumMath.mod_.
  destruct ((CesiumMath.sign (Fin q) === CesiumMath.sign (Fin CesiumMath.TWO_PI))%num
            && (Num.abs (Fin q) <? Num.abs (Fin CesiumMath.TWO_PI))%num) eqn:C.
  - exists q. split; auto.
    apply andb_true_iff in C. destruct C as [C1 C2].
    simpl in C2. apply Qltb_true in C2.
    rewrite (Qabs_pos CesiumMath.TWO_PI) in C2 by lra.
    unfold CesiumMath.sign in C1.
    change (CesiumMath.TWO_PI ?= 0) with Gt in C1.
    destruct (q ?= 0) eqn:E; simpl in C1; try discriminate.
    apply Qgt_alt in E. rewrite Qabs_pos in C2 by lra. lra.
  - clear C.
    destruct (rem_TWO_PI q) as (m1 & E1 & Hp & Hn). rewrite E1.
    change (Fin m1 + Fin CesiumMath.TWO_PI)%num with (Fin (m1 + CesiumMath.TWO_PI)).
    destruct (rem_TWO_PI (m1 + CesiumMath.TWO_PI)) as (m2 & E2 & Hp2 & _).
    rewrite E2. exists m2. split; auto.
    apply Hp2. destruct (Qlt_le_dec q 0); [apply Hn in q0 | apply Hp in q0]; lra.
Qed.

Lemma zeroToTwoPi_range (q : Q) :
  exists r, CesiumMath.zeroToTwoPi (Fin q) = Fin r /\ 0 <= r /\ r <= CesiumMath.TWO_PI.
Proof.
  pose proof TWO_PI_pos as Hpos.
  unfold CesiumMath.zeroToTwoPi.
  destruct ((Fin q >=? Fin 0)%num && (Fin q <=? Fin CesiumMath.TWO_PI)%num) eqn:C.
  - exists q. split; auto.
    apply andb_true_iff in C. destruct C as [C1 C2].
    unfold Num.geb, Num.leb in *. simpl in *.
    apply orb_true_iff in C1. apply orb_true_iff in C2.
    rewrite !Qltb_true, !Qeq_bool_iff in *. lra.
  - clear C. destruct (mod_TWO_PI q) as (m & E & H0 & H1). rewrite E.
    match goal with |- context [if ?c then _ else _] => destruct c end.
    + exists CesiumMath.TWO_PI. split; auto. lra.
    + exists m. split; auto. lra.
Qed.

Lemma Qabs_shift (d : Q) (k : Z) (P : Q) :
  0 < P -> Qabs d <= P -> Qabs d <= Qabs (d + inject_Z k * (2 * P)).
Proof.
  intros HP Hd.
  pose proof Hd as Habs.
  apply Qabs_Qle_condition in Hd. destruct Hd as [Hd1 Hd2].
  destruct (Z.eq_dec k 0) as [->|Hk].
  - assert (E : d + inject_Z 0 * (2 * P) == d) by (change (inject_Z 0) with 0; ring).
    rewrite E. lra.
  - assert (Hcases : (k <= -1 \/ 1 <= k)%Z) by lia.
    destruct Hcases as [Hneg|Hpos].
    + assert (Hk1 : inject_Z k <= -1) by (rewrite Zle_Qle in Hneg; exact Hneg).
      assert (Hm : inject_Z k * (2 * P) <= (-1) * (2 * P)).
      { apply Qmult_le_compat_r; lra. }
      assert (Hle : d + inject_Z k * (2 * P) <= - P) by lra.
      rewrite (Qabs_neg (d + inject_Z k * (2 * P))) by lra. lra.
    + assert (Hk1 : 1 <= inject_Z k) by (rewrite Zle_Qle in Hpos; exact Hpos).
      assert (Hm : 1 * (2 * P) <= inject_Z k * (2 * P)).
      { apply Qmult_le_compat_r; lra. }
      assert (Hle : P <= d + inject_Z k * (2 * P)) by lra.
      rewrite (Qabs_pos (d + inject_Z k * (2 * P))) by lra. lra.
Qed.



Lemma while_above_PI_finite (n : nat) : forall q,
  q <= JsMath.PI + inject_Z (Z.of_nat n) * (JsMath.PI * 2) ->
  exists r, while_above_PI n (Fin q) = Some (Fin r)
            /\ r <= JsMath.PI
            /\ (q <= JsMath.PI -> r = q)
            /\ (JsMath.PI < q -> - JsMath.PI < r)
            /\ exists k : nat, r == q - inject_Z (Z.of_nat k) * (JsMath.PI * 2).
Proof.
  pose proof PI_pos as HPI.
  induction n as [|n IH]; intros q Hq.
  - change (inject_Z (Z.of_nat 0)) with 0 in Hq.
    assert (Hle : q <= JsMath.PI) by lra.
    exists q. simpl. unfold Num.gtb. simpl.
    apply Qltb_false in Hle. rewrite Hle.
    repeat split; auto.
    + apply Qltb_false in Hle. exact Hle.
    + apply Qltb_false in Hle. lra.
    + exists 0%nat. change (inject_Z (Z.of_nat 0)) with 0. ring.
  - simpl while_above_PI. unfold Num.gtb. simpl Num.ltb.
    destruct (Num.Qltb JsMath.PI q) eqn:C;
      [apply Qltb_true in C | apply Qltb_false in C].
    + change (Fin q - Fin (JsMath.PI * 2))%num with (Fin (q + - (JsMath.PI * 2))).
      rewrite Nat2Z.inj_succ in Hq. unfold Z.succ in Hq.
      rewrite inject_Z_plus in Hq. change (inject_Z 1) with 1 in Hq.
      destruct (IH (q + - (JsMath.PI * 2))) as (r & E & H1 & H2 & H3 & k & H4); [lra|].
      exists r. rewrite E. repeat split; auto.
      * intro Hc. lra.
      * intros _. destruct (Qlt_le_dec JsMath.PI (q + - (JsMath.PI * 2))) as [Hgt|Hle].
        -- auto.
        -- rewrite (H2 Hle). lra.
      * exists (S k). rewrite Nat2Z.inj_succ. unfold Z.succ.
        rewrite inject_Z_plus. change (inject_Z 1) with 1. rewrite H4. ring.
    + exists q. repeat split; auto.
      * intro Hc. lra.
      * exists 0%nat. change (inject_Z (Z.of_nat 0)) with 0. ring.
Qed.

Lemma while_below_minus_PI_finite (n : nat) : forall q,
  - JsMath.PI - inject_Z (Z.of_nat n) * (JsMath.PI * 2) <= q ->
  exists r, while_below_minus_PI n (Fin q) = Some (Fin r)
            /\ - JsMath.PI <= r
            /\ (- JsMath.PI <= q -> r = q)
            /\ (q < - JsMath.PI -> r < JsMath.PI)
            /\ exists k : nat, r == q + inject_Z (Z.of_nat k) * (JsMath.PI * 2).
Proof.
  pose proof PI_pos as HPI.
  induction n as [|n IH]; intros q Hq.
  - change (inject_Z (Z.of_nat 0)) with 0 in Hq.
    assert (Hle : - JsMath.PI <= q) by lra.
    exists q. simpl.
    apply Qltb_false in Hle. rewrite Hle.
    repeat split; auto.
    + apply Qltb_false in Hle. exact Hle.
    + apply Qltb_false in Hle. lra.
    + exists 0%nat. change (inject_Z (Z.of_nat 0)) with 0. ring.
  - simpl while_below_minus_PI.
    destruct (Num.Qltb q (- JsMath.PI)) eqn:C;
      [apply Qltb_true in C | apply Qltb_false in C].
    + change (Fin q + Fin (JsMath.PI * 2))%num with (Fin (q + JsMath.PI * 2)).
      rewrite Nat2Z.inj_succ in Hq. unfold Z.succ in Hq.
      rewrite inject_Z_plus in Hq. change (inject_Z 1) with 1 in Hq.
      destruct (IH (q + JsMath.PI * 2)) as (r & E & H1 & H2 & H3 & k & H4); [lra|].
      exists r. rewrite E. repeat split; auto.
      * intro Hc. lra.
      * intros _. destruct (Qlt_le_dec (q + JsMath.PI * 2) (- JsMath.PI)) as [Hlt|Hge].
        -- auto.
        -- rewrite (H2 Hge). lra.
      * exists (S k). rewrite Nat2Z.inj_succ. unfold Z.succ.
        rewrite inject_Z_plus. change (inject_Z 1) with 1. rewrite H4. ring.
    + exists q. repeat split; auto.
      * intro Hc. lra.
      * exists 0%nat. change (inject_Z (Z.of_nat 0)) with 0. ring.
Qed.

Lemma turns_bound (q : Q) :
  Qabs q <= inject_Z (Z.of_nat (turns (Fin q))) * (JsMath.PI * 2).
Proof.
  pose proof PI_pos as HPI.
  unfold turns.
  set (c := Qceiling (Qabs q / (JsMath.PI * 2))).
  assert (Hdiv : 0 <= Qabs q / (JsMath.PI * 2)).
  { apply Qle_shift_div_l; [lra|]. pose proof (Qabs_nonneg q). lra. }
  pose proof (Qle_ceiling (Qabs q / (JsMath.PI * 2))) as Hc. fold c in Hc.
  assert (Hc0 : (0 <= c)%Z).
  { rewrite Zle_Qle. change (inject_Z 0) with 0. lra. }
  rewrite Nat2Z.inj_succ, Z2Nat.id by exact Hc0.
  unfold Z.succ. rewrite inject_Z_plus. change (inject_Z 1) with 1.
  assert (E : Qabs q == Qabs q / (JsMath.PI * 2) * (JsMath.PI * 2)) by (field; lra).
  assert (Hm : Qabs q / (JsMath.PI * 2) * (JsMath.PI * 2) <= inject_Z c * (JsMath.PI * 2)).
  { apply Qmult_le_compat_r; lra. }
  lra.
Qed.

(** On a finite angle [normalizeSignedAngle] returns, in [[-PI, PI]], the
    angle moved by whole turns. *)
Lemma normalizeSignedAngle_finite (q : Q) :
  exists r, normalizeSignedAngle (Fin q) = Some (Fin r)
            /\ - JsMath.PI <= r /\ r <= JsMath.PI
            /\ exists k : Z, r == q + inject_Z k * (JsMath.PI * 2).
Proof.
  pose proof PI_pos as HPI.
  pose proof (turns_bound q) as Hb.
  assert (Hq : - Qabs q <= q /\ q <= Qabs q).
  { split; [|apply Qle_Qabs]. pose proof (Qle_Qabs (- q)) as H.
    rewrite Qabs_opp in H. lra. }
  unfold normalizeSignedAngle, normalizeSignedAngle_fuel.
  destruct (while_above_PI_finite (turns (Fin q)) q) as (r1 & E1 & H1 & H2 & H3 & k1 & H4); [lra|].
  rewrite E1. unfold bind.
  destruct (Qlt_le_dec JsMath.PI q) as [Hgt|Hle].
  - specialize (H3 Hgt).
    destruct (while_below_minus_PI_finite (turns (Fin q)) r1) as (r2 & E2 & G1 & G2 & G3 & k2 & G4).
    { assert (0 <= inject_Z (Z.of_nat (turns (Fin q))) * (JsMath.PI * 2)).
      { pose proof (Qabs_nonneg q). lra. }
      lra. }
    rewrite E2. exists r2. rewrite (G2 ltac:(lra)) in *.
    repeat split; auto; try lra.
    exists (- Z.of_nat k1)%Z. rewrite inject_Z_opp. rewrite H4. ring.
  - rewrite (H2 Hle) in *.
    destruct (while_below_minus_PI_finite (turns (Fin q)) q) as (r2 & E2 & G1 & G2 & G3 & k2 & G4); [lra|].
    rewrite E2. exists r2.
    repeat split; auto.
    + destruct (Qlt_le_dec q (- JsMath.PI)) as [Hlt|Hge].
      * specialize (G3 Hlt). lra.
      * rewrite (G2 Hge). lra.
    + exists (Z.of_nat k2). exact G4.
Qed.

Lemma normalizeSignedAngle_NaN : normalizeSignedAngle NaN = Some NaN.
Proof. reflexivity. Qed.

(** On an infinity the loops of [normalizeSignedAngle] never exit. *)
Lemma normalizeSignedAngle_diverges (fuel : nat) :
  normalizeSignedAngle_fuel fuel PInf = None
  /\ normalizeSignedAngle_fuel fuel NInf = None.
Proof.
  assert (Ha : forall n, while_above_PI n PInf = None)
    by (induction n as [|n IH]; simpl; auto).
  assert (Hb : forall n, while_below_minus_PI n NInf = None)
    by (induction n as [|n IH]; simpl; auto).
  unfold normalizeSignedAngle_fuel. split.
  - rewrite Ha. reflexivity.
  - destruct fuel; simpl; auto.
Qed.

Lemma while_above_PI_eq (n : nat) (v : num) :
  while_above_PI n v
  = if (v >? Fin JsMath.PI)%num then
      match n with
      | O => None
      | S k => while_above_PI k (v - Fin (JsMath.PI * 2))%num
      end
    else Some v.
Proof. destruct n; reflexivity. Qed.

Lemma while_below_minus_PI_eq (n : nat) (v : num) :
  while_below_minus_PI n v
  = if (v <? Fin (- JsMath.PI))%num then
      match n with
      | O => None
      | S k => while_below_minus_PI k (v + Fin (JsMath.PI * 2))%num
      end
    else Some v.
Proof. destruct n; reflexivity. Qed.

Lemma while_above_PI_more (n : nat) : forall v r m,
  while_above_PI n v = Some r -> (n <= m)%nat -> while_above_PI m v = Some r.
Proof.
  induction n as [|n IH]; intros v r m H Hle;
    rewrite while_above_PI_eq in H; rewrite while_above_PI_eq;
    destruct (v >? Fin JsMath.PI)%num; auto.
  - discriminate H.
  - destruct m as [|m]; [lia|]. apply IH; auto. lia.
Qed.

Lemma while_below_minus_PI_more (n : nat) : forall v r m,
  while_below_minus_PI n v = Some r -> (n <= m)%nat ->
  while_below_minus_PI m v = Some r.
Proof.
  induction n as [|n IH]; intros v r m H Hle;
    rewrite while_below_minus_PI_eq in H; rewrite while_below_minus_PI_eq;
    destruct (v <? Fin (- JsMath.PI))%num; auto.
  - discriminate H.
  - destruct m as [|m]; [lia|]. apply IH; auto. lia.
Qed.

Lemma normalizeSignedAngle_fuel_more (n m : nat) (v r : num) :
  normalizeSignedAngle_fuel n v = Some r -> (n <= m)%nat ->
  normalizeSignedAngle_fuel m v = Some r.
Proof.
  unfold normalizeSignedAngle_fuel, bind. intros H Hle.
  destruct (while_above_PI n v) as [w|] eqn:E; [|discriminate].
  rewrite (while_above_PI_more n v w m E Hle).
  apply (while_below_minus_PI_more n); auto.
Qed.

(** [turns] is enough fuel: whenever the loops exit within some fuel,
    [normalizeSignedAngle] returns what they return. *)
Lemma normalizeSignedAngle_enough (fuel : nat) (v r : num) :
  normalizeSignedAngle_fuel fuel v = Some r -> normalizeSignedAngle v = Some r.
Proof.
  intros H. destruct v as [| | |q].
  - destruct fuel; simpl in H; inversion H; reflexivity.
  - rewrite (proj1 (normalizeSignedAngle_diverges fuel)) in H. discriminate.
  - rewrite (proj2 (normalizeSignedAngle_diverges fuel)) in H. discriminate.
  - destruct (normalizeSignedAngle_finite q) as (r' & E & _).
    rewrite E. unfold normalizeSignedAngle in E.
    pose proof (normalizeSignedAngle_fuel_more _ (Nat.max fuel (turns (Fin q))) _ _ H
                  (Nat.le_max_l _ _)) as H1.
    pose proof (normalizeSignedAngle_fuel_more _ (Nat.max fuel (turns (Fin q))) _ _ E
                  (Nat.le_max_r _ _)) as H2.
    congruence.
Qed.

Lemma Qsquare_scaled_nonneg (d f : Q) : 0 <= f -> 0 <= d * (d * f).
Proof.
  intros Hf.
  assert (E : d * (d * f) == (d * d) * f) by ring.
  rewrite E. apply Qmult_le_0_compat; auto.
  destruct (Qlt_le_dec d 0) as [Hneg|Hpos].
  - assert (E2 : d * d == (- d) * (- d)) by ring.
    rewrite E2. apply Qmult_le_0_compat; lra.
  - apply Qmult_le_0_compat; lra.
Qed.

(** C7: [lerpAngle] blends along the shortest arc.  With both angles
    brought into [[0, 2 PI]] by [zeroToTwoPi], the result is the start
    moved by [d * factor], where [d] is the difference of the two angles
    taken with the whole turn that makes it smallest: it is at most half
    a turn, no other choice of turns is shorter, and for a factor in
    [[0, 1]] the move is a part of [d] in the direction of [d]. *)
Theorem lerpAngle_shortest_arc (s e f : Q) :
  0 <= f -> f <= 1 ->
  exists s' e' d,
    CesiumMath.zeroToTwoPi (Fin s) = Fin s'
    /\ CesiumMath.zeroToTwoPi (Fin e) = Fin e'
    /\ lerpAngle (Fin s) (Fin e) (Fin f) = CesiumMath.zeroToTwoPi (Fin (s' + d * f))
    /\ (d == e' - s' \/ d == e' - s' - CesiumMath.TWO_PI \/ d == e' - s' + CesiumMath.TWO_PI)
    /\ Qabs d <= JsMath.PI
    /\ (forall k : Z, Qabs d <= Qabs (e' - s' + inject_Z k * CesiumMath.TWO_PI))
    /\ Qabs (d * f) <= Qabs d
    /\ 0 <= d * (d * f).
Proof.
  intros Hf0 Hf1.
  pose proof TWO_PI_pos as Hpos. pose proof PI_pos as HPI.
  assert (Htwo : CesiumMath.TWO_PI == 2 * JsMath.PI) by reflexivity.
  destruct (zeroToTwoPi_range s) as (s' & Es & Hs0 & Hs1).
  destruct (zeroToTwoPi_range e) as (e' & Ee & He0 & He1).
  unfold lerpAngle. rewrite Es, Ee.
  change (Fin e' - Fin s')%num with (Fin (e' + - s')).
  assert (Hscale : forall d, Qabs (d * f) <= Qabs d).
  { intro d. rewrite Qabs_Qmult. rewrite (Qabs_pos f) by lra.
    pose proof (Qabs_nonneg d) as Hn.
    assert (H : 0 <= Qabs d * (1 - f)) by (apply Qmult_le_0_compat; lra).
    lra. }
  assert (Hmin : forall d, Qabs d <= JsMath.PI ->
                 (d == e' - s' \/ d == e' - s' - CesiumMath.TWO_PI \/ d == e' - s' + CesiumMath.TWO_PI) ->
                 forall k : Z, Qabs d <= Qabs (e' - s' + inject_Z k * CesiumMath.TWO_PI)).
  { intros d Hd Hcase k.
    destruct Hcase as [E|[E|E]].
    - assert (E' : e' - s' + inject_Z k * CesiumMath.TWO_PI == d + inject_Z k * CesiumMath.TWO_PI)
        by (rewrite E; ring).
      rewrite E', Htwo. apply Qabs_shift; auto.
    - assert (E' : e' - s' + inject_Z k * CesiumMath.TWO_PI == d + inject_Z (k + 1) * CesiumMath.TWO_PI)
        by (rewrite E, inject_Z_plus; change (inject_Z 1) with 1; ring).
      rewrite E', Htwo. apply Qabs_shift; auto.
    - assert (E' : e' - s' + inject_Z k * CesiumMath.TWO_PI == d + inject_Z (k + -1) * CesiumMath.TWO_PI)
        by (rewrite E, inject_Z_plus; change (inject_Z (-1)) with (-1); ring).
      rewrite E', Htwo. apply Qabs_shift; auto. }
  unfold Num.gtb. simpl Num.ltb.
  destruct (Num.Qltb JsMath.PI (e' + - s')) eqn:C1;
    [apply Qltb_true in C1 | apply Qltb_false in C1].
  - exists s', e', (e' + - s' + - CesiumMath.TWO_PI).
    assert (Hd : Qabs (e' + - s' + - CesiumMath.TWO_PI) <= JsMath.PI)
      by (apply Qabs_Qle_condition; split; lra).
    pose proof (Qsquare_scaled_nonneg) as Hsq.
    repeat split; auto.
    + right; left; ring.
    + apply Hmin; auto. right; left; ring.
  - destruct (Num.Qltb (e' + - s') (- JsMath.PI)) eqn:C2;
      [apply Qltb_true in C2 | apply Qltb_false in C2].
    + exists s', e', (e' + - s' + CesiumMath.TWO_PI).
      assert (Hd : Qabs (e' + - s' + CesiumMath.TWO_PI) <= JsMath.PI)
        by (apply Qabs_Qle_condition; split; lra).
      pose proof (Qsquare_scaled_nonneg) as Hsq.
    repeat split; auto.
      * right; right; ring.
      * apply Hmin; auto. right; right; ring.
    + exists s', e', (e' + - s').
      assert (Hd : Qabs (e' + - s') <= JsMath.PI)
        by (apply Qabs_Qle_condition; split; lra).
      pose proof (Qsquare_scaled_nonneg) as Hsq.
    repeat split; auto.
      * left; ring.
      * apply Hmin; auto. left; ring.
Qed.

Lemma lerpAngle_shortest_arc_witness :
  exists s' e' d,
    CesiumMath.zeroToTwoPi (Fin (350 * CesiumMath.RADIANS_PER_DEGREE)) = Fin s'
    /\ CesiumMath.zeroToTwoPi (Fin (10 * CesiumMath.RADIANS_PER_DEGREE)) = Fin e'
    /\ lerpAngle (Fin (350 * CesiumMath.RADIANS_PER_DEGREE))
         (Fin (10 * CesiumMath.RADIANS_PER_DEGREE)) (Fin (1 # 2))
       = CesiumMath.zeroToTwoPi (Fin (s' + d * (1 # 2)))
    /\ (d == e' - s' \/ d == e' - s' - CesiumMath.TWO_PI
        \/ d == e' - s' + CesiumMath.TWO_PI)
    /\ Qabs d <= JsMath.PI
    /\ (forall k : Z, Qabs d <= Qabs (e' - s' + inject_Z k * CesiumMath.TWO_PI))
    /\ Qabs (d * (1 # 2)) <= Qabs d
    /\ 0 <= d * (d * (1 # 2)).
Proof.
  apply (lerpAngle_shortest_arc (350 * CesiumMath.RADIANS_PER_DEGREE)
           (10 * CesiumMath.RADIANS_PER_DEGREE) (1 # 2)); vm_compute; discriminate.
Defined.

(** From 350 degrees toward 10 degrees the blend goes up through 360
    degrees: a quarter of the way it is at 355 degrees, half way at a
    whole turn, three quarters of the way at 5 degrees. *)
Example lerpAngle_350_toward_10 :
  exists a b c,
    lerpAngle (CesiumMath.toRadians (Fin 350)) (CesiumMath.toRadians (Fin 10))
      (Fin 0.25) = Fin a
    /\ a == 355 * CesiumMath.RADIANS_PER_DEGREE
    /\ lerpAngle (CesiumMath.toRadians (Fin 350)) (CesiumMath.toRadians (Fin 10))
         (Fin 0.5) = Fin b
    /\ b == CesiumMath.TWO_PI
    /\ lerpAngle (CesiumMath.toRadians (Fin 350)) (CesiumMath.toRadians (Fin 10))
         (Fin 0.75) = Fin c
    /\ c == 5 * CesiumMath.RADIANS_PER_DEGREE.
Proof.
  do 3 eexists.
  split; [vm_compute; reflexivity|]. split; [vm_compute; reflexivity|].
  split; [vm_compute; reflexivity|]. split; [vm_compute; reflexivity|].
  split; [vm_compute; reflexivity|]. vm_compute; reflexivity.
Qed.

(** ** What the pose pipeline leaves alone *)

Create Rewrite HintDb frame.

(** [frame] proves that a view of the robot survives a function built
    from field updates and from functions already known to keep it. *)
Ltac frame_step :=
  first
    [ progress autorewrite with frame
    | progress cbn [fst snd]
    | match goal with
      | |- _ (match ?x with _ => _ end) = _ =>
          lazymatch type of x with
          | prod _ _ => rewrite (surjective_pairing x); cbv beta iota
          | _ => destruct x eqn:?
          end
      | |- _ (snd (match ?x with _ => _ end)) = _ =>
          lazymatch type of x with
          | prod _ _ => rewrite (surjective_pairing x); cbv beta iota
          | _ => destruct x eqn:?
          end
      end
    | reflexivity ].

Ltac frame := intros; repeat frame_step.

Lemma wiring_set_ingest (v : Ingest) (r : G1Robot) :
  wiring (set_ingest v r) = wiring r.
Proof. reflexivity. Qed.

Lemma wiring_set_terrain (v : TerrainHeightState) (r : G1Robot) :
  wiring (set_terrain v r) = wiring r.
Proof. reflexivity. Qed.

Lemma wiring_set_calibration (v : HeadingCalibrationState) (r : G1Robot) :
  wiring (set_calibration v r) = wiring r.
Proof. reflexivity. Qed.

Lemma wiring_set_render (v : Render) (r : G1Robot) :
  wiring (set_render v r) = wiring r.
Proof. reflexivity. Qed.

Lemma wiring_set_motion (v : Motion) (r : G1Robot) :
  wiring (set_motion v r) = wiring r.
Proof. reflexivity. Qed.

Lemma wiring_set_perf (v : Perf) (r : G1Robot) :
  wiring (set_perf v r) = wiring r.
Proof. reflexivity. Qed.

Lemma wiring_set_links (v : Links) (r : G1Robot) :
  wiring (set_links v r) = wiring r.
Proof. reflexivity. Qed.

Lemma wiring_set_out (v : Out) (r : G1Robot) :
  wiring (set_out v r) = wiring r.
Proof. reflexivity. Qed.

Lemma ingest_set_terrain (v : TerrainHeightState) (r : G1Robot) :
  ingest (set_terrain v r) = ingest r.
Proof. reflexivity. Qed.

Lemma ingest_set_calibration (v : HeadingCalibrationState) (r : G1Robot) :
  ingest (set_calibration v r) = ingest r.
Proof. reflexivity. Qed.

Lemma ingest_set_render (v : Render) (r : G1Robot) :
  ingest (set_render v r) = ingest r.
Proof. reflexivity. Qed.

Lemma ingest_set_motion (v : Motion) (r : G1Robot) :
  ingest (set_motion v r) = ingest r.
Proof. reflexivity. Qed.

Lemma ingest_set_perf (v : Perf) (r : G1Robot) :
  ingest (set_perf v r) = ingest r.
Proof. reflexivity. Qed.

Lemma ingest_set_links (v : Links) (r : G1Robot) :
  ingest (set_links v r) = ingest r.
Proof. reflexivity. Qed.

Lemma ingest_set_conn (v : Conn) (r : G1Robot) :
  ingest (set_conn v r) = ingest r.
Proof. reflexivity. Qed.

Lemma ingest_set_browser (v : Browser) (r : G1Robot) :
  ingest (set_browser v r) = ingest r.
Proof. reflexivity. Qed.

Lemma ingest_set_out (v : Out) (r : G1Robot) :
  ingest (set_out v r) = ingest r.
Proof. reflexivity. Qed.

Lemma calibration_set_ingest (v : Ingest) (r : G1Robot) :
  calibration (set_ingest v r) = calibration r.
Proof. reflexivity. Qed.

Lemma calibration_set_terrain (v : TerrainHeightState) (r : G1Robot) :
  calibration (set_terrain v r) = calibration r.
Proof. reflexivity. Qed.

Lemma calibration_set_render (v : Render) (r : G1Robot) :
  calibration (set_render v r) = calibration r.
Proof. reflexivity. Qed.

Lemma calibration_set_motion (v : Motion) (r : G1Robot) :
  calibration (set_motion v r) = calibration r.
Proof. reflexivity. Qed.

Lemma calibration_set_perf (v : Perf) (r : G1Robot) :
  calibration (set_perf v r) = calibration r.
Proof. reflexivity. Qed.

Lemma calibration_set_links (v : Links) (r : G1Robot) :
  calibration (set_links v r) = calibration r.
Proof. reflexivity. Qed.

Lemma calibration_set_conn (v : Conn) (r : G1Robot) :
  calibration (set_conn v r) = calibration r.
Proof. reflexivity. Qed.

Lemma calibration_set_browser (v : Browser) (r : G1Robot) :
  calibration (set_browser v r) = calibration r.
Proof. reflexivity. Qed.

Lemma calibration_set_out (v : Out) (r : G1Robot) :
  calibration (set_out v r) = calibration r.
Proof. reflexivity. Qed.

#[export] Hint Rewrite wiring_set_ingest wiring_set_terrain wiring_set_calibration wiring_set_render wiring_set_motion wiring_set_perf wiring_set_links wiring_set_out ingest_set_terrain ingest_set_calibration ingest_set_render ingest_set_motion ingest_set_perf ingest_set_links ingest_set_conn ingest_set_browser ingest_set_out calibration_set_ingest calibration_set_terrain calibration_set_render calibration_set_motion calibration_set_perf calibration_set_links calibration_set_conn calibration_set_browser calibration_set_out : frame.

Lemma set_localStorage_wiring s r :
  wiring (set_localStorage s r) = wiring r.
Proof. reflexivity. Qed.

Lemma set_localStorage_ingest s r :
  ingest (set_localStorage s r) = ingest r.
Proof. reflexivity. Qed.

Lemma set_localStorage_calibration s r :
  calibration (set_localStorage s r) = calibration r.
Proof. reflexivity. Qed.

Lemma set_modelHeadingOffset_wiring v r :
  wiring (set_modelHeadingOffset v r) = wiring r.
Proof. reflexivity. Qed.

Lemma set_modelHeadingOffset_ingest v r :
  ingest (set_modelHeadingOffset v r) = ingest r.
Proof. reflexivity. Qed.

Lemma bump_perfWsOut_wiring r :
  wiring (bump_perfWsOut r) = wiring r.
Proof. reflexivity. Qed.

Lemma bump_perfWsOut_ingest r :
  ingest (bump_perfWsOut r) = ingest r.
Proof. reflexivity. Qed.

Lemma bump_perfWsOut_calibration r :
  calibration (bump_perfWsOut r) = calibration r.
Proof. reflexivity. Qed.

Lemma bump_perfTerrainQueries_wiring r :
  wiring (bump_perfTerrainQueries r) = wiring r.
Proof. reflexivity. Qed.

Lemma bump_perfTerrainQueries_ingest r :
  ingest (bump_perfTerrainQueries r) = ingest r.
Proof. reflexivity. Qed.

Lemma bump_perfTerrainQueries_calibration r :
  calibration (bump_perfTerrainQueries r) = calibration r.
Proof. reflexivity. Qed.

Lemma bump_perfPoseApplied_wiring r :
  wiring (bump_perfPoseApplied r) = wiring r.
Proof. reflexivity. Qed.

Lemma bump_perfPoseApplied_ingest r :
  ingest (bump_perfPoseApplied r) = ingest r.
Proof. reflexivity. Qed.

Lemma bump_perfPoseApplied_calibration r :
  calibration (bump_perfPoseApplied r) = calibration r.
Proof. reflexivity. Qed.

Lemma bump_perfWsIn_wiring r :
  wiring (bump_perfWsIn r) = wiring r.
Proof. reflexivity. Qed.

Lemma bump_perfWsIn_ingest r :
  ingest (bump_perfWsIn r) = ingest r.
Proof. reflexivity. Qed.

Lemma bump_perfWsIn_calibration r :
  calibration (bump_perfWsIn r) = calibration r.
Proof. reflexivity. Qed.

Lemma set_primitive_wiring p r :
  wiring (set_primitive p r) = wiring r.
Proof. reflexivity. Qed.

Lemma set_primitive_ingest p r :
  ingest (set_primitive p r) = ingest r.
Proof. reflexivity. Qed.

Lemma set_primitive_calibration p r :
  calibration (set_primitive p r) = calibration r.
Proof. reflexivity. Qed.

Lemma set_position_wiring p r :
  wiring (set_position p r) = wiring r.
Proof. reflexivity. Qed.

Lemma set_position_ingest p r :
  ingest (set_position p r) = ingest r.
Proof. reflexivity. Qed.

Lemma set_position_calibration p r :
  calibration (set_position p r) = calibration r.
Proof. reflexivity. Qed.

Lemma set_lastProcessedT_wiring v r :
  wiring (set_lastProcessedT v r) = wiring r.
Proof. reflexivity. Qed.

Lemma set_lastProcessedT_calibration v r :
  calibration (set_lastProcessedT v r) = calibration r.
Proof. reflexivity. Qed.

Lemma set_lastPoseApplyMs_wiring v r :
  wiring (set_lastPoseApplyMs v r) = wiring r.
Proof. reflexivity. Qed.

Lemma set_lastPoseApplyMs_calibration v r :
  calibration (set_lastPoseApplyMs v r) = calibration r.
Proof. reflexivity. Qed.

Lemma set_latestPayload_wiring p r :
  wiring (set_latestPayload p r) = wiring r.
Proof. reflexivity. Qed.

Lemma set_latestPayload_calibration p r :
  calibration (set_latestPayload p r) = calibration r.
Proof. reflexivity. Qed.

Lemma set_dynamicObstacleSeq_calibration v r :
  calibration (set_dynamicObstacleSeq v r) = calibration r.
Proof. reflexivity. Qed.

Lemma set_timers_calibration l n r :
  calibration (set_timers l n r) = calibration r.
Proof. reflexivity. Qed.

Lemma clearTimer_calibration id r :
  calibration (clearTimer id r) = calibration r.
Proof. reflexivity. Qed.

Lemma set_sockets_calibration l r :
  calibration (set_sockets l r) = calibration r.
Proof. reflexivity. Qed.

Lemma cancelPendingVisionCapture_calibration r :
  calibration (cancelPendingVisionCapture r) = calibration r.
Proof. reflexivity. Qed.

Lemma set_perceptionTimers_calibration f p r :
  calibration (set_perceptionTimers f p r) = calibration r.
Proof. reflexivity. Qed.

Lemma bump_terrainProbe_calibration r :
  calibration (bump_terrainProbe r) = calibration r.
Proof. reflexivity. Qed.

Lemma set_ws_calibration v r :
  calibration (set_ws v r) = calibration r.
Proof. reflexivity. Qed.

Lemma set_reconnectTimer_calibration v r :
  calibration (set_reconnectTimer v r) = calibration r.
Proof. reflexivity. Qed.

Lemma set_destroyed_calibration v r :
  calibration (set_destroyed v r) = calibration r.
Proof. reflexivity. Qed.

Lemma loadNodeMap_calibration f r :
  calibration (loadNodeMap f r) = calibration r.
Proof. destruct f; reflexivity. Qed.

Lemma Vehicle_initialize_calibration g r :
  calibration (Vehicle_initialize g r) = calibration r.
Proof. reflexivity. Qed.

#[export] Hint Rewrite set_localStorage_wiring set_localStorage_ingest set_localStorage_calibration set_modelHeadingOffset_wiring set_modelHeadingOffset_ingest bump_perfWsOut_wiring bump_perfWsOut_ingest bump_perfWsOut_calibration bump_perfTerrainQueries_wiring bump_perfTerrainQueries_ingest bump_perfTerrainQueries_calibration bump_perfPoseApplied_wiring bump_perfPoseApplied_ingest bump_perfPoseApplied_calibration bump_perfWsIn_wiring bump_perfWsIn_ingest bump_perfWsIn_calibration set_primitive_wiring set_primitive_ingest set_primitive_calibration set_position_wiring set_position_ingest set_position_calibration set_lastProcessedT_wiring set_lastProcessedT_calibration set_lastPoseApplyMs_wiring set_lastPoseApplyMs_calibration set_latestPayload_wiring set_latestPayload_calibration set_dynamicObstacleSeq_calibration set_timers_calibration clearTimer_calibration set_sockets_calibration cancelPendingVisionCapture_calibration set_perceptionTimers_calibration bump_terrainProbe_calibration set_ws_calibration set_reconnectTimer_calibration set_destroyed_calibration loadNodeMap_calibration Vehicle_initialize_calibration : frame.

Lemma emitStatus_wiring m r :
  wiring (emitStatus m r) = wiring r.
Proof. unfold emitStatus. frame. Qed.

Lemma emitStatus_ingest m r :
  ingest (emitStatus m r) = ingest r.
Proof. unfold emitStatus. frame. Qed.

Lemma emitStatus_calibration m r :
  calibration (emitStatus m r) = calibration r.
Proof. unfold emitStatus. frame. Qed.

#[export] Hint Rewrite emitStatus_wiring emitStatus_ingest emitStatus_calibration : frame.

Lemma emitStreamState_calibration s r :
  calibration (emitStreamState s r) = calibration r.
Proof. unfold emitStreamState. frame. Qed.

#[export] Hint Rewrite emitStreamState_calibration : frame.

Lemma persistHeadingOffset_wiring r :
  wiring (persistHeadingOffset r) = wiring r.
Proof. unfold persistHeadingOffset. frame. Qed.

Lemma persistHeadingOffset_ingest r :
  ingest (persistHeadingOffset r) = ingest r.
Proof. unfold persistHeadingOffset. frame. Qed.

Lemma persistHeadingOffset_calibration r :
  calibration (persistHeadingOffset r) = calibration r.
Proof. unfold persistHeadingOffset. frame. Qed.

#[export] Hint Rewrite persistHeadingOffset_wiring persistHeadingOffset_ingest persistHeadingOffset_calibration : frame.

Lemma sendWsPayload_calibration p r :
  calibration (sendWsPayload p r) = calibration r.
Proof. unfold sendWsPayload. frame. Qed.

#[export] Hint Rewrite sendWsPayload_calibration : frame.

Lemma maybeEmitPerfStatus_wiring now r :
  wiring (maybeEmitPerfStatus now r) = wiring r.
Proof. unfold maybeEmitPerfStatus. frame. Qed.

Lemma maybeEmitPerfStatus_ingest now r :
  ingest (maybeEmitPerfStatus now r) = ingest r.
Proof. unfold maybeEmitPerfStatus. frame. Qed.

Lemma maybeEmitPerfStatus_calibration now r :
  calibration (maybeEmitPerfStatus now r) = calibration r.
Proof. unfold maybeEmitPerfStatus. frame. Qed.

#[export] Hint Rewrite maybeEmitPerfStatus_wiring maybeEmitPerfStatus_ingest maybeEmitPerfStatus_calibration : frame.

Lemma updateModelMatrix_wiring r :
  wiring (updateModelMatrix r) = wiring r.
Proof. unfold updateModelMatrix. frame. Qed.

Lemma updateModelMatrix_ingest r :
  ingest (updateModelMatrix r) = ingest r.
Proof. unfold updateModelMatrix. frame. Qed.

Lemma updateModelMatrix_calibration r :
  calibration (updateModelMatrix r) = calibration r.
Proof. unfold updateModelMatrix. frame. Qed.

#[export] Hint Rewrite updateModelMatrix_wiring updateModelMatrix_ingest updateModelMatrix_calibration : frame.

Lemma emitNavigationContext_wiring nav r :
  wiring (emitNavigationContext nav r) = wiring r.
Proof. unfold emitNavigationContext. frame. Qed.

Lemma emitNavigationContext_ingest nav r :
  ingest (emitNavigationContext nav r) = ingest r.
Proof. unfold emitNavigationContext. frame. Qed.

Lemma emitNavigationContext_calibration nav r :
  calibration (emitNavigationContext nav r) = calibration r.
Proof. unfold emitNavigationContext. frame. Qed.

#[export] Hint Rewrite emitNavigationContext_wiring emitNavigationContext_ingest emitNavigationContext_calibration : frame.

Lemma updateSpeedEstimate_wiring L d s r :
  wiring (updateSpeedEstimate L d s r) = wiring r.
Proof. unfold updateSpeedEstimate. frame. Qed.

Lemma updateSpeedEstimate_ingest L d s r :
  ingest (updateSpeedEstimate L d s r) = ingest r.
Proof. unfold updateSpeedEstimate. frame. Qed.

Lemma updateSpeedEstimate_calibration L d s r :
  calibration (updateSpeedEstimate L d s r) = calibration r.
Proof. unfold updateSpeedEstimate. frame. Qed.

#[export] Hint Rewrite updateSpeedEstimate_wiring updateSpeedEstimate_ingest updateSpeedEstimate_calibration : frame.

Lemma sendDynamicObstacles_calibration d obs r :
  calibration (sendDynamicObstacles d obs r) = calibration r.
Proof. unfold sendDynamicObstacles. frame. Qed.

#[export] Hint Rewrite sendDynamicObstacles_calibration : frame.

Lemma socket_close_calibration sock r :
  calibration (socket_close sock r) = calibration r.
Proof. unfold socket_close. frame. Qed.

#[export] Hint Rewrite socket_close_calibration : frame.

Lemma stopPerceptionStreaming_calibration r :
  calibration (stopPerceptionStreaming r) = calibration r.
Proof. unfold stopPerceptionStreaming. frame. Qed.

#[export] Hint Rewrite stopPerceptionStreaming_calibration : frame.

Lemma closeSocket_calibration r :
  calibration (closeSocket r) = calibration r.
Proof. unfold closeSocket. frame. Qed.

#[export] Hint Rewrite closeSocket_calibration : frame.

Lemma connectStream_calibration r :
  calibration (connectStream r) = calibration r.
Proof. unfold connectStream. frame. Qed.

#[export] Hint Rewrite connectStream_calibration : frame.

Lemma ws_onmessage_calibration data r :
  calibration (ws_onmessage data r) = calibration r.
Proof. unfold ws_onmessage, isStatusMessage. frame. Qed.

#[export] Hint Rewrite ws_onmessage_calibration : frame.

Lemma ws_onerror_calibration r :
  calibration (ws_onerror r) = calibration r.
Proof. unfold ws_onerror. frame. Qed.

#[export] Hint Rewrite ws_onerror_calibration : frame.

Lemma Vehicle_destroy_calibration r :
  calibration (Vehicle_destroy r) = calibration r.
Proof. unfold Vehicle_destroy. frame. Qed.

#[export] Hint Rewrite Vehicle_destroy_calibration : frame.

Lemma destroy_calibration r :
  calibration (destroy r) = calibration r.
Proof. unfold destroy. frame. Qed.

#[export] Hint Rewrite destroy_calibration : frame.

Lemma initialize_calibration g f r :
  calibration (initialize g f r) = calibration r.
Proof. unfold initialize. frame. Qed.

#[export] Hint Rewrite initialize_calibration : frame.

Lemma modelReady_calibration r :
  calibration (modelReady r) = calibration r.
Proof. unfold modelReady. frame. Qed.

#[export] Hint Rewrite modelReady_calibration : frame.

Lemma getNode_wiring m n r : wiring (snd (getNode m n r)) = wiring r.
Proof. unfold getNode. frame. Qed.
Lemma getNode_ingest m n r : ingest (snd (getNode m n r)) = ingest r.
Proof. unfold getNode. frame. Qed.
Lemma getNode_calibration m n r : calibration (snd (getNode m n r)) = calibration r.
Proof. unfold getNode. frame. Qed.
#[export] Hint Rewrite getNode_wiring getNode_ingest getNode_calibration : frame.

Lemma applyLink_wiring name pose r : wiring (applyLink name pose r) = wiring r.
Proof. unfold applyLink. frame. Qed.
Lemma applyLink_ingest name pose r : ingest (applyLink name pose r) = ingest r.
Proof. unfold applyLink. frame. Qed.
Lemma applyLink_calibration name pose r :
  calibration (applyLink name pose r) = calibration r.
Proof. unfold applyLink. frame. Qed.

(** A view that every turn of a loop keeps is kept by the loop. *)
Lemma fold_left_keeps {A V : Type} (view : G1Robot -> V)
  (f : G1Robot -> A -> G1Robot) :
  (forall r a, view (f r a) = view r) ->
  forall l r, view (fold_left f l r) = view r.
Proof.
  intros Hf l. induction l as [|a l IH]; intros r; simpl; auto.
  rewrite IH. apply Hf.
Qed.

Lemma applyLinkAnimation_wiring poses r :
  wiring (applyLinkAnimation poses r) = wiring r.
Proof.
  unfold applyLinkAnimation. frame.
  apply fold_left_keeps. intros. apply applyLink_wiring.
Qed.
Lemma applyLinkAnimation_ingest poses r :
  ingest (applyLinkAnimation poses r) = ingest r.
Proof.
  unfold applyLinkAnimation. frame.
  apply fold_left_keeps. intros. apply applyLink_ingest.
Qed.
Lemma applyLinkAnimation_calibration poses r :
  calibration (applyLinkAnimation poses r) = calibration r.
Proof.
  unfold applyLinkAnimation. frame.
  apply fold_left_keeps. intros. apply applyLink_calibration.
Qed.

Lemma sampleTerrainHeight_wiring e r :
  wiring (snd (sampleTerrainHeight e r)) = wiring r.
Proof. unfold sampleTerrainHeight. frame. Qed.
Lemma sampleTerrainHeight_ingest e r :
  ingest (snd (sampleTerrainHeight e r)) = ingest r.
Proof. unfold sampleTerrainHeight. frame. Qed.
Lemma sampleTerrainHeight_calibration e r :
  calibration (snd (sampleTerrainHeight e r)) = calibration r.
Proof. unfold sampleTerrainHeight. frame. Qed.

Lemma estimateMotionHeading_wiring L lat lon r :
  wiring (snd (estimateMotionHeading L lat lon r)) = wiring r.
Proof. unfold estimateMotionHeading. frame. Qed.
Lemma estimateMotionHeading_ingest L lat lon r :
  ingest (snd (estimateMotionHeading L lat lon r)) = ingest r.
Proof. unfold estimateMotionHeading. frame. Qed.
Lemma estimateMotionHeading_calibration L lat lon r :
  calibration (snd (estimateMotionHeading L lat lon r)) = calibration r.
Proof. unfold estimateMotionHeading. frame. Qed.

#[export] Hint Rewrite applyLinkAnimation_wiring applyLinkAnimation_ingest
  applyLinkAnimation_calibration sampleTerrainHeight_wiring
  sampleTerrainHeight_ingest sampleTerrainHeight_calibration
  estimateMotionHeading_wiring estimateMotionHeading_ingest
  estimateMotionHeading_calibration : frame.

(** The same for a function that may not return: [frame_in H] reads the
    result off [H : f r = Some r'], one branch of [f] at a time. *)
Ltac innermost t k :=
  lazymatch t with
  | match ?x with _ => _ end => innermost x k
  | _ => k t
  end.

Ltac break_head H :=
  match type of H with
  | match ?x with _ => _ end = _ => innermost x ltac:(fun y => destruct y eqn:?)
  end.

Ltac frame_in H :=
  unfold bind in H;
  repeat break_head H; try discriminate H;
  try (inversion H; subst; clear H);
  frame.

Lemma maybeAutoCalibrateHeading_wiring mh r r' :
  maybeAutoCalibrateHeading mh r = Some r' -> wiring r' = wiring r.
Proof. unfold maybeAutoCalibrateHeading. intros H. frame_in H. Qed.

Lemma maybeAutoCalibrateHeading_ingest mh r r' :
  maybeAutoCalibrateHeading mh r = Some r' -> ingest r' = ingest r.
Proof. unfold maybeAutoCalibrateHeading. intros H. frame_in H. Qed.

Lemma applyRootTransform_wiring L q mh r r' :
  applyRootTransform L q mh r = Some r' -> wiring r' = wiring r.
Proof.
  unfold applyRootTransform. destruct q as [[[qw qx] qy] qz].
  intros H. unfold bind in H.
  repeat (break_head H; try discriminate H).
  all: inversion H; subst; clear H.
  all: match goal with
       | E : maybeAutoCalibrateHeading _ _ = Some _ |- _ =>
           apply maybeAutoCalibrateHeading_wiring in E; rename E into Hw
       end.
  all: frame; rewrite Hw; frame.
Qed.

Lemma applyRootTransform_ingest L q mh r r' :
  applyRootTransform L q mh r = Some r' -> ingest r' = ingest r.
Proof.
  unfold applyRootTransform. destruct q as [[[qw qx] qy] qz].
  intros H. unfold bind in H.
  repeat (break_head H; try discriminate H).
  all: inversion H; subst; clear H.
  all: match goal with
       | E : maybeAutoCalibrateHeading _ _ = Some _ |- _ =>
           apply maybeAutoCalibrateHeading_ingest in E; rename E into Hw
       end.
  all: frame; rewrite Hw; frame.
Qed.

Lemma applyPose_wiring L e p r r' :
  applyPose L e p r = Some r' -> wiring r' = wiring r.
Proof.
  unfold applyPose. intros H.
  break_head H; [|inversion H; reflexivity].
  break_head H; [inversion H; subst; frame|].
  break_head H; [inversion H; subst; frame|].
  rewrite (surjective_pairing (sampleTerrainHeight _ _)) in H.
  rewrite (surjective_pairing (estimateMotionHeading _ _ _ _)) in H.
  unfold bind in H. break_head H; [|discriminate].
  inversion H; subst; clear H.
  match goal with
  | E : applyRootTransform _ _ _ _ = Some _ |- _ =>
      apply applyRootTransform_wiring in E; rename E into Hw
  end.
  frame. rewrite Hw. frame.
Qed.

Lemma applyPose_ingest L e p r r' :
  applyPose L e p r = Some r' -> ingest r' = ingest r.
Proof.
  unfold applyPose. intros H.
  break_head H; [|inversion H; reflexivity].
  break_head H; [inversion H; subst; frame|].
  break_head H; [inversion H; subst; frame|].
  rewrite (surjective_pairing (sampleTerrainHeight _ _)) in H.
  rewrite (surjective_pairing (estimateMotionHeading _ _ _ _)) in H.
  unfold bind in H. break_head H; [|discriminate].
  inversion H; subst; clear H.
  match goal with
  | E : applyRootTransform _ _ _ _ = Some _ |- _ =>
      apply applyRootTransform_ingest in E; rename E into Hw
  end.
  frame. rewrite Hw. frame.
Qed.

(** ** Pose ingestion *)

Lemma eqb_refl_finite (x : num) : Num.isFinite x = true -> (x === x)%num = true.
Proof. destruct x; simpl; try discriminate. intros _. apply Qeq_bool_refl. Qed.

Lemma applyFrame_ingest L e p r r' :
  applyFrame L e p r = Some r' ->
  ingest r' = {| latestPayload := latestPayload (ingest r);
                 lastProcessedT := lastProcessedT (ingest r);
                 lastPoseApplyMs := Fin (update_now e) |}.
Proof.
  unfold applyFrame, bind. intros H.
  destruct (applyPose L e p _) as [r1|] eqn:E; [|discriminate].
  inversion H; subst; clear H.
  apply applyPose_ingest in E. frame. rewrite E. reflexivity.
Qed.

Lemma applyFrame_wiring L e p r r' :
  applyFrame L e p r = Some r' -> wiring r' = wiring r.
Proof.
  unfold applyFrame, bind. intros H.
  destruct (applyPose L e p _) as [r1|] eqn:E; [|discriminate].
  inversion H; subst; clear H.
  apply applyPose_wiring in E. frame. rewrite E. frame.
Qed.

(** A stored payload whose finite timestamp is the last one processed is
    a duplicate: the tick returns the robot it was given. *)
Lemma update_duplicate (L : Lib) (e : TickEnv) (r : G1Robot)
  (payload : G1PosePayload) :
  latestPayload (ingest r) = Some payload ->
  Num.isFinite (Num.ofOption (p_t payload)) = true ->
  lastProcessedT (ingest r) = Num.ofOption (p_t payload) ->
  update L e r = Some r.
Proof.
  intros Hl Hfin Ht. unfold update. rewrite Hl.
  destruct (p_root payload); auto.
  rewrite Ht, Hfin, (eqb_refl_finite _ Hfin). reflexivity.
Qed.

(** C2: running the per-tick update twice on the same stored payload with
    a finite timestamp changes the robot only once: whatever the first
    run did, the second returns the robot it was given, so no render,
    terrain, calibration or speed state changes. *)
Theorem update_twice_same_payload (L : Lib) (e1 e2 : TickEnv) (r r1 : G1Robot)
  (payload : G1PosePayload) :
  latestPayload (ingest r) = Some payload ->
  Num.isFinite (Num.ofOption (p_t payload)) = true ->
  update L e1 r = Some r1 ->
  update L e2 r1 = Some r1.
Proof.
  intros Hp Hfin H1.
  assert (Hdup : forall r1, latestPayload (ingest r1) = Some payload ->
                   lastProcessedT (ingest r1) = Num.ofOption (p_t payload) ->
                   update L e2 r1 = Some r1).
  { intros r2 Hl Ht. apply (update_duplicate L e2 r2 payload); auto. }
  unfold update in H1. rewrite Hp in H1.
  destruct (p_root payload) eqn:Hroot.
  2:{ inversion H1; subst. unfold update. rewrite Hp, Hroot. reflexivity. }
  rewrite Hfin in H1. cbn [andb] in H1.
  destruct (Num.ofOption (p_t payload) === lastProcessedT (ingest r))%num eqn:Heq.
  - inversion H1; subst. unfold update. rewrite Hp, Hroot, Hfin, Heq. reflexivity.
  - match type of H1 with (if ?c then _ else _) = _ => destruct c end.
    + inversion H1; subst. apply Hdup; simpl; auto.
    + apply applyFrame_ingest in H1. apply Hdup; rewrite H1; simpl; auto.
Qed.

Lemma update_twice_same_payload_witness :
  match update flatLib (exampleTick 100) (robotWithPose (Some (Fin 1))) with
  | Some r1 => update flatLib (exampleTick 200) r1 = Some r1
  | None => False
  end.
Proof.
  destruct (update flatLib (exampleTick 100) (robotWithPose (Some (Fin 1))))
    as [r1|] eqn:E.
  - apply (update_twice_same_payload flatLib (exampleTick 100) (exampleTick 200)
             (robotWithPose (Some (Fin 1))) r1
             (examplePayload (Some (Fin 1)) exampleRoot));
      [reflexivity | reflexivity | exact E].
  - vm_compute in E. discriminate E.
Defined.

Lemma run_updates_fixed (L : Lib) (r : G1Robot) :
  (forall e, update L e r = Some r) ->
  forall es, run L (map ev_update es) r = Some r.
Proof.
  intros H es. induction es as [|e es IH]; simpl; auto.
  rewrite H. simpl. exact IH.
Qed.

(** C1 (what the code does instead): a payload with a fresh finite
    timestamp that meets the rate limit is marked as processed without
    being applied, and no later tick applies it: every later run of
    [update] on the same stored payload returns the robot unchanged. *)
Theorem update_throttled_payload_never_applied (L : Lib) (e : TickEnv)
  (r : G1Robot) (payload : G1PosePayload) (root : G1RootPose) (stamp : Q) :
  latestPayload (ingest r) = Some payload ->
  p_root payload = Some root ->
  p_t payload = Some (Fin stamp) ->
  (Fin stamp === lastProcessedT (ingest r))%num = false ->
  (Fin (update_now e) - lastPoseApplyMs (ingest r) <? Fin 33)%num = true ->
  update L e r = Some (set_lastProcessedT (Fin stamp) r)
  /\ forall later : list TickEnv,
       run L (map ev_update later) (set_lastProcessedT (Fin stamp) r)
       = Some (set_lastProcessedT (Fin stamp) r).
Proof.
  intros Hp Hroot Ht Hneq Hearly.
  assert (H1 : update L e r = Some (set_lastProcessedT (Fin stamp) r)).
  { unfold update. rewrite Hp, Hroot, Ht. simpl Num.ofOption.
    rewrite Hneq. simpl. simpl in Hearly. rewrite Hearly. reflexivity. }
  split; [exact H1|].
  apply run_updates_fixed. intros e2.
  apply (update_duplicate L e2 _ payload); simpl; auto.
  - rewrite Ht. reflexivity.
  - rewrite Ht. reflexivity.
Qed.

Lemma update_throttled_payload_never_applied_witness :
  update flatLib (exampleTick 110) robotAfterFrame
  = Some (set_lastProcessedT (Fin 2) robotAfterFrame)
  /\ forall later : list TickEnv,
       run flatLib (map ev_update later) (set_lastProcessedT (Fin 2) robotAfterFrame)
       = Some (set_lastProcessedT (Fin 2) robotAfterFrame).
Proof.
  apply (update_throttled_payload_never_applied flatLib (exampleTick 110)
           robotAfterFrame (examplePayload (Some (Fin 2)) exampleRoot)
           exampleRoot 2); vm_compute; reflexivity.
Defined.

(** *** Where the pose pipeline puts the robot *)

Lemma placement_set_ingest v r : placement (set_ingest v r) = placement r.
Proof. reflexivity. Qed.
Lemma placement_set_terrain v r : placement (set_terrain v r) = placement r.
Proof. reflexivity. Qed.
Lemma placement_set_calibration v r : placement (set_calibration v r) = placement r.
Proof. reflexivity. Qed.
Lemma placement_set_perf v r : placement (set_perf v r) = placement r.
Proof. reflexivity. Qed.
Lemma placement_set_links v r : placement (set_links v r) = placement r.
Proof. reflexivity. Qed.
Lemma placement_set_conn v r : placement (set_conn v r) = placement r.
Proof. reflexivity. Qed.
Lemma placement_set_browser v r : placement (set_browser v r) = placement r.
Proof. reflexivity. Qed.
Lemma placement_set_out v r : placement (set_out v r) = placement r.
Proof. reflexivity. Qed.

Lemma placement_set_render v r :
  position v = position (render r) -> placement (set_render v r) = placement r.
Proof. intros H. unfold placement. cbn. rewrite H. reflexivity. Qed.

Lemma placement_set_motion v r :
  currentLat v = currentLat (motion r) ->
  currentLon v = currentLon (motion r) ->
  lastStaticPoseRefreshMs v = lastStaticPoseRefreshMs (motion r) ->
  placement (set_motion v r) = placement r.
Proof. intros H1 H2 H3. unfold placement. cbn. rewrite H1, H2, H3. reflexivity. Qed.

#[export] Hint Rewrite placement_set_ingest placement_set_terrain
  placement_set_calibration placement_set_perf placement_set_links
  placement_set_conn placement_set_browser placement_set_out : frame.
#[export] Hint Rewrite placement_set_render placement_set_motion
  using reflexivity : frame.

Lemma emitStatus_placement m r : placement (emitStatus m r) = placement r.
Proof. unfold emitStatus. frame. Qed.

Lemma persistHeadingOffset_placement r :
  placement (persistHeadingOffset r) = placement r.
Proof. unfold persistHeadingOffset. frame. Qed.

Lemma set_modelHeadingOffset_placement v r :
  placement (set_modelHeadingOffset v r) = placement r.
Proof. unfold set_modelHeadingOffset. frame. Qed.

Lemma emitNavigationContext_placement nav r :
  placement (emitNavigationContext nav r) = placement r.
Proof. unfold emitNavigationContext. frame. Qed.

Lemma maybeEmitPerfStatus_placement now r :
  placement (maybeEmitPerfStatus now r) = placement r.
Proof. unfold maybeEmitPerfStatus. frame. rewrite emitStatus_placement. reflexivity. Qed.

#[export] Hint Rewrite emitStatus_placement persistHeadingOffset_placement
  set_modelHeadingOffset_placement emitNavigationContext_placement
  maybeEmitPerfStatus_placement : frame.

Lemma updateModelMatrix_placement r : placement (updateModelMatrix r) = placement r.
Proof. unfold updateModelMatrix. frame. Qed.

Lemma updateSpeedEstimate_placement L d s r :
  placement (updateSpeedEstimate L d s r) = placement r.
Proof. unfold updateSpeedEstimate. frame. Qed.

Lemma getNode_placement m n r : placement (snd (getNode m n r)) = placement r.
Proof. unfold getNode. frame. Qed.

Lemma set_primitive_placement p r : placement (set_primitive p r) = placement r.
Proof. reflexivity. Qed.

#[export] Hint Rewrite updateModelMatrix_placement updateSpeedEstimate_placement
  getNode_placement set_primitive_placement : frame.

Lemma applyLink_placement name pose r : placement (applyLink name pose r) = placement r.
Proof. unfold applyLink. frame. Qed.

Lemma applyLinkAnimation_placement poses r :
  placement (applyLinkAnimation poses r) = placement r.
Proof.
  unfold applyLinkAnimation. frame.
  apply fold_left_keeps. intros. apply applyLink_placement.
Qed.

Lemma sampleTerrainHeight_placement e r :
  placement (snd (sampleTerrainHeight e r)) = placement r.
Proof. unfold sampleTerrainHeight. frame. Qed.

Lemma estimateMotionHeading_placement L lat lon r :
  placement (snd (estimateMotionHeading L lat lon r)) = placement r.
Proof. unfold estimateMotionHeading. frame. Qed.

#[export] Hint Rewrite applyLinkAnimation_placement sampleTerrainHeight_placement
  estimateMotionHeading_placement : frame.

Lemma maybeAutoCalibrateHeading_placement mh r r' :
  maybeAutoCalibrateHeading mh r = Some r' -> placement r' = placement r.
Proof. unfold maybeAutoCalibrateHeading. intros H. frame_in H. Qed.

Lemma applyRootTransform_placement L q mh r r' :
  applyRootTransform L q mh r = Some r' -> placement r' = placement r.
Proof.
  unfold applyRootTransform. destruct q as [[[qw qx] qy] qz].
  intros H. unfold bind in H.
  repeat (break_head H; try discriminate H).
  all: inversion H; subst; clear H.
  all: match goal with
       | E : maybeAutoCalibrateHeading _ _ = Some _ |- _ =>
           apply maybeAutoCalibrateHeading_placement in E; rename E into Hw
       end.
  all: frame; rewrite Hw; frame.
Qed.

Lemma stationaryHold_motion lat lon now r r' :
  motion r' = motion r ->
  stationaryHold lat lon now r' = stationaryHold lat lon now r.
Proof. intros H. unfold stationaryHold. rewrite H. reflexivity. Qed.

Lemma refreshDue_not_held e lat lon r :
  refreshDue e r ->
  stationaryHold (Fin lat) (Fin lon) (Fin (applyPose_now e)) r = false.
Proof.
  unfold refreshDue, stationaryHold. intros [H|(t0 & H & Ht)].
  - rewrite H. reflexivity.
  - rewrite H.
    destruct (currentLat (motion r)) as [cl|]; [|reflexivity].
    destruct (currentLon (motion r)) as [cn|]; [|reflexivity].
    assert (E : (Fin (applyPose_now e) - Fin t0 <? Fin 220)%num = false).
    { cbn [Num.sub Num.add Num.neg Num.ltb]. apply Qltb_false. lra. }
    rewrite E. apply andb_false_r.
Qed.

Lemma emitNavigationContext_motion nav r :
  motion (emitNavigationContext nav r) = motion r.
Proof.
  unfold emitNavigationContext.
  destruct nav; [|reflexivity].
  destruct (negb (onNavigationContext (config r))); reflexivity.
Qed.

(** A pose with finite coordinates that the stationary check does not
    hold back places the robot at them. *)
Lemma applyPose_placed L e payload root r r' lat lon :
  p_root payload = Some root ->
  root_lat root = Some (Fin lat) ->
  root_lon root = Some (Fin lon) ->
  refreshDue e r ->
  applyPose L e payload r = Some r' ->
  exists h,
    placement r'
    = (Cartesian3_fromDegrees (Fin lon) (Fin lat) (h + pelvisToGroundOffsetM)%num,
       Some (Fin lat), Some (Fin lon), Fin (applyPose_now e)).
Proof.
  intros Hroot Hlat Hlon Hdue H.
  unfold applyPose in H. rewrite Hroot, Hlat, Hlon in H.
  cbn [Num.ofOption Num.isFinite negb orb] in H.
  rewrite (stationaryHold_motion _ _ _ r) in H
    by apply emitNavigationContext_motion.
  rewrite (refreshDue_not_held e lat lon r Hdue) in H.
  rewrite (surjective_pairing (sampleTerrainHeight _ _)) in H.
  rewrite (surjective_pairing (estimateMotionHeading _ _ _ _)) in H.
  unfold bind in H. break_head H; [|discriminate].
  inversion H; subst; clear H.
  match goal with
  | E : applyRootTransform _ _ _ _ = Some _ |- _ =>
      apply applyRootTransform_placement in E; rename E into Hw
  end.
  eexists. frame. rewrite Hw. frame.
  match goal with
  | |- context [snd (sampleTerrainHeight ?e0 ?r0)] =>
      pose proof (sampleTerrainHeight_placement e0 r0) as Hs;
      set (rs := snd (sampleTerrainHeight e0 r0)) in *
  end.
  clearbody rs. unfold placement in Hs. cbn in Hs.
  injection Hs as _ H1 H2 H3.
  unfold set_position, placement. cbn [render set_render position motion].
  rewrite H1, H2, H3. reflexivity.
Qed.

Lemma update_unstamped L e r r' payload root :
  latestPayload (ingest r) = Some payload ->
  p_root payload = Some root ->
  Num.isFinite (Num.ofOption (p_t payload)) = false ->
  update L e r = Some r' ->
  latestPayload (ingest r') = Some payload
  /\ lastProcessedT (ingest r') = Fin (update_Date_now e)
  /\ ((Fin (update_now e) - lastPoseApplyMs (ingest r) <? Fin 33)%num = false ->
      poseApplied e root r r').
Proof.
  intros Hp Hroot Hnf H.
  unfold update in H. rewrite Hp, Hroot, Hnf in H. cbn [andb] in H.
  change (lastPoseApplyMs (ingest (set_lastProcessedT (Fin (update_Date_now e)) r)))
    with (lastPoseApplyMs (ingest r)) in H.
  destruct (Fin (update_now e) - lastPoseApplyMs (ingest r) <? Fin 33)%num eqn:Erate.
  - inversion H; subst; clear H. cbn.
    split; [exact Hp|]. split; [reflexivity|]. discriminate.
  - pose proof (applyFrame_ingest L e payload _ r' H) as Hi.
    cbn in Hi. rewrite Hp in Hi.
    split; [rewrite Hi; reflexivity|]. split; [rewrite Hi; reflexivity|].
    intros _. split; [rewrite Hi; reflexivity|].
    intros lat lon Hlat Hlon Hdue.
    unfold applyFrame, bind in H.
    destruct (applyPose L e payload _) as [ra|] eqn:Ea; [|discriminate].
    inversion H; subst; clear H.
    pose proof (fun due => applyPose_placed L e payload root _ ra lat lon
                              Hroot Hlat Hlon due Ea) as Hplaced.
    destruct (Hplaced Hdue) as (h & Eh).
    exists h. rewrite maybeEmitPerfStatus_placement. exact Eh.
Qed.

(** C10: a stored payload whose timestamp is not a finite number is never
    taken for a duplicate.  Each of two ticks over it sets the
    last-processed timestamp to the wall clock of that tick, not to a
    timestamp of the payload, and leaves the payload stored; and each tick
    that passes the rate limit applies the payload: the time of the last
    application is that of the tick, and when the coordinates are finite
    and the stationary check does not hold them back (no fix yet, or 220 ms
    since the last refresh) the robot is placed at them, on the second
    tick as on the first. *)
Theorem update_non_finite_timestamp (L : Lib) (e1 e2 : TickEnv) (r r1 r2 : G1Robot)
  (payload : G1PosePayload) (root : G1RootPose) :
  latestPayload (ingest r) = Some payload ->
  p_root payload = Some root ->
  Num.isFinite (Num.ofOption (p_t payload)) = false ->
  update L e1 r = Some r1 ->
  update L e2 r1 = Some r2 ->
  (lastProcessedT (ingest r1) = Fin (update_Date_now e1)
   /\ lastProcessedT (ingest r2) = Fin (update_Date_now e2)
   /\ latestPayload (ingest r2) = Some payload)
  /\ ((Fin (update_now e1) - lastPoseApplyMs (ingest r) <? Fin 33)%num = false ->
      poseApplied e1 root r r1)
  /\ ((Fin (update_now e2) - lastPoseApplyMs (ingest r1) <? Fin 33)%num = false ->
      poseApplied e2 root r1 r2).
Proof.
  intros Hp Hroot Hnf H1 H2.
  destruct (update_unstamped L e1 r r1 payload root Hp Hroot Hnf H1) as (P1 & T1 & A1).
  destruct (update_unstamped L e2 r1 r2 payload root P1 Hroot Hnf H2) as (P2 & T2 & A2).
  split; [split; [exact T1|split; [exact T2|exact P2]]|].
  split; [exact A1|exact A2].
Qed.

Lemma update_non_finite_timestamp_witness :
  lastProcessedT (ingest unstampedOnce) = Fin 1700000000100
  /\ lastProcessedT (ingest unstampedTwice) = Fin 1700000000400
  /\ lastPoseApplyMs (ingest unstampedOnce) = Fin 100
  /\ lastPoseApplyMs (ingest unstampedTwice) = Fin 400
  /\ (exists h,
        placement unstampedOnce
        = (Cartesian3_fromDegrees (Fin 20) (Fin 10) (h + pelvisToGroundOffsetM)%num,
           Some (Fin 10), Some (Fin 20), Fin 100))
  /\ (exists h,
        placement unstampedTwice
        = (Cartesian3_fromDegrees (Fin 20) (Fin 10) (h + pelvisToGroundOffsetM)%num,
           Some (Fin 10), Some (Fin 20), Fin 400)).
Proof.
  destruct (update_non_finite_timestamp flatLib (exampleTick 100) (exampleTick 400)
              (robotWithPose None) unstampedOnce unstampedTwice
              (examplePayload None exampleRoot) exampleRoot
              eq_refl eq_refl eq_refl)
    as ((T1 & T2 & _) & A1 & A2).
  - vm_compute. reflexivity.
  - vm_compute. reflexivity.
  - destruct (A1 eq_refl) as (M1 & P1). destruct (A2 eq_refl) as (M2 & P2).
    split; [exact T1|]. split; [exact T2|].
    split; [exact M1|]. split; [exact M2|].
    split.
    + apply (P1 10 20); [reflexivity|reflexivity|]. left. reflexivity.
    + apply (P2 10 20); [reflexivity|reflexivity|].
      right. exists 100. split; [reflexivity|]. vm_compute. discriminate.
Defined.

(** The same payload without a finite timestamp, delivered once and left
    in place, is applied on both of two ticks 100 ms apart. *)
Example non_finite_timestamp_applied_twice :
  exists r1 r2,
    update flatLib (exampleTick 100) (robotWithPose None) = Some r1
    /\ update flatLib (exampleTick 200) r1 = Some r2
    /\ perfPoseApplied (perf r1) = 1%nat
    /\ perfPoseApplied (perf r2) = 2%nat.
Proof.
  destruct (update flatLib (exampleTick 100) (robotWithPose None)) as [r1|] eqn:E1;
    vm_compute in E1; [|discriminate E1].
  inversion E1; subst r1; clear E1.
  eexists. eexists.
  split; [reflexivity|].
  split; [vm_compute; reflexivity|].
  split; reflexivity.
Qed.

(** ** Root poses that cannot be used *)

Lemma sanitizeQuat_bad raw :
  badQuat raw = true -> sanitizeQuat raw = (Fin 1, Fin 0, Fin 0, Fin 0).
Proof.
  unfold badQuat, sanitizeQuat. intros H.
  destruct raw as [[|q0 [|q1 [|q2 [|q3 [|q4 l]]]]]|]; auto.
  apply negb_true_iff in H. rewrite H. reflexivity.
Qed.

(** C3 as stated fails: a root pose whose quaternion has an entry that is
    not a number is applied all the same, and the render position moves
    to the reported fix. *)
Lemma applyPose_bad_quat_moves_robot :
  exists r',
    applyPose flatLib (exampleTick 100)
      (examplePayload (Some (Fin 1)) rootWithBadQuat) exampleRobot = Some r'
    /\ position (render r') = Cartesian3_fromDegrees (Fin 20) (Fin 10) (Fin 0.86)
    /\ position (render exampleRobot) = Cartesian3_xyz (Fin 0) (Fin 0) (Fin 0).
Proof.
  eexists. split; [vm_compute; reflexivity|]. split; reflexivity.
Qed.

(** C3, amended: a root pose whose latitude or longitude is missing or not
    finite is skipped once the navigation context has been forwarded, and
    the render state (position, heading, model matrix) is kept, with the
    terrain, calibration and motion state; a quaternion that is missing,
    of the wrong length or not finite does not skip the frame: the
    identity quaternion stands in for it. *)
Theorem applyPose_bad_root_pose (L : Lib) (e : TickEnv) (payload : G1PosePayload)
  (root : G1RootPose) (r : G1Robot) :
  p_root payload = Some root ->
  (Num.isFinite (Num.ofOption (root_lat root))
   && Num.isFinite (Num.ofOption (root_lon root)) = false ->
   applyPose L e payload r = Some (emitNavigationContext (p_nav payload) r)
   /\ render (emitNavigationContext (p_nav payload) r) = render r
   /\ terrain (emitNavigationContext (p_nav payload) r) = terrain r
   /\ calibration (emitNavigationContext (p_nav payload) r) = calibration r
   /\ motion (emitNavigationContext (p_nav payload) r) = motion r)
  /\ (badQuat (root_quat root) = true ->
      sanitizeQuat (root_quat root) = (Fin 1, Fin 0, Fin 0, Fin 0)
      /\ applyPose L e payload r
         = applyPose L e (withQuat (Some identityQuat) payload) r).
Proof.
  intros Hroot. split.
  - intros Hbad. split.
    + unfold applyPose. rewrite Hroot.
      apply andb_false_iff in Hbad.
      destruct Hbad as [H|H]; rewrite H; simpl; try reflexivity.
      rewrite orb_true_r. reflexivity.
    + unfold emitNavigationContext.
      destruct (p_nav payload); auto.
      destruct (negb (onNavigationContext (config r))); auto.
  - intros Hbad. split; [apply sanitizeQuat_bad; exact Hbad|].
    unfold applyPose, withQuat. rewrite Hroot. simpl.
    rewrite (sanitizeQuat_bad _ Hbad). reflexivity.
Qed.

Lemma applyPose_bad_root_pose_witness :
  (applyPose flatLib (exampleTick 100)
     (examplePayload (Some (Fin 1)) rootWithoutLat) exampleRobot
   = Some exampleRobot
   /\ render exampleRobot = render exampleRobot
   /\ terrain exampleRobot = terrain exampleRobot
   /\ calibration exampleRobot = calibration exampleRobot
   /\ motion exampleRobot = motion exampleRobot)
  /\ (sanitizeQuat (root_quat rootWithBadQuat) = (Fin 1, Fin 0, Fin 0, Fin 0)
      /\ applyPose flatLib (exampleTick 100)
           (examplePayload (Some (Fin 1)) rootWithBadQuat) exampleRobot
         = applyPose flatLib (exampleTick 100)
             (withQuat (Some identityQuat)
                (examplePayload (Some (Fin 1)) rootWithBadQuat)) exampleRobot).
Proof.
  split.
  - exact (proj1 (applyPose_bad_root_pose flatLib (exampleTick 100)
                    (examplePayload (Some (Fin 1)) rootWithoutLat) rootWithoutLat
                    exampleRobot eq_refl) eq_refl).
  - exact (proj2 (applyPose_bad_root_pose flatLib (exampleTick 100)
                    (examplePayload (Some (Fin 1)) rootWithBadQuat) rootWithBadQuat
                    exampleRobot eq_refl) eq_refl).
Defined.


(** ** Heading calibration *)

Lemma isFinite_Fin (x : num) : Num.isFinite x = true -> exists q, x = Fin q.
Proof. destruct x; simpl; try discriminate. eauto. Qed.

Lemma add_finite (a b : num) :
  Num.isFinite (a + b)%num = true -> Num.isFinite a = true /\ Num.isFinite b = true.
Proof. destruct a, b; simpl; auto. Qed.

Lemma sub_finite (a b : num) :
  Num.isFinite (a - b)%num = true -> Num.isFinite a = true /\ Num.isFinite b = true.
Proof. destruct a, b; simpl; auto. Qed.

Lemma normalizeSignedAngle_finite_arg (x y : num) :
  normalizeSignedAngle x = Some y -> Num.isFinite y = true -> Num.isFinite x = true.
Proof.
  destruct x; auto; unfold normalizeSignedAngle; simpl; intros H Hy;
    inversion H; subst; discriminate.
Qed.

Lemma normalizeSignedAngle_returns_finite (x : num) :
  Num.isFinite x = true ->
  exists r, normalizeSignedAngle x = Some (Fin r).
Proof.
  intros H. apply isFinite_Fin in H. destruct H as [q ->].
  destruct (normalizeSignedAngle_finite q) as (r & E & _). eauto.
Qed.

Lemma clamp_finite (x lo hi : Q) :
  exists c, CesiumMath.clamp (Fin x) (Fin lo) (Fin hi) = Fin c.
Proof.
  unfold CesiumMath.clamp.
  destruct (Fin x <? Fin lo)%num; eauto.
  destruct (Fin x >? Fin hi)%num; eauto.
Qed.

(** C4: an accepted sample during fast lock adds one to the sample count
    and extends or resets the streak of samples within 15 degrees; fast
    lock ends with that sample exactly when the streak has reached 20 or
    the count has reached 90; when it ends the flag is set, the offset is
    written to the storage and the completion is announced, and when it
    does not, nothing is written or announced. *)
Theorem fast_lock_exit (moveHeading : num) (r : G1Robot) (error : num) :
  headingFastLockComplete (calibration r) = false ->
  (headingAlignedStreak (calibration r) < 20)%nat ->
  (headingCalibrationSamples (calibration r) < 90)%nat ->
  acceptedSample moveHeading r error ->
  exists r',
    maybeAutoCalibrateHeading (Some moveHeading) r = Some r'
    /\ let streak :=
         if (Num.abs error <=? CesiumMath.toRadians (Fin 15))%num
         then S (headingAlignedStreak (calibration r)) else O in
       let samples := S (headingCalibrationSamples (calibration r)) in
       headingAlignedStreak (calibration r') = streak
       /\ headingCalibrationSamples (calibration r') = samples
       /\ (headingFastLockComplete (calibration r') = true
           <-> streak = 20%nat \/ samples = 90%nat)
       /\ (headingFastLockComplete (calibration r') = true ->
           localStorage (browser r')
           = persisted (modelHeadingOffset (calibration r')) (localStorage (browser r))
           /\ statuses (out r')
              = announced (status_headingLockComplete
                             (modelHeadingOffset (calibration r'))) r)
       /\ (headingFastLockComplete (calibration r') = false ->
           localStorage (browser r') = localStorage (browser r)
           /\ statuses (out r') = statuses (out r)).
Proof.
  intros Hlock Hstreak Hsamples (Hv & Hbudget & Herr & Hfin & Hout).
  unfold calibrationError in Herr.
  pose proof (normalizeSignedAngle_finite_arg _ _ Herr Hfin) as Harg.
  apply sub_finite in Harg. destruct Harg as [_ Harg].
  apply add_finite in Harg. destruct Harg as [_ Hoff].
  apply isFinite_Fin in Hoff. destruct Hoff as [off Hoff].
  apply isFinite_Fin in Hfin. destruct Hfin as [err ->].
  destruct (clamp_finite err (-0.22) 0.22) as [c Hc].
  unfold maybeAutoCalibrateHeading.
  rewrite Hv.
  assert (Hb : (360 <=? headingCalibrationSamples (calibration r))%nat = false)
    by (apply Nat.leb_gt; exact Hbudget).
  rewrite Hb, Herr. unfold bind.
  cbn [Num.isFinite negb orb]. rewrite Hout, Hlock. cbn [negb].
  rewrite Hc, Hoff.
  change (Fin c * Fin 0.35)%num with (Fin (c * 0.35)).
  change (Fin off + Fin (c * 0.35))%num with (Fin (off + c * 0.35)).
  destruct (normalizeSignedAngle_finite (off + c * 0.35)) as (v & Ev & _).
  rewrite Ev.
  match goal with
  | |- context [match (if ?c then Some ?a else Some ?b) with _ => _ end] =>
      replace (if c then Some a else Some b) with (Some (if c then a else b))
        by (destruct c; reflexivity);
      set (r0 := if c then a else b)
  end.
  assert (H0 : headingAlignedStreak (calibration r0) = headingAlignedStreak (calibration r)
               /\ headingCalibrationSamples (calibration r0)
                  = headingCalibrationSamples (calibration r)
               /\ headingFastLockComplete (calibration r0) = false
               /\ config r0 = config r /\ out r0 = out r /\ browser r0 = browser r).
  { unfold r0. destruct (Num.abs (Fin (c * 0.35)) >? Fin (1 # 10000))%num;
      simpl; auto 10. }
  clearbody r0. destruct H0 as (E1 & E2 & E3 & E4 & E5 & E6).
  rewrite E1, E2, E3.
  set (streak := if (Num.abs (Fin err) <=? CesiumMath.toRadians (Fin 15))%num
                 then S (headingAlignedStreak (calibration r)) else 0%nat).
  assert (Hs : (streak <= 20)%nat).
  { unfold streak. destruct (Num.abs (Fin err) <=? _)%num; lia. }
  destruct ((20 <=? streak)%nat || (90 <=? S (headingCalibrationSamples (calibration r)))%nat) eqn:Hexit.
  - eexists. split; [reflexivity|]. cbv zeta.
    apply orb_true_iff in Hexit. rewrite !Nat.leb_le in Hexit.
    rewrite !emitStatus_calibration, !persistHeadingOffset_calibration.
    cbn [calibration set_calibration headingAlignedStreak
         headingCalibrationSamples headingFastLockComplete modelHeadingOffset].
    repeat split; try reflexivity; try discriminate.
    + intros _. lia.
    + unfold persistHeadingOffset, emitStatus, persisted. simpl. rewrite ?E6.
      destruct (localStorage (browser r)) eqn:Est; simpl; rewrite ?E4, ?E5, ?E6;
        destruct (onStatus (config r)); simpl; rewrite ?E5, ?E6, ?Est; reflexivity.
    + unfold persistHeadingOffset, emitStatus, announced. simpl. rewrite ?E6.
      destruct (localStorage (browser r)) eqn:Est; simpl; rewrite ?E4, ?E5, ?E6;
        destruct (onStatus (config r)); simpl; rewrite ?E5, ?E6, ?Est; reflexivity.
  - eexists. split; [reflexivity|]. cbv zeta.
    apply orb_false_iff in Hexit. rewrite !Nat.leb_gt in Hexit.
    cbn [calibration set_calibration headingAlignedStreak
         headingCalibrationSamples headingFastLockComplete modelHeadingOffset
         browser out].
    rewrite E5, E6.
    repeat split; try reflexivity; try discriminate; try lia.
Qed.

Lemma fast_lock_exit_witness :
  exists r',
    maybeAutoCalibrateHeading (Some (Fin 0.1)) lockingRobot = Some r'
    /\ headingAlignedStreak (calibration r') = 20%nat
    /\ headingCalibrationSamples (calibration r') = 51%nat
    /\ (headingFastLockComplete (calibration r') = true
        <-> 20%nat = 20%nat \/ 51%nat = 90%nat)
    /\ (headingFastLockComplete (calibration r') = true ->
        localStorage (browser r')
        = persisted (modelHeadingOffset (calibration r'))
            (localStorage (browser lockingRobot))
        /\ statuses (out r')
           = announced (status_headingLockComplete
                          (modelHeadingOffset (calibration r'))) lockingRobot)
    /\ (headingFastLockComplete (calibration r') = false ->
        localStorage (browser r') = localStorage (browser lockingRobot)
        /\ statuses (out r') = statuses (out lockingRobot)).
Proof.
  apply (fast_lock_exit (Fin 0.1) lockingRobot (Fin 0.1)).
  - reflexivity.
  - simpl; lia.
  - simpl; lia.
  - repeat split; try reflexivity. simpl; lia.
Defined.

(** Once the sample budget is spent, [maybeAutoCalibrateHeading] returns
    the robot it was given. *)
Lemma maybeAutoCalibrateHeading_exhausted (moveHeading : option num) (r : G1Robot) :
  (360 <= headingCalibrationSamples (calibration r))%nat ->
  maybeAutoCalibrateHeading moveHeading r = Some r.
Proof.
  intros H. unfold maybeAutoCalibrateHeading.
  destruct moveHeading; auto.
  destruct (velocity (motion r) <? Fin 0.12)%num; auto.
  apply Nat.leb_le in H. rewrite H. reflexivity.
Qed.

Lemma maybeAutoCalibrateHeading_fastLockPending (moveHeading : option num)
  (r r' : G1Robot) :
  fastLockPending (calibration r) ->
  maybeAutoCalibrateHeading moveHeading r = Some r' ->
  fastLockPending (calibration r').
Proof.
  unfold maybeAutoCalibrateHeading, fastLockPending. intros Hinv H.
  unfold bind in H.
  repeat (break_head H; try discriminate H).
  all: inversion H; subst; clear H.
  all: autorewrite with frame;
       cbn [calibration set_calibration set_modelHeadingOffset
            headingAlignedStreak headingCalibrationSamples
            headingFastLockComplete]; auto; try discriminate.
  all: try match goal with
           | E : negb (headingFastLockComplete _) = false |- _ =>
               apply negb_false_iff in E; rewrite E; discriminate
           end.
  all: match goal with
       | E : (_ || _) = false |- _ =>
           apply orb_false_iff in E; rewrite !Nat.leb_gt in E
       end.
  all: intros _; simpl in *; assumption.
Qed.

Lemma setModelHeadingOffsetRad_fastLockPending (offsetRad : num) (r r' : G1Robot)
  (ret : num) :
  fastLockPending (calibration r) ->
  setModelHeadingOffsetRad offsetRad r = Some (r', ret) ->
  fastLockPending (calibration r').
Proof.
  unfold setModelHeadingOffsetRad, bind. intros Hinv H.
  repeat (break_head H; try discriminate H).
  all: inversion H; subst; clear H; auto.
  unfold fastLockPending. autorewrite with frame. simpl. discriminate.
Qed.

Lemma calibrates_keeps (P : HeadingCalibrationState -> Prop) (r r' : G1Robot) :
  (forall moveHeading r0 r1,
     P (calibration r0) ->
     maybeAutoCalibrateHeading moveHeading r0 = Some r1 ->
     P (calibration r1)) ->
  calibrates r r' -> P (calibration r) -> P (calibration r').
Proof.
  intros HP [E|(mh & r0 & r1 & E0 & Hm & E1)] H.
  - rewrite E. exact H.
  - rewrite E1. apply (HP mh r0 r1); auto. rewrite E0. exact H.
Qed.

Lemma applyRootTransform_calibrates (L : Lib) q mh (r r' : G1Robot) :
  applyRootTransform L q mh r = Some r' -> calibrates r r'.
Proof.
  unfold applyRootTransform. destruct q as [[[qw qx] qy] qz].
  intros H. unfold bind in H.
  repeat (break_head H; try discriminate H).
  all: inversion H; subst; clear H.
  all: match goal with
       | E : maybeAutoCalibrateHeading ?m ?a = Some ?b |- _ =>
           right; exists m, a, b; split; [|split; [exact E|]]
       end.
  all: frame.
Qed.

Lemma applyPose_calibrates (L : Lib) e p (r r' : G1Robot) :
  applyPose L e p r = Some r' -> calibrates r r'.
Proof.
  unfold applyPose. intros H.
  break_head H; [|inversion H; left; reflexivity].
  break_head H; [inversion H; subst; left; frame|].
  break_head H; [inversion H; subst; left; frame|].
  rewrite (surjective_pairing (sampleTerrainHeight _ _)) in H.
  rewrite (surjective_pairing (estimateMotionHeading _ _ _ _)) in H.
  unfold bind in H. break_head H; [|discriminate].
  inversion H; subst; clear H.
  match goal with
  | E : applyRootTransform _ _ _ _ = Some _ |- _ =>
      apply applyRootTransform_calibrates in E;
      destruct E as [Hsame|(mh & r0 & r1 & E0 & Hm & E1)]
  end.
  - left. frame. rewrite Hsame. frame.
  - right. exists mh, r0, r1. split; [|split; [exact Hm|]].
    + rewrite E0. frame.
    + frame. exact E1.
Qed.

Lemma update_calibrates (L : Lib) e (r r' : G1Robot) :
  update L e r = Some r' -> calibrates r r'.
Proof.
  unfold update, applyFrame, bind. intros H.
  repeat (break_head H; try discriminate H).
  all: inversion H; subst; clear H; try (left; frame; fail).
  all: match goal with
       | E : applyPose _ _ _ _ = Some _ |- _ =>
           apply applyPose_calibrates in E;
           destruct E as [Hsame|(mh & r0 & r1 & E0 & Hm & E1)]
       end.
  all: try (left; frame; rewrite Hsame; frame; fail).
  all: right; exists mh, r0, r1; split; [|split; [exact Hm|]];
       [rewrite E0; frame | frame; exact E1].
Qed.

Lemma setTimer_calibration repeat cb d r :
  calibration (snd (setTimer repeat cb d r)) = calibration r.
Proof. reflexivity. Qed.

#[export] Hint Rewrite setTimer_calibration : frame.

Lemma ws_onclose_calibration r : calibration (ws_onclose r) = calibration r.
Proof. unfold ws_onclose. frame. Qed.

Lemma sampleProbeHeights_calibration e b d r :
  calibration (snd (sampleProbeHeights e b d r)) = calibration r.
Proof. unfold sampleProbeHeights. frame. Qed.

#[export] Hint Rewrite ws_onclose_calibration
  sampleProbeHeights_calibration : frame.

Lemma probeFan_calibration e base fan : forall samples r,
  calibration (snd (probeFan e base fan samples r)) = calibration r.
Proof.
  induction fan as [|[b d] fan IH]; intros samples r; simpl; auto.
  pose proof (sampleProbeHeights_calibration e b d r) as Hc.
  destruct (sampleProbeHeights e b d r) as [q r1]. cbn [snd] in Hc.
  rewrite <- Hc.
  destruct q as [|[[[h g] s]|]]; auto.
Qed.

#[export] Hint Rewrite probeFan_calibration : frame.

Lemma sendTerrainProbe_calibration e r :
  calibration (settled (sendTerrainProbe e r)) = calibration r.
Proof.
  unfold sendTerrainProbe.
  destruct (negb (canSendToServer r) || negb (sceneRef (render r))); auto.
  destruct (buildRobotTelemetry r); auto.
  match goal with
  | |- context [probeFan ?e ?b ?f ?s ?r] =>
      pose proof (probeFan_calibration e b f s r) as Hc;
      destruct (probeFan e b f s r) as [q r1]
  end.
  cbn [snd] in Hc.
  destruct q as [|samples]; cbn [settled]; auto.
  destruct (List.length samples =? 0)%nat; cbn [settled]; auto.
  autorewrite with frame. auto.
Qed.

#[export] Hint Rewrite sendTerrainProbe_calibration : frame.

Lemma startPerceptionStreaming_calibration e r :
  calibration (settled (startPerceptionStreaming e r)) = calibration r.
Proof.
  unfold startPerceptionStreaming.
  rewrite (surjective_pairing (setTimer true cb_sendCameraFrame _ _)).
  rewrite (surjective_pairing (setTimer true cb_sendTerrainProbe _ _)).
  autorewrite with frame. reflexivity.
Qed.

Lemma ws_onopen_calibration e r : calibration (ws_onopen e r) = calibration r.
Proof.
  unfold ws_onopen.
  pose proof (startPerceptionStreaming_calibration (open_probe e)
                (emitStatus (status_text "Pose stream connected.")
                   (emitStreamState live r))) as H.
  destruct (startPerceptionStreaming _ _); simpl in H;
    autorewrite with frame in *; auto.
Qed.

#[export] Hint Rewrite startPerceptionStreaming_calibration
  ws_onopen_calibration : frame.

(** Every event other than a manual override changes the calibration
    through [maybeAutoCalibrateHeading] or not at all. *)
Lemma step_calibrates (L : Lib) (ev : Event) (r r' : G1Robot) :
  isManualOverride ev = false -> step L ev r = Some r' -> calibrates r r'.
Proof.
  intros Hev H. destruct ev; simpl in H; try discriminate Hev.
  all: try (inversion H; subst; clear H; left; frame; fail).
  - apply update_calibrates in H. exact H.
  - repeat (break_head H; try discriminate H).
    all: inversion H; subst; clear H; left; frame.
  - repeat (break_head H; try discriminate H).
    all: inversion H; subst; clear H; left; frame.
Qed.

Lemma run_keeps (L : Lib) (P : HeadingCalibrationState -> Prop) :
  (forall moveHeading r0 r1,
     P (calibration r0) ->
     maybeAutoCalibrateHeading moveHeading r0 = Some r1 ->
     P (calibration r1)) ->
  (forall offsetRad r0 r1 ret,
     P (calibration r0) ->
     setModelHeadingOffsetRad offsetRad r0 = Some (r1, ret) ->
     P (calibration r1)) ->
  forall evs r r',
    P (calibration r) -> run L evs r = Some r' -> P (calibration r').
Proof.
  intros Hauto Hmanual evs.
  induction evs as [|ev evs IH]; intros r r' HP H; simpl in H.
  - inversion H; subst. exact HP.
  - unfold bind in H. destruct (step L ev r) as [r1|] eqn:E; [|discriminate].
    apply (IH r1 r'); auto.
    destruct (isManualOverride ev) eqn:Hev.
    + destruct ev; try discriminate Hev. simpl in E. unfold bind in E.
      destruct (setModelHeadingOffsetRad offsetRad r) as [[r2 ret]|] eqn:E2;
        [|discriminate].
      inversion E; subst. apply (Hmanual offsetRad r r1 ret); auto.
    + apply (calibrates_keeps P r r1 Hauto); auto.
      apply (step_calibrates L ev); auto.
Qed.

(** In every state the robot reaches from its construction, fast lock is
    complete or neither of its exit thresholds has been reached. *)
Lemma fastLockPending_reachable (L : Lib) (cfg : Config) (now : Q) (b : Browser)
  (evs : list Event) (r0 r : G1Robot) :
  construct cfg now b = Some r0 ->
  run L evs r0 = Some r ->
  fastLockPending (calibration r).
Proof.
  intros Hc Hrun.
  apply (run_keeps L fastLockPending) with (evs := evs) (r := r0); auto.
  - intros mh a c. apply maybeAutoCalibrateHeading_fastLockPending.
  - intros x a c ret. apply setModelHeadingOffsetRad_fastLockPending.
  - unfold construct, loadHeadingOffsetFromStorage, bind in Hc.
    repeat (break_head Hc; try discriminate Hc).
    all: inversion Hc; subst; clear Hc.
    all: unfold fastLockPending; simpl; intros _; lia.
Qed.

Lemma run_keeps_without_override (L : Lib) (P : HeadingCalibrationState -> Prop) :
  (forall moveHeading r0 r1,
     P (calibration r0) ->
     maybeAutoCalibrateHeading moveHeading r0 = Some r1 ->
     P (calibration r1)) ->
  forall evs r r',
    forallb (fun ev => negb (isManualOverride ev)) evs = true ->
    P (calibration r) -> run L evs r = Some r' -> P (calibration r').
Proof.
  intros Hauto evs.
  induction evs as [|ev evs IH]; intros r r' Hevs HP H; simpl in H.
  - inversion H; subst. exact HP.
  - simpl in Hevs. apply andb_true_iff in Hevs. destruct Hevs as [Hev Hevs].
    apply negb_true_iff in Hev.
    unfold bind in H. destruct (step L ev r) as [r1|] eqn:E; [|discriminate].
    apply (IH r1 r'); auto.
    apply (calibrates_keeps P r r1 Hauto); auto.
    apply (step_calibrates L ev); auto.
Qed.

Lemma setModelHeadingOffsetRad_returns (x : Q) (r r1 : G1Robot) (ret : num) :
  setModelHeadingOffsetRad (Fin x) r = Some (r1, ret) ->
  normalizeSignedAngle (Fin x) = Some ret
  /\ calibration r1 = {| modelHeadingOffset := ret;
                         headingCalibrationSamples := 360;
                         headingFastLockComplete := true;
                         headingAlignedStreak := 0 |}
  /\ browser r1 = browser (persistHeadingOffset (set_modelHeadingOffset ret r)).
Proof.
  unfold setModelHeadingOffsetRad. cbn [Num.isFinite negb]. unfold bind.
  destruct (normalizeSignedAngle (Fin x)) as [v|]; [|discriminate].
  intros H.
  assert (Hb : forall c r', browser (updateModelMatrix (set_calibration c r')) = browser r').
  { intros c r'. unfold updateModelMatrix.
    destruct (primitive (render (set_calibration c r'))); reflexivity. }
  assert (Hc : forall c r', calibration (updateModelMatrix (set_calibration c r')) = c).
  { intros c r'. autorewrite with frame. reflexivity. }
  assert (H0 : modelHeadingOffset
                 (calibration (persistHeadingOffset (set_modelHeadingOffset v r))) = v).
  { autorewrite with frame. reflexivity. }
  injection H as Hr Hret.
  rewrite Hc in Hret. cbn [modelHeadingOffset] in Hret. rewrite H0 in Hret.
  subst ret. rewrite <- Hr, Hc, Hb, H0.
  split; [reflexivity|]. split; reflexivity.
Qed.

Lemma construct_starts_uncalibrated (cfg : Config) (now : Q) (b : Browser)
  (r : G1Robot) :
  construct cfg now b = Some r ->
  headingCalibrationSamples (calibration r) = 0%nat
  /\ headingFastLockComplete (calibration r) = false.
Proof.
  intros Hc. unfold construct, loadHeadingOffsetFromStorage, bind in Hc.
  repeat (break_head Hc; try discriminate Hc).
  all: inversion Hc; subst; split; reflexivity.
Qed.

(** C5 as first stated promises that automatic calibration stays off
    until the stored value is cleared.  It does not: after a manual
    override of 4 radians the storage holds the normalised offset; a
    robot constructed over that storage starts from it, and four frames
    of a walk later, with the stored value still in place, automatic
    calibration has moved the offset by more than 0.05 radians. *)
Lemma manual_override_is_per_instance :
  exists (r1 r2 r3 : G1Robot) (v o : Q),
    setModelHeadingOffsetRad (Fin 4) exampleRobot = Some (r1, Fin v)
    /\ construct exampleConfig 0 (browser r1) = Some r2
    /\ modelHeadingOffset (calibration r2) = Fin v
    /\ run pacingLib recalibratingHistory r2 = Some r3
    /\ localStorage (browser r3) = storage_item (Some (Fin v))
    /\ modelHeadingOffset (calibration r3) = Fin o
    /\ v + 0.05 < o.
Proof.
  exists (fst overrideOutcome), robotAfterOverride, recalibratedRobot.
  destruct (snd overrideOutcome) as [| | |v] eqn:Ev; try discriminate Ev.
  destruct (modelHeadingOffset (calibration recalibratedRobot)) as [| | |o] eqn:Eo;
    try discriminate Eo.
  exists v, o.
  injection Ev as Ev. injection Eo as Eo.
  split; [vm_compute; rewrite <- Ev; reflexivity|].
  split; [vm_compute; reflexivity|].
  split; [rewrite <- Ev; reflexivity|].
  split; [vm_compute; reflexivity|].
  split; [rewrite <- Ev; reflexivity|].
  split; [reflexivity|].
  rewrite <- Ev, <- Eo. vm_compute. reflexivity.
Qed.

(** C5: once a manual override with a finite value has returned,
    automatic calibration is off for that robot.  The offset is the value
    returned, the sample count is at its budget of 360 and fast lock is
    complete, so [maybeAutoCalibrateHeading] returns the robot it was
    given, whatever the motion sample, and no run of later events without
    another manual override (pose updates, messages, reconnects, probes)
    changes the offset or any other part of the calibration state.  The
    count and the lock are fields of the instance and are not stored:
    every robot constructed afterwards, whatever the storage holds,
    starts with a count of 0 and no lock. *)
Theorem manual_override_disables_auto_calibration (L : Lib) (x : Q)
  (r r1 : G1Robot) (v : num) :
  setModelHeadingOffsetRad (Fin x) r = Some (r1, v) ->
  modelHeadingOffset (calibration r1) = v
  /\ headingCalibrationSamples (calibration r1) = 360%nat
  /\ headingFastLockComplete (calibration r1) = true
  /\ (forall moveHeading r2,
        calibration r2 = calibration r1 ->
        maybeAutoCalibrateHeading moveHeading r2 = Some r2)
  /\ (forall evs r2,
        forallb (fun ev => negb (isManualOverride ev)) evs = true ->
        run L evs r1 = Some r2 ->
        calibration r2 = calibration r1)
  /\ (forall cfg now b r3,
        construct cfg now b = Some r3 ->
        headingCalibrationSamples (calibration r3) = 0%nat
        /\ headingFastLockComplete (calibration r3) = false).
Proof.
  intros H.
  destruct (setModelHeadingOffsetRad_returns x r r1 v H) as (_ & Hc & _).
  assert (Hoff : forall mh r2, calibration r2 = calibration r1 ->
                   maybeAutoCalibrateHeading mh r2 = Some r2).
  { intros mh r2 E. apply maybeAutoCalibrateHeading_exhausted.
    rewrite E, Hc. simpl. lia. }
  split; [rewrite Hc; reflexivity|].
  split; [rewrite Hc; reflexivity|].
  split; [rewrite Hc; reflexivity|].
  split; [exact Hoff|].
  split.
  - intros evs r2 Hevs Hrun.
    apply (run_keeps_without_override L (fun c => c = calibration r1))
      with (evs := evs) (r := r1); auto.
    intros mh a c Ha Hm. rewrite (Hoff mh a Ha) in Hm.
    inversion Hm; subst. exact Ha.
  - intros cfg now b r3 Hcon.
    exact (construct_starts_uncalibrated cfg now b r3 Hcon).
Qed.

Lemma manual_override_disables_auto_calibration_witness :
  modelHeadingOffset (calibration overriddenRobot) = Fin (7 - JsMath.PI * 2)
  /\ headingCalibrationSamples (calibration overriddenRobot) = 360%nat
  /\ headingFastLockComplete (calibration overriddenRobot) = true
  /\ (forall moveHeading r2,
        calibration r2 = calibration overriddenRobot ->
        maybeAutoCalibrateHeading moveHeading r2 = Some r2)
  /\ (forall evs r2,
        forallb (fun ev => negb (isManualOverride ev)) evs = true ->
        run pacingLib evs overriddenRobot = Some r2 ->
        calibration r2 = calibration overriddenRobot)
  /\ (forall cfg now b r3,
        construct cfg now b = Some r3 ->
        headingCalibrationSamples (calibration r3) = 0%nat
        /\ headingFastLockComplete (calibration r3) = false).
Proof.
  apply (manual_override_disables_auto_calibration pacingLib 7 calibratingRobot
           overriddenRobot (Fin (7 - JsMath.PI * 2))).
  vm_compute. reflexivity.
Defined.

(** After the manual override one more frame of the walk leaves the
    calibration as it was; without the override it has added a sample. *)
Example walk_after_override :
  calibration overriddenOnceMore = calibration overriddenRobot
  /\ headingCalibrationSamples (calibration calibratingRobot) = 2%nat
  /\ headingCalibrationSamples (calibration calibratedOnceMore) = 3%nat.
Proof. repeat split. Qed.

(** ** Terrain height *)

Lemma gtb_fin (a b : Q) : (Fin a >? Fin b)%num = true <-> b < a.
Proof. unfold Num.gtb. simpl. apply Qltb_true. Qed.

Lemma gtb_fin_false (a b : Q) : (Fin a >? Fin b)%num = false <-> a <= b.
Proof. unfold Num.gtb. simpl. apply Qltb_false. Qed.

(** C6: an accepted sample, taken when the cache holds a valid height,
    snaps the cache to the sample when it is more than 12 away, and
    otherwise moves the cache toward the sample by exactly 0.75 of the
    difference when that is more than 2, and by exactly 0.5 of it when it
    is not: never by more than the difference scaled by the blend rate. *)
Theorem terrain_smoothing (e : TickEnv) (r : G1Robot) (c s : Q)
  (globe clamped : option num) :
  sceneRef (render r) = true ->
  terrainHeightValid (terrain r) = true ->
  terrainHeightM (terrain r) = Fin c ->
  (Fin (terrain_now e) - lastTerrainSampleMs (terrain r) <? Fin 300)%num = false ->
  globe_getHeight e = returns globe ->
  scene_clampToHeight e = returns clamped ->
  combineHeights globe clamped = Fin s ->
  Qabs s <= 3000 ->
  exists h,
    terrainHeightM (terrain (snd (sampleTerrainHeight e r))) = Fin h
    /\ fst (sampleTerrainHeight e r) = Fin h
    /\ terrainHeightValid (terrain (snd (sampleTerrainHeight e r))) = true
    /\ (12 < Qabs (s - c) -> h == s)
    /\ (2 < Qabs (s - c) -> Qabs (s - c) <= 12 ->
        h == c + (s - c) * 0.75 /\ Qabs (h - c) == 0.75 * Qabs (s - c))
    /\ (Qabs (s - c) <= 2 ->
        h == c + (s - c) * 0.5 /\ Qabs (h - c) == 0.5 * Qabs (s - c))
    /\ (Qabs (s - c) <= 12 ->
        Qabs (h - c) <= Qabs (s - c) /\ 0 <= (h - c) * (s - c)).
Proof.
  intros Hscene Hvalid Hc Hdue Hglobe Hclamp Hs Hbound.
  unfold sampleTerrainHeight.
  rewrite Hscene. cbn [negb]. rewrite Hdue. cbn [andb].
  rewrite Hglobe, Hclamp, Hs. cbn [Num.isFinite negb orb].
  assert (Hin : (Num.abs (Fin s) >? Fin 3000)%num = false)
    by (apply gtb_fin_false; exact Hbound).
  rewrite Hin.
  cbn [fst snd terrain set_terrain bump_perfTerrainQueries set_perf
       lastTerrainSampleMs terrainHeightValid terrainHeightM].
  unfold blendHeight.
  cbn [terrainHeightValid terrainHeightM lastTerrainSampleMs].
  rewrite Hvalid, Hc. cbn [negb].
  change (Fin s - Fin c)%num with (Fin (s + - c)).
  assert (Ed : s + - c == s - c) by ring.
  assert (Habs : Qabs (s + - c) == Qabs (s - c)) by (rewrite Ed; reflexivity).
  pose proof (Qabs_nonneg (s - c)) as Hnn.
  assert (Hscale : forall k, 0 <= k -> Qabs ((s - c) * k) == k * Qabs (s - c)).
  { intros k Hk. rewrite Qabs_Qmult, (Qabs_pos k) by exact Hk. ring. }
  assert (Hsq : forall k, 0 <= k -> 0 <= (s - c) * k * (s - c)).
  { intros k Hk.
    assert (E : (s - c) * k * (s - c) == (s - c) * ((s - c) * k)) by ring.
    rewrite E. apply Qsquare_scaled_nonneg. exact Hk. }
  destruct (Num.abs (Fin (s + - c)) >? Fin 12)%num eqn:C12;
    [apply gtb_fin in C12 | apply gtb_fin_false in C12];
    cbn [terrainHeightM]; rewrite Habs in C12.
  - exists s. repeat split; try reflexivity; intros; lra.
  - destruct (Num.abs (Fin (s + - c)) >? Fin 2)%num eqn:C2;
      [apply gtb_fin in C2 | apply gtb_fin_false in C2];
      cbn [terrainHeightM]; rewrite Habs in C2.
    + exists (c + (s + - c) * 0.75).
      assert (E1 : c + (s + - c) * 0.75 - c == (s - c) * 0.75) by ring.
      repeat split; try reflexivity; intros; try lra.
      * rewrite E1, Hscale; lra.
      * rewrite E1, Hscale; lra.
      * rewrite E1. apply Hsq. lra.
    + exists (c + (s + - c) * 0.5).
      assert (E1 : c + (s + - c) * 0.5 - c == (s - c) * 0.5) by ring.
      repeat split; try reflexivity; intros; try lra.
      * rewrite E1, Hscale; lra.
      * rewrite E1, Hscale; lra.
      * rewrite E1. apply Hsq. lra.
Qed.

Lemma terrain_smoothing_witness :
  exists h,
    terrainHeightM (terrain (snd (sampleTerrainHeight (tickOver 400 (Fin 8)) groundedRobot)))
    = Fin h
    /\ fst (sampleTerrainHeight (tickOver 400 (Fin 8)) groundedRobot) = Fin h
    /\ terrainHeightValid
         (terrain (snd (sampleTerrainHeight (tickOver 400 (Fin 8)) groundedRobot))) = true
    /\ (12 < Qabs (8 - 5) -> h == 8)
    /\ (2 < Qabs (8 - 5) -> Qabs (8 - 5) <= 12 ->
        h == 5 + (8 - 5) * 0.75 /\ Qabs (h - 5) == 0.75 * Qabs (8 - 5))
    /\ (Qabs (8 - 5) <= 2 ->
        h == 5 + (8 - 5) * 0.5 /\ Qabs (h - 5) == 0.5 * Qabs (8 - 5))
    /\ (Qabs (8 - 5) <= 12 ->
        Qabs (h - 5) <= Qabs (8 - 5) /\ 0 <= (h - 5) * (8 - 5)).
Proof.
  apply (terrain_smoothing (tickOver 400 (Fin 8)) groundedRobot 5 8
           (Some (Fin 8)) None); try reflexivity.
  vm_compute. discriminate.
Defined.

(** A cache at 5 metres and samples at 6, 8 and 20 metres: the cache moves
    to 5.5 (half of 1), to 7.25 (three quarters of 3), and to 20. *)
Example terrain_smoothing_examples :
  exists a b,
    fst (sampleTerrainHeight (tickOver 400 (Fin 6)) groundedRobot) = Fin a
    /\ a == 5.5
    /\ fst (sampleTerrainHeight (tickOver 400 (Fin 8)) groundedRobot) = Fin b
    /\ b == 7.25
    /\ fst (sampleTerrainHeight (tickOver 400 (Fin 20)) groundedRobot) = Fin 20.
Proof.
  do 2 eexists.
  split; [vm_compute; reflexivity|]. split; [vm_compute; reflexivity|].
  split; [vm_compute; reflexivity|]. split; [vm_compute; reflexivity|].
  vm_compute; reflexivity.
Qed.

(** Where terrain is sampled, the cache only ever holds finite heights:
    an invalid or finite cache stays finite through a sample. *)
Lemma sampleTerrainHeight_cache_finite (e : TickEnv) (r : G1Robot) :
  Num.isFinite (terrainHeightM (terrain r)) = true ->
  Num.isFinite (terrainHeightM (terrain (snd (sampleTerrainHeight e r)))) = true.
Proof.
  intros Hfin. unfold sampleTerrainHeight.
  repeat match goal with
         | |- context [match ?x with _ => _ end] =>
             lazymatch x with
             | context [match _ with _ => _ end] => fail
             | _ => destruct x eqn:?
             end
         end; cbn [snd terrain set_terrain bump_perfTerrainQueries set_perf
                   terrainHeightM]; auto.
  unfold blendHeight.
  match goal with
  | H : negb (Num.isFinite ?s) || _ = false |- _ =>
      apply orb_false_iff in H; destruct H as [H _];
      apply negb_false_iff in H; destruct s; try discriminate H
  end.
  cbn [terrainHeightValid terrainHeightM].
  destruct (terrainHeightM (terrain r)); try discriminate Hfin.
  repeat match goal with
         | |- context [if ?c then _ else _] => destruct c
         end; reflexivity.
Qed.

(** ** Dynamic obstacles *)

Lemma validObstacle_cleanObstacle (item : Obstacle) :
  validObstacle (cleanObstacle item) = validObstacle item.
Proof. reflexivity. Qed.

Lemma filter_map_cleanObstacle (l : list Obstacle) :
  filter validObstacle (map cleanObstacle l)
  = map cleanObstacle (filter validObstacle l).
Proof.
  induction l as [|x l IH]; simpl; auto.
  rewrite validObstacle_cleanObstacle.
  destruct (validObstacle x); simpl; rewrite IH; reflexivity.
Qed.

(** C9: while the channel is open, [sendDynamicObstacles] sends one
    [dynamic_obstacles] message holding the candidates that pass the
    validation, in the order they came in (each with its kind defaulted),
    and sends nothing when none passes. *)
Theorem sendDynamicObstacles_validated (date_now : Q) (obstacles : list Obstacle)
  (r : G1Robot) (sock : nat) :
  ws (conn r) = Some sock ->
  readyState r sock = Some OPEN ->
  sent (out (sendDynamicObstacles date_now obstacles r))
  = match filter validObstacle obstacles with
    | [] => sent (out r)
    | valid =>
        sent (out r)
        ++ [(sock,
             dynamic_obstacles (S (dynamicObstacleSeq (conn r))) (Fin date_now)
               (map cleanObstacle valid))]
    end.
Proof.
  intros Hws Hopen.
  assert (Hcan : canSendToServer r = true).
  { unfold canSendToServer. rewrite Hws, Hopen. reflexivity. }
  unfold sendDynamicObstacles. rewrite Hcan. cbn [negb].
  rewrite filter_map_cleanObstacle.
  destruct obstacles as [|o l]; [reflexivity|].
  cbn [List.length Nat.eqb].
  destruct (filter validObstacle (o :: l)) as [|v vs] eqn:Hf; [reflexivity|].
  cbn [map List.length Nat.eqb].
  unfold sendWsPayload.
  assert (Hcan2 : canSendToServer
                    (set_dynamicObstacleSeq (S (dynamicObstacleSeq (conn r))) r) = true).
  { unfold canSendToServer, readyState in *. simpl. rewrite Hws, Hopen. reflexivity. }
  rewrite Hcan2. cbn [negb]. simpl. rewrite Hws. reflexivity.
Qed.

Lemma sendDynamicObstacles_validated_witness :
  sent (out (sendDynamicObstacles 1000
               [exampleObstacle; negativeRadiusObstacle] liveRobot))
  = match filter validObstacle [exampleObstacle; negativeRadiusObstacle] with
    | [] => sent (out liveRobot)
    | valid =>
        sent (out liveRobot)
        ++ [(0%nat,
             dynamic_obstacles (S (dynamicObstacleSeq (conn liveRobot))) (Fin 1000)
               (map cleanObstacle valid))]
    end.
Proof.
  apply (sendDynamicObstacles_validated 1000
           [exampleObstacle; negativeRadiusObstacle] liveRobot 0);
    reflexivity.
Defined.

(** One valid candidate and one with a negative radius give a message with
    the valid one alone; candidates that all fail give no message. *)
Example sendDynamicObstacles_examples :
  sent (out (sendDynamicObstacles 1000
               [exampleObstacle; negativeRadiusObstacle] liveRobot))
  = [(0%nat, dynamic_obstacles 1 (Fin 1000) [exampleObstacle])]
  /\ sent (out (sendDynamicObstacles 1000
                  [negativeRadiusObstacle; negativeRadiusObstacle] liveRobot))
     = [].
Proof. split; reflexivity. Qed.

(** ** The stream connection *)

Lemma owned_wiring r r' : wiring r' = wiring r -> owned r -> owned r'.
Proof.
  unfold wiring, owned, timerOwned. intros E H.
  inversion E as [[E1 E2 E3 E4 E5 E6 E7]]. rewrite E2, E4. exact H.
Qed.

Lemma tornDown_wiring n r r' : wiring r' = wiring r -> tornDown n r -> tornDown n r'.
Proof.
  unfold wiring, tornDown, noReconnectPending. intros E H.
  inversion E as [[E1 E2 E3 E4 E5 E6 E7]]. rewrite E2, E3, E4. exact H.
Qed.

(** The timers left by [stopPerceptionStreaming]: the ones that are not
    perception intervals. *)
Lemma stopPerceptionStreaming_conn r :
  let r' := stopPerceptionStreaming r in
  frameCaptureTimer (conn r') = None
  /\ terrainProbeTimer (conn r') = None
  /\ reconnectTimer (conn r') = reconnectTimer (conn r)
  /\ destroyed (conn r') = destroyed (conn r)
  /\ ws (conn r') = ws (conn r)
  /\ sockets (browser r') = sockets (browser r)
  /\ nextTimerId (browser r') = nextTimerId (browser r)
  /\ config r' = config r
  /\ out r' = out r
  /\ exists keep, timers (browser r') = filter keep (timers (browser r))
       /\ forall t, In t (timers (browser r)) ->
            frameCaptureTimer (conn r) = Some (timer_id t)
            \/ terrainProbeTimer (conn r) = Some (timer_id t) ->
            keep t = false.
Proof.
  unfold stopPerceptionStreaming, cancelPendingVisionCapture.
  destruct (frameCaptureTimer (conn r)) as [f|] eqn:Ef;
    destruct (terrainProbeTimer (conn r)) as [p|] eqn:Ep;
    cbn; rewrite ?Ef, ?Ep; cbn; repeat split; auto.
  - exists (fun t => negb (timer_id t =? p)%nat && negb (timer_id t =? f)%nat).
    split.
    + induction (timers (browser r)) as [|t l IH]; simpl; auto.
      destruct (timer_id t =? f)%nat; simpl; rewrite ?andb_false_r, ?IH; auto.
      destruct (timer_id t =? p)%nat; simpl; rewrite ?IH; auto.
    + intros t _ [H|H]; inversion H; subst; rewrite Nat.eqb_refl;
        rewrite ?andb_false_r; reflexivity.
  - exists (fun t => negb (timer_id t =? f)%nat). split; auto.
    intros t _ [H|H]; inversion H; subst; rewrite Nat.eqb_refl; reflexivity.
  - exists (fun t => negb (timer_id t =? p)%nat). split; auto.
    intros t _ [H|H]; inversion H; subst; rewrite Nat.eqb_refl; reflexivity.
  - exists (fun _ => true). split.
    + induction (timers (browser r)) as [|t l IH]; simpl; congruence.
    + intros t _ [H|H]; discriminate H.
Qed.

Lemma filter_In_keep {A : Type} (keep : A -> bool) (l : list A) (P : A -> Prop) :
  Forall P l -> Forall (fun t => P t /\ keep t = true) (filter keep l).
Proof.
  induction 1 as [|x l Hx Hl IH]; simpl; auto.
  destruct (keep x) eqn:E; auto.
Qed.

(** After [stopPerceptionStreaming] only reconnect timeouts are pending,
    and every timer is still the one its owner field names. *)
Lemma stopPerceptionStreaming_owned r :
  owned r ->
  owned (stopPerceptionStreaming r)
  /\ Forall (fun t => timer_callback t = cb_connectStream)
       (timers (browser (stopPerceptionStreaming r))).
Proof.
  intros Hs.
  destruct (stopPerceptionStreaming_conn r)
    as (Ef & Ep & Er & Ed & _ & _ & _ & _ & _ & keep & Et & Hkeep).
  unfold owned in *. rewrite Et.
  pose proof (filter_In_keep keep _ _ Hs) as H.
  assert (Hall : Forall (fun t => In t (timers (browser r)))
                   (filter keep (timers (browser r)))).
  { apply Forall_forall. intros t Ht. apply filter_In in Ht. tauto. }
  split; apply Forall_forall; intros t Ht;
    rewrite Forall_forall in H, Hall;
    destruct (H t Ht) as [Hown Hk]; specialize (Hall t Ht);
    unfold timerOwned in *;
    destruct (timer_callback t); auto.
  - rewrite Er. exact Hown.
  - rewrite (Hkeep t Hall (or_introl Hown)) in Hk. discriminate Hk.
  - rewrite (Hkeep t Hall (or_intror Hown)) in Hk. discriminate Hk.
  - rewrite (Hkeep t Hall (or_introl Hown)) in Hk. discriminate Hk.
  - rewrite (Hkeep t Hall (or_intror Hown)) in Hk. discriminate Hk.
Qed.

(** Stopping the perception timers and clearing the reconnect timeout
    leaves no timer pending. *)
Lemma clearReconnect_stopPerceptionStreaming r :
  owned r ->
  timers (browser (clearReconnect (stopPerceptionStreaming r))) = [].
Proof.
  intros Ho. destruct (stopPerceptionStreaming_owned r Ho) as [Hsb Hall].
  set (rb := stopPerceptionStreaming r) in *. clearbody rb.
  unfold clearReconnect, owned in *.
  destruct (reconnectTimer (conn rb)) as [id0|] eqn:Eid.
  - simpl. induction (timers (browser rb)) as [|t l IH]; auto.
    inversion Hsb; subst. inversion Hall; subst.
    unfold timerOwned in H1. rewrite H3 in H1. destruct H1 as (H1 & _).
    rewrite Eid in H1. inversion H1; subst. simpl.
    rewrite Nat.eqb_refl. simpl. apply IH; auto.
  - destruct (timers (browser rb)) as [|t l]; auto.
    inversion Hsb; subst. inversion Hall; subst.
    unfold timerOwned in H1. rewrite H3 in H1. destruct H1 as (H1 & _).
    rewrite Eid in H1. discriminate H1.
Qed.

Lemma clearReconnect_rest r :
  conn (clearReconnect r) = conn r
  /\ sockets (browser (clearReconnect r)) = sockets (browser r)
  /\ nextTimerId (browser (clearReconnect r)) = nextTimerId (browser r)
  /\ out (clearReconnect r) = out r
  /\ config (clearReconnect r) = config r.
Proof. unfold clearReconnect. destruct (reconnectTimer (conn r)); auto. Qed.

Lemma emitStreamState_wiring s r : wiring (emitStreamState s r) = wiring r.
Proof. unfold emitStreamState. frame. Qed.

Lemma emitStreamState_out s r :
  streamStates (out (emitStreamState s r))
  = if onStreamStateChange (config r)
    then streamStates (out r) ++ [s] else streamStates (out r).
Proof. unfold emitStreamState. destruct (onStreamStateChange (config r)); reflexivity. Qed.

Lemma wiring_conn r r' : wiring r' = wiring r -> conn r' = conn r.
Proof. unfold wiring. intros E. inversion E. auto. Qed.

Lemma wiring_timers r r' :
  wiring r' = wiring r -> timers (browser r') = timers (browser r).
Proof. unfold wiring. intros E. inversion E. auto. Qed.

Lemma wiring_sockets r r' :
  wiring r' = wiring r -> sockets (browser r') = sockets (browser r).
Proof. unfold wiring. intros E. inversion E. auto. Qed.

Lemma wiring_config r r' : wiring r' = wiring r -> config r' = config r.
Proof. unfold wiring. intros E. inversion E. auto. Qed.

Lemma wiring_nextTimerId r r' :
  wiring r' = wiring r -> nextTimerId (browser r') = nextTimerId (browser r).
Proof. unfold wiring. intros E. inversion E. auto. Qed.

(** What the [onclose] handler leaves, on a robot that is not destroyed. *)
Lemma ws_onclose_alive r :
  owned r -> destroyed (conn r) = false ->
  streamStates (out (ws_onclose r))
  = (if onStreamStateChange (config r)
     then streamStates (out r) ++ [offline] else streamStates (out r))
  /\ frameCaptureTimer (conn (ws_onclose r)) = None
  /\ terrainProbeTimer (conn (ws_onclose r)) = None
  /\ timers (browser (ws_onclose r)) = [reconnectTimeout (nextTimerId (browser r))]
  /\ reconnectTimer (conn (ws_onclose r)) = Some (nextTimerId (browser r))
  /\ destroyed (conn (ws_onclose r)) = false
  /\ sockets (browser (ws_onclose r)) = sockets (browser r)
  /\ nextTimerId (browser (ws_onclose r)) = S (nextTimerId (browser r))
  /\ owned (ws_onclose r).
Proof.
  intros Hs Hd.
  pose proof (emitStreamState_wiring offline r) as Hw.
  pose proof (emitStreamState_out offline r) as Ho.
  set (ra := emitStreamState offline r) in *.
  assert (Hsa : owned ra) by (apply (owned_wiring r ra); auto).
  destruct (stopPerceptionStreaming_conn ra)
    as (Ef & Ep & Er & Ed & _ & Esock & Enext & Ecfg & Eout & _).
  pose proof (clearReconnect_stopPerceptionStreaming ra Hsa) as Hnone.
  destruct (clearReconnect_rest (stopPerceptionStreaming ra))
    as (Hc1 & Hc2 & Hc3 & Hc4 & Hc5).
  assert (Hdb : destroyed (conn (stopPerceptionStreaming ra)) = false).
  { rewrite Ed, (wiring_conn _ _ Hw). exact Hd. }
  unfold ws_onclose. fold ra. rewrite Hdb.
  fold (clearReconnect (stopPerceptionStreaming ra)).
  set (rc := clearReconnect (stopPerceptionStreaming ra)) in *.
  clearbody rc.
  unfold setTimer. cbn.
  rewrite Hnone, Hc1, Hc3, Hc4, Ef, Ep, Hdb, Enext, Eout, Hc2, Esock.
  rewrite (wiring_nextTimerId _ _ Hw), (wiring_sockets _ _ Hw), Ho.
  repeat split; auto.
  unfold owned. cbn. rewrite ?Hnone. cbn. constructor; [|constructor].
  unfold timerOwned. cbn.
  rewrite ?Hc3, ?Enext, ?(wiring_nextTimerId _ _ Hw). auto.
Qed.

Lemma setReadyState_length s st l :
  List.length (setReadyState s st l) = List.length l.
Proof.
  revert s. induction l as [|x l IH]; intros [|s]; simpl; auto.
Qed.

Lemma closeSocket_rest r :
  List.length (sockets (browser (closeSocket r))) = List.length (sockets (browser r))
  /\ timers (browser (closeSocket r)) = timers (browser r)
  /\ nextTimerId (browser (closeSocket r)) = nextTimerId (browser r)
  /\ reconnectTimer (conn (closeSocket r)) = reconnectTimer (conn r)
  /\ frameCaptureTimer (conn (closeSocket r)) = frameCaptureTimer (conn r)
  /\ terrainProbeTimer (conn (closeSocket r)) = terrainProbeTimer (conn r)
  /\ destroyed (conn (closeSocket r)) = destroyed (conn r)
  /\ config (closeSocket r) = config r
  /\ out (closeSocket r) = out r.
Proof.
  unfold closeSocket, socket_close.
  destruct (ws (conn r)) as [sock|]; auto 10.
  destruct (readyState r sock) as [[| | |]|]; cbn;
    rewrite ?setReadyState_length; auto 10.
Qed.

Lemma owned_same_fields r r' :
  timers (browser r') = timers (browser r) ->
  reconnectTimer (conn r') = reconnectTimer (conn r) ->
  frameCaptureTimer (conn r') = frameCaptureTimer (conn r) ->
  terrainProbeTimer (conn r') = terrainProbeTimer (conn r) ->
  owned r -> owned r'.
Proof.
  unfold owned, timerOwned. intros E1 E2 E3 E4 H. rewrite E1, E2, E3, E4. exact H.
Qed.

(** What [connectStream] leaves, on a robot that is not destroyed: one
    more socket, connecting, held in [ws]. *)
Lemma connectStream_alive r :
  owned r -> destroyed (conn r) = false ->
  List.length (sockets (browser (connectStream r)))
  = S (List.length (sockets (browser r)))
  /\ ws (conn (connectStream r)) = Some (List.length (sockets (browser r)))
  /\ nth_error (sockets (browser (connectStream r)))
       (List.length (sockets (browser r))) = Some CONNECTING
  /\ streamStates (out (connectStream r))
     = (if onStreamStateChange (config r)
        then streamStates (out r) ++ [connecting] else streamStates (out r))
  /\ timers (browser (connectStream r))
     = timers (browser (stopPerceptionStreaming r))
  /\ reconnectTimer (conn (connectStream r)) = reconnectTimer (conn r)
  /\ destroyed (conn (connectStream r)) = false
  /\ nextTimerId (browser (connectStream r)) = nextTimerId (browser r)
  /\ owned (connectStream r).
Proof.
  intros Ho Hd.
  unfold connectStream. rewrite Hd.
  destruct (stopPerceptionStreaming_conn r)
    as (Ef & Ep & Er & Ed & _ & Esock & Enext & Ecfg & Eout & _).
  destruct (stopPerceptionStreaming_owned r Ho) as [Hob _].
  set (rb := stopPerceptionStreaming r) in *. clearbody rb.
  destruct (closeSocket_rest rb) as (C1 & C2 & C3 & C4 & C5 & C6 & C7 & C8 & C9).
  assert (Hoc : owned (closeSocket rb))
    by (apply (owned_same_fields rb); auto).
  set (rc := closeSocket rb) in *. clearbody rc.
  pose proof (emitStreamState_wiring connecting rc) as Hw.
  pose proof (emitStreamState_out connecting rc) as Hout.
  assert (Hod : owned (emitStreamState connecting rc))
    by (apply (owned_wiring rc); auto).
  set (rd := emitStreamState connecting rc) in *. clearbody rd.
  cbn.
  rewrite (wiring_sockets _ _ Hw), (wiring_timers _ _ Hw), (wiring_conn _ _ Hw).
  rewrite Hout, C8, C9, Ecfg, Eout.
  rewrite length_app, C1, Esock. cbn. rewrite Nat.add_1_r.
  rewrite C2, C4, C7, Er, Ed, Hd.
  rewrite (wiring_nextTimerId _ _ Hw), C3, Enext.
  repeat split; auto.
  rewrite nth_error_app2 by (rewrite C1, Esock; lia).
  rewrite C1, Esock, Nat.sub_diag. reflexivity.
Qed.

(** [destroy] leaves a robot that is torn down, with no timer pending. *)
Lemma destroy_tornDown r :
  owned r ->
  tornDown (List.length (sockets (browser r))) (destroy r)
  /\ timers (browser (destroy r)) = []
  /\ reconnectTimer (conn (destroy r)) = None
  /\ ws (conn (destroy r)) = None.
Proof.
  intros Ho. unfold destroy.
  set (r0 := cancelPendingVisionCapture (set_destroyed true r)).
  assert (Ho0 : owned r0) by exact Ho.
  assert (Hd0 : destroyed (conn r0) = true) by reflexivity.
  assert (Hs0 : sockets (browser r0) = sockets (browser r)) by reflexivity.
  clearbody r0.
  destruct (stopPerceptionStreaming_conn r0)
    as (Ef & Ep & Er & Ed & _ & Esock & Enext & Ecfg & Eout & _).
  pose proof (clearReconnect_stopPerceptionStreaming r0 Ho0) as Hnone.
  destruct (clearReconnect_rest (stopPerceptionStreaming r0))
    as (Hc1 & Hc2 & Hc3 & Hc4 & Hc5).
  set (rb := stopPerceptionStreaming r0) in *. clearbody rb.
  set (rc := match reconnectTimer (conn rb) with
             | Some id => set_reconnectTimer None (clearTimer id rb)
             | None => rb
             end).
  assert (Hrc : timers (browser rc) = []
                /\ reconnectTimer (conn rc) = None
                /\ destroyed (conn rc) = true
                /\ List.length (sockets (browser rc)) = List.length (sockets (browser r))).
  { unfold rc, clearReconnect in *.
    destruct (reconnectTimer (conn rb)) eqn:E; cbn in *;
      rewrite ?Hnone, ?Ed, ?Hd0, ?Esock, ?Hs0; auto. }
  clearbody rc. destruct Hrc as (T1 & T2 & T3 & T4).
  destruct (closeSocket_rest rc) as (C1 & C2 & C3 & C4 & C5 & C6 & C7 & C8 & C9).
  assert (Hws : ws (conn (closeSocket rc)) = None).
  { unfold closeSocket. destruct (ws (conn rc)) eqn:E; auto. }
  set (rd := closeSocket rc) in *. clearbody rd.
  pose proof (emitStreamState_wiring offline rd) as Hw.
  set (re := emitStreamState offline rd) in *. clearbody re.
  assert (Hv : wiring (Vehicle_destroy re) = wiring re).
  { unfold Vehicle_destroy. destruct (primitive (render re)); reflexivity. }
  set (rf := Vehicle_destroy re) in *. clearbody rf.
  unfold tornDown, noReconnectPending.
  rewrite (wiring_conn _ _ Hv), (wiring_conn _ _ Hw).
  rewrite (wiring_sockets _ _ Hv), (wiring_sockets _ _ Hw).
  rewrite (wiring_timers _ _ Hv), (wiring_timers _ _ Hw).
  rewrite C1, C2, C4, C7, T1, T2, T3, T4, Hws.
  repeat split; auto.
Qed.

(** ** What keeps the timers *)

Lemma wiring_schedule r r' : wiring r' = wiring r -> schedule r' = schedule r.
Proof.
  unfold wiring, schedule. intros E.
  inversion E as [[E1 E2 E3 E4 E5 E6 E7]]. reflexivity.
Qed.

Lemma owned_schedule r r' : schedule r' = schedule r -> owned r -> owned r'.
Proof.
  unfold schedule, owned, timerOwned. intros E H.
  inversion E as [[E1 E2 E3 E4 E5 E6 E7 E8]]. rewrite E1, E4, E5, E6. exact H.
Qed.

Lemma tornDown_schedule n r r' :
  schedule r' = schedule r -> tornDown n r -> tornDown n r'.
Proof.
  unfold schedule, tornDown, noReconnectPending. intros E H.
  inversion E as [[E1 E2 E3 E4 E5 E6 E7 E8]]. rewrite E1, E3, E7. exact H.
Qed.

Lemma sendWsPayload_schedule p r : schedule (sendWsPayload p r) = schedule r.
Proof.
  unfold sendWsPayload.
  destruct (negb (canSendToServer r)); auto. destruct (ws (conn r)); auto.
Qed.

Lemma sendDynamicObstacles_schedule d obs r :
  schedule (sendDynamicObstacles d obs r) = schedule r.
Proof.
  unfold sendDynamicObstacles.
  destruct (negb (canSendToServer r)); auto.
  destruct (List.length obs =? 0)%nat; auto.
  destruct (List.length _ =? 0)%nat; auto.
  rewrite sendWsPayload_schedule. reflexivity.
Qed.

Lemma sampleProbeHeights_schedule e b d r :
  schedule (snd (sampleProbeHeights e b d r)) = schedule r.
Proof.
  unfold sampleProbeHeights.
  destruct (negb (sceneRef (render r))); auto.
  destruct (probe_clampToHeight e b d); auto.
  destruct (negb _ && negb _); auto.
  destruct (_ && _); auto.
Qed.

Lemma probeFan_schedule e base fan : forall samples r,
  schedule (snd (probeFan e base fan samples r)) = schedule r.
Proof.
  induction fan as [|[b d] fan IH]; intros samples r; simpl; auto.
  pose proof (sampleProbeHeights_schedule e b d r) as Hc.
  destruct (sampleProbeHeights e b d r) as [q r1]. cbn [snd] in Hc.
  rewrite <- Hc.
  destruct q as [|[[[h g] s]|]]; auto.
Qed.

Lemma sendTerrainProbe_schedule e r :
  schedule (settled (sendTerrainProbe e r)) = schedule r.
Proof.
  unfold sendTerrainProbe.
  destruct (negb (canSendToServer r) || negb (sceneRef (render r))); auto.
  destruct (buildRobotTelemetry r); auto.
  match goal with
  | |- context [probeFan ?e ?b ?f ?s ?r] =>
      pose proof (probeFan_schedule e b f s r) as Hc;
      destruct (probeFan e b f s r) as [q r1]
  end.
  cbn [snd] in Hc.
  destruct q as [|samples]; cbn [settled]; auto.
  destruct (List.length samples =? 0)%nat; cbn [settled]; auto.
  rewrite (wiring_schedule _ _ (maybeEmitPerfStatus_wiring _ _)).
  rewrite sendWsPayload_schedule. exact Hc.
Qed.

Lemma update_wiring L e r r' : update L e r = Some r' -> wiring r' = wiring r.
Proof.
  unfold update. intros H.
  repeat (break_head H; try discriminate H).
  all: try (inversion H; subst; clear H; frame; fail).
  all: apply applyFrame_wiring in H; rewrite H; frame.
Qed.

Lemma setModelHeadingOffsetRad_wiring x r res :
  setModelHeadingOffsetRad x r = Some res -> wiring (fst res) = wiring r.
Proof.
  unfold setModelHeadingOffsetRad, bind. intros H.
  repeat (break_head H; try discriminate H).
  all: inversion H; subst; clear H; cbn [fst]; frame.
Qed.

Lemma ws_onmessage_wiring data r : wiring (ws_onmessage data r) = wiring r.
Proof. unfold ws_onmessage, isStatusMessage. frame. Qed.

Lemma modelReady_wiring r : wiring (modelReady r) = wiring r.
Proof. unfold modelReady. frame. Qed.

Lemma loadNodeMap_wiring f r : wiring (loadNodeMap f r) = wiring r.
Proof. destruct f; reflexivity. Qed.

Lemma Vehicle_initialize_wiring g r : wiring (Vehicle_initialize g r) = wiring r.
Proof. reflexivity. Qed.

(** Clearing a timer keeps the owners of the ones that stay. *)
Lemma clearTimer_owned id r : owned r -> owned (clearTimer id r).
Proof.
  unfold owned, clearTimer. cbn. intros H.
  apply Forall_forall. intros t Ht. apply filter_In in Ht.
  rewrite Forall_forall in H. apply (H t). tauto.
Qed.

Lemma Forall_filter_keeps {A : Type} (P : A -> Prop) keep (l : list A) :
  Forall P l -> Forall P (filter keep l).
Proof.
  intros H. apply Forall_forall. intros t Ht. apply filter_In in Ht.
  rewrite Forall_forall in H. apply H. tauto.
Qed.

Lemma stopPerceptionStreaming_noReconnectPending r :
  noReconnectPending r -> noReconnectPending (stopPerceptionStreaming r).
Proof.
  unfold noReconnectPending. intros H.
  destruct (stopPerceptionStreaming_conn r)
    as (_ & _ & _ & _ & _ & _ & _ & _ & _ & keep & Et & _).
  rewrite Et. apply Forall_filter_keeps. exact H.
Qed.

(** What [startPerceptionStreaming] leaves, however its first probe
    ends: the two perception intervals on top of the reconnect timeouts
    that were pending. *)
Lemma startPerceptionStreaming_owned e r :
  owned r ->
  let r' := settled (startPerceptionStreaming e r) in
  owned r'
  /\ destroyed (conn r') = destroyed (conn r)
  /\ sockets (browser r') = sockets (browser r)
  /\ (noReconnectPending r -> noReconnectPending r').
Proof.
  intros Ho r'. subst r'. unfold startPerceptionStreaming.
  destruct (stopPerceptionStreaming_conn r)
    as (Ef & Ep & Er & Ed & _ & Esock & Enext & _ & _ & _).
  destruct (stopPerceptionStreaming_owned r Ho) as [Hob Hall].
  pose proof (stopPerceptionStreaming_noReconnectPending r) as Hno.
  set (rb := stopPerceptionStreaming r) in *. clearbody rb.
  unfold setTimer. cbv beta iota zeta.
  match goal with
  | |- context [sendTerrainProbe e ?x] => set (rc := x)
  end.
  assert (Hc : owned rc
               /\ destroyed (conn rc) = destroyed (conn r)
               /\ sockets (browser rc) = sockets (browser r)
               /\ (noReconnectPending r -> noReconnectPending rc)).
  { unfold rc, owned, noReconnectPending. cbn.
    rewrite Ed, Esock. repeat split; auto.
    - rewrite <- app_assoc. apply Forall_app. split.
      + apply Forall_forall. intros t Ht.
        unfold owned in Hob. rewrite Forall_forall in Hob, Hall.
        specialize (Hob t Ht). specialize (Hall t Ht).
        unfold timerOwned in *. cbn. rewrite Hall in *. exact Hob.
      + repeat constructor.
    - intros H. rewrite <- app_assoc. apply Forall_app. split.
      + apply Hno. exact H.
      + repeat constructor; cbn; discriminate. }
  clearbody rc. destruct Hc as (H1 & H2 & H3 & H4).
  pose proof (sendTerrainProbe_schedule e rc) as Hs.
  set (rd := settled (sendTerrainProbe e rc)) in *. clearbody rd.
  unfold schedule in Hs. inversion Hs as [[E1 E2 E3 E4 E5 E6 E7 E8]].
  repeat split.
  - apply (owned_schedule rc); auto.
  - congruence.
  - congruence.
  - intros H. unfold noReconnectPending. rewrite E1. apply H4. exact H.
Qed.

(** ** The scheduling invariant *)

Lemma pendingTimer_In id r t :
  pendingTimer id r = Some t -> In t (timers (browser r)) /\ timer_id t = id.
Proof.
  unfold pendingTimer. intros H. apply find_some in H.
  destruct H as [H1 H2]. apply Nat.eqb_eq in H2. auto.
Qed.

(** Every event keeps the timers with their owners. *)
Lemma step_owned (L : Lib) (ev : Event) (r r' : G1Robot) :
  step L ev r = Some r' -> owned r -> owned r'.
Proof.
  intros H Ho. destruct ev; simpl in H.
  - inversion H; subst; clear H. unfold initialize.
    set (r1 := loadNodeMap f (Vehicle_initialize gltf r)).
    assert (Ho1 : owned r1).
    { apply (owned_wiring r); auto. unfold r1.
      rewrite loadNodeMap_wiring. apply Vehicle_initialize_wiring. }
    clearbody r1. destruct (destroyed (conn r1)) eqn:Hd.
    + unfold connectStream. rewrite Hd. exact Ho1.
    + apply connectStream_alive; auto.
  - inversion H; subst; clear H.
    apply (owned_wiring r); auto. apply modelReady_wiring.
  - apply update_wiring in H. apply (owned_wiring r); auto.
  - unfold bind in H.
    destruct (setModelHeadingOffsetRad offsetRad r) as [res|] eqn:E; [|discriminate].
    inversion H; subst; clear H.
    apply setModelHeadingOffsetRad_wiring in E. apply (owned_wiring r); auto.
  - inversion H; subst; clear H.
    apply (owned_schedule r); auto. apply sendDynamicObstacles_schedule.
  - inversion H; subst; clear H. unfold ws_onopen.
    set (r1 := emitStatus _ (emitStreamState live _)).
    assert (Ho1 : owned r1).
    { apply (owned_wiring (set_sockets (setReadyState sock OPEN (sockets (browser r))) r));
        [|exact Ho].
      unfold r1. rewrite emitStatus_wiring. apply emitStreamState_wiring. }
    clearbody r1.
    destruct (startPerceptionStreaming_owned (open_probe e) r1 Ho1) as (H1 & _).
    destruct (startPerceptionStreaming (open_probe e) r1) as [r2|r2]; cbn in H1; auto.
    apply (owned_schedule r2); auto. apply sendWsPayload_schedule.
  - inversion H; subst; clear H.
    apply (owned_wiring r); auto. apply ws_onmessage_wiring.
  - inversion H; subst; clear H. unfold ws_onerror.
    apply stopPerceptionStreaming_owned.
    apply (owned_wiring r); auto. apply emitStreamState_wiring.
  - inversion H; subst; clear H.
    set (r1 := set_sockets _ r). assert (Ho1 : owned r1) by exact Ho. clearbody r1.
    destruct (destroyed (conn r1)) eqn:Hd.
    + unfold ws_onclose.
      destruct (stopPerceptionStreaming_conn (emitStreamState offline r1))
        as (_ & _ & _ & Ed & _).
      rewrite Ed, (wiring_conn _ _ (emitStreamState_wiring offline r1)), Hd.
      apply stopPerceptionStreaming_owned.
      apply (owned_wiring r1); auto. apply emitStreamState_wiring.
    + apply ws_onclose_alive; auto.
  - destruct (pendingTimer id r) as [t|] eqn:Et; [|inversion H; subst; auto].
    destruct (timer_repeat t); [inversion H; subst; auto|].
    destruct (timer_callback t); inversion H; subst; auto.
    pose proof (clearTimer_owned id r Ho) as Ho1.
    set (r1 := clearTimer id r) in *.
    assert (Hd1 : destroyed (conn r1) = destroyed (conn r)) by reflexivity.
    clearbody r1. destruct (destroyed (conn r1)) eqn:Hd.
    + unfold connectStream. rewrite Hd. exact Ho1.
    + apply connectStream_alive; auto.
  - destruct (pendingTimer id r) as [t|] eqn:Et; [|inversion H; subst; auto].
    destruct (timer_repeat t); [|inversion H; subst; auto].
    destruct (timer_callback t); inversion H; subst; auto.
    apply (owned_schedule r); auto. apply sendTerrainProbe_schedule.
  - inversion H; subst; clear H.
    destruct (destroy_tornDown r Ho) as (_ & Ht & _).
    unfold owned. rewrite Ht. constructor.
Qed.

Lemma run_owned (L : Lib) (evs : list Event) : forall r r',
  run L evs r = Some r' -> owned r -> owned r'.
Proof.
  induction evs as [|ev evs IH]; simpl; intros r r' H Ho.
  - inversion H; subst. exact Ho.
  - unfold bind in H. destruct (step L ev r) as [r1|] eqn:E; [|discriminate].
    apply (IH r1); auto. apply (step_owned L ev r); auto.
Qed.

Lemma construct_owned cfg now b r :
  timers b = [] -> construct cfg now b = Some r -> owned r.
Proof.
  unfold construct, loadHeadingOffsetFromStorage, bind. intros Hb H.
  assert (E : timers (browser r) = []).
  { repeat (break_head H; try discriminate H).
    all: inversion H; subst; clear H; exact Hb. }
  unfold owned. rewrite E. constructor.
Qed.

Lemma ws_onerror_tornDown n r : tornDown n r -> tornDown n (ws_onerror r).
Proof.
  intros Ht. unfold ws_onerror.
  pose proof (tornDown_wiring n r _ (emitStreamState_wiring offline r) Ht) as H1.
  set (r1 := emitStreamState offline r) in *. clearbody r1.
  destruct H1 as (Hd & Hn & Hp).
  destruct (stopPerceptionStreaming_conn r1)
    as (_ & _ & _ & Ed & _ & Esock & _).
  unfold tornDown. rewrite Ed, Esock.
  repeat split; auto. apply stopPerceptionStreaming_noReconnectPending. exact Hp.
Qed.

(** Once torn down, the robot stays so under every event: it stays
    destroyed, no socket is added, and no reconnect is pending. *)
Lemma step_tornDown (L : Lib) (ev : Event) (n : nat) (r r' : G1Robot) :
  step L ev r = Some r' -> owned r -> tornDown n r -> tornDown n r'.
Proof.
  intros H Ho Ht. destruct ev; simpl in H.
  - inversion H; subst; clear H. unfold initialize.
    set (r1 := loadNodeMap f (Vehicle_initialize gltf r)).
    assert (Ht1 : tornDown n r1).
    { apply (tornDown_wiring n r); auto. unfold r1.
      rewrite loadNodeMap_wiring. apply Vehicle_initialize_wiring. }
    clearbody r1. unfold connectStream.
    destruct Ht1 as (Hd & Hrest). rewrite Hd. split; auto.
  - inversion H; subst; clear H.
    apply (tornDown_wiring n r); auto. apply modelReady_wiring.
  - apply update_wiring in H. apply (tornDown_wiring n r); auto.
  - unfold bind in H.
    destruct (setModelHeadingOffsetRad offsetRad r) as [res|] eqn:E; [|discriminate].
    inversion H; subst; clear H.
    apply setModelHeadingOffsetRad_wiring in E. apply (tornDown_wiring n r); auto.
  - inversion H; subst; clear H.
    apply (tornDown_schedule n r); auto. apply sendDynamicObstacles_schedule.
  - inversion H; subst; clear H. unfold ws_onopen.
    set (r0 := set_sockets (setReadyState sock OPEN (sockets (browser r))) r).
    assert (Ht0 : tornDown n r0).
    { destruct Ht as (Hd & Hn & Hp). unfold tornDown, r0. cbn.
      rewrite setReadyState_length. auto. }
    assert (Ho0 : owned r0) by exact Ho.
    clearbody r0.
    set (r1 := emitStatus _ (emitStreamState live r0)).
    assert (Hw : wiring r1 = wiring r0).
    { unfold r1. rewrite emitStatus_wiring. apply emitStreamState_wiring. }
    clearbody r1.
    pose proof (tornDown_wiring n r0 r1 Hw Ht0) as (Hd & Hn & Hp).
    pose proof (owned_wiring r0 r1 Hw Ho0) as Ho1.
    destruct (startPerceptionStreaming_owned (open_probe e) r1 Ho1)
      as (_ & H2 & H3 & H4).
    assert (Ht2 : tornDown n (settled (startPerceptionStreaming (open_probe e) r1))).
    { unfold tornDown. rewrite H2, H3. auto. }
    destruct (startPerceptionStreaming (open_probe e) r1) as [r2|r2];
      cbn [settled] in Ht2; auto.
    apply (tornDown_schedule n r2); auto. apply sendWsPayload_schedule.
  - inversion H; subst; clear H.
    apply (tornDown_wiring n r); auto. apply ws_onmessage_wiring.
  - inversion H; subst; clear H. apply ws_onerror_tornDown. exact Ht.
  - inversion H; subst; clear H.
    set (r0 := set_sockets (setReadyState sock CLOSED (sockets (browser r))) r).
    assert (Ht0 : tornDown n r0).
    { destruct Ht as (Hd & Hn & Hp). unfold tornDown, r0. cbn.
      rewrite setReadyState_length. auto. }
    clearbody r0.
    pose proof (ws_onerror_tornDown n r0 Ht0) as Ht1.
    unfold ws_onclose. unfold ws_onerror in Ht1.
    destruct Ht1 as (Hd & Hrest). rewrite Hd. split; auto.
  - destruct (pendingTimer id r) as [t|] eqn:Et; [|inversion H; subst; auto].
    destruct (timer_repeat t); [inversion H; subst; auto|].
    destruct (timer_callback t) eqn:Ecb; inversion H; subst; auto.
    apply pendingTimer_In in Et. destruct Et as [Hin _].
    destruct Ht as (_ & _ & Hp). unfold noReconnectPending in Hp.
    rewrite Forall_forall in Hp. destruct (Hp t Hin Ecb).
  - destruct (pendingTimer id r) as [t|] eqn:Et; [|inversion H; subst; auto].
    destruct (timer_repeat t); [|inversion H; subst; auto].
    destruct (timer_callback t); inversion H; subst; auto.
    apply (tornDown_schedule n r); auto. apply sendTerrainProbe_schedule.
  - inversion H; subst; clear H.
    destruct (destroy_tornDown r Ho) as (Hd & _).
    destruct Ht as (_ & Hn & _). rewrite <- Hn. exact Hd.
Qed.

Lemma run_tornDown (L : Lib) (n : nat) (evs : list Event) : forall r r',
  run L evs r = Some r' -> owned r -> tornDown n r -> tornDown n r'.
Proof.
  induction evs as [|ev evs IH]; simpl; intros r r' H Ho Ht.
  - inversion H; subst. exact Ht.
  - unfold bind in H. destruct (step L ev r) as [r1|] eqn:E; [|discriminate].
    apply (IH r1); auto.
    + apply (step_owned L ev r); auto.
    + apply (step_tornDown L ev n r); auto.
Qed.

(** A close on a robot that is not destroyed, and the firing of the
    timeout it sets. *)
Lemma close_then_retry (L : Lib) (sock : nat) (r : G1Robot) :
  owned r -> destroyed (conn r) = false ->
  exists r1 r2,
    step L (ev_close sock) r = Some r1
    /\ streamStates (out r1)
       = (if onStreamStateChange (config r)
          then streamStates (out r) ++ [offline] else streamStates (out r))
    /\ frameCaptureTimer (conn r1) = None
    /\ terrainProbeTimer (conn r1) = None
    /\ timers (browser r1) = [reconnectTimeout (nextTimerId (browser r))]
    /\ reconnectTimer (conn r1) = Some (nextTimerId (browser r))
    /\ destroyed (conn r1) = false
    /\ step L (ev_timeout (nextTimerId (browser r))) r1 = Some r2
    /\ List.length (sockets (browser r2)) = S (List.length (sockets (browser r)))
    /\ ws (conn r2) = Some (List.length (sockets (browser r)))
    /\ nth_error (sockets (browser r2)) (List.length (sockets (browser r)))
       = Some CONNECTING
    /\ timers (browser r2) = []
    /\ nextTimerId (browser r2) = S (nextTimerId (browser r))
    /\ destroyed (conn r2) = false
    /\ owned r2.
Proof.
  intros Ho Hd.
  set (r0 := set_sockets (setReadyState sock CLOSED (sockets (browser r))) r).
  assert (Ho0 : owned r0) by exact Ho.
  assert (Hd0 : destroyed (conn r0) = false) by exact Hd.
  assert (Hn0 : nextTimerId (browser r0) = nextTimerId (browser r)) by reflexivity.
  assert (Hl0 : List.length (sockets (browser r0)) = List.length (sockets (browser r))).
  { unfold r0. cbn. apply setReadyState_length. }
  assert (Hc0 : config r0 = config r) by reflexivity.
  assert (Hout0 : out r0 = out r) by reflexivity.
  destruct (ws_onclose_alive r0 Ho0 Hd0)
    as (A1 & A2 & A3 & A4 & A5 & A6 & A7 & A8 & A9).
  exists (ws_onclose r0).
  set (k := nextTimerId (browser r)) in *.
  set (r1 := ws_onclose r0) in *.
  assert (Hstep : step L (ev_close sock) r = Some r1) by reflexivity.
  clearbody r1 r0.
  rewrite Hn0 in *. rewrite Hc0, Hout0 in A1.
  assert (Hpend : pendingTimer k r1 = Some (reconnectTimeout k)).
  { unfold pendingTimer. rewrite A4. cbn. rewrite Nat.eqb_refl. reflexivity. }
  pose proof (clearTimer_owned k r1 A9) as Hoc.
  assert (Htc : timers (browser (clearTimer k r1)) = []).
  { unfold clearTimer. cbn. rewrite A4. cbn. rewrite Nat.eqb_refl. reflexivity. }
  set (rc := clearTimer k r1) in *.
  assert (Hdc : destroyed (conn rc) = false) by exact A6.
  assert (Hsc : sockets (browser rc) = sockets (browser r1)) by reflexivity.
  assert (Hnc : nextTimerId (browser rc) = nextTimerId (browser r1)) by reflexivity.
  destruct (connectStream_alive rc Hoc Hdc)
    as (B1 & B2 & B3 & B4 & B5 & B6 & B7 & B8 & B9).
  exists (connectStream rc).
  assert (Hstep2 : step L (ev_timeout k) r1 = Some (connectStream rc)).
  { simpl. rewrite Hpend. reflexivity. }
  assert (Htimers : timers (browser (connectStream rc)) = []).
  { rewrite B5.
    destruct (stopPerceptionStreaming_conn rc)
      as (_ & _ & _ & _ & _ & _ & _ & _ & _ & keep & Et & _).
    rewrite Et, Htc. reflexivity. }
  clearbody rc.
  rewrite Hsc, A7, Hl0 in *. rewrite Hnc, A8 in B8.
  repeat split; auto.
Qed.

Lemma closesAndRetries_run (L : Lib) (socks : list nat) : forall r,
  owned r -> destroyed (conn r) = false ->
  exists r',
    run L (closesAndRetries socks (nextTimerId (browser r))) r = Some r'
    /\ List.length (sockets (browser r'))
       = (List.length socks + List.length (sockets (browser r)))%nat
    /\ destroyed (conn r') = false
    /\ owned r'.
Proof.
  induction socks as [|sock socks IH]; intros r Ho Hd.
  - exists r. simpl. auto.
  - destruct (close_then_retry L sock r Ho Hd)
      as (r1 & r2 & S1 & _ & _ & _ & _ & _ & _ & S2 & Hlen & _ & _ & _ & Hn & Hd2 & Ho2).
    destruct (IH r2 Ho2 Hd2) as (r' & Hrun & Hlen' & Hd' & Ho').
    exists r'. cbn [closesAndRetries run]. unfold bind.
    rewrite S1, S2, <- Hn, Hrun, Hlen', Hlen.
    repeat split; auto. simpl. lia.
Qed.

(** C8: on a robot built in a page with no timer of its own and driven by
    any history of events, a close of the channel while the robot is not
    destroyed reports [offline], leaves the perception timers cleared and
    leaves exactly one timer pending: the reconnect timeout, 1500 ms, not
    repeating.  When that timeout fires, one new socket is opened and the
    robot is still not destroyed; so any number of closes in a row, each
    followed by its timeout, opens as many sockets.  [destroy] leaves no
    timer pending and clears the reconnect timer, and after it no history
    of events adds a socket or a reconnect timeout. *)
Theorem close_reconnects_until_destroyed (L : Lib) (cfg : Config) (now : Q)
  (b : Browser) (r0 r : G1Robot) (history : list Event) :
  timers b = [] ->
  construct cfg now b = Some r0 ->
  run L history r0 = Some r ->
  (destroyed (conn r) = false ->
   (forall sock : nat,
      exists r1 r2,
        step L (ev_close sock) r = Some r1
        /\ streamStates (out r1)
           = (if onStreamStateChange (config r)
              then streamStates (out r) ++ [offline] else streamStates (out r))
        /\ frameCaptureTimer (conn r1) = None
        /\ terrainProbeTimer (conn r1) = None
        /\ timers (browser r1) = [reconnectTimeout (nextTimerId (browser r))]
        /\ reconnectTimer (conn r1) = Some (nextTimerId (browser r))
        /\ destroyed (conn r1) = false
        /\ step L (ev_timeout (nextTimerId (browser r))) r1 = Some r2
        /\ List.length (sockets (browser r2)) = S (List.length (sockets (browser r)))
        /\ ws (conn r2) = Some (List.length (sockets (browser r)))
        /\ nth_error (sockets (browser r2)) (List.length (sockets (browser r)))
           = Some CONNECTING
        /\ timers (browser r2) = []
        /\ destroyed (conn r2) = false)
   /\ (forall socks : list nat,
         exists r',
           run L (closesAndRetries socks (nextTimerId (browser r))) r = Some r'
           /\ List.length (sockets (browser r'))
              = (List.length socks + List.length (sockets (browser r)))%nat
           /\ destroyed (conn r') = false))
  /\ timers (browser (destroy r)) = []
  /\ reconnectTimer (conn (destroy r)) = None
  /\ (forall (later : list Event) (r' : G1Robot),
        run L later (destroy r) = Some r' ->
        destroyed (conn r') = true
        /\ List.length (sockets (browser r')) = List.length (sockets (browser r))
        /\ noReconnectPending r').
Proof.
  intros Hb Hc Hrun.
  assert (Ho : owned r).
  { apply (run_owned L history r0); auto. apply (construct_owned cfg now b); auto. }
  split; [intros Hd; split|].
  - intros sock.
    destruct (close_then_retry L sock r Ho Hd)
      as (r1 & r2 & H1 & H2 & H3 & H4 & H5 & H6 & H7 & H8 & H9 & H10 & H11
          & H12 & _ & H14 & _).
    exists r1, r2. repeat split; assumption.
  - intros socks.
    destruct (closesAndRetries_run L socks r Ho Hd) as (r' & H1 & H2 & H3 & _).
    exists r'. repeat split; assumption.
  - destruct (destroy_tornDown r Ho) as (Ht & Htimers & Hrec & _).
    split; [exact Htimers|]. split; [exact Hrec|].
    intros later r' Hlater.
    apply (run_tornDown L _ later (destroy r)); auto.
    unfold owned. rewrite Htimers. constructor.
Qed.

Lemma close_reconnects_until_destroyed_witness :
  (exists r1 r2,
     step flatLib (ev_close 0) streamingRobot = Some r1
     /\ timers (browser r1) = [reconnectTimeout 3]
     /\ step flatLib (ev_timeout 3) r1 = Some r2
     /\ ws (conn r2) = Some 1%nat
     /\ nth_error (sockets (browser r2)) 1 = Some CONNECTING)
  /\ timers (browser (destroy streamingRobot)) = [].
Proof.
  destruct (close_reconnects_until_destroyed flatLib exampleConfig 0
              exampleBrowser exampleRobot streamingRobot exampleHistory
              eq_refl eq_refl eq_refl) as (Hclose & Htimers & _).
  split; [|exact Htimers].
  destruct (proj1 (Hclose eq_refl) 0%nat)
    as (r1 & r2 & H1 & _ & _ & _ & H5 & _ & _ & H8 & _ & H10 & H11 & _).
  exists r1, r2. repeat split; assumption.
Defined.

(** The robot of the examples loses its channel twice and reconnects each
    time; after [destroy] a third close reports [offline] and sets no
    timer, and the stale timeout does nothing: three sockets in all. *)
Example reconnect_scenario :
  exists r,
    run flatLib
      [ev_close 0; ev_timeout 3; ev_close 1; ev_timeout 4;
       ev_destroy; ev_close 2; ev_timeout 5] streamingRobot = Some r
    /\ sockets (browser r) = [CLOSED; CLOSED; CLOSED]
    /\ timers (browser r) = []
    /\ streamStates (out r)
       = [connecting; live; offline; connecting; offline; connecting;
          offline; offline].
Proof.
  eexists. split; [vm_compute; reflexivity|]. repeat split.
Qed.

(** * Further properties *)

(** ** Angles stay in range *)

Lemma normalizeSignedAngle_in_range (q : Q) :
  - JsMath.PI <= q -> q <= JsMath.PI ->
  normalizeSignedAngle (Fin q) = Some (Fin q).
Proof.
  intros Hlo Hhi. unfold normalizeSignedAngle, normalizeSignedAngle_fuel, bind.
  rewrite while_above_PI_eq.
  assert (E1 : (Fin q >? Fin JsMath.PI)%num = false) by (apply gtb_fin_false; lra).
  rewrite E1. rewrite while_below_minus_PI_eq.
  assert (E2 : (Fin q <? Fin (- JsMath.PI))%num = false).
  { unfold Num.ltb. apply Qltb_false. lra. }
  rewrite E2. reflexivity.
Qed.

Lemma Qabs_bounds (q b : Q) : Qabs q <= b -> - b <= q /\ q <= b.
Proof. intros H. apply Qabs_Qle_condition in H. exact H. Qed.

Lemma modestAngle_turns (q : Q) :
  modestAngle q ->
  - JsMath.PI - inject_Z (Z.of_nat 160) * (JsMath.PI * 2) <= q
  /\ q <= JsMath.PI + inject_Z (Z.of_nat 160) * (JsMath.PI * 2).
Proof.
  unfold modestAngle. intros H. apply Qabs_bounds in H.
  assert (Hb : 1000 <= JsMath.PI + inject_Z (Z.of_nat 160) * (JsMath.PI * 2))
    by (vm_compute; discriminate).
  lra.
Qed.

(** With enough fuel for the magnitude of the angle, both loops exit. *)
Lemma normalizeSignedAngle_fuel_finite (n : nat) (q : Q) :
  - JsMath.PI - inject_Z (Z.of_nat n) * (JsMath.PI * 2) <= q ->
  q <= JsMath.PI + inject_Z (Z.of_nat n) * (JsMath.PI * 2) ->
  exists r, normalizeSignedAngle_fuel n (Fin q) = Some (Fin r)
            /\ - JsMath.PI <= r /\ r <= JsMath.PI
            /\ (exists k : Z, r == q + inject_Z k * (JsMath.PI * 2))
            /\ (- JsMath.PI <= q -> q <= JsMath.PI -> r = q).
Proof.
  intros Hlo Hhi. pose proof PI_pos as HPI.
  assert (Hn : 0 <= inject_Z (Z.of_nat n) * (JsMath.PI * 2)).
  { apply Qmult_le_0_compat; [|lra].
    change 0 with (inject_Z 0). rewrite <- Zle_Qle. lia. }
  unfold normalizeSignedAngle_fuel.
  destruct (while_above_PI_finite n q Hhi) as (r1 & E1 & H1 & H2 & H3 & k1 & H4).
  rewrite E1. unfold bind.
  destruct (Qlt_le_dec JsMath.PI q) as [Hgt|Hle].
  - specialize (H3 Hgt).
    destruct (while_below_minus_PI_finite n r1) as (r2 & E2 & G1 & G2 & G3 & k2 & G4);
      [lra|].
    rewrite E2. exists r2. rewrite (G2 ltac:(lra)) in *.
    split; [reflexivity|]. split; [lra|]. split; [exact H1|].
    split; [|intros _ Hq; lra].
    exists (- Z.of_nat k1)%Z. rewrite inject_Z_opp. rewrite H4. ring.
  - rewrite (H2 Hle) in *.
    destruct (while_below_minus_PI_finite n q Hlo) as (r2 & E2 & G1 & G2 & G3 & k2 & G4).
    rewrite E2. exists r2.
    split; [reflexivity|]. split; [exact G1|].
    split.
    + destruct (Qlt_le_dec q (- JsMath.PI)) as [Hlt|Hge].
      * specialize (G3 Hlt). lra.
      * rewrite (G2 Hge). exact Hle.
    + split; [exists (Z.of_nat k2); exact G4|].
      intros Hq _. exact (G2 Hq).
Qed.

(** On a modest angle 160 turns of each loop are enough. *)
Lemma normalizeSignedAngle_modest (q : Q) :
  modestAngle q ->
  exists r,
    normalizeSignedAngle_fuel 160 (Fin q) = Some (Fin r)
    /\ normalizeSignedAngle (Fin q) = Some (Fin r)
    /\ - JsMath.PI <= r /\ r <= JsMath.PI
    /\ (exists k : Z, r == q + inject_Z k * (JsMath.PI * 2))
    /\ (- JsMath.PI <= q -> q <= JsMath.PI -> r = q).
Proof.
  intros Hq. destruct (modestAngle_turns q Hq) as (Hlo & Hhi).
  destruct (normalizeSignedAngle_fuel_finite 160 q Hlo Hhi)
    as (r & E & Rlo & Rhi & Hk & Hid).
  exists r. split; [exact E|].
  split; [exact (normalizeSignedAngle_enough 160 (Fin q) (Fin r) E)|].
  split; [exact Rlo|]. split; [exact Rhi|]. split; [exact Hk|exact Hid].
Qed.

(** X1.  For an angle of at most 1000 radians in magnitude each loop of
    [normalizeSignedAngle] exits within 160 iterations, so the call
    returns; the result lies in [[-PI, PI]], differs from the argument by
    a whole number of turns of [2 * PI] (exactly in the model, up to
    rounding in binary64), and is the argument itself when that already
    lies in the range. *)
Theorem normalizeSignedAngle_signed_range (q : Q) :
  modestAngle q ->
  exists r,
    normalizeSignedAngle_fuel 160 (Fin q) = Some (Fin r)
    /\ normalizeSignedAngle (Fin q) = Some (Fin r)
    /\ - JsMath.PI <= r /\ r <= JsMath.PI
    /\ (exists k : Z, r == q + inject_Z k * (JsMath.PI * 2))
    /\ (- JsMath.PI <= q -> q <= JsMath.PI -> r = q).
Proof.
  intros Hq.
  destruct (normalizeSignedAngle_modest q Hq) as (r & E160 & E & Hr).
  exists r. split; [exact E160|]. split; [exact E|]. exact Hr.
Qed.

Lemma normalizeSignedAngle_signed_range_witness :
  exists r,
    normalizeSignedAngle_fuel 160 (Fin 7) = Some (Fin r)
    /\ normalizeSignedAngle (Fin 7) = Some (Fin r)
    /\ - JsMath.PI <= r /\ r <= JsMath.PI
    /\ (exists k : Z, r == 7 + inject_Z k * (JsMath.PI * 2))
    /\ (- JsMath.PI <= 7 -> 7 <= JsMath.PI -> r = 7).
Proof.
  apply (normalizeSignedAngle_signed_range 7).
  vm_compute. discriminate.
Defined.

Lemma while_above_PI_short (n : nat) : forall q,
  JsMath.PI + inject_Z (Z.of_nat n) * (JsMath.PI * 2) < q ->
  while_above_PI n (Fin q) = None.
Proof.
  pose proof PI_pos as HPI.
  induction n as [|n IH]; intros q Hq; rewrite while_above_PI_eq.
  - change (inject_Z (Z.of_nat 0)) with 0 in Hq.
    assert (E : (Fin q >? Fin JsMath.PI)%num = true) by (apply gtb_fin; lra).
    rewrite E. reflexivity.
  - rewrite Nat2Z.inj_succ, <- Z.add_1_r, inject_Z_plus in Hq.
    change (inject_Z 1) with 1 in Hq.
    assert (Hn : 0 <= inject_Z (Z.of_nat n)).
    { change 0 with (inject_Z 0). rewrite <- Zle_Qle. lia. }
    assert (E : (Fin q >? Fin JsMath.PI)%num = true) by (apply gtb_fin; nra).
    rewrite E. change (Fin q - Fin (JsMath.PI * 2))%num with (Fin (q + - (JsMath.PI * 2))).
    apply IH. lra.
Qed.

Lemma while_below_minus_PI_short (n : nat) : forall q,
  q < - (JsMath.PI + inject_Z (Z.of_nat n) * (JsMath.PI * 2)) ->
  while_below_minus_PI n (Fin q) = None.
Proof.
  pose proof PI_pos as HPI.
  induction n as [|n IH]; intros q Hq; rewrite while_below_minus_PI_eq.
  - change (inject_Z (Z.of_nat 0)) with 0 in Hq.
    assert (E : (Fin q <? Fin (- JsMath.PI))%num = true).
    { unfold Num.ltb. apply Qltb_true. lra. }
    rewrite E. reflexivity.
  - rewrite Nat2Z.inj_succ, <- Z.add_1_r, inject_Z_plus in Hq.
    change (inject_Z 1) with 1 in Hq.
    assert (Hn : 0 <= inject_Z (Z.of_nat n)).
    { change 0 with (inject_Z 0). rewrite <- Zle_Qle. lia. }
    assert (E : (Fin q <? Fin (- JsMath.PI))%num = true).
    { unfold Num.ltb. apply Qltb_true. nra. }
    rewrite E. change (Fin q + Fin (JsMath.PI * 2))%num with (Fin (q + JsMath.PI * 2)).
    apply IH. lra.
Qed.

(** X2.  The two loops of [normalizeSignedAngle] take a turn of [2 * PI]
    at a time: an angle further than [n] turns from [[-PI, PI]] is not
    done after [n] iterations, and for [Infinity] and [-Infinity] no
    number of iterations is enough, the loop never exits. *)
Theorem normalizeSignedAngle_turns_needed (n : nat) (q : Q) :
  (JsMath.PI + inject_Z (Z.of_nat n) * (JsMath.PI * 2) < Qabs q ->
   normalizeSignedAngle_fuel n (Fin q) = None)
  /\ normalizeSignedAngle_fuel n PInf = None
  /\ normalizeSignedAngle_fuel n NInf = None.
Proof.
  split; [|apply normalizeSignedAngle_diverges].
  pose proof PI_pos as HPI.
  assert (Hn : 0 <= inject_Z (Z.of_nat n)).
  { change 0 with (inject_Z 0). rewrite <- Zle_Qle. lia. }
  intros H. unfold normalizeSignedAngle_fuel, bind.
  destruct (Qlt_le_dec q 0) as [Hneg|Hpos].
  - rewrite Qabs_neg in H by lra.
    rewrite while_above_PI_eq.
    assert (E : (Fin q >? Fin JsMath.PI)%num = false) by (apply gtb_fin_false; lra).
    rewrite E. apply while_below_minus_PI_short. lra.
  - rewrite Qabs_pos in H by lra.
    rewrite while_above_PI_short; auto.
Qed.

Lemma normalizeSignedAngle_turns_needed_witness :
  normalizeSignedAngle_fuel 100 (Fin 1000) = None.
Proof.
  apply (proj1 (normalizeSignedAngle_turns_needed 100 1000)).
  vm_compute. reflexivity.
Defined.

Lemma zeroToTwoPi_fixed (q : Q) :
  0 <= q -> q <= CesiumMath.TWO_PI -> CesiumMath.zeroToTwoPi (Fin q) = Fin q.
Proof.
  intros H1 H2. unfold CesiumMath.zeroToTwoPi.
  assert (E1 : (Fin q >=? Fin 0)%num = true).
  { unfold Num.geb, Num.leb, Num.ltb, Num.eqb. simpl.
    destruct (Qlt_le_dec 0 q) as [H|H].
    - apply orb_true_iff. left. apply Qltb_true. exact H.
    - apply orb_true_iff. right. apply Qeq_bool_iff. lra. }
  assert (E2 : (Fin q <=? Fin CesiumMath.TWO_PI)%num = true).
  { unfold Num.geb, Num.leb, Num.ltb, Num.eqb. simpl.
    destruct (Qlt_le_dec q CesiumMath.TWO_PI) as [H|H].
    - apply orb_true_iff. left. apply Qltb_true. exact H.
    - apply orb_true_iff. right. apply Qeq_bool_iff. lra. }
  rewrite E1, E2. reflexivity.
Qed.

Lemma lerpAngle_finite_range (s e f : Q) :
  exists h, lerpAngle (Fin s) (Fin e) (Fin f) = Fin h
            /\ 0 <= h /\ h <= CesiumMath.TWO_PI.
Proof.
  unfold lerpAngle.
  destruct (zeroToTwoPi_range s) as (s' & Es & _).
  destruct (zeroToTwoPi_range e) as (e' & Ee & _).
  rewrite Es, Ee.
  change (Fin e' - Fin s')%num with (Fin (e' + - s')).
  destruct (Fin (e' + - s') >? Fin JsMath.PI)%num;
    [|destruct (Fin (e' + - s') <? Fin (- JsMath.PI))%num].
  all: match goal with
       | |- context [CesiumMath.zeroToTwoPi (Fin ?a + ?b * Fin ?c)%num] =>
           let x := eval cbv [Num.add Num.sub Num.mul Num.neg] in (Fin a + b * Fin c)%num in
           change (Fin a + b * Fin c)%num with x
       end.
  all: match goal with
       | |- context [CesiumMath.zeroToTwoPi (Fin ?x)] =>
           destruct (zeroToTwoPi_range x) as (h & Eh & H1 & H2); exists h; auto
       end.
Qed.

Lemma persistHeadingOffset_render r : render (persistHeadingOffset r) = render r.
Proof. unfold persistHeadingOffset. destruct (localStorage (browser r)); reflexivity. Qed.

Lemma emitStatus_render m r : render (emitStatus m r) = render r.
Proof. unfold emitStatus. destruct (onStatus (config r)); reflexivity. Qed.

Lemma maybeAutoCalibrateHeading_render mh r r' :
  maybeAutoCalibrateHeading mh r = Some r' -> render r' = render r.
Proof.
  unfold maybeAutoCalibrateHeading, bind. intros H.
  repeat (break_head H; try discriminate H).
  all: inversion H; subst; clear H.
  all: rewrite ?emitStatus_render, ?persistHeadingOffset_render; reflexivity.
Qed.

(** X3.  Whenever [applyRootTransform] returns, whatever quaternion and
    motion heading it was given and whatever the platform computed, the
    heading it leaves in [hpRoll] is a finite number in [[0, 2 * PI]]: it
    is [zeroToTwoPi] of the smoothed heading, which is finite too. *)
Theorem applyRootTransform_heading_range (L : Lib) (quatWxyz : num * num * num * num)
  (moveHeading : option num) (r r' : G1Robot) :
  applyRootTransform L quatWxyz moveHeading r = Some r' ->
  exists h s,
    heading (hpRoll (render r')) = Fin h
    /\ 0 <= h /\ h <= CesiumMath.TWO_PI
    /\ smoothedHeadingRad (render r') = Fin s
    /\ CesiumMath.zeroToTwoPi (Fin s) = Fin h.
Proof.
  unfold applyRootTransform. destruct quatWxyz as [[[qw qx] qy] qz].
  set (hpr := HeadingPitchRoll_fromQuaternion L (qx, qy, qz, qw)).
  set (heading0 := if Num.isFinite (heading hpr) then heading hpr
                   else smoothedHeadingRad (render r)).
  unfold bind. intros H.
  match type of H with
  | match ?x with _ => _ end = _ => destruct x as [heading1|] eqn:E1; [|discriminate]
  end.
  set (heading2 := if negb (Num.isFinite heading1) then Fin 0 else heading1) in H.
  assert (H2 : exists q2, heading2 = Fin q2).
  { unfold heading2. destruct heading1; simpl; eauto. }
  destruct H2 as [q2 E2]. rewrite E2 in H. clearbody heading2.
  set (smoothed :=
         if negb (Num.isFinite (smoothedHeadingRad (render r))) then Fin q2
         else lerpAngle (smoothedHeadingRad (render r)) (Fin q2)
                match moveHeading with
                | Some _ => Fin 0.32
                | None => Fin 0.08
                end) in H.
  assert (Hs : exists s, smoothed = Fin s).
  { unfold smoothed. destruct (smoothedHeadingRad (render r)) as [| | |s0]; simpl; eauto.
    destruct moveHeading.
    - destruct (lerpAngle_finite_range s0 q2 0.32) as (h & E & _); eauto.
    - destruct (lerpAngle_finite_range s0 q2 0.08) as (h & E & _); eauto. }
  destruct Hs as [s Es]. rewrite Es in H. clearbody smoothed.
  destruct (zeroToTwoPi_range s) as (h & Eh & Hlo & Hhi).
  match type of H with
  | match maybeAutoCalibrateHeading _ ?x with _ => _ end = _ =>
      destruct (maybeAutoCalibrateHeading moveHeading x) as [r1|] eqn:Em; [|discriminate];
      apply maybeAutoCalibrateHeading_render in Em
  end.
  exists h, s.
  destruct (primitive (render r1)); inversion H; subst; clear H;
    cbn [render set_primitive set_render hpRoll heading smoothedHeadingRad];
    rewrite Em; cbn; rewrite Eh; auto.
Qed.

Lemma applyRootTransform_heading_range_witness :
  match applyRootTransform flatLib (Fin 1, Fin 0, Fin 0, Fin 0) (Some (Fin 1))
          exampleRobot with
  | Some r' =>
      exists h s,
        heading (hpRoll (render r')) = Fin h
        /\ 0 <= h /\ h <= CesiumMath.TWO_PI
        /\ smoothedHeadingRad (render r') = Fin s
        /\ CesiumMath.zeroToTwoPi (Fin s) = Fin h
  | None => False
  end.
Proof.
  destruct (applyRootTransform flatLib (Fin 1, Fin 0, Fin 0, Fin 0) (Some (Fin 1))
              exampleRobot) as [r'|] eqn:E.
  - apply (applyRootTransform_heading_range flatLib (Fin 1, Fin 0, Fin 0, Fin 0)
             (Some (Fin 1)) exampleRobot r' E).
  - vm_compute in E. discriminate E.
Defined.

Lemma normalizeSignedAngle_signed (x v : num) :
  Num.isFinite x = true -> normalizeSignedAngle x = Some v -> signedAngle v.
Proof.
  intros Hx H. apply isFinite_Fin in Hx. destruct Hx as [q ->].
  destruct (normalizeSignedAngle_finite q) as (r & E & Hlo & Hhi & _).
  rewrite E in H. inversion H; subst. exists r. auto.
Qed.

Lemma maybeAutoCalibrateHeading_signed (moveHeading : option num) (r r' : G1Robot) :
  signedAngle (modelHeadingOffset (calibration r)) ->
  maybeAutoCalibrateHeading moveHeading r = Some r' ->
  signedAngle (modelHeadingOffset (calibration r')).
Proof.
  unfold maybeAutoCalibrateHeading, bind. intros Hinv H.
  repeat (break_head H; try discriminate H).
  all: inversion H; subst; clear H.
  all: autorewrite with frame;
       cbn [calibration set_calibration set_modelHeadingOffset modelHeadingOffset];
       auto.
  all: destruct Hinv as (off & Eoff & _); rewrite Eoff in *.
  all: match goal with
       | G : negb (Num.isFinite ?e) || _ = false |- _ =>
           apply orb_false_iff in G; destruct G as [G _];
           apply negb_false_iff in G
       end.
  all: match goal with
       | E : normalizeSignedAngle (Fin ?o + ?c)%num = Some ?v |- signedAngle ?v =>
           apply (normalizeSignedAngle_signed (Fin o + c)%num v); [|exact E]
       end.
  all: match goal with
       | G : Num.isFinite ?e = true |- context [CesiumMath.clamp ?e (Fin ?lo) (Fin ?hi)] =>
           apply isFinite_Fin in G; destruct G as [q ->];
           destruct (clamp_finite q lo hi) as [c ->]; reflexivity
       end.
Qed.

Lemma setModelHeadingOffsetRad_signed (offsetRad : num) (r r' : G1Robot) (ret : num) :
  signedAngle (modelHeadingOffset (calibration r)) ->
  setModelHeadingOffsetRad offsetRad r = Some (r', ret) ->
  signedAngle (modelHeadingOffset (calibration r')).
Proof.
  unfold setModelHeadingOffsetRad, bind. intros Hinv H.
  destruct (negb (Num.isFinite offsetRad)) eqn:Hfin.
  - inversion H; subst. exact Hinv.
  - apply negb_false_iff in Hfin.
    destruct (normalizeSignedAngle offsetRad) as [v|] eqn:E; [|discriminate].
    inversion H; subst; clear H. autorewrite with frame.
    cbn [calibration set_calibration set_modelHeadingOffset modelHeadingOffset].
    autorewrite with frame.
    cbn [calibration set_calibration set_modelHeadingOffset modelHeadingOffset].
    apply (normalizeSignedAngle_signed offsetRad v); auto.
Qed.

(** X4.  A robot constructed with a configured model heading offset in
    [[-PI, PI]] (or none) keeps its heading offset finite and in
    [[-PI, PI]] through every history of events: stored values, manual
    overrides and automatic corrections are all normalised. *)
Theorem heading_offset_stays_signed (L : Lib) (cfg : Config) (now : Q) (b : Browser)
  (evs : list Event) (r0 r : G1Robot) :
  signedAngle (orZero (cfg_modelHeadingOffset cfg)) ->
  construct cfg now b = Some r0 ->
  run L evs r0 = Some r ->
  signedAngle (modelHeadingOffset (calibration r)).
Proof.
  intros Hcfg Hc Hrun.
  apply (run_keeps L (fun c => signedAngle (modelHeadingOffset c)))
    with (evs := evs) (r := r0); auto.
  - intros mh a c. apply maybeAutoCalibrateHeading_signed.
  - intros x a c ret. apply setModelHeadingOffsetRad_signed.
  - unfold construct, loadHeadingOffsetFromStorage, bind in Hc.
    destruct (localStorage (browser (fields cfg now b))) as [|[parsed|]] eqn:Es;
      try (inversion Hc; subst; exact Hcfg).
    destruct (Num.isFinite parsed) eqn:Hfin; [|inversion Hc; subst; exact Hcfg].
    destruct (normalizeSignedAngle parsed) as [v|] eqn:E; [|discriminate].
    inversion Hc; subst; clear Hc.
    apply (normalizeSignedAngle_signed parsed v); auto.
Qed.

Lemma heading_offset_stays_signed_witness :
  signedAngle (modelHeadingOffset (calibration overriddenOnceMore)).
Proof.
  apply (heading_offset_stays_signed pacingLib exampleConfig 0 (storedBrowser 4)
           (overriddenHistory ++ walk 6 1) reloadedRobot overriddenOnceMore).
  - exists 0. split; [reflexivity|]. split; vm_compute; discriminate.
  - vm_compute. reflexivity.
  - vm_compute. reflexivity.
Defined.

Lemma maybeAutoCalibrateHeading_budget (moveHeading : option num) (r r' : G1Robot) :
  (headingCalibrationSamples (calibration r) <= 360)%nat ->
  maybeAutoCalibrateHeading moveHeading r = Some r' ->
  (headingCalibrationSamples (calibration r) <= headingCalibrationSamples (calibration r')
   /\ headingCalibrationSamples (calibration r') <= 360)%nat
  /\ (headingFastLockComplete (calibration r) = true ->
      headingFastLockComplete (calibration r') = true).
Proof.
  unfold maybeAutoCalibrateHeading, bind. intros Hinv H.
  repeat (break_head H; try discriminate H).
  all: inversion H; subst; clear H.
  all: autorewrite with frame;
       cbn [calibration set_calibration set_modelHeadingOffset
            headingCalibrationSamples headingFastLockComplete];
       auto.
  all: match goal with
       | E : (360 <=? _)%nat = false |- _ => apply Nat.leb_gt in E
       end.
  all: cbn [calibration set_calibration set_modelHeadingOffset
            headingCalibrationSamples headingFastLockComplete] in *.
  all: repeat split; auto; lia.
Qed.

Lemma step_calibrationProgress (L : Lib) (ev : Event) (r r' : G1Robot) :
  (headingCalibrationSamples (calibration r) <= 360)%nat ->
  step L ev r = Some r' ->
  calibrationProgress (calibration r) (calibration r').
Proof.
  intros Hinv H. destruct (isManualOverride ev) eqn:Hev.
  - destruct ev; try discriminate Hev. simpl in H. unfold bind in H.
    destruct (setModelHeadingOffsetRad offsetRad r) as [[r2 ret]|] eqn:E; [|discriminate].
    inversion H; subst; clear H.
    unfold setModelHeadingOffsetRad, bind in E.
    destruct (negb (Num.isFinite offsetRad)).
    + inversion E; subst. unfold calibrationProgress. auto.
    + destruct (normalizeSignedAngle offsetRad) as [v|]; [|discriminate].
      inversion E; subst; clear E. unfold calibrationProgress.
      autorewrite with frame.
      cbn [calibration set_calibration headingCalibrationSamples headingFastLockComplete].
      auto.
  - destruct (step_calibrates L ev r r' Hev H) as [E|(mh & r0 & r1 & E0 & Hm & E1)].
    + rewrite E. unfold calibrationProgress. auto.
    + rewrite E1, <- E0. apply (maybeAutoCalibrateHeading_budget mh); auto.
      rewrite E0. exact Hinv.
Qed.

Lemma run_calibrationProgress (L : Lib) (evs : list Event) : forall r r',
  (headingCalibrationSamples (calibration r) <= 360)%nat ->
  run L evs r = Some r' ->
  calibrationProgress (calibration r) (calibration r').
Proof.
  induction evs as [|ev evs IH]; simpl; intros r r' Hinv H.
  - inversion H; subst. unfold calibrationProgress. auto.
  - unfold bind in H. destruct (step L ev r) as [r1|] eqn:E; [|discriminate].
    destruct (step_calibrationProgress L ev r r1 Hinv E) as ((A1 & A2) & A3).
    destruct (IH r1 r' A2 H) as ((B1 & B2) & B3).
    unfold calibrationProgress. repeat split; auto. lia.
Qed.

(** X5.  Along every history of a constructed robot the number of
    calibration samples never goes down and never exceeds 360, a
    completed fast lock stays completed, and once the count is at 360 the
    calibration state changes only through a manual override. *)
Theorem calibration_budget (L : Lib) (cfg : Config) (now : Q) (b : Browser)
  (evs later : list Event) (r0 r r' : G1Robot) :
  construct cfg now b = Some r0 ->
  run L evs r0 = Some r ->
  run L later r = Some r' ->
  (headingCalibrationSamples (calibration r) <= headingCalibrationSamples (calibration r')
   /\ headingCalibrationSamples (calibration r') <= 360)%nat
  /\ (headingFastLockComplete (calibration r) = true ->
      headingFastLockComplete (calibration r') = true)
  /\ (headingCalibrationSamples (calibration r) = 360%nat ->
      calibration r' = calibration r \/ exists ev, In ev later /\ isManualOverride ev = true).
Proof.
  intros Hc Hrun Hlater.
  assert (H0 : headingCalibrationSamples (calibration r0) = 0%nat).
  { unfold construct, loadHeadingOffsetFromStorage, bind in Hc.
    repeat (break_head Hc; try discriminate Hc).
    all: inversion Hc; subst; reflexivity. }
  assert (Hr : (headingCalibrationSamples (calibration r) <= 360)%nat).
  { apply (run_calibrationProgress L evs r0 r); auto. lia. }
  destruct (run_calibrationProgress L later r r' Hr Hlater) as (A & B).
  split; [exact A|]. split; [exact B|].
  intros Hfull.
  destruct (forallb (fun ev => negb (isManualOverride ev)) later) eqn:Hall.
  - left.
    apply (run_keeps_without_override L (fun c => c = calibration r))
      with (evs := later) (r := r); auto.
    intros mh a c Ha Hm.
    rewrite (maybeAutoCalibrateHeading_exhausted mh a) in Hm.
    + inversion Hm; subst. exact Ha.
    + rewrite Ha, Hfull. lia.
  - right.
    assert (Hex : existsb isManualOverride later = true).
    { clear - Hall. induction later as [|ev l IH]; simpl in *; [discriminate|].
      destruct (isManualOverride ev); simpl in *; auto. }
    apply existsb_exists in Hex. exact Hex.
Qed.

(** ** The size of a calibration step *)

(** [Math.clamp] of a finite value between [-cap] and [cap], scaled by a
    gain in [[0, 1]]: it has the sign of the value and is no larger than
    the gain times the value or the gain times the cap. *)
Lemma clamp_scaled (err cap gain : Q) :
  0 <= cap -> 0 <= gain ->
  exists c,
    (CesiumMath.clamp (Fin err) (Fin (- cap)) (Fin cap) * Fin gain)%num = Fin c
    /\ Qabs c <= gain * Qabs err
    /\ Qabs c <= gain * cap
    /\ 0 <= c * err.
Proof.
  intros Hcap Hgain. unfold CesiumMath.clamp.
  destruct (Fin err <? Fin (- cap))%num eqn:E1.
  - unfold Num.ltb in E1. simpl in E1. apply Qltb_true in E1.
    exists (- cap * gain). split; [reflexivity|].
    assert (Ha : Qabs err == - err) by (apply Qabs_neg; lra).
    assert (Hb : Qabs (- cap * gain) == cap * gain).
    { rewrite Qabs_neg; [ring|]. nra. }
    rewrite Ha, Hb. repeat split; try nra.
    assert (H1 : 0 <= cap * gain) by (apply Qmult_le_0_compat; auto).
    assert (E : - cap * gain * err == (cap * gain) * (- err)) by ring.
    rewrite E. apply Qmult_le_0_compat; lra.
  - unfold Num.ltb in E1. simpl in E1. apply Qltb_false in E1.
    destruct (Fin err >? Fin cap)%num eqn:E2.
    + apply gtb_fin in E2.
      exists (cap * gain). split; [reflexivity|].
      assert (Ha : Qabs err == err) by (apply Qabs_pos; lra).
      assert (Hb : Qabs (cap * gain) == cap * gain).
      { rewrite Qabs_pos; [ring|]. nra. }
      rewrite Ha, Hb. repeat split; try nra.
      assert (H1 : 0 <= cap * gain) by (apply Qmult_le_0_compat; auto).
      apply Qmult_le_0_compat; lra.
    + apply gtb_fin_false in E2.
      exists (err * gain). split; [reflexivity|].
      assert (Hb : Qabs (err * gain) == Qabs err * gain).
      { rewrite Qabs_Qmult. rewrite (Qabs_pos gain); auto. reflexivity. }
      assert (Hc : Qabs err <= cap) by (apply Qabs_Qle_condition; lra).
      rewrite Hb. repeat split; try nra.
Qed.

(** X6.  An accepted calibration sample moves the heading offset by a
    correction that has the sign of the measured error and is at most
    [gain * |error|] and at most [gain * cap], with gain 0.35 and cap
    0.22 radians before the fast lock and gain 0.06 and cap 0.04
    afterwards; the new offset is the old one plus the correction, brought
    back to [[-PI, PI]] by whole turns, or the old one unchanged. *)
Theorem calibration_correction_bounded (moveHeading : num) (r : G1Robot) (error : num) :
  acceptedSample moveHeading r error ->
  exists r' err off off' c,
    maybeAutoCalibrateHeading (Some moveHeading) r = Some r'
    /\ error = Fin err
    /\ modelHeadingOffset (calibration r) = Fin off
    /\ modelHeadingOffset (calibration r') = Fin off'
    /\ (let gain := if headingFastLockComplete (calibration r) then 0.06 else 0.35 in
        let cap := if headingFastLockComplete (calibration r) then 0.04 else 0.22 in
        Qabs c <= gain * Qabs err /\ Qabs c <= gain * cap /\ 0 <= c * err)
    /\ (off' = off
        \/ (- JsMath.PI <= off' /\ off' <= JsMath.PI
            /\ exists k : Z, off' == off + c + inject_Z k * (JsMath.PI * 2))).
Proof.
  intros (Hv & Hbudget & Herr & Hfin & Hout).
  unfold calibrationError in Herr.
  pose proof (normalizeSignedAngle_finite_arg _ _ Herr Hfin) as Harg.
  apply sub_finite in Harg. destruct Harg as [_ Harg].
  apply add_finite in Harg. destruct Harg as [_ Hoff].
  apply isFinite_Fin in Hoff. destruct Hoff as [off Hoff].
  apply isFinite_Fin in Hfin. destruct Hfin as [err ->].
  unfold maybeAutoCalibrateHeading.
  rewrite Hv.
  assert (Hb : (360 <=? headingCalibrationSamples (calibration r))%nat = false)
    by (apply Nat.leb_gt; exact Hbudget).
  rewrite Hb, Herr. unfold bind.
  cbn [Num.isFinite negb orb]. rewrite Hout.
  destruct (headingFastLockComplete (calibration r)) eqn:Hlock; cbn [negb].
  - destruct (clamp_scaled err 0.04 0.06) as (c & Ec & C1 & C2 & C3);
      [lra | lra |].
    assert (Eneg : Fin (- (0.04)) = Fin (-0.04)) by reflexivity.
    rewrite Eneg in Ec. rewrite Ec, Hoff.
    destruct (Num.abs (Fin c) <? Fin (1 # 10000))%num.
    + exists r, err, off, off, c. rewrite Hoff. repeat split; auto.
    + change (Fin off + Fin c)%num with (Fin (off + c)).
      destruct (normalizeSignedAngle_finite (off + c)) as (v & Ev & Hlo & Hhi & Hk).
      rewrite Ev.
      destruct ((S (headingCalibrationSamples (calibration r))) mod 45 =? 0)%nat.
      all: eexists; exists err, off, v, c.
      all: split; [reflexivity|]; split; [reflexivity|]; split; [reflexivity|].
      all: split; [autorewrite with frame; reflexivity|].
      all: split; [repeat split; auto|]; right; auto.
  - destruct (clamp_scaled err 0.22 0.35) as (c & Ec & C1 & C2 & C3);
      [lra | lra |].
    assert (Eneg : Fin (- (0.22)) = Fin (-0.22)) by reflexivity.
    rewrite Eneg in Ec. rewrite Ec, Hoff.
    change (Fin off + Fin c)%num with (Fin (off + c)).
    destruct (normalizeSignedAngle_finite (off + c)) as (v & Ev & Hlo & Hhi & Hk).
    rewrite Ev.
    destruct (Num.abs (Fin c) >? Fin (1 # 10000))%num.
    + match goal with
      | |- context [if ?b then Some _ else Some _] => destruct b
      end.
      all: eexists; exists err, off, v, c.
      all: split; [reflexivity|]; split; [reflexivity|]; split; [reflexivity|].
      all: split; [autorewrite with frame; reflexivity|].
      all: split; [repeat split; auto|]; right; auto.
    + match goal with
      | |- context [if ?b then Some _ else Some _] => destruct b
      end.
      all: eexists; exists err, off, off, c.
      all: split; [reflexivity|]; split; [reflexivity|]; split; [reflexivity|].
      all: split; [autorewrite with frame; cbn; auto|].
      all: split; [repeat split; auto|]; left; reflexivity.
Qed.

Lemma calibration_correction_bounded_witness :
  exists r' err off off' c,
    maybeAutoCalibrateHeading (Some (Fin 0.1)) lockingRobot = Some r'
    /\ Fin 0.1 = Fin err
    /\ modelHeadingOffset (calibration lockingRobot) = Fin off
    /\ modelHeadingOffset (calibration r') = Fin off'
    /\ (Qabs c <= 0.35 * Qabs err /\ Qabs c <= 0.35 * 0.22 /\ 0 <= c * err)
    /\ (off' = off
        \/ (- JsMath.PI <= off' /\ off' <= JsMath.PI
            /\ exists k : Z, off' == off + c + inject_Z k * (JsMath.PI * 2))).
Proof.
  apply (calibration_correction_bounded (Fin 0.1) lockingRobot (Fin 0.1)).
  repeat split; try reflexivity. simpl; lia.
Defined.

(** X7.  After the fast lock an accepted sample whose correction is
    smaller than 0.0001 radians changes nothing, not even the count;
    otherwise the count goes up by one, lock and streak stay, and the
    offset is written to storage and announced exactly when the new count
    is a multiple of 45. *)
Theorem slow_trim_step (moveHeading : num) (r : G1Robot) (error : num) :
  headingFastLockComplete (calibration r) = true ->
  acceptedSample moveHeading r error ->
  exists r',
    maybeAutoCalibrateHeading (Some moveHeading) r = Some r'
    /\ let correction :=
         (CesiumMath.clamp error (Fin (-0.04)) (Fin 0.04) * Fin 0.06)%num in
       let samples := S (headingCalibrationSamples (calibration r)) in
       if (Num.abs correction <? Fin (1 # 10000))%num then r' = r
       else
         headingCalibrationSamples (calibration r') = samples
         /\ headingFastLockComplete (calibration r') = true
         /\ headingAlignedStreak (calibration r') = headingAlignedStreak (calibration r)
         /\ localStorage (browser r')
            = (if (samples mod 45 =? 0)%nat
               then persisted (modelHeadingOffset (calibration r'))
                      (localStorage (browser r))
               else localStorage (browser r))
         /\ statuses (out r')
            = (if (samples mod 45 =? 0)%nat
               then announced (status_headingAutoCalibrated
                                 (modelHeadingOffset (calibration r'))) r
               else statuses (out r)).
Proof.
  intros Hlock (Hv & Hbudget & Herr & Hfin & Hout).
  unfold calibrationError in Herr.
  pose proof (normalizeSignedAngle_finite_arg _ _ Herr Hfin) as Harg.
  apply sub_finite in Harg. destruct Harg as [_ Harg].
  apply add_finite in Harg. destruct Harg as [_ Hoff].
  apply isFinite_Fin in Hoff. destruct Hoff as [off Hoff].
  apply isFinite_Fin in Hfin. destruct Hfin as [err ->].
  destruct (clamp_finite err (-0.04) 0.04) as [c Hc].
  unfold maybeAutoCalibrateHeading.
  rewrite Hv.
  assert (Hb : (360 <=? headingCalibrationSamples (calibration r))%nat = false)
    by (apply Nat.leb_gt; exact Hbudget).
  rewrite Hb, Herr. unfold bind.
  cbn [Num.isFinite negb orb]. rewrite Hout, Hlock. cbn [negb].
  cbv zeta. rewrite Hc, Hoff.
  change (Fin c * Fin 0.06)%num with (Fin (c * 0.06)).
  destruct (Num.abs (Fin (c * 0.06)) <? Fin (1 # 10000))%num.
  - exists r. split; reflexivity.
  - change (Fin off + Fin (c * 0.06))%num with (Fin (off + c * 0.06)).
    destruct (normalizeSignedAngle_finite (off + c * 0.06)) as (v & Ev & _).
    rewrite Ev.
    destruct ((S (headingCalibrationSamples (calibration r))) mod 45 =? 0)%nat.
    + eexists. split; [reflexivity|].
      rewrite !emitStatus_calibration, !persistHeadingOffset_calibration.
      cbn [calibration set_calibration headingAlignedStreak
           headingCalibrationSamples headingFastLockComplete modelHeadingOffset].
      repeat split.
      * unfold persistHeadingOffset, emitStatus, persisted. simpl.
        destruct (localStorage (browser r)) eqn:Est; simpl;
          destruct (onStatus (config r)); simpl; rewrite ?Est; reflexivity.
      * unfold persistHeadingOffset, emitStatus, announced. simpl.
        destruct (localStorage (browser r)) eqn:Est; simpl;
          destruct (onStatus (config r)); simpl; rewrite ?Est; reflexivity.
    + eexists. split; [reflexivity|].
      cbn [calibration set_calibration headingAlignedStreak
           headingCalibrationSamples headingFastLockComplete modelHeadingOffset
           browser out].
      repeat split.
Qed.

Lemma slow_trim_step_witness :
  exists r',
    maybeAutoCalibrateHeading (Some (Fin 0.1)) trimmingRobot = Some r'
    /\ headingCalibrationSamples (calibration r') = 90%nat
    /\ headingFastLockComplete (calibration r') = true
    /\ headingAlignedStreak (calibration r') = 20%nat
    /\ localStorage (browser r')
       = persisted (modelHeadingOffset (calibration r'))
           (localStorage (browser trimmingRobot))
    /\ statuses (out r')
       = announced (status_headingAutoCalibrated
                      (modelHeadingOffset (calibration r'))) trimmingRobot.
Proof.
  destruct (slow_trim_step (Fin 0.1) trimmingRobot (Fin 0.1)) as (r' & E & H).
  - reflexivity.
  - repeat split; try reflexivity. simpl; lia.
  - exists r'. split; [exact E|]. exact H.
Defined.

Lemma persistHeadingOffset_reload (cfg : Config) (now : Q) (b : Browser)
  (r : G1Robot) (v : Q) :
  modelHeadingOffset (calibration r) = Fin v ->
  - JsMath.PI <= v -> v <= JsMath.PI ->
  localStorage (browser r) <> storage_throws ->
  localStorage b = localStorage (browser (persistHeadingOffset r)) ->
  exists r2,
    construct cfg now b = Some r2
    /\ modelHeadingOffset (calibration r2) = Fin v
    /\ headingCalibrationSamples (calibration r2) = 0%nat
    /\ headingFastLockComplete (calibration r2) = false
    /\ headingAlignedStreak (calibration r2) = 0%nat.
Proof.
  intros Hoff Hlo Hhi Hst Hb.
  unfold persistHeadingOffset in Hb.
  destruct (localStorage (browser r)) as [|item] eqn:Es; [congruence|].
  cbn in Hb. rewrite Hoff in Hb.
  unfold construct, loadHeadingOffsetFromStorage. cbn [browser fields].
  rewrite Hb. cbn [Num.isFinite].
  rewrite (normalizeSignedAngle_in_range v Hlo Hhi). unfold bind.
  eexists. split; [reflexivity|]. repeat split.
Qed.

(** X8.  When [localStorage] works, a manual override with a value of at
    most 1000 radians in magnitude returns that value normalised into
    [[-PI, PI]] (the value moved by whole turns, and the value itself when
    it is in the range), makes it the heading offset and stores it; and a
    robot constructed later over that storage starts with this offset, but
    with a sample count of 0 and no fast lock: automatic calibration runs
    again after a reload. *)
Theorem manual_offset_survives_reload (x : Q) (r : G1Robot) :
  modestAngle x ->
  localStorage (browser r) <> storage_throws ->
  exists r1 v,
    setModelHeadingOffsetRad (Fin x) r = Some (r1, Fin v)
    /\ (- JsMath.PI <= v /\ v <= JsMath.PI
        /\ (exists k : Z, v == x + inject_Z k * (JsMath.PI * 2))
        /\ (- JsMath.PI <= x -> x <= JsMath.PI -> v = x))
    /\ modelHeadingOffset (calibration r1) = Fin v
    /\ localStorage (browser r1) = storage_item (Some (Fin v))
    /\ forall cfg now b,
         localStorage b = localStorage (browser r1) ->
         exists r2,
           construct cfg now b = Some r2
           /\ modelHeadingOffset (calibration r2) = Fin v
           /\ headingCalibrationSamples (calibration r2) = 0%nat
           /\ headingFastLockComplete (calibration r2) = false.
Proof.
  intros Hx Hst.
  destruct (normalizeSignedAngle_modest x Hx) as (v & _ & Ev & Hlo & Hhi & Hk & Hid).
  destruct (setModelHeadingOffsetRad (Fin x) r) as [[r1 ret]|] eqn:E.
  - destruct (setModelHeadingOffsetRad_returns x r r1 ret E) as (En & Hc & Hb).
    rewrite Ev in En. inversion En; subst ret.
    exists r1, v. split; [reflexivity|].
    split; [split; [exact Hlo|split; [exact Hhi|split; [exact Hk|exact Hid]]]|].
    split; [rewrite Hc; reflexivity|].
    set (r0 := set_modelHeadingOffset (Fin v) r) in *.
    assert (H0 : modelHeadingOffset (calibration r0) = Fin v) by reflexivity.
    assert (Hs0 : localStorage (browser r0) <> storage_throws) by exact Hst.
    clearbody r0.
    assert (Hp : localStorage (browser (persistHeadingOffset r0))
                 = storage_item (Some (Fin v))).
    { unfold persistHeadingOffset.
      destruct (localStorage (browser r0)) eqn:Es; [congruence|].
      cbn. rewrite H0. reflexivity. }
    split; [rewrite Hb; exact Hp|].
    intros cfg now b Hbr.
    destruct (persistHeadingOffset_reload cfg now b r0 v H0 Hlo Hhi Hs0)
      as (r2 & E2 & A & B & C & _).
    + rewrite Hbr, Hb. reflexivity.
    + exists r2. auto.
  - exfalso. unfold setModelHeadingOffsetRad in E.
    cbn [Num.isFinite negb] in E. rewrite Ev in E. discriminate E.
Qed.

Lemma manual_offset_survives_reload_witness :
  exists r1 v,
    setModelHeadingOffsetRad (Fin 4) exampleRobot = Some (r1, Fin v)
    /\ (- JsMath.PI <= v /\ v <= JsMath.PI
        /\ (exists k : Z, v == 4 + inject_Z k * (JsMath.PI * 2))
        /\ (- JsMath.PI <= 4 -> 4 <= JsMath.PI -> v = 4))
    /\ modelHeadingOffset (calibration r1) = Fin v
    /\ localStorage (browser r1) = storage_item (Some (Fin v))
    /\ forall cfg now b,
         localStorage b = localStorage (browser r1) ->
         exists r2,
           construct cfg now b = Some r2
           /\ modelHeadingOffset (calibration r2) = Fin v
           /\ headingCalibrationSamples (calibration r2) = 0%nat
           /\ headingFastLockComplete (calibration r2) = false.
Proof.
  apply (manual_offset_survives_reload 4 exampleRobot).
  - vm_compute. discriminate.
  - discriminate.
Defined.

(** ** What keeps the terrain cache *)

Lemma terrain_set_calibration (v : HeadingCalibrationState) (r : G1Robot) :
  terrain (set_calibration v r) = terrain r.
Proof. reflexivity. Qed.

Lemma set_modelHeadingOffset_terrain v r :
  terrain (set_modelHeadingOffset v r) = terrain r.
Proof. reflexivity. Qed.

#[export] Hint Rewrite terrain_set_calibration set_modelHeadingOffset_terrain : frame.

Lemma terrain_set_ingest (v : Ingest) (r : G1Robot) :
  terrain (set_ingest v r) = terrain r.
Proof. reflexivity. Qed.

#[export] Hint Rewrite terrain_set_ingest : frame.

Lemma terrain_set_render (v : Render) (r : G1Robot) :
  terrain (set_render v r) = terrain r.
Proof. reflexivity. Qed.

#[export] Hint Rewrite terrain_set_render : frame.

Lemma terrain_set_motion (v : Motion) (r : G1Robot) :
  terrain (set_motion v r) = terrain r.
Proof. reflexivity. Qed.

#[export] Hint Rewrite terrain_set_motion : frame.

Lemma terrain_set_perf (v : Perf) (r : G1Robot) :
  terrain (set_perf v r) = terrain r.
Proof. reflexivity. Qed.

#[export] Hint Rewrite terrain_set_perf : frame.

Lemma terrain_set_links (v : Links) (r : G1Robot) :
  terrain (set_links v r) = terrain r.
Proof. reflexivity. Qed.

#[export] Hint Rewrite terrain_set_links : frame.

Lemma terrain_set_conn (v : Conn) (r : G1Robot) :
  terrain (set_conn v r) = terrain r.
Proof. reflexivity. Qed.

#[export] Hint Rewrite terrain_set_conn : frame.

Lemma terrain_set_browser (v : Browser) (r : G1Robot) :
  terrain (set_browser v r) = terrain r.
Proof. reflexivity. Qed.

#[export] Hint Rewrite terrain_set_browser : frame.

Lemma terrain_set_out (v : Out) (r : G1Robot) :
  terrain (set_out v r) = terrain r.
Proof. reflexivity. Qed.

#[export] Hint Rewrite terrain_set_out : frame.

Lemma set_localStorage_terrain s r :
  terrain (set_localStorage s r) = terrain r.
Proof. reflexivity. Qed.

#[export] Hint Rewrite set_localStorage_terrain : frame.

Lemma bump_perfWsOut_terrain r :
  terrain (bump_perfWsOut r) = terrain r.
Proof. reflexivity. Qed.

#[export] Hint Rewrite bump_perfWsOut_terrain : frame.

Lemma bump_perfTerrainQueries_terrain r :
  terrain (bump_perfTerrainQueries r) = terrain r.
Proof. reflexivity. Qed.

#[export] Hint Rewrite bump_perfTerrainQueries_terrain : frame.

Lemma bump_perfPoseApplied_terrain r :
  terrain (bump_perfPoseApplied r) = terrain r.
Proof. reflexivity. Qed.

#[export] Hint Rewrite bump_perfPoseApplied_terrain : frame.

Lemma bump_perfWsIn_terrain r :
  terrain (bump_perfWsIn r) = terrain r.
Proof. reflexivity. Qed.

#[export] Hint Rewrite bump_perfWsIn_terrain : frame.

Lemma set_primitive_terrain p r :
  terrain (set_primitive p r) = terrain r.
Proof. reflexivity. Qed.

#[export] Hint Rewrite set_primitive_terrain : frame.

Lemma set_position_terrain p r :
  terrain (set_position p r) = terrain r.
Proof. reflexivity. Qed.

#[export] Hint Rewrite set_position_terrain : frame.

Lemma set_lastProcessedT_terrain v r :
  terrain (set_lastProcessedT v r) = terrain r.
Proof. reflexivity. Qed.

#[export] Hint Rewrite set_lastProcessedT_terrain : frame.

Lemma set_lastPoseApplyMs_terrain v r :
  terrain (set_lastPoseApplyMs v r) = terrain r.
Proof. reflexivity. Qed.

#[export] Hint Rewrite set_lastPoseApplyMs_terrain : frame.

Lemma set_latestPayload_terrain p r :
  terrain (set_latestPayload p r) = terrain r.
Proof. reflexivity. Qed.

#[export] Hint Rewrite set_latestPayload_terrain : frame.

Lemma set_dynamicObstacleSeq_terrain v r :
  terrain (set_dynamicObstacleSeq v r) = terrain r.
Proof. reflexivity. Qed.

#[export] Hint Rewrite set_dynamicObstacleSeq_terrain : frame.

Lemma set_timers_terrain l n r :
  terrain (set_timers l n r) = terrain r.
Proof. reflexivity. Qed.

#[export] Hint Rewrite set_timers_terrain : frame.

Lemma clearTimer_terrain id r :
  terrain (clearTimer id r) = terrain r.
Proof. reflexivity. Qed.

#[export] Hint Rewrite clearTimer_terrain : frame.

Lemma set_sockets_terrain l r :
  terrain (set_sockets l r) = terrain r.
Proof. reflexivity. Qed.

#[export] Hint Rewrite set_sockets_terrain : frame.

Lemma cancelPendingVisionCapture_terrain r :
  terrain (cancelPendingVisionCapture r) = terrain r.
Proof. reflexivity. Qed.

#[export] Hint Rewrite cancelPendingVisionCapture_terrain : frame.

Lemma set_perceptionTimers_terrain f p r :
  terrain (set_perceptionTimers f p r) = terrain r.
Proof. reflexivity. Qed.

#[export] Hint Rewrite set_perceptionTimers_terrain : frame.

Lemma bump_terrainProbe_terrain r :
  terrain (bump_terrainProbe r) = terrain r.
Proof. reflexivity. Qed.

#[export] Hint Rewrite bump_terrainProbe_terrain : frame.

Lemma set_ws_terrain v r :
  terrain (set_ws v r) = terrain r.
Proof. reflexivity. Qed.

#[export] Hint Rewrite set_ws_terrain : frame.

Lemma set_reconnectTimer_terrain v r :
  terrain (set_reconnectTimer v r) = terrain r.
Proof. reflexivity. Qed.

#[export] Hint Rewrite set_reconnectTimer_terrain : frame.

Lemma set_destroyed_terrain v r :
  terrain (set_destroyed v r) = terrain r.
Proof. reflexivity. Qed.

#[export] Hint Rewrite set_destroyed_terrain : frame.

Lemma loadNodeMap_terrain f r :
  terrain (loadNodeMap f r) = terrain r.
Proof. destruct f; reflexivity. Qed.

#[export] Hint Rewrite loadNodeMap_terrain : frame.

Lemma Vehicle_initialize_terrain g r :
  terrain (Vehicle_initialize g r) = terrain r.
Proof. reflexivity. Qed.

#[export] Hint Rewrite Vehicle_initialize_terrain : frame.

Lemma emitStatus_terrain m r :
  terrain (emitStatus m r) = terrain r.
Proof. unfold emitStatus. frame. Qed.

#[export] Hint Rewrite emitStatus_terrain : frame.

Lemma emitStreamState_terrain s r :
  terrain (emitStreamState s r) = terrain r.
Proof. unfold emitStreamState. frame. Qed.

#[export] Hint Rewrite emitStreamState_terrain : frame.

Lemma persistHeadingOffset_terrain r :
  terrain (persistHeadingOffset r) = terrain r.
Proof. unfold persistHeadingOffset. frame. Qed.

#[export] Hint Rewrite persistHeadingOffset_terrain : frame.

Lemma sendWsPayload_terrain p r :
  terrain (sendWsPayload p r) = terrain r.
Proof. unfold sendWsPayload. frame. Qed.

#[export] Hint Rewrite sendWsPayload_terrain : frame.

Lemma maybeEmitPerfStatus_terrain now r :
  terrain (maybeEmitPerfStatus now r) = terrain r.
Proof. unfold maybeEmitPerfStatus. frame. Qed.

#[export] Hint Rewrite maybeEmitPerfStatus_terrain : frame.

Lemma updateModelMatrix_terrain r :
  terrain (updateModelMatrix r) = terrain r.
Proof. unfold updateModelMatrix. frame. Qed.

#[export] Hint Rewrite updateModelMatrix_terrain : frame.

Lemma emitNavigationContext_terrain nav r :
  terrain (emitNavigationContext nav r) = terrain r.
Proof. unfold emitNavigationContext. frame. Qed.

#[export] Hint Rewrite emitNavigationContext_terrain : frame.

Lemma updateSpeedEstimate_terrain L d s r :
  terrain (updateSpeedEstimate L d s r) = terrain r.
Proof. unfold updateSpeedEstimate. frame. Qed.

#[export] Hint Rewrite updateSpeedEstimate_terrain : frame.

Lemma sendDynamicObstacles_terrain d obs r :
  terrain (sendDynamicObstacles d obs r) = terrain r.
Proof. unfold sendDynamicObstacles. frame. Qed.

#[export] Hint Rewrite sendDynamicObstacles_terrain : frame.

Lemma socket_close_terrain sock r :
  terrain (socket_close sock r) = terrain r.
Proof. unfold socket_close. frame. Qed.

#[export] Hint Rewrite socket_close_terrain : frame.

Lemma stopPerceptionStreaming_terrain r :
  terrain (stopPerceptionStreaming r) = terrain r.
Proof. unfold stopPerceptionStreaming. frame. Qed.

#[export] Hint Rewrite stopPerceptionStreaming_terrain : frame.

Lemma closeSocket_terrain r :
  terrain (closeSocket r) = terrain r.
Proof. unfold closeSocket. frame. Qed.

#[export] Hint Rewrite closeSocket_terrain : frame.

Lemma connectStream_terrain r :
  terrain (connectStream r) = terrain r.
Proof. unfold connectStream. frame. Qed.

#[export] Hint Rewrite connectStream_terrain : frame.

Lemma ws_onmessage_terrain data r :
  terrain (ws_onmessage data r) = terrain r.
Proof. unfold ws_onmessage, isStatusMessage. frame. Qed.

#[export] Hint Rewrite ws_onmessage_terrain : frame.

Lemma ws_onerror_terrain r :
  terrain (ws_onerror r) = terrain r.
Proof. unfold ws_onerror. frame. Qed.

#[export] Hint Rewrite ws_onerror_terrain : frame.

Lemma Vehicle_destroy_terrain r :
  terrain (Vehicle_destroy r) = terrain r.
Proof. unfold Vehicle_destroy. frame. Qed.

#[export] Hint Rewrite Vehicle_destroy_terrain : frame.

Lemma destroy_terrain r :
  terrain (destroy r) = terrain r.
Proof. unfold destroy. frame. Qed.

#[export] Hint Rewrite destroy_terrain : frame.

Lemma initialize_terrain g f r :
  terrain (initialize g f r) = terrain r.
Proof. unfold initialize. frame. Qed.

#[export] Hint Rewrite initialize_terrain : frame.

Lemma modelReady_terrain r :
  terrain (modelReady r) = terrain r.
Proof. unfold modelReady. frame. Qed.

#[export] Hint Rewrite modelReady_terrain : frame.

Lemma getNode_terrain m n r : terrain (snd (getNode m n r)) = terrain r.
Proof. unfold getNode. frame. Qed.

#[export] Hint Rewrite getNode_terrain : frame.

Lemma applyLink_terrain name pose r :
  terrain (applyLink name pose r) = terrain r.
Proof. unfold applyLink. frame. Qed.

#[export] Hint Rewrite applyLink_terrain : frame.

Lemma applyLinkAnimation_terrain poses r :
  terrain (applyLinkAnimation poses r) = terrain r.
Proof.
  unfold applyLinkAnimation. frame.
  apply fold_left_keeps. intros. apply applyLink_terrain.
Qed.

#[export] Hint Rewrite applyLinkAnimation_terrain : frame.

Lemma estimateMotionHeading_terrain L lat lon r :
  terrain (snd (estimateMotionHeading L lat lon r)) = terrain r.
Proof. unfold estimateMotionHeading. frame. Qed.

#[export] Hint Rewrite estimateMotionHeading_terrain : frame.

Lemma setTimer_terrain repeat cb d r :
  terrain (snd (setTimer repeat cb d r)) = terrain r.
Proof. reflexivity. Qed.

#[export] Hint Rewrite setTimer_terrain : frame.

Lemma ws_onclose_terrain r : terrain (ws_onclose r) = terrain r.
Proof. unfold ws_onclose. frame. Qed.

#[export] Hint Rewrite ws_onclose_terrain : frame.

Lemma sampleProbeHeights_terrain e b d r :
  terrain (snd (sampleProbeHeights e b d r)) = terrain r.
Proof. unfold sampleProbeHeights. frame. Qed.

#[export] Hint Rewrite sampleProbeHeights_terrain : frame.

Lemma probeFan_terrain e base fan : forall samples r,
  terrain (snd (probeFan e base fan samples r)) = terrain r.
Proof.
  induction fan as [|[b d] fan IH]; intros samples r; simpl; auto.
  pose proof (sampleProbeHeights_terrain e b d r) as Hc.
  destruct (sampleProbeHeights e b d r) as [q r1]. cbn [snd] in Hc.
  rewrite <- Hc.
  destruct q as [|[[[h g] s]|]]; auto.
Qed.

#[export] Hint Rewrite probeFan_terrain : frame.

Lemma sendTerrainProbe_terrain e r :
  terrain (settled (sendTerrainProbe e r)) = terrain r.
Proof.
  unfold sendTerrainProbe.
  destruct (negb (canSendToServer r) || negb (sceneRef (render r))); auto.
  destruct (buildRobotTelemetry r); auto.
  match goal with
  | |- context [probeFan ?e ?b ?f ?s ?r] =>
      pose proof (probeFan_terrain e b f s r) as Hc;
      destruct (probeFan e b f s r) as [q r1]
  end.
  cbn [snd] in Hc.
  destruct q as [|samples]; cbn [settled]; auto.
  destruct (List.length samples =? 0)%nat; cbn [settled]; auto.
  autorewrite with frame. auto.
Qed.

#[export] Hint Rewrite sendTerrainProbe_terrain : frame.

Lemma startPerceptionStreaming_terrain e r :
  terrain (settled (startPerceptionStreaming e r)) = terrain r.
Proof.
  unfold startPerceptionStreaming.
  rewrite (surjective_pairing (setTimer true cb_sendCameraFrame _ _)).
  rewrite (surjective_pairing (setTimer true cb_sendTerrainProbe _ _)).
  autorewrite with frame. reflexivity.
Qed.

#[export] Hint Rewrite startPerceptionStreaming_terrain : frame.

Lemma ws_onopen_terrain e r : terrain (ws_onopen e r) = terrain r.
Proof.
  unfold ws_onopen.
  pose proof (startPerceptionStreaming_terrain (open_probe e)
                (emitStatus (status_text "Pose stream connected.")
                   (emitStreamState live r))) as H.
  destruct (startPerceptionStreaming _ _); simpl in H;
    autorewrite with frame in *; auto.
Qed.

#[export] Hint Rewrite ws_onopen_terrain : frame.

Lemma maybeAutoCalibrateHeading_terrain mh r r' :
  maybeAutoCalibrateHeading mh r = Some r' -> terrain r' = terrain r.
Proof. unfold maybeAutoCalibrateHeading. intros H. frame_in H. Qed.

Lemma applyRootTransform_terrain L q mh r r' :
  applyRootTransform L q mh r = Some r' -> terrain r' = terrain r.
Proof.
  unfold applyRootTransform. destruct q as [[[qw qx] qy] qz].
  intros H. unfold bind in H.
  repeat (break_head H; try discriminate H).
  all: inversion H; subst; clear H.
  all: match goal with
       | E : maybeAutoCalibrateHeading _ _ = Some _ |- _ =>
           apply maybeAutoCalibrateHeading_terrain in E; rename E into Hw
       end.
  all: frame; rewrite Hw; frame.
Qed.

Lemma setModelHeadingOffsetRad_terrain x r res :
  setModelHeadingOffsetRad x r = Some res -> terrain (fst res) = terrain r.
Proof.
  unfold setModelHeadingOffsetRad, bind. intros H.
  repeat (break_head H; try discriminate H).
  all: inversion H; subst; clear H; cbn [fst]; frame.
Qed.

(** ** The terrain cache stays plausible *)

Lemma plausibleHeight_zero : plausibleHeight (Fin 0).
Proof. exists 0. split; [reflexivity|]. rewrite Qabs_pos; lra. Qed.

Lemma blendHeight_plausible (s : Q) (t : TerrainHeightState) :
  Qabs s <= 3000 ->
  plausibleHeight (terrainHeightM t) ->
  plausibleHeight (terrainHeightM (blendHeight (Fin s) t)).
Proof.
  intros Hs (c & Ec & Hc). unfold blendHeight.
  destruct (negb (terrainHeightValid t)); cbn [terrainHeightM].
  - exists s. auto.
  - rewrite Ec.
    change (Fin s - Fin c)%num with (Fin (s + - c)).
    destruct (Num.abs (Fin (s + - c)) >? Fin 12)%num; [exists s; auto|].
    apply Qabs_Qle_condition in Hs. apply Qabs_Qle_condition in Hc.
    destruct (Num.abs (Fin (s + - c)) >? Fin 2)%num.
    + exists (c + (s + - c) * 0.75). split; [reflexivity|].
      apply Qabs_Qle_condition. lra.
    + exists (c + (s + - c) * 0.5). split; [reflexivity|].
      apply Qabs_Qle_condition. lra.
Qed.

Lemma sampleTerrainHeight_plausible (e : TickEnv) (r : G1Robot) :
  plausibleHeight (terrainHeightM (terrain r)) ->
  plausibleHeight (fst (sampleTerrainHeight e r))
  /\ plausibleHeight (terrainHeightM (terrain (snd (sampleTerrainHeight e r)))).
Proof.
  intros Hinv. unfold sampleTerrainHeight.
  destruct (negb (sceneRef (render r))).
  { split; [apply plausibleHeight_zero | exact Hinv]. }
  destruct ((Fin (terrain_now e) - lastTerrainSampleMs (terrain r) <? Fin 300)%num
            && terrainHeightValid (terrain r)).
  { split; exact Hinv. }
  assert (Hcached : forall r0, terrain r0
                     = {| terrainHeightM := terrainHeightM (terrain r);
                          terrainHeightValid := terrainHeightValid (terrain r);
                          lastTerrainSampleMs := Fin (terrain_now e) |} ->
            plausibleHeight (cachedHeightOrZero r0)
            /\ plausibleHeight (terrainHeightM (terrain r0))).
  { intros r0 E. unfold cachedHeightOrZero. rewrite E. cbn.
    destruct (terrainHeightValid (terrain r)); split; auto.
    apply plausibleHeight_zero. }
  destruct (globe_getHeight e) as [|globe]; cbn [fst snd].
  { apply Hcached. reflexivity. }
  destruct (scene_clampToHeight e) as [|clamped]; cbn [fst snd].
  { apply Hcached. reflexivity. }
  destruct (negb (Num.isFinite (combineHeights globe clamped))
            || (Num.abs (combineHeights globe clamped) >? Fin 3000)%num) eqn:G;
    cbn [fst snd].
  { apply Hcached. reflexivity. }
  apply orb_false_iff in G. destruct G as [G1 G2].
  apply negb_false_iff in G1. apply isFinite_Fin in G1. destruct G1 as [s Es].
  rewrite Es in *. cbn [Num.abs] in G2. apply gtb_fin_false in G2.
  cbn [terrain set_terrain].
  assert (H : plausibleHeight
                (terrainHeightM
                   (blendHeight (Fin s)
                      (terrain
                         (bump_perfTerrainQueries
                            (bump_perfTerrainQueries
                               (set_terrain
                                  {| terrainHeightM := terrainHeightM (terrain r);
                                     terrainHeightValid := terrainHeightValid (terrain r);
                                     lastTerrainSampleMs := Fin (terrain_now e) |}
                                  r))))))).
  { apply blendHeight_plausible; auto. }
  split; exact H.
Qed.

Lemma applyPose_resamples (L : Lib) e p (r r' : G1Robot) :
  applyPose L e p r = Some r' -> resamples r r'.
Proof.
  unfold applyPose. intros H.
  break_head H; [|inversion H; left; reflexivity].
  break_head H; [inversion H; subst; left; frame|].
  break_head H; [inversion H; subst; left; frame|].
  rewrite (surjective_pairing (sampleTerrainHeight _ _)) in H.
  rewrite (surjective_pairing (estimateMotionHeading _ _ _ _)) in H.
  unfold bind in H. break_head H; [|discriminate].
  inversion H; subst; clear H.
  match goal with
  | E : applyRootTransform _ _ _ _ = Some _ |- _ =>
      apply applyRootTransform_terrain in E; rename E into Hw
  end.
  right.
  match goal with
  | _ : context [sampleTerrainHeight e ?x] |- _ => exists e, x
  end.
  split; [frame|]. frame. rewrite Hw. frame.
Qed.

Lemma update_resamples (L : Lib) e (r r' : G1Robot) :
  update L e r = Some r' -> resamples r r'.
Proof.
  unfold update, applyFrame, bind. intros H.
  repeat (break_head H; try discriminate H).
  all: inversion H; subst; clear H; try (left; frame; fail).
  all: match goal with
       | E : applyPose _ _ _ _ = Some _ |- _ =>
           apply applyPose_resamples in E;
           destruct E as [Hsame|(e0 & r0 & E0 & E1)]
       end.
  all: try (left; frame; rewrite Hsame; frame; fail).
  all: right; exists e0, r0; split; [rewrite E0; frame | frame; exact E1].
Qed.

Lemma step_resamples (L : Lib) (ev : Event) (r r' : G1Robot) :
  step L ev r = Some r' -> resamples r r'.
Proof.
  intros H. destruct ev; simpl in H.
  all: try (inversion H; subst; clear H; left; frame; fail).
  - apply update_resamples in H. exact H.
  - unfold bind in H.
    destruct (setModelHeadingOffsetRad offsetRad r) as [res|] eqn:E; [|discriminate].
    inversion H; subst. left. apply (setModelHeadingOffsetRad_terrain _ _ _ E).
  - repeat (break_head H; try discriminate H).
    all: inversion H; subst; clear H; left; frame.
  - repeat (break_head H; try discriminate H).
    all: inversion H; subst; clear H; left; frame.
Qed.

(** X9.  In every state a constructed robot reaches, the cached terrain
    height is a finite number of at most 3000 metres in absolute value,
    and so is the height [sampleTerrainHeight] returns there, whatever
    the globe and the scene answer or throw. *)
Theorem terrain_cache_stays_plausible (L : Lib) (cfg : Config) (now : Q)
  (b : Browser) (evs : list Event) (r0 r : G1Robot) :
  construct cfg now b = Some r0 ->
  run L evs r0 = Some r ->
  (exists c, terrainHeightM (terrain r) = Fin c /\ Qabs c <= 3000)
  /\ forall e : TickEnv,
       exists h, fst (sampleTerrainHeight e r) = Fin h /\ Qabs h <= 3000.
Proof.
  intros Hc Hrun.
  assert (H0 : plausibleHeight (terrainHeightM (terrain r0))).
  { unfold construct, loadHeadingOffsetFromStorage, bind in Hc.
    repeat (break_head Hc; try discriminate Hc).
    all: inversion Hc; subst; apply plausibleHeight_zero. }
  assert (Hr : plausibleHeight (terrainHeightM (terrain r))).
  { clear Hc. revert r0 H0 Hrun.
    induction evs as [|ev evs IH]; simpl; intros r0 H0 Hrun.
    - inversion Hrun; subst. exact H0.
    - unfold bind in Hrun. destruct (step L ev r0) as [r1|] eqn:E; [|discriminate].
      apply (IH r1); auto.
      destruct (step_resamples L ev r0 r1 E) as [Hs|(e & ra & Ea & Eb)].
      + rewrite Hs. exact H0.
      + rewrite Eb. apply sampleTerrainHeight_plausible. rewrite Ea. exact H0. }
  split; [exact Hr|].
  intros e. apply (sampleTerrainHeight_plausible e r Hr).
Qed.

(** ** What sends nothing *)

Lemma sentLog_set_calibration (v : HeadingCalibrationState) (r : G1Robot) :
  sentLog (set_calibration v r) = sentLog r.
Proof. reflexivity. Qed.

Lemma set_modelHeadingOffset_sentLog v r :
  sentLog (set_modelHeadingOffset v r) = sentLog r.
Proof. reflexivity. Qed.

#[export] Hint Rewrite sentLog_set_calibration set_modelHeadingOffset_sentLog : frame.

Lemma sentLog_set_ingest (v : Ingest) (r : G1Robot) :
  sentLog (set_ingest v r) = sentLog r.
Proof. reflexivity. Qed.

#[export] Hint Rewrite sentLog_set_ingest : frame.

Lemma sentLog_set_terrain (v : TerrainHeightState) (r : G1Robot) :
  sentLog (set_terrain v r) = sentLog r.
Proof. reflexivity. Qed.

#[export] Hint Rewrite sentLog_set_terrain : frame.

Lemma sentLog_set_render (v : Render) (r : G1Robot) :
  sentLog (set_render v r) = sentLog r.
Proof. reflexivity. Qed.

#[export] Hint Rewrite sentLog_set_render : frame.

Lemma sentLog_set_motion (v : Motion) (r : G1Robot) :
  sentLog (set_motion v r) = sentLog r.
Proof. reflexivity. Qed.

#[export] Hint Rewrite sentLog_set_motion : frame.

Lemma sentLog_set_perf (v : Perf) (r : G1Robot) :
  sentLog (set_perf v r) = sentLog r.
Proof. reflexivity. Qed.

#[export] Hint Rewrite sentLog_set_perf : frame.

Lemma sentLog_set_links (v : Links) (r : G1Robot) :
  sentLog (set_links v r) = sentLog r.
Proof. reflexivity. Qed.

#[export] Hint Rewrite sentLog_set_links : frame.

Lemma sentLog_set_conn (v : Conn) (r : G1Robot) :
  sentLog (set_conn v r) = sentLog r.
Proof. reflexivity. Qed.

#[export] Hint Rewrite sentLog_set_conn : frame.

Lemma sentLog_set_browser (v : Browser) (r : G1Robot) :
  sentLog (set_browser v r) = sentLog r.
Proof. reflexivity. Qed.

#[export] Hint Rewrite sentLog_set_browser : frame.

Lemma set_localStorage_sentLog s r :
  sentLog (set_localStorage s r) = sentLog r.
Proof. reflexivity. Qed.

#[export] Hint Rewrite set_localStorage_sentLog : frame.

Lemma bump_perfWsOut_sentLog r :
  sentLog (bump_perfWsOut r) = sentLog r.
Proof. reflexivity. Qed.

#[export] Hint Rewrite bump_perfWsOut_sentLog : frame.

Lemma bump_perfTerrainQueries_sentLog r :
  sentLog (bump_perfTerrainQueries r) = sentLog r.
Proof. reflexivity. Qed.

#[export] Hint Rewrite bump_perfTerrainQueries_sentLog : frame.

Lemma bump_perfPoseApplied_sentLog r :
  sentLog (bump_perfPoseApplied r) = sentLog r.
Proof. reflexivity. Qed.

#[export] Hint Rewrite bump_perfPoseApplied_sentLog : frame.

Lemma bump_perfWsIn_sentLog r :
  sentLog (bump_perfWsIn r) = sentLog r.
Proof. reflexivity. Qed.

#[export] Hint Rewrite bump_perfWsIn_sentLog : frame.

Lemma set_primitive_sentLog p r :
  sentLog (set_primitive p r) = sentLog r.
Proof. reflexivity. Qed.

#[export] Hint Rewrite set_primitive_sentLog : frame.

Lemma set_position_sentLog p r :
  sentLog (set_position p r) = sentLog r.
Proof. reflexivity. Qed.

#[export] Hint Rewrite set_position_sentLog : frame.

Lemma set_lastProcessedT_sentLog v r :
  sentLog (set_lastProcessedT v r) = sentLog r.
Proof. reflexivity. Qed.

#[export] Hint Rewrite set_lastProcessedT_sentLog : frame.

Lemma set_lastPoseApplyMs_sentLog v r :
  sentLog (set_lastPoseApplyMs v r) = sentLog r.
Proof. reflexivity. Qed.

#[export] Hint Rewrite set_lastPoseApplyMs_sentLog : frame.

Lemma set_latestPayload_sentLog p r :
  sentLog (set_latestPayload p r) = sentLog r.
Proof. reflexivity. Qed.

#[export] Hint Rewrite set_latestPayload_sentLog : frame.

Lemma set_dynamicObstacleSeq_sentLog v r :
  sentLog (set_dynamicObstacleSeq v r) = sentLog r.
Proof. reflexivity. Qed.

#[export] Hint Rewrite set_dynamicObstacleSeq_sentLog : frame.

Lemma set_timers_sentLog l n r :
  sentLog (set_timers l n r) = sentLog r.
Proof. reflexivity. Qed.

#[export] Hint Rewrite set_timers_sentLog : frame.

Lemma clearTimer_sentLog id r :
  sentLog (clearTimer id r) = sentLog r.
Proof. reflexivity. Qed.

#[export] Hint Rewrite clearTimer_sentLog : frame.

Lemma set_sockets_sentLog l r :
  sentLog (set_sockets l r) = sentLog r.
Proof. reflexivity. Qed.

#[export] Hint Rewrite set_sockets_sentLog : frame.

Lemma cancelPendingVisionCapture_sentLog r :
  sentLog (cancelPendingVisionCapture r) = sentLog r.
Proof. reflexivity. Qed.

#[export] Hint Rewrite cancelPendingVisionCapture_sentLog : frame.

Lemma set_perceptionTimers_sentLog f p r :
  sentLog (set_perceptionTimers f p r) = sentLog r.
Proof. reflexivity. Qed.

#[export] Hint Rewrite set_perceptionTimers_sentLog : frame.

Lemma bump_terrainProbe_sentLog r :
  sentLog (bump_terrainProbe r) = sentLog r.
Proof. reflexivity. Qed.

#[export] Hint Rewrite bump_terrainProbe_sentLog : frame.

Lemma set_ws_sentLog v r :
  sentLog (set_ws v r) = sentLog r.
Proof. reflexivity. Qed.

#[export] Hint Rewrite set_ws_sentLog : frame.

Lemma set_reconnectTimer_sentLog v r :
  sentLog (set_reconnectTimer v r) = sentLog r.
Proof. reflexivity. Qed.

#[export] Hint Rewrite set_reconnectTimer_sentLog : frame.

Lemma set_destroyed_sentLog v r :
  sentLog (set_destroyed v r) = sentLog r.
Proof. reflexivity. Qed.

#[export] Hint Rewrite set_destroyed_sentLog : frame.

Lemma loadNodeMap_sentLog f r :
  sentLog (loadNodeMap f r) = sentLog r.
Proof. destruct f; reflexivity. Qed.

#[export] Hint Rewrite loadNodeMap_sentLog : frame.

Lemma Vehicle_initialize_sentLog g r :
  sentLog (Vehicle_initialize g r) = sentLog r.
Proof. reflexivity. Qed.

#[export] Hint Rewrite Vehicle_initialize_sentLog : frame.

Lemma emitStatus_sentLog m r :
  sentLog (emitStatus m r) = sentLog r.
Proof. unfold emitStatus. frame. Qed.

#[export] Hint Rewrite emitStatus_sentLog : frame.

Lemma emitStreamState_sentLog s r :
  sentLog (emitStreamState s r) = sentLog r.
Proof. unfold emitStreamState. frame. Qed.

#[export] Hint Rewrite emitStreamState_sentLog : frame.

Lemma persistHeadingOffset_sentLog r :
  sentLog (persistHeadingOffset r) = sentLog r.
Proof. unfold persistHeadingOffset. frame. Qed.

#[export] Hint Rewrite persistHeadingOffset_sentLog : frame.

Lemma maybeEmitPerfStatus_sentLog now r :
  sentLog (maybeEmitPerfStatus now r) = sentLog r.
Proof. unfold maybeEmitPerfStatus. frame. Qed.

#[export] Hint Rewrite maybeEmitPerfStatus_sentLog : frame.

Lemma updateModelMatrix_sentLog r :
  sentLog (updateModelMatrix r) = sentLog r.
Proof. unfold updateModelMatrix. frame. Qed.

#[export] Hint Rewrite updateModelMatrix_sentLog : frame.

Lemma emitNavigationContext_sentLog nav r :
  sentLog (emitNavigationContext nav r) = sentLog r.
Proof. unfold emitNavigationContext. frame. Qed.

#[export] Hint Rewrite emitNavigationContext_sentLog : frame.

Lemma updateSpeedEstimate_sentLog L d s r :
  sentLog (updateSpeedEstimate L d s r) = sentLog r.
Proof. unfold updateSpeedEstimate. frame. Qed.

#[export] Hint Rewrite updateSpeedEstimate_sentLog : frame.

Lemma socket_close_sentLog sock r :
  sentLog (socket_close sock r) = sentLog r.
Proof. unfold socket_close. frame. Qed.

#[export] Hint Rewrite socket_close_sentLog : frame.

Lemma stopPerceptionStreaming_sentLog r :
  sentLog (stopPerceptionStreaming r) = sentLog r.
Proof. unfold stopPerceptionStreaming. frame. Qed.

#[export] Hint Rewrite stopPerceptionStreaming_sentLog : frame.

Lemma closeSocket_sentLog r :
  sentLog (closeSocket r) = sentLog r.
Proof. unfold closeSocket. frame. Qed.

#[export] Hint Rewrite closeSocket_sentLog : frame.

Lemma connectStream_sentLog r :
  sentLog (connectStream r) = sentLog r.
Proof. unfold connectStream. frame. Qed.

#[export] Hint Rewrite connectStream_sentLog : frame.

Lemma ws_onmessage_sentLog data r :
  sentLog (ws_onmessage data r) = sentLog r.
Proof. unfold ws_onmessage, isStatusMessage. frame. Qed.

#[export] Hint Rewrite ws_onmessage_sentLog : frame.

Lemma ws_onerror_sentLog r :
  sentLog (ws_onerror r) = sentLog r.
Proof. unfold ws_onerror. frame. Qed.

#[export] Hint Rewrite ws_onerror_sentLog : frame.

Lemma Vehicle_destroy_sentLog r :
  sentLog (Vehicle_destroy r) = sentLog r.
Proof. unfold Vehicle_destroy. frame. Qed.

#[export] Hint Rewrite Vehicle_destroy_sentLog : frame.

Lemma destroy_sentLog r :
  sentLog (destroy r) = sentLog r.
Proof. unfold destroy. frame. Qed.

#[export] Hint Rewrite destroy_sentLog : frame.

Lemma initialize_sentLog g f r :
  sentLog (initialize g f r) = sentLog r.
Proof. unfold initialize. frame. Qed.

#[export] Hint Rewrite initialize_sentLog : frame.

Lemma modelReady_sentLog r :
  sentLog (modelReady r) = sentLog r.
Proof. unfold modelReady. frame. Qed.

#[export] Hint Rewrite modelReady_sentLog : frame.

Lemma getNode_sentLog m n r : sentLog (snd (getNode m n r)) = sentLog r.
Proof. unfold getNode. frame. Qed.

#[export] Hint Rewrite getNode_sentLog : frame.

Lemma applyLink_sentLog name pose r :
  sentLog (applyLink name pose r) = sentLog r.
Proof. unfold applyLink. frame. Qed.

#[export] Hint Rewrite applyLink_sentLog : frame.

Lemma applyLinkAnimation_sentLog poses r :
  sentLog (applyLinkAnimation poses r) = sentLog r.
Proof.
  unfold applyLinkAnimation. frame.
  apply fold_left_keeps. intros. apply applyLink_sentLog.
Qed.

#[export] Hint Rewrite applyLinkAnimation_sentLog : frame.

Lemma sampleTerrainHeight_sentLog e r :
  sentLog (snd (sampleTerrainHeight e r)) = sentLog r.
Proof. unfold sampleTerrainHeight. frame. Qed.

#[export] Hint Rewrite sampleTerrainHeight_sentLog : frame.

Lemma estimateMotionHeading_sentLog L lat lon r :
  sentLog (snd (estimateMotionHeading L lat lon r)) = sentLog r.
Proof. unfold estimateMotionHeading. frame. Qed.

#[export] Hint Rewrite estimateMotionHeading_sentLog : frame.

Lemma setTimer_sentLog repeat cb d r :
  sentLog (snd (setTimer repeat cb d r)) = sentLog r.
Proof. reflexivity. Qed.

#[export] Hint Rewrite setTimer_sentLog : frame.

Lemma ws_onclose_sentLog r : sentLog (ws_onclose r) = sentLog r.
Proof. unfold ws_onclose. frame. Qed.

#[export] Hint Rewrite ws_onclose_sentLog : frame.

Lemma sampleProbeHeights_sentLog e b d r :
  sentLog (snd (sampleProbeHeights e b d r)) = sentLog r.
Proof. unfold sampleProbeHeights. frame. Qed.

#[export] Hint Rewrite sampleProbeHeights_sentLog : frame.

Lemma probeFan_sentLog e base fan : forall samples r,
  sentLog (snd (probeFan e base fan samples r)) = sentLog r.
Proof.
  induction fan as [|[b d] fan IH]; intros samples r; simpl; auto.
  pose proof (sampleProbeHeights_sentLog e b d r) as Hc.
  destruct (sampleProbeHeights e b d r) as [q r1]. cbn [snd] in Hc.
  rewrite <- Hc.
  destruct q as [|[[[h g] s]|]]; auto.
Qed.

#[export] Hint Rewrite probeFan_sentLog : frame.

Lemma maybeAutoCalibrateHeading_sentLog mh r r' :
  maybeAutoCalibrateHeading mh r = Some r' -> sentLog r' = sentLog r.
Proof. unfold maybeAutoCalibrateHeading. intros H. frame_in H. Qed.

Lemma applyRootTransform_sentLog L q mh r r' :
  applyRootTransform L q mh r = Some r' -> sentLog r' = sentLog r.
Proof.
  unfold applyRootTransform. destruct q as [[[qw qx] qy] qz].
  intros H. unfold bind in H.
  repeat (break_head H; try discriminate H).
  all: inversion H; subst; clear H.
  all: match goal with
       | E : maybeAutoCalibrateHeading _ _ = Some _ |- _ =>
           apply maybeAutoCalibrateHeading_sentLog in E; rename E into Hw
       end.
  all: frame; rewrite Hw; frame.
Qed.

Lemma setModelHeadingOffsetRad_sentLog x r res :
  setModelHeadingOffsetRad x r = Some res -> sentLog (fst res) = sentLog r.
Proof.
  unfold setModelHeadingOffsetRad, bind. intros H.
  repeat (break_head H; try discriminate H).
  all: inversion H; subst; clear H; cbn [fst]; frame.
Qed.

Lemma applyPose_sentLog L e p r r' :
  applyPose L e p r = Some r' -> sentLog r' = sentLog r.
Proof.
  unfold applyPose. intros H.
  break_head H; [|inversion H; reflexivity].
  break_head H; [inversion H; subst; frame|].
  break_head H; [inversion H; subst; frame|].
  rewrite (surjective_pairing (sampleTerrainHeight _ _)) in H.
  rewrite (surjective_pairing (estimateMotionHeading _ _ _ _)) in H.
  unfold bind in H. break_head H; [|discriminate].
  inversion H; subst; clear H.
  match goal with
  | E : applyRootTransform _ _ _ _ = Some _ |- _ =>
      apply applyRootTransform_sentLog in E; rename E into Hw
  end.
  frame. rewrite Hw. frame.
Qed.

Lemma update_sentLog L e r r' : update L e r = Some r' -> sentLog r' = sentLog r.
Proof.
  unfold update, applyFrame, bind. intros H.
  repeat (break_head H; try discriminate H).
  all: inversion H; subst; clear H; try (frame; fail).
  all: match goal with
       | E : applyPose _ _ _ _ = Some _ |- _ =>
           apply applyPose_sentLog in E; rename E into Hw
       end.
  all: frame; rewrite Hw; frame.
Qed.

(** ** Messages go to the open socket only *)

Lemma currentOpenSocket_schedule r r' sock :
  schedule r' = schedule r -> currentOpenSocket r sock -> currentOpenSocket r' sock.
Proof.
  unfold schedule, currentOpenSocket, readyState. intros E H.
  inversion E as [[E1 E2 E3 E4 E5 E6 E7 E8]]. rewrite E3, E8. exact H.
Qed.

Lemma sendsOnOpenSocket_nothing r r' :
  sentLog r' = sentLog r -> sendsOnOpenSocket r r' [].
Proof.
  intros E. split; [rewrite E, app_nil_r; reflexivity|]. intros sock p [].
Qed.

Lemma sendWsPayload_sends p r :
  exists new, sendsOnOpenSocket r (sendWsPayload p r) new
              /\ (List.length new <= 1)%nat.
Proof.
  unfold sendWsPayload.
  destruct (negb (canSendToServer r)) eqn:Hcan.
  { exists []. split; [apply sendsOnOpenSocket_nothing; reflexivity|simpl; lia]. }
  apply negb_false_iff in Hcan. unfold canSendToServer in Hcan.
  destruct (ws (conn r)) as [sock|] eqn:Hws; [|discriminate].
  destruct (readyState r sock) as [[| | |]|] eqn:Hrs; try discriminate.
  exists [(sock, p)]. split; [|simpl; lia].
  split; [reflexivity|].
  intros s q [Hin|[]]. inversion Hin; subst.
  unfold currentOpenSocket, readyState in *. cbn. auto.
Qed.

Lemma sendDynamicObstacles_sends d obs r :
  exists new, sendsOnOpenSocket r (sendDynamicObstacles d obs r) new.
Proof.
  unfold sendDynamicObstacles.
  destruct (negb (canSendToServer r));
    [exists []; apply sendsOnOpenSocket_nothing; reflexivity|].
  destruct (List.length obs =? 0)%nat;
    [exists []; apply sendsOnOpenSocket_nothing; reflexivity|].
  destruct (List.length _ =? 0)%nat;
    [exists []; apply sendsOnOpenSocket_nothing; reflexivity|].
  match goal with
  | |- context [sendWsPayload ?p ?x] =>
      destruct (sendWsPayload_sends p x) as (new & (E & Ho) & _)
  end.
  exists new. split; auto.
Qed.

Lemma sendTerrainProbe_sends e r :
  exists new, sendsOnOpenSocket r (settled (sendTerrainProbe e r)) new.
Proof.
  unfold sendTerrainProbe.
  destruct (negb (canSendToServer r) || negb (sceneRef (render r)));
    [exists []; apply sendsOnOpenSocket_nothing; reflexivity|].
  destruct (buildRobotTelemetry r);
    [|exists []; apply sendsOnOpenSocket_nothing; reflexivity].
  match goal with
  | |- context [probeFan ?e ?b ?f ?s ?r] =>
      pose proof (probeFan_sentLog e b f s r) as Hc;
      destruct (probeFan e b f s r) as [q r1]
  end.
  cbn [snd] in Hc.
  destruct q as [|samples]; cbn [settled];
    [exists []; apply sendsOnOpenSocket_nothing; exact Hc|].
  destruct (List.length samples =? 0)%nat; cbn [settled];
    [exists []; apply sendsOnOpenSocket_nothing; exact Hc|].
  match goal with
  | |- context [sendWsPayload ?p ?x] =>
      destruct (sendWsPayload_sends p x) as (new & (E & Ho) & _);
      set (r2 := sendWsPayload p x) in *
  end.
  exists new. split.
  - rewrite maybeEmitPerfStatus_sentLog, E. autorewrite with frame.
    rewrite Hc. reflexivity.
  - intros sock p Hin.
    apply (currentOpenSocket_schedule r2).
    + apply wiring_schedule. apply maybeEmitPerfStatus_wiring.
    + apply (Ho sock p Hin).
Qed.

Lemma ws_onopen_sends e r :
  exists new, sendsOnOpenSocket r (ws_onopen e r) new.
Proof.
  unfold ws_onopen.
  set (r1 := emitStatus _ (emitStreamState live r)).
  assert (E1 : sentLog r1 = sentLog r) by (unfold r1; frame).
  clearbody r1. unfold startPerceptionStreaming.
  rewrite (surjective_pairing (setTimer true cb_sendCameraFrame _ _)).
  rewrite (surjective_pairing (setTimer true cb_sendTerrainProbe _ _)).
  match goal with
  | |- context [sendTerrainProbe ?e ?x] => set (rc := x)
  end.
  assert (Ec : sentLog rc = sentLog r1) by (unfold rc; frame).
  clearbody rc.
  destruct (sendTerrainProbe_sends (open_probe e) rc) as (new1 & S1 & O1).
  destruct (sendTerrainProbe (open_probe e) rc) as [rd|rd]; cbn [settled] in *.
  - match goal with
    | |- context [sendWsPayload ?p ?x] =>
        destruct (sendWsPayload_sends p x) as (new2 & (S2 & O2) & _);
        pose proof (sendWsPayload_schedule p x) as Hs;
        set (r2 := sendWsPayload p x) in *
    end.
    exists (new1 ++ new2). split.
    + rewrite S2, S1, Ec, E1, app_assoc. reflexivity.
    + intros sock p Hin. apply in_app_or in Hin. destruct Hin as [Hin|Hin].
      * apply (currentOpenSocket_schedule rd); auto. apply (O1 sock p Hin).
      * apply (O2 sock p Hin).
  - exists new1. split; [rewrite S1, Ec, E1; reflexivity|exact O1].
Qed.

(** X10.  An event only appends to what the robot has sent, and every
    message it appends goes to the robot's current socket, which is open
    at that moment.  Of the events of the machine (the camera-frame
    interval is not one of them) only [sendDynamicObstacles], the
    [onopen] handler and the terrain-probe interval send. *)
Theorem messages_go_to_the_open_socket (L : Lib) (ev : Event) (r r' : G1Robot) :
  step L ev r = Some r' ->
  exists new,
    sent (out r') = sent (out r) ++ new
    /\ (forall sock p, In (sock, p) new ->
          ws (conn r') = Some sock /\ readyState r' sock = Some OPEN)
    /\ (new = []
        \/ match ev with
           | ev_sendDynamicObstacles _ _ | ev_open _ _ | ev_probeInterval _ _ => True
           | _ => False
           end).
Proof.
  intros H.
  assert (Hnone : sentLog r' = sentLog r ->
            exists new,
              sent (out r') = sent (out r) ++ new
              /\ (forall sock p, In (sock, p) new ->
                    ws (conn r') = Some sock /\ readyState r' sock = Some OPEN)
              /\ (new = []
                  \/ match ev with
                     | ev_sendDynamicObstacles _ _ | ev_open _ _
                     | ev_probeInterval _ _ => True
                     | _ => False
                     end)).
  { intros E. exists []. unfold sentLog in E. rewrite E, app_nil_r.
    split; [reflexivity|]. split; [intros sock p []|left; reflexivity]. }
  destruct ev; cbn [step] in H.
  - apply Hnone. injection H as Hr. rewrite <- Hr. frame.
  - apply Hnone. injection H as Hr. rewrite <- Hr. frame.
  - apply Hnone. apply (update_sentLog L e r r' H).
  - apply Hnone. unfold bind in H.
    destruct (setModelHeadingOffsetRad offsetRad r) as [res|] eqn:E; [|discriminate].
    injection H as Hr. rewrite <- Hr. apply (setModelHeadingOffsetRad_sentLog _ _ _ E).
  - injection H as Hr.
    destruct (sendDynamicObstacles_sends date_now obstacles r) as (new & S1 & O1).
    rewrite Hr in S1, O1.
    exists new. split; [exact S1|]. split; [exact O1|right; exact I].
  - injection H as Hr.
    destruct (ws_onopen_sends e
                (set_sockets (setReadyState sock OPEN (sockets (browser r))) r))
      as (new & S1 & O1).
    rewrite Hr in S1, O1.
    exists new. split; [exact S1|]. split; [exact O1|right; exact I].
  - apply Hnone. injection H as Hr. rewrite <- Hr. frame.
  - apply Hnone. injection H as Hr. rewrite <- Hr. frame.
  - apply Hnone. injection H as Hr. rewrite <- Hr. frame.
  - apply Hnone.
    destruct (pendingTimer id r) as [t|]; [|injection H as Hr; rewrite Hr; reflexivity].
    destruct (timer_repeat t); [injection H as Hr; rewrite Hr; reflexivity|].
    destruct (timer_callback t); injection H as Hr; rewrite <- Hr;
      try reflexivity.
    frame.
  - destruct (pendingTimer id r) as [t|];
      [|apply Hnone; injection H as Hr; rewrite Hr; reflexivity].
    destruct (timer_repeat t);
      [|apply Hnone; injection H as Hr; rewrite Hr; reflexivity].
    destruct (timer_callback t);
      try (apply Hnone; injection H as Hr; rewrite Hr; reflexivity).
    injection H as Hr.
    destruct (sendTerrainProbe_sends e r) as (new & S1 & O1).
    rewrite Hr in S1, O1.
    exists new. split; [exact S1|]. split; [exact O1|right; exact I].
  - apply Hnone. injection H as Hr. rewrite <- Hr. frame.
Qed.

Lemma messages_go_to_the_open_socket_witness :
  exists new,
    sent (out (ws_onopen exampleOpen
                 (set_sockets [OPEN] (connectStream exampleRobot))))
    = sent (out exampleRobot) ++ new
    /\ new <> [].
Proof.
  destruct (messages_go_to_the_open_socket flatLib (ev_open 0 exampleOpen)
              (connectStream exampleRobot)
              (ws_onopen exampleOpen (set_sockets [OPEN] (connectStream exampleRobot)))
              eq_refl) as (new & E & _).
  exists new. split; [exact E|].
  intros Hn. rewrite Hn in E. vm_compute in E. discriminate E.
Defined.

(** ** Terrain probes *)

Lemma sampleProbeHeights_finite e b d r h g s :
  fst (sampleProbeHeights e b d r) = returns (Some (h, g, s)) ->
  Num.isFinite h = true /\ g = h /\ Num.isFinite s = true.
Proof.
  unfold sampleProbeHeights.
  destruct (negb (sceneRef (render r))); [discriminate|].
  destruct (probe_clampToHeight e b d) as [|clamped]; [discriminate|].
  set (gr := Num.ofOption (probe_getHeight e b d)).
  set (ground := if Num.isFinite gr then gr else NaN).
  set (surface := Num.ofOption clamped).
  destruct (Num.isFinite ground) eqn:Hg; destruct (Num.isFinite surface) eqn:Hs;
    cbn [negb andb fst]; intros H; inversion H; subst; clear H; auto.
  apply isFinite_Fin in Hg. apply isFinite_Fin in Hs.
  destruct Hg as [x Hx]. destruct Hs as [y Hy]. rewrite Hx, Hy. auto.
Qed.

Lemma probeSampleOk_more base fan p s :
  probeSampleOk base fan s -> probeSampleOk base (p :: fan) s.
Proof. unfold probeSampleOk. intros (H & Hrest). split; [right; exact H|exact Hrest]. Qed.

Lemma probeFan_samples e base fan : forall acc r out,
  fst (probeFan e base fan acc r) = returns out ->
  exists added,
    out = acc ++ added
    /\ (List.length added <= List.length fan)%nat
    /\ Forall (probeSampleOk base fan) added.
Proof.
  induction fan as [|[b d] fan IH]; intros acc r out H; simpl in H.
  - inversion H; subst. exists []. rewrite app_nil_r. simpl. auto.
  - pose proof (sampleProbeHeights_finite e b d r) as Hf.
    destruct (sampleProbeHeights e b d r) as [q r1]. cbn [fst] in Hf.
    destruct q as [|[[[h g] s]|]]; [discriminate| |].
    + destruct (Hf h g s eq_refl) as (Hh & Hg & Hs). subst g.
      destruct (IH _ _ _ H) as (added & E & Hlen & Hall).
      eexists (_ :: added). split; [rewrite E, <- app_assoc; reflexivity|].
      split; [simpl; lia|]. constructor.
      * unfold probeSampleOk. cbn. repeat split; auto.
      * eapply Forall_impl; [|exact Hall]. intros a. apply probeSampleOk_more.
    + destruct (IH _ _ _ H) as (added & E & Hlen & Hall).
      exists added. split; [exact E|]. split; [simpl; lia|].
      eapply Forall_impl; [|exact Hall]. intros a. apply probeSampleOk_more.
Qed.

Lemma canSendToServer_schedule r r' :
  schedule r' = schedule r -> canSendToServer r' = canSendToServer r.
Proof.
  unfold schedule, canSendToServer, readyState. intros E.
  inversion E as [[E1 E2 E3 E4 E5 E6 E7 E8]]. rewrite E3, E8. reflexivity.
Qed.

Lemma sendWsPayload_open p r sock :
  ws (conn r) = Some sock -> canSendToServer r = true ->
  sentLog (sendWsPayload p r) = sentLog r ++ [(sock, p)].
Proof.
  intros Hws Hcan. unfold sendWsPayload. rewrite Hcan, Hws. reflexivity.
Qed.

Lemma sampleProbeHeights_conn e b d r :
  conn (snd (sampleProbeHeights e b d r)) = conn r.
Proof.
  unfold sampleProbeHeights.
  destruct (negb (sceneRef (render r))); auto.
  destruct (probe_clampToHeight e b d); auto.
  destruct (negb _ && negb _); auto.
  destruct (_ && _); auto.
Qed.

Lemma probeFan_conn e base fan : forall samples r,
  conn (snd (probeFan e base fan samples r)) = conn r.
Proof.
  induction fan as [|[b d] fan IH]; intros samples r; simpl; auto.
  pose proof (sampleProbeHeights_conn e b d r) as Hc.
  destruct (sampleProbeHeights e b d r) as [q r1]. cbn [snd] in Hc.
  rewrite <- Hc.
  destruct q as [|[[[h g] s]|]]; auto.
Qed.

Lemma sendWsPayload_conn p r : conn (sendWsPayload p r) = conn r.
Proof.
  unfold sendWsPayload.
  destruct (negb (canSendToServer r)); auto. destruct (ws (conn r)); auto.
Qed.

(** X11.  [sendTerrainProbe] either sends nothing and leaves the probe
    sequence number alone, or sends exactly one [terrain_probe] message
    on the open socket: the sequence number goes up by one, the base
    height is the cached height (0 while the cache is not valid), and the
    samples are between 1 and 36, each at a point of the fan of 9
    bearings by 4 distances, with finite heights and [deltaM] the height
    minus the base height. *)
Theorem terrain_probe_message (e : ProbeEnv) (r : G1Robot) :
  let r' := settled (sendTerrainProbe e r) in
  (sent (out r') = sent (out r)
   /\ terrainProbeSeq (conn r') = terrainProbeSeq (conn r))
  \/ exists sock samples robot,
       sent (out r')
       = sent (out r)
         ++ [(sock,
              terrain_probe (S (terrainProbeSeq (conn r))) (Fin (probe_Date_now e))
                (cachedHeightOrZero r) samples robot)]
       /\ terrainProbeSeq (conn r') = S (terrainProbeSeq (conn r))
       /\ ws (conn r) = Some sock
       /\ readyState r sock = Some OPEN
       /\ buildRobotTelemetry r = Some robot
       /\ samples <> []
       /\ (List.length samples <= 36)%nat
       /\ Forall (probeSampleOk (cachedHeightOrZero r)
                    (list_prod probeBearingsDeg probeDistancesM)) samples.
Proof.
  cbv zeta. unfold sendTerrainProbe.
  destruct (negb (canSendToServer r) || negb (sceneRef (render r))) eqn:G;
    [left; split; reflexivity|].
  apply orb_false_iff in G. destruct G as [Hcan _]. apply negb_false_iff in Hcan.
  destruct (buildRobotTelemetry r) as [robot|]; [|left; split; reflexivity].
  set (base := cachedHeightOrZero r).
  set (fan := list_prod probeBearingsDeg probeDistancesM).
  assert (Hfan : List.length fan = 36%nat) by reflexivity.
  clearbody fan.
  pose proof (probeFan_sentLog e base fan [] r) as Hlog.
  pose proof (probeFan_schedule e base fan [] r) as Hsch.
  pose proof (probeFan_samples e base fan [] r) as Hsam.
  pose proof (probeFan_conn e base fan [] r) as Hconn.
  destruct (probeFan e base fan [] r) as [q r1]. cbn [fst snd] in *.
  assert (Hseq1 : terrainProbeSeq (conn r1) = terrainProbeSeq (conn r))
    by (rewrite Hconn; reflexivity).
  destruct q as [|samples]; cbn [settled].
  { left. split; [exact Hlog|exact Hseq1]. }
  destruct (List.length samples =? 0)%nat eqn:Hlen; cbn [settled].
  { left. split; [exact Hlog|exact Hseq1]. }
  right.
  destruct (Hsam samples eq_refl) as (added & E & Hl & Hall). simpl in E. subst added.
  assert (Hcan1 : canSendToServer (bump_terrainProbe r1) = true).
  { rewrite <- Hcan. apply canSendToServer_schedule. rewrite <- Hsch. reflexivity. }
  unfold canSendToServer in Hcan.
  destruct (ws (conn r)) as [sock|] eqn:Hws; [|discriminate].
  destruct (readyState r sock) as [[| | |]|] eqn:Hrs; try discriminate.
  assert (Hws1 : ws (conn (bump_terrainProbe r1)) = Some sock).
  { unfold schedule in Hsch. inversion Hsch as [[E1 E2 E3 E4 E5 E6 E7 E8]].
    cbn. rewrite E8. exact Hws. }
  exists sock, samples, robot.
  pose proof (sendWsPayload_open
                (terrain_probe (terrainProbeSeq (conn (bump_terrainProbe r1)))
                   (Fin (probe_Date_now e)) base samples robot)
                (bump_terrainProbe r1) sock Hws1 Hcan1) as Hsend.
  split.
  { change (sent (out ?x)) with (sentLog x).
    rewrite maybeEmitPerfStatus_sentLog, Hsend. autorewrite with frame.
    rewrite Hlog. cbn. rewrite Hseq1. reflexivity. }
  split.
  { rewrite (wiring_conn _ _ (maybeEmitPerfStatus_wiring _ _)), sendWsPayload_conn.
    cbn. rewrite Hseq1. reflexivity. }
  repeat split; auto.
  - intros Hn. rewrite Hn in Hlen. discriminate Hlen.
  - lia.
Qed.

Example terrain_probe_example :
  exists samples robot,
    sent (out (settled (sendTerrainProbe exampleProbe walkingRobot)))
    = sent (out walkingRobot)
      ++ [(0%nat, terrain_probe 1 (Fin 1700000000000) (Fin 5) samples robot)]
    /\ List.length samples = 36%nat.
Proof. do 2 eexists. split; vm_compute; reflexivity. Qed.

Lemma stopPerceptionStreaming_body r :
  render (stopPerceptionStreaming r) = render r
  /\ motion (stopPerceptionStreaming r) = motion r
  /\ out (stopPerceptionStreaming r) = out r
  /\ config (stopPerceptionStreaming r) = config r.
Proof.
  unfold stopPerceptionStreaming. cbv zeta.
  repeat match goal with
         | |- context [match ?x with Some _ => _ | None => _ end] => destruct x
         end; unfold cancelPendingVisionCapture; cbn; auto.
Qed.

Lemma sampleProbeHeights_throws e b d r :
  sceneRef (render r) = true ->
  probe_clampToHeight e b d = throws ->
  fst (sampleProbeHeights e b d r) = throws
  /\ schedule (snd (sampleProbeHeights e b d r)) = schedule r
  /\ out (snd (sampleProbeHeights e b d r)) = out r.
Proof.
  intros Hs Ht. unfold sampleProbeHeights. rewrite Hs, Ht. cbn. auto.
Qed.

(** X12.  When [clampToHeight] throws during the first terrain probe of
    the [onopen] handler, the exception leaves the handler before
    [session_start] is sent: nothing is sent on the open socket, although
    [live] has been reported and both perception intervals are
    installed. *)
Theorem ws_onopen_probe_throws (e : OpenEnv) (r : G1Robot) (sock : nat)
  (robot : G1RobotTelemetry) :
  ws (conn r) = Some sock ->
  readyState r sock = Some OPEN ->
  sceneRef (render r) = true ->
  buildRobotTelemetry r = Some robot ->
  (forall b d, probe_clampToHeight (open_probe e) b d = throws) ->
  sent (out (ws_onopen e r)) = sent (out r)
  /\ frameCaptureTimer (conn (ws_onopen e r)) = Some (nextTimerId (browser r))
  /\ terrainProbeTimer (conn (ws_onopen e r)) = Some (S (nextTimerId (browser r)))
  /\ streamStates (out (ws_onopen e r))
     = (if onStreamStateChange (config r)
        then streamStates (out r) ++ [live] else streamStates (out r)).
Proof.
  intros Hws Hrs Hscene Htel Hthrow.
  unfold ws_onopen.
  set (r1 := emitStatus _ (emitStreamState live r)).
  assert (H1 : wiring r1 = wiring r
               /\ render r1 = render r /\ motion r1 = motion r
               /\ sent (out r1) = sent (out r)
               /\ streamStates (out r1)
                  = (if onStreamStateChange (config r)
                     then streamStates (out r) ++ [live] else streamStates (out r))).
  { unfold r1, emitStatus, emitStreamState.
    destruct (onStreamStateChange (config r)); cbn;
      destruct (onStatus (config r)); cbn; auto. }
  clearbody r1. destruct H1 as (Hw1 & Hr1 & Hm1 & Hs1 & Hst1).
  unfold startPerceptionStreaming.
  destruct (stopPerceptionStreaming_conn r1)
    as (Ef & Ep & _ & _ & Ews & Esock & Enext & _ & _ & _).
  destruct (stopPerceptionStreaming_body r1) as (Br & Bm & Bo & _).
  set (rb := stopPerceptionStreaming r1) in *. clearbody rb.
  unfold setTimer. cbv beta iota zeta.
  match goal with
  | |- context [sendTerrainProbe ?e ?x] => set (rc := x)
  end.
  assert (Hc : ws (conn rc) = Some sock
               /\ sockets (browser rc) = sockets (browser r)
               /\ render rc = render r /\ motion rc = motion r
               /\ out rc = out r1
               /\ frameCaptureTimer (conn rc) = Some (nextTimerId (browser r))
               /\ terrainProbeTimer (conn rc) = Some (S (nextTimerId (browser r)))).
  { unfold rc. cbn.
    rewrite Ews, Esock, Enext, Br, Bm, Bo, Hr1, Hm1,
      (wiring_conn _ _ Hw1), (wiring_sockets _ _ Hw1), (wiring_nextTimerId _ _ Hw1).
    auto 10. }
  clearbody rc. destruct Hc as (C1 & C2 & C3 & C4 & C5 & C6 & C7).
  unfold sendTerrainProbe.
  assert (Hcan : canSendToServer rc = true).
  { unfold canSendToServer, readyState in *. rewrite C1, C2, Hrs. reflexivity. }
  assert (Htel' : buildRobotTelemetry rc = Some robot).
  { unfold buildRobotTelemetry in *. rewrite C3, C4. exact Htel. }
  rewrite Hcan, C3, Hscene, Htel'. cbn [negb orb].
  set (fan := list_prod probeBearingsDeg probeDistancesM).
  assert (Hfan : fan = (-60, 1.5) :: tl fan) by reflexivity.
  rewrite Hfan. clearbody fan. cbn [probeFan].
  destruct (sampleProbeHeights_throws (open_probe e) (-60) 1.5 rc)
    as (T1 & T2 & T3); [rewrite C3; exact Hscene | apply Hthrow |].
  destruct (sampleProbeHeights (open_probe e) (-60) 1.5 rc) as [q r2].
  cbn [fst snd] in *. subst q.
  unfold schedule in T2. inversion T2 as [[E1 E2 E3 E4 E5 E6 E7 E8]].
  rewrite T3, C5, E5, E6. auto.
Qed.

Lemma ws_onopen_probe_throws_witness :
  sent (out (ws_onopen throwingOpen walkingRobot)) = sent (out walkingRobot)
  /\ frameCaptureTimer (conn (ws_onopen throwingOpen walkingRobot)) = Some 3%nat
  /\ terrainProbeTimer (conn (ws_onopen throwingOpen walkingRobot)) = Some 4%nat
  /\ streamStates (out (ws_onopen throwingOpen walkingRobot))
     = streamStates (out walkingRobot) ++ [live].
Proof.
  apply (ws_onopen_probe_throws throwingOpen walkingRobot 0
           {| tel_lat := Fin 10; tel_lon := Fin 20;
              tel_heading := heading (hpRoll (render walkingRobot));
              tel_speed := Fin 0 |}); try reflexivity.
Defined.

(** ** Link retargeting, navigation contexts and the speed estimate *)

Lemma calibration_budget_witness :
  ((headingCalibrationSamples (calibration calibratingRobot)
    <= headingCalibrationSamples (calibration calibratedOnceMore)
    /\ headingCalibrationSamples (calibration calibratedOnceMore) <= 360)%nat
   /\ (headingFastLockComplete (calibration calibratingRobot) = true ->
       headingFastLockComplete (calibration calibratedOnceMore) = true)
   /\ (headingCalibrationSamples (calibration calibratingRobot) = 360%nat ->
       calibration calibratedOnceMore = calibration calibratingRobot
       \/ exists ev, In ev (walk 6 1) /\ isManualOverride ev = true))
  /\ ((headingCalibrationSamples (calibration overriddenRobot)
       <= headingCalibrationSamples (calibration overriddenOnceMore)
       /\ headingCalibrationSamples (calibration overriddenOnceMore) <= 360)%nat
      /\ (headingFastLockComplete (calibration overriddenRobot) = true ->
          headingFastLockComplete (calibration overriddenOnceMore) = true)
      /\ (headingCalibrationSamples (calibration overriddenRobot) = 360%nat ->
          calibration overriddenOnceMore = calibration overriddenRobot
          \/ exists ev, In ev (walk 6 1) /\ isManualOverride ev = true)).
Proof.
  split.
  - apply (calibration_budget pacingLib exampleConfig 0 (storedBrowser 4)
             calibratingHistory (walk 6 1)
             reloadedRobot calibratingRobot calibratedOnceMore);
      vm_compute; reflexivity.
  - apply (calibration_budget pacingLib exampleConfig 0 (storedBrowser 4)
             overriddenHistory (walk 6 1)
             reloadedRobot overriddenRobot overriddenOnceMore);
      vm_compute; reflexivity.
Defined.

Lemma terrain_cache_stays_plausible_witness :
  (exists c, terrainHeightM (terrain walkingRobot) = Fin c /\ Qabs c <= 3000)
  /\ forall e : TickEnv,
       exists h, fst (sampleTerrainHeight e walkingRobot) = Fin h /\ Qabs h <= 3000.
Proof.
  apply (terrain_cache_stays_plausible flatLib exampleConfig 0 exampleBrowser
           walkingHistory exampleRobot walkingRobot);
    vm_compute; reflexivity.
Defined.


Lemma finiteOrUndefined_clean o : finiteOrAbsent (finiteOrUndefined o).
Proof.
  unfold finiteOrUndefined, finiteOrAbsent.
  destruct (Num.isFinite (Num.ofOption o)) eqn:E; auto.
Qed.

Lemma sanitizeNavigation_clean nav : cleanNavigation (sanitizeNavigation nav).
Proof.
  unfold cleanNavigation, sanitizeNavigation.
  cbn [currentWaypoint remainingWaypoints nav_simTimeS nav_wallTimeS
       speedRequested speedAchieved crossTrackErrorM progressPct].
  split; [|split].
  - intros lat lon H.
    destruct (raw_currentWaypoint nav) as [| |[|a [|b [|c l]]]]; try discriminate.
    destruct (Num.isFinite a) eqn:Ea; destruct (Num.isFinite b) eqn:Eb;
      cbn in H; try discriminate.
    inversion H; subst. auto.
  - intros v H.
    destruct (Num.ofOption (raw_remainingWaypoints nav)) as [| | |q];
      cbn in H; try discriminate.
    inversion H; subst; clear H.
    unfold Num.max, Num.floor, Num.ltb, Num.Qltb.
    destruct (Qle_bool (inject_Z (Qfloor q)) 0) eqn:E; cbn [negb].
    + exists 0%nat. reflexivity.
    + exists (Z.to_nat (Qfloor q)).
      rewrite Z2Nat.id; [reflexivity|].
      destruct (Z_le_gt_dec 0 (Qfloor q)) as [Hz|Hz]; [exact Hz|].
      assert (Hle : inject_Z (Qfloor q) <= 0).
      { change 0 with (inject_Z 0). rewrite <- Zle_Qle. lia. }
      apply Qle_bool_iff in Hle. congruence.
  - repeat split; apply finiteOrUndefined_clean.
Qed.

(** X14.  [emitNavigationContext] hands the callback at most one
    context, and none when there is no callback or no [nav]; in it every
    numeric field is finite or absent, [remainingWaypoints] is the whole
    number [max 0 (floor n)], a waypoint pair has two finite numbers, and
    an array of another length is reported as [undefined], not [null]. *)
Theorem navigation_context_is_clean (rawNav : option RawNavigation) (r : G1Robot) :
  exists new,
    navigationContexts (out (emitNavigationContext rawNav r))
    = navigationContexts (out r) ++ new
    /\ Forall cleanNavigation new
    /\ (new = [] <-> rawNav = None \/ onNavigationContext (config r) = false)
    /\ (List.length new <= 1)%nat
    /\ forall c, In c new ->
         exists nav, rawNav = Some nav
           /\ running c = raw_running nav /\ offRoute c = raw_offRoute nav
           /\ (forall q, raw_remainingWaypoints nav = Some (Fin q) ->
                 remainingWaypoints c
                 = Some (Fin (inject_Z (Z.max 0 (Qfloor q)))))
           /\ (forall a b, raw_currentWaypoint nav = wp_array [Fin a; Fin b] ->
                 currentWaypoint c = Some (Some (Fin a, Fin b)))
           /\ (forall l, raw_currentWaypoint nav = wp_array l ->
                 List.length l <> 2%nat -> currentWaypoint c = None).
Proof.
  unfold emitNavigationContext.
  destruct rawNav as [nav|].
  2:{ exists []. rewrite app_nil_r. repeat split; auto.
      intros c []. }
  destruct (onNavigationContext (config r)) eqn:Ecb; cbn [negb].
  2:{ exists []. rewrite app_nil_r. repeat split; auto.
      intros c []. }
  exists [sanitizeNavigation nav]. cbn [out set_out navigationContexts].
  split; [reflexivity|].
  split; [constructor; [apply sanitizeNavigation_clean | constructor]|].
  split.
  { split; [discriminate|]. intros [H|H]; discriminate. }
  split; [cbn; lia|].
  intros c [<-|[]]. exists nav. split; [reflexivity|].
  unfold sanitizeNavigation.
  cbn [running offRoute remainingWaypoints currentWaypoint].
  repeat split.
  - intros q Hq. rewrite Hq. cbn [Num.ofOption Num.isFinite Num.floor].
    unfold Num.max, Num.ltb, Num.Qltb.
    destruct (Qle_bool (inject_Z (Qfloor q)) 0) eqn:E; cbn [negb].
    + apply Qle_bool_iff in E. change 0 with (inject_Z 0) in E.
      rewrite <- Zle_Qle in E. rewrite Z.max_l by lia. reflexivity.
    + rewrite Z.max_r; [reflexivity|].
      destruct (Z_le_gt_dec 0 (Qfloor q)) as [Hz|Hz]; [exact Hz|].
      assert (Hle : inject_Z (Qfloor q) <= 0).
      { change 0 with (inject_Z 0). rewrite <- Zle_Qle. lia. }
      apply Qle_bool_iff in Hle. congruence.
  - intros a b H. rewrite H. reflexivity.
  - intros l H Hlen. rewrite H.
    destruct l as [|a [|b [|c' l]]]; try reflexivity.
    exfalso. apply Hlen. reflexivity.
Qed.

Lemma rounded_Fin (q : Q) :
  - (inject_Z (10 ^ 303)) <= q -> q <= inject_Z (10 ^ 303) ->
  Num.rounded (Fin q) = Fin q.
Proof.
  intros Hlo Hhi. unfold Num.rounded.
  assert (Hb : inject_Z (10 ^ 303) < Num.overflowThreshold)
    by (vm_compute; reflexivity).
  destruct (Qle_bool Num.overflowThreshold q) eqn:E1.
  - apply Qle_bool_iff in E1. exfalso.
    apply (Qlt_irrefl q). eapply Qle_lt_trans; [exact Hhi|].
    eapply Qlt_le_trans; [exact Hb|exact E1].
  - destruct (Qle_bool q (- Num.overflowThreshold)) eqn:E2; [|reflexivity].
    apply Qle_bool_iff in E2. exfalso.
    apply (Qlt_irrefl q). eapply Qle_lt_trans; [exact E2|].
    eapply Qlt_le_trans; [|exact Hlo].
    apply Qopp_lt_compat. exact Hb.
Qed.

Lemma scale_300_303 : 1000 * inject_Z (10 ^ 300) == inject_Z (10 ^ 303).
Proof. vm_compute. reflexivity. Qed.

Lemma scale_300_pos : 0 < inject_Z (10 ^ 300).
Proof. vm_compute. reflexivity. Qed.

(** X15.  With a previous pose on record at a finite time, and with that
    time, the new time in milliseconds and the distance [d] to the
    previous pose at most 1e300 in magnitude, so that no intermediate
    result leaves the finite range, [updateSpeedEstimate] records the new
    time and leaves a finite speed [v >= 0] with [v * 0.03 <= d]: the
    elapsed time counts as at least 0.03 seconds, so equal or decreasing
    timestamps give [d / 0.03] and neither a division by zero nor a
    negative speed; [speed] is [v * 3.6]. *)
Theorem updateSpeedEstimate_bounded (L : Lib) (date_now : Q) (simTimeS : option num)
  (r : G1Robot) (p : Cartesian3) (t d : Q) :
  lastPosePosition (motion r) = Some p ->
  lastPoseTimeMs (motion r) = Some (Fin t) ->
  Cartesian3_distance L (position (render r)) p = Fin d ->
  0 <= d ->
  noOverflow t ->
  noOverflow d ->
  noOverflow (match simTimeS with Some (Fin s) => s * 1000 | _ => date_now end) ->
  exists now v,
    (now = match simTimeS with Some (Fin s) => s * 1000 | _ => date_now end)
    /\ lastPoseTimeMs (motion (updateSpeedEstimate L date_now simTimeS r)) = Some (Fin now)
    /\ lastPosePosition (motion (updateSpeedEstimate L date_now simTimeS r))
       = Some (position (render r))
    /\ velocity (motion (updateSpeedEstimate L date_now simTimeS r)) = Fin v
    /\ speed (motion (updateSpeedEstimate L date_now simTimeS r)) = Fin (v * 3.6)
    /\ 0 <= v
    /\ v * 0.03 <= d
    /\ (0.03 <= (now - t) / 1000 -> v * ((now - t) / 1000) == d)
    /\ ((now - t) / 1000 <= 0.03 -> v * 0.03 == d).
Proof.
  intros Hp Ht Hd Hd0 Bt Bd Bnow.
  exists (match simTimeS with Some (Fin s) => s * 1000 | _ => date_now end).
  set (now := match simTimeS with Some (Fin s) => s * 1000 | _ => date_now end) in *.
  apply Qabs_bounds in Bt, Bd, Bnow.
  pose proof scale_300_303 as H303. pose proof scale_300_pos as H300.
  set (B := inject_Z (10 ^ 300)) in *. set (B2 := inject_Z (10 ^ 303)) in *.
  unfold updateSpeedEstimate. rewrite Hp, Ht, Hd.
  assert (Enow : (if Num.isFinite (Num.ofOption simTimeS)
                  then Num.rounded (Num.ofOption simTimeS * Fin 1000)%num
                  else Fin date_now) = Fin now).
  { unfold now in *. destruct simTimeS as [[| | |s]|]; try reflexivity.
    cbn [Num.ofOption Num.isFinite Num.mul].
    apply rounded_Fin; fold B2; lra. }
  rewrite Enow. clearbody now.
  cbn [motion set_motion lastPoseTimeMs lastPosePosition velocity speed].
  cbn [Num.sub Num.add Num.neg].
  rewrite (rounded_Fin (now + - t)) by (fold B2; lra).
  assert (Ediv : (Fin (now + - t) / Fin 1000)%num = Fin ((now - t) / 1000)).
  { reflexivity. }
  rewrite Ediv. set (el := (now - t) / 1000).
  assert (Edt : exists dt, Num.max (Fin 0.03) (Fin el) = Fin dt
                  /\ 0.03 <= dt
                  /\ (0.03 <= el -> dt == el) /\ (el <= 0.03 -> dt == 0.03)).
  { unfold Num.max, Num.ltb, Num.Qltb.
    destruct (Qle_bool el 0.03) eqn:E; cbn [negb].
    - apply Qle_bool_iff in E. exists 0.03.
      split; [reflexivity|]. split; [apply Qle_refl|].
      split; [intros H; apply Qle_antisym; auto | intros _; reflexivity].
    - assert (Hlt : 0.03 < el).
      { apply Qnot_le_lt. intros H. apply Qle_bool_iff in H. congruence. }
      exists el.
      split; [reflexivity|]. split; [apply Qlt_le_weak; exact Hlt|].
      split; [intros _; reflexivity|].
      intros H. apply Qle_antisym; auto. apply Qlt_le_weak; exact Hlt. }
  destruct Edt as (dt & Edt & Hdt & Hbig & Hsmall). rewrite Edt.
  assert (Hdtpos : 0 < dt).
  { apply Qlt_le_trans with 0.03; [reflexivity|exact Hdt]. }
  assert (Hq : (Fin d / Fin dt)%num = Fin (d / dt)).
  { unfold Num.div. destruct (Qeq_bool dt 0) eqn:E; [|reflexivity].
    apply Qeq_bool_iff in E. rewrite E in Hdtpos.
    exfalso. exact (Qlt_irrefl _ Hdtpos). }
  rewrite Hq.
  assert (Hv0 : 0 <= d / dt).
  { apply Qle_shift_div_l; [exact Hdtpos|]. rewrite Qmult_0_l. exact Hd0. }
  assert (Hmul : d / dt * dt == d).
  { field. intros H. rewrite H in Hdtpos. exact (Qlt_irrefl _ Hdtpos). }
  assert (Hsmall' : d / dt * 0.03 <= d).
  { rewrite <- Hmul at 2. apply Qmult_le_compat_nonneg; split; auto.
    - apply Qle_refl.
    - discriminate. }
  rewrite (rounded_Fin (d / dt)) by (fold B2; lra).
  assert (Hmax : Num.max (Fin 0) (Fin (d / dt)) = Fin (d / dt)
                 \/ (Num.max (Fin 0) (Fin (d / dt)) = Fin 0 /\ d / dt == 0)).
  { unfold Num.max, Num.ltb, Num.Qltb.
    destruct (Qle_bool (d / dt) 0) eqn:E; cbn [negb]; [right|left; reflexivity].
    split; [reflexivity|]. apply Qle_bool_iff in E. apply Qle_antisym; auto. }
  destruct Hmax as [Hmax|(Hmax & Hz)]; rewrite Hmax; cbn [Num.mul].
  - rewrite (rounded_Fin (d / dt * 3.6)) by (fold B2; lra).
    exists (d / dt).
    do 5 (split; [reflexivity|]).
    split; [exact Hv0|]. split; [exact Hsmall'|].
    split; intros H.
    + rewrite <- (Hbig H). exact Hmul.
    + rewrite <- (Hsmall H). exact Hmul.
  - rewrite (rounded_Fin (0 * 3.6)) by (fold B2; lra).
    exists 0.
    do 5 (split; [reflexivity|]).
    split; [apply Qle_refl|].
    split; [rewrite Qmult_0_l; exact Hd0|].
    split; intros H; rewrite Qmult_0_l; rewrite <- Hmul, Hz; ring.
Qed.

(** ** Link animation *)

Lemma setNodeMatrix_In name v l n mt :
  In (n, mt) (setNodeMatrix name v l) ->
  In (n, mt) l \/ (n = name /\ mt = v).
Proof.
  induction l as [|[k old] rest IH]; cbn.
  - intros [H|[]]. inversion H; auto.
  - destruct (String.eqb k name) eqn:E; cbn.
    + intros [H|H]; [|auto].
      inversion H; subst. apply String.eqb_eq in E. auto.
    + intros [H|H]; [auto|]. destruct (IH H); auto.
Qed.

Lemma gtb_false_le q c : (Num.abs (Fin q) >? Fin c)%num = false -> Qabs q <= c.
Proof.
  unfold Num.gtb, Num.ltb, Num.abs, Num.Qltb. intros H.
  apply negb_false_iff in H. apply Qle_bool_iff in H. exact H.
Qed.

Lemma applyLink_animates r0 m0 poses source pose r :
  In (source, pose) poses ->
  animates r0 m0 poses r ->
  animates r0 m0 poses (applyLink source pose r).
Proof.
  intros Hin (Hmap & Hign & Hscale & Hcache & Hpos & Hhpr & m & Hm & Hmm & Hg & Hmat).
  assert (Hsame : animates r0 m0 poses r).
  { unfold animates. repeat (split; [assumption|]). exists m. auto. }
  unfold applyLink. rewrite Hm.
  destruct (mapNodeName source r) as [nodeName|] eqn:Ename; [|exact Hsame].
  destruct (String.eqb nodeName EmptyString) eqn:Eempty; [exact Hsame|].
  assert (Ename0 : mapNodeName source r0 = Some nodeName).
  { unfold mapNodeName in *. rewrite <- Hmap, <- Hign. exact Ename. }
  unfold getNode.
  destruct (member nodeName (nodeCache (links r))) eqn:Ecached.
  - (* cached *)
    cbn [negb].
    destruct (link_pos pose) as [[|px [|py [|pz [|]]]]|] eqn:Epos; try exact Hsame.
    destruct (link_quat pose) as [[|q0 [|q1 [|q2 [|q3 [|]]]]]|] eqn:Equat;
      try exact Hsame.
    destruct (forallb Num.isFinite [px; py; pz; q0; q1; q2; q3]) eqn:Efin;
      cbn [negb]; [|exact Hsame].
    cbn [forallb] in Efin. repeat rewrite andb_true_iff in Efin.
    destruct Efin as (F1 & F2 & F3 & F4 & F5 & F6 & F7 & _).
    apply isFinite_Fin in F1, F2, F3, F4, F5, F6, F7.
    destruct F1 as (x & ->), F2 as (y & ->), F3 as (z & ->), F4 as (a & ->),
      F5 as (b & ->), F6 as (c & ->), F7 as (d & ->).
    unfold remapLinkPosition. cbn [Num.neg].
    destruct ((Num.abs (Fin x) >? Fin 2.5)%num) eqn:Bx; cbn [orb]; [exact Hsame|].
    destruct ((Num.abs (Fin z) >? Fin 2.5)%num) eqn:Bz; cbn [orb]; [exact Hsame|].
    destruct ((Num.abs (Fin (- y)) >? Fin 2.5)%num) eqn:By; [exact Hsame|].
    apply gtb_false_le in Bx, Bz, By. rewrite Qabs_opp in By.
    destruct (remapLinkQuat (Fin a) (Fin b) (Fin c) (Fin d)) as [[[rw rx] ry] rz] eqn:Eq.
    unfold animates, set_primitive. cbn.
    repeat (split; [assumption|]).
    eexists. split; [reflexivity|]. cbn.
    split; [assumption|]. split; [assumption|].
    intros name mat H. apply setNodeMatrix_In in H.
    destruct H as [H|(-> & ->)]; [apply Hmat; exact H|].
    right. split; [apply Hcache; exact Ecached|].
    exists source, pose, x, y, z, a, b, c, d.
    cbn [node_translation node_rotation].
    rewrite Eq, Hscale.
    repeat split; auto.
    intros ->. discriminate Eempty.
  - destruct (member nodeName (gltfNodes m)) eqn:Enode; cbn [negb]; [|exact Hsame].
    assert (Hsame' : animates r0 m0 poses
                       (set_links {| nodeMap := nodeMap (links r);
                                     ignoredNodes := ignoredNodes (links r);
                                     nodeCache := nodeName :: nodeCache (links r);
                                     enableLinkAnimation := enableLinkAnimation (links r);
                                     linkScale := linkScale (links r) |} r)).
    { unfold animates. cbn. repeat (split; [assumption|]).
      split.
      - intros n Hn. unfold member in Hn. cbn in Hn.
        apply orb_true_iff in Hn. destruct Hn as [Hn|Hn].
        + apply String.eqb_eq in Hn. subst. right. rewrite <- Hg. exact Enode.
        + apply Hcache. exact Hn.
      - repeat (split; [assumption|]). exists m. auto. }
    destruct (link_pos pose) as [[|px [|py [|pz [|]]]]|] eqn:Epos; try exact Hsame'.
    destruct (link_quat pose) as [[|q0 [|q1 [|q2 [|q3 [|]]]]]|] eqn:Equat;
      try exact Hsame'.
    destruct (forallb Num.isFinite [px; py; pz; q0; q1; q2; q3]) eqn:Efin;
      cbn [negb]; [|exact Hsame'].
    cbn [forallb] in Efin. repeat rewrite andb_true_iff in Efin.
    destruct Efin as (F1 & F2 & F3 & F4 & F5 & F6 & F7 & _).
    apply isFinite_Fin in F1, F2, F3, F4, F5, F6, F7.
    destruct F1 as (x & ->), F2 as (y & ->), F3 as (z & ->), F4 as (a & ->),
      F5 as (b & ->), F6 as (c & ->), F7 as (d & ->).
    unfold remapLinkPosition. cbn [Num.neg].
    destruct ((Num.abs (Fin x) >? Fin 2.5)%num) eqn:Bx; cbn [orb]; [exact Hsame'|].
    destruct ((Num.abs (Fin z) >? Fin 2.5)%num) eqn:Bz; cbn [orb]; [exact Hsame'|].
    destruct ((Num.abs (Fin (- y)) >? Fin 2.5)%num) eqn:By; [exact Hsame'|].
    apply gtb_false_le in Bx, Bz, By. rewrite Qabs_opp in By.
    destruct (remapLinkQuat (Fin a) (Fin b) (Fin c) (Fin d)) as [[[rw rx] ry] rz] eqn:Eq.
    destruct Hsame' as (_ & _ & _ & Hcache' & _).
    unfold animates, set_primitive. cbn.
    repeat (split; [assumption|]).
    eexists. split; [reflexivity|]. cbn.
    split; [assumption|]. split; [assumption|].
    intros name mat H. apply setNodeMatrix_In in H.
    destruct H as [H|(-> & ->)]; [apply Hmat; exact H|].
    right. split; [right; rewrite <- Hg; exact Enode|].
    exists source, pose, x, y, z, a, b, c, d.
    cbn [node_translation node_rotation].
    rewrite Eq, Hscale.
    repeat split; auto.
    intros ->. discriminate Eempty.
Qed.

Lemma fold_applyLink_animates r0 m0 all poses r :
  incl poses all ->
  animates r0 m0 all r ->
  animates r0 m0 all
    (fold_left (fun r entry => applyLink (fst entry) (snd entry) r) poses r).
Proof.
  revert r. induction poses as [|[source pose] rest IH]; intros r Hincl H; cbn.
  - exact H.
  - apply IH.
    + intros e He. apply Hincl. right. exact He.
    + apply applyLink_animates; [|exact H]. apply Hincl. left. reflexivity.
Qed.

(** X16.  [applyLinkAnimation] leaves the model matrix, the position and
    the orientation alone, and every node matrix that is in the model
    afterwards and was not there before belongs to a node of the model
    (or of the node cache) and comes from a link pose of the payload that
    maps to this node, with seven finite numbers and no coordinate beyond
    2.5: its translation is the remapped position times [linkScale], its
    rotation the remapped quaternion.  Animation must be enabled and the
    model ready for any such matrix to appear. *)
Theorem applyLinkAnimation_writes_checked_poses
  (poses : option (list (string * G1LinkPose))) (r : G1Robot) (m : Model) :
  primitive (render r) = Some m ->
  exists m',
    primitive (render (applyLinkAnimation poses r)) = Some m'
    /\ modelMatrix m' = modelMatrix m
    /\ gltfNodes m' = gltfNodes m
    /\ position (render (applyLinkAnimation poses r)) = position (render r)
    /\ hpRoll (render (applyLinkAnimation poses r)) = hpRoll (render r)
    /\ (forall name mat, In (name, mat) (nodeMatrices m') ->
          In (name, mat) (nodeMatrices m)
          \/ ((member name (nodeCache (links r)) = true
               \/ member name (gltfNodes m) = true)
              /\ enableLinkAnimation (links r) = true
              /\ isReady (render r) = true
              /\ exists l, poses = Some l /\ linkWrite r l name mat)).
Proof.
  intros Hm. unfold applyLinkAnimation.
  assert (Hsame : exists m',
    primitive (render r) = Some m'
    /\ modelMatrix m' = modelMatrix m
    /\ gltfNodes m' = gltfNodes m
    /\ position (render r) = position (render r)
    /\ hpRoll (render r) = hpRoll (render r)
    /\ (forall name mat, In (name, mat) (nodeMatrices m') ->
          In (name, mat) (nodeMatrices m)
          \/ ((member name (nodeCache (links r)) = true
               \/ member name (gltfNodes m) = true)
              /\ enableLinkAnimation (links r) = true
              /\ isReady (render r) = true
              /\ exists l, poses = Some l /\ linkWrite r l name mat))).
  { exists m. repeat split; auto. }
  destruct (enableLinkAnimation (links r)) eqn:Een; cbn [negb]; [|exact Hsame].
  destruct poses as [l|]; [|exact Hsame].
  rewrite Hm.
  destruct (isReady (render r)) eqn:Eready; cbn [negb]; [|exact Hsame].
  assert (H0 : animates r m l r).
  { unfold animates. repeat (split; [reflexivity|]).
    split; [auto|]. repeat (split; [reflexivity|]).
    exists m. repeat split; auto. }
  destruct (fold_applyLink_animates r m l l r (incl_refl l) H0)
    as (_ & _ & _ & _ & Hpos & Hhpr & m' & E1 & E2 & E3 & Hmat).
  exists m'. repeat (split; [assumption|]).
  intros name mat H. destruct (Hmat name mat H) as [Hold|(Hn & Hw)]; [auto|].
  right. repeat split; auto. exists l. auto.
Qed.

Lemma applyLinkAnimation_writes_checked_poses_witness :
  exists m',
    primitive (render (applyLinkAnimation (Some exampleLinks) animatedRobot)) = Some m'
    /\ modelMatrix m' = modelMatrix animatedModel
    /\ gltfNodes m' = gltfNodes animatedModel
    /\ position (render (applyLinkAnimation (Some exampleLinks) animatedRobot))
       = position (render animatedRobot)
    /\ hpRoll (render (applyLinkAnimation (Some exampleLinks) animatedRobot))
       = hpRoll (render animatedRobot)
    /\ (forall name mat, In (name, mat) (nodeMatrices m') ->
          In (name, mat) (nodeMatrices animatedModel)
          \/ ((member name (nodeCache (links animatedRobot)) = true
               \/ member name (gltfNodes animatedModel) = true)
              /\ enableLinkAnimation (links animatedRobot) = true
              /\ isReady (render animatedRobot) = true
              /\ exists l, Some exampleLinks = Some l
                   /\ linkWrite animatedRobot l name mat)).
Proof.
  apply (applyLinkAnimation_writes_checked_poses (Some exampleLinks) animatedRobot
           animatedModel).
  reflexivity.
Defined.

(** Of the three example poses only the head is written. *)
Example applyLinkAnimation_example :
  option_map nodeMatrices
    (primitive (render (applyLinkAnimation (Some exampleLinks) animatedRobot)))
  = Some [("head_link"%string,
           {| node_rotation :=
                (let '(rw, rx, ry, rz) :=
                   remapLinkQuat (Fin 1) (Fin 0) (Fin 0) (Fin 0) in
                 (rx, ry, rz, rw));
              node_translation := ((Fin 0 * Fin 1)%num, (Fin 0.5 * Fin 1)%num,
                                   (Fin (- 0) * Fin 1)%num) |})].
Proof. vm_compute. reflexivity. Qed.

Lemma updateSpeedEstimate_bounded_witness :
  exists now v,
    (now = 3 * 1000)
    /\ lastPoseTimeMs (motion (updateSpeedEstimate pacingLib 0 (Some (Fin 3)) walkingRobot))
       = Some (Fin now)
    /\ lastPosePosition (motion (updateSpeedEstimate pacingLib 0 (Some (Fin 3)) walkingRobot))
       = Some (position (render walkingRobot))
    /\ velocity (motion (updateSpeedEstimate pacingLib 0 (Some (Fin 3)) walkingRobot))
       = Fin v
    /\ speed (motion (updateSpeedEstimate pacingLib 0 (Some (Fin 3)) walkingRobot))
       = Fin (v * 3.6)
    /\ 0 <= v
    /\ v * 0.03 <= 3
    /\ (0.03 <= (now - 1000) / 1000 -> v * ((now - 1000) / 1000) == 3)
    /\ ((now - 1000) / 1000 <= 0.03 -> v * 0.03 == 3).
Proof.
  apply (updateSpeedEstimate_bounded pacingLib 0 (Some (Fin 3)) walkingRobot
           (Cartesian3_fromDegrees (Fin 20) (Fin 10) (Fin 5.86)) 1000 3);
    try reflexivity; vm_compute; discriminate.
Defined.

(** A finite timestamp of 1e306 seconds leaves an infinite time of the
    last pose, and the next pose a speed that is not a number. *)
Example updateSpeedEstimate_overflow :
  let r1 := updateSpeedEstimate pacingLib 0 (Some overflowingTime) walkingRobot in
  let r2 := updateSpeedEstimate pacingLib 0 (Some overflowingTime) r1 in
  lastPoseTimeMs (motion r1) = Some PInf
  /\ velocity (motion r1) = Fin 0
  /\ velocity (motion r2) = NaN
  /\ speed (motion r2) = NaN.
Proof. vm_compute. repeat split. Qed.

(** ** The two height probes *)

Lemma combineHeights_prefers_surface (globeHeight clampedHeight : option num) :
  (forall g c, globeHeight = Some (Fin g) -> clampedHeight = Some (Fin c) ->
     exists h, combineHeights globeHeight clampedHeight = Fin h
       /\ (g - 2 <= c -> h = c) /\ (c < g - 2 -> h = g)
       /\ c <= h /\ g - 2 <= h)
  /\ (forall g, globeHeight = Some (Fin g) -> clampedHeight = None ->
        combineHeights globeHeight clampedHeight = Fin g)
  /\ (forall c, Num.isFinite (Num.ofOption globeHeight) = false ->
        clampedHeight = Some c ->
        combineHeights globeHeight clampedHeight = c)
  /\ (Num.isFinite (Num.ofOption globeHeight) = false -> clampedHeight = None ->
      combineHeights globeHeight clampedHeight = NaN).
Proof.
  unfold combineHeights. repeat split.
  - intros g c -> ->. cbn [Num.isFinite negb Num.sub Num.add Num.neg].
    unfold Num.geb, Num.leb, Num.ltb, Num.eqb, Num.Qltb.
    destruct (Qle_bool (c + - g) (-2)) eqn:E1; cbn [negb orb].
    + apply Qle_bool_iff in E1.
      destruct (Qeq_bool (-2) (c + - g)) eqn:E2.
      * apply Qeq_bool_iff in E2. exists c.
        split; [reflexivity|]. split; [reflexivity|].
        split; [intros H; exfalso; lra|]. split; lra.
      * assert (Hne : ~ -2 == c + - g).
        { intros H. apply Qeq_bool_iff in H. congruence. }
        exists g. split; [reflexivity|].
        split; [intros H; exfalso; apply Hne; lra|].
        split; [reflexivity|]. split; lra.
    + assert (Hlt : -2 < c + - g).
      { apply Qnot_le_lt. intros H. apply Qle_bool_iff in H. congruence. }
      exists c. split; [reflexivity|]. split; [reflexivity|].
      split; [intros H; exfalso; lra|]. split; lra.
  - intros g -> ->. reflexivity.
  - intros c Hg ->.
    destruct globeHeight as [[| | |g]|]; try discriminate; reflexivity.
  - intros Hg ->.
    destruct globeHeight as [[| | |g]|]; try discriminate; reflexivity.
Qed.

(** X17.  The first height [sampleTerrainHeight] accepts, from a globe
    height [g] and a clamped scene height [c] that are both finite and
    within 3000 metres, is [c] unless [c] is more than 2 metres below
    [g], and then [g]: the robot is never put below the scene surface
    and never more than 2 metres below the globe.  That height is
    returned and cached, and the cache is valid from then on. *)
Theorem first_height_prefers_surface (e : TickEnv) (r : G1Robot) (g c : Q) :
  sceneRef (render r) = true ->
  terrainHeightValid (terrain r) = false ->
  globe_getHeight e = returns (Some (Fin g)) ->
  scene_clampToHeight e = returns (Some (Fin c)) ->
  Qabs g <= 3000 ->
  Qabs c <= 3000 ->
  exists h,
    fst (sampleTerrainHeight e r) = Fin h
    /\ terrainHeightM (terrain (snd (sampleTerrainHeight e r))) = Fin h
    /\ terrainHeightValid (terrain (snd (sampleTerrainHeight e r))) = true
    /\ (g - 2 <= c -> h = c) /\ (c < g - 2 -> h = g)
    /\ c <= h /\ g - 2 <= h.
Proof.
  intros Hscene Hvalid Hg Hc Bg Bc.
  destruct (proj1 (combineHeights_prefers_surface (Some (Fin g)) (Some (Fin c)))
              g c eq_refl eq_refl) as (h & Eh & H1 & H2 & H3 & H4).
  assert (Bh : Qabs h <= 3000).
  { destruct (Qlt_le_dec c (g - 2)) as [Hlt|Hle].
    - rewrite (H2 Hlt). exact Bg.
    - rewrite (H1 Hle). exact Bc. }
  exists h.
  unfold sampleTerrainHeight. rewrite Hscene, Hvalid, Hg, Hc.
  rewrite andb_false_r. cbn [negb]. rewrite Eh.
  cbn [Num.isFinite negb orb Num.abs].
  assert (Eb : (Fin (Qabs h) >? Fin 3000)%num = false).
  { unfold Num.gtb, Num.ltb, Num.Qltb. apply negb_false_iff.
    apply Qle_bool_iff. exact Bh. }
  rewrite Eb. unfold blendHeight.
  cbn [terrain set_terrain bump_perfTerrainQueries set_perf terrainHeightValid
       terrainHeightM fst snd negb].
  try rewrite Hvalid. cbn [negb terrainHeightM terrainHeightValid].
  repeat split; auto.
Qed.

Lemma first_height_prefers_surface_witness :
  exists h,
    fst (sampleTerrainHeight tickUnderBridge (Vehicle_initialize None exampleRobot))
    = Fin h
    /\ terrainHeightM
         (terrain (snd (sampleTerrainHeight tickUnderBridge
                          (Vehicle_initialize None exampleRobot)))) = Fin h
    /\ terrainHeightValid
         (terrain (snd (sampleTerrainHeight tickUnderBridge
                          (Vehicle_initialize None exampleRobot)))) = true
    /\ (12 - 2 <= 3 -> h = 3) /\ (3 < 12 - 2 -> h = 12)
    /\ 3 <= h /\ 12 - 2 <= h.
Proof.
  apply (first_height_prefers_surface tickUnderBridge
           (Vehicle_initialize None exampleRobot) 12 3);
    try reflexivity; discriminate.
Defined.

(** ** The vehicle manager's obstacle feed *)

Lemma feed_limit nowMs last :
  (Fin nowMs - Fin last <? Fin dynamicObstacleIntervalMs)%num = false
  <-> dynamicObstacleIntervalMs <= nowMs - last.
Proof.
  cbn [Num.sub Num.add Num.neg Num.ltb]. unfold Num.Qltb.
  rewrite negb_false_iff, Qle_bool_iff. reflexivity.
Qed.

Lemma maybeSendDynamicObstacles_last nowMs date_now snapshot m :
  (feedDue nowMs m ->
   lastDynamicObstacleSentMs (maybeSendDynamicObstacles nowMs date_now snapshot m)
   = nowMs)
  /\ (~ feedDue nowMs m ->
      maybeSendDynamicObstacles nowMs date_now snapshot m = m).
Proof.
  unfold maybeSendDynamicObstacles, feedDue.
  destruct (trafficEnabled m) eqn:Et; cbn [negb].
  2:{ split; [intros (H & _); discriminate | reflexivity]. }
  destruct ((Fin nowMs - Fin (lastDynamicObstacleSentMs m)
             <? Fin dynamicObstacleIntervalMs)%num) eqn:El.
  - split; [|reflexivity]. intros (_ & H). apply feed_limit in H. congruence.
  - split.
    + intros _. cbn [activeVehicle].
      destruct (activeVehicle m) as [[r|]|]; try reflexivity.
      destruct (List.length snapshot =? 0)%nat; reflexivity.
    + intros H. exfalso. apply H. split; [reflexivity|]. apply feed_limit. exact El.
Qed.

Lemma feedDue_dec nowMs m : feedDue nowMs m \/ ~ feedDue nowMs m.
Proof.
  unfold feedDue. destruct (trafficEnabled m).
  - destruct (Qlt_le_dec (nowMs - lastDynamicObstacleSentMs m)
                dynamicObstacleIntervalMs) as [H|H].
    + right. intros (_ & H'). apply (Qlt_irrefl dynamicObstacleIntervalMs).
      eapply Qle_lt_trans; eauto.
    + left. auto.
  - right. intros (H & _). discriminate.
Qed.

Lemma managerStep_last L ev m m' :
  managerStep L ev m = Some m' ->
  lastDynamicObstacleSentMs m <= lastDynamicObstacleSentMs m'.
Proof.
  destruct ev; cbn [managerStep]; intros H.
  - inversion H; subst; clear H.
    destruct (feedDue_dec nowMs m) as [Hd|Hd].
    + rewrite (proj1 (maybeSendDynamicObstacles_last nowMs date_now snapshot m) Hd).
      destruct Hd as (_ & Hd). unfold dynamicObstacleIntervalMs in Hd. lra.
    + rewrite (proj2 (maybeSendDynamicObstacles_last nowMs date_now snapshot m) Hd).
      apply Qle_refl.
  - destruct (activeVehicle m) as [[r|]|].
    + unfold bind in H. destruct (step L ev r); [|discriminate].
      inversion H; subst. apply Qle_refl.
    + inversion H; subst. apply Qle_refl.
    + inversion H; subst. apply Qle_refl.
  - inversion H; subst. apply Qle_refl.
  - inversion H; subst. apply Qle_refl.
Qed.

Lemma managerRun_last L evs : forall m m',
  managerRun L evs m = Some m' ->
  lastDynamicObstacleSentMs m <= lastDynamicObstacleSentMs m'.
Proof.
  induction evs as [|ev rest IH]; intros m m' H; cbn in H.
  - inversion H; subst. apply Qle_refl.
  - unfold bind in H. destruct (managerStep L ev m) as [m1|] eqn:E; [|discriminate].
    eapply Qle_trans; [eapply managerStep_last; eauto | apply IH; exact H].
Qed.

(** X18.  Once a call of [maybeSendDynamicObstacles] at [now1] is past
    the rate limit, whether or not it had anything to send, no later call
    before [now1 + 160] milliseconds sends anything or changes the
    manager, whatever happens to the robot, the traffic switch and the
    active vehicle in between. *)
Theorem dynamic_obstacle_feed_is_spaced (L : Lib) (now1 date1 : Q)
  (snapshot1 : list Obstacle) (between : list ManagerEvent) (now2 date2 : Q)
  (snapshot2 : list Obstacle) (m m' : VehicleManager) :
  feedDue now1 m ->
  managerRun L between (maybeSendDynamicObstacles now1 date1 snapshot1 m) = Some m' ->
  (robotSent (maybeSendDynamicObstacles now2 date2 snapshot2 m') <> robotSent m' ->
   now1 + dynamicObstacleIntervalMs <= now2)
  /\ (now2 < now1 + dynamicObstacleIntervalMs ->
      maybeSendDynamicObstacles now2 date2 snapshot2 m' = m').
Proof.
  intros Hdue Hrun.
  pose proof (proj1 (maybeSendDynamicObstacles_last now1 date1 snapshot1 m) Hdue) as H1.
  pose proof (managerRun_last L between _ _ Hrun) as H2. rewrite H1 in H2.
  assert (Hearly : now2 < now1 + dynamicObstacleIntervalMs ->
                   maybeSendDynamicObstacles now2 date2 snapshot2 m' = m').
  { intros Hlt.
    apply (proj2 (maybeSendDynamicObstacles_last now2 date2 snapshot2 m')).
    intros (_ & Hd). lra. }
  split; [|exact Hearly].
  intros Hsent.
  destruct (Qlt_le_dec now2 (now1 + dynamicObstacleIntervalMs)) as [Hlt|Hle];
    [|exact Hle].
  exfalso. apply Hsent. rewrite (Hearly Hlt). reflexivity.
Qed.

Lemma dynamic_obstacle_feed_is_spaced_witness :
  (robotSent (maybeSendDynamicObstacles 300 1700000000300 [exampleObstacle]
                (maybeSendDynamicObstacles 200 1700000000200 [] liveManager))
   <> robotSent (maybeSendDynamicObstacles 200 1700000000200 [] liveManager) ->
   200 + dynamicObstacleIntervalMs <= 300)
  /\ (300 < 200 + dynamicObstacleIntervalMs ->
      maybeSendDynamicObstacles 300 1700000000300 [exampleObstacle]
        (maybeSendDynamicObstacles 200 1700000000200 [] liveManager)
      = maybeSendDynamicObstacles 200 1700000000200 [] liveManager).
Proof.
  apply (dynamic_obstacle_feed_is_spaced flatLib 200 1700000000200 [] []
           300 1700000000300 [exampleObstacle] liveManager).
  - split; [reflexivity|]. vm_compute. discriminate.
  - reflexivity.
Defined.

(** A tick with nothing to send takes the slot: the obstacle that is
    there 100 ms later is not sent, and it is sent when the first tick is
    left out. *)
Example feed_slot_taken_by_an_empty_tick :
  robotSent (maybeSendDynamicObstacles 300 1700000000300 [exampleObstacle]
               (maybeSendDynamicObstacles 200 1700000000200 [] liveManager))
  = []
  /\ robotSent (maybeSendDynamicObstacles 300 1700000000300 [exampleObstacle]
                  liveManager)
     = [(0%nat, dynamic_obstacles 1 (Fin 1700000000300) [exampleObstacle])].
Proof. split; vm_compute; reflexivity. Qed.

(** ** The black-frame check *)

Lemma luma_fold (pixels : list nat) (P : nat -> Prop) (lo hi : Q) :
  (forall v, P v -> lo <= inject_Z (Z.of_nat v) /\ inject_Z (Z.of_nat v) <= hi) ->
  forall idx s c,
    Forall (fun j => exists v, nth_error pixels j = Some v /\ P v)
      (flat_map (fun i => [i; i + 1; i + 2]%nat) idx) ->
    lo * inject_Z (Z.of_nat c) <= s /\ s <= hi * inject_Z (Z.of_nat c) ->
    exists s',
      fold_left (lumaStep pixels) idx (Fin s, c) = (Fin s', (c + List.length idx)%nat)
      /\ lo * inject_Z (Z.of_nat (c + List.length idx)) <= s'
      /\ s' <= hi * inject_Z (Z.of_nat (c + List.length idx)).
Proof.
  intros HP. induction idx as [|i rest IH]; intros s c Hall Hs.
  - exists s. cbn [fold_left List.length]. rewrite Nat.add_0_r. tauto.
  - cbn [flat_map app] in Hall.
    inversion Hall as [|? ? (r & Er & Pr) Hall1]; subst.
    inversion Hall1 as [|? ? (g & Eg & Pg) Hall2]; subst.
    inversion Hall2 as [|? ? (b & Eb & Pb) Hall3]; subst.
    cbn [fold_left]. unfold lumaStep at 2. unfold pixelAt.
    rewrite Er, Eg, Eb. unfold ofNat.
    cbn [fst snd Num.add Num.mul].
    destruct (HP r Pr) as (R1 & R2), (HP g Pg) as (G1 & G2), (HP b Pb) as (B1 & B2).
    set (qr := inject_Z (Z.of_nat r)) in *.
    set (qg := inject_Z (Z.of_nat g)) in *.
    set (qb := inject_Z (Z.of_nat b)) in *.
    assert (Hc : inject_Z (Z.of_nat (S c)) == inject_Z (Z.of_nat c) + 1).
    { rewrite Nat2Z.inj_succ. unfold Z.succ. rewrite inject_Z_plus. reflexivity. }
    destruct (IH (s + (0.2126 * qr + 0.7152 * qg + 0.0722 * qb)) (S c) Hall3)
      as (s' & E & L1 & L2).
    { rewrite Hc. destruct Hs as (S1 & S2). split; lra. }
    exists s'. cbn [List.length].
    replace (c + S (List.length rest))%nat with (S c + List.length rest)%nat by lia.
    auto.
Qed.

Lemma sampleIndices_nonempty n : (0 < n)%nat -> sampleIndices n <> [].
Proof.
  destruct n as [|n]; [lia|]. intros _ H.
  unfold sampleIndices in H. cbn [seq filter] in H.
  change ((0 mod 16 =? 0)%nat) with true in H. discriminate.
Qed.

Lemma luma_average (P : nat -> Prop) (lo hi : Q) pixels :
  (forall v, P v -> lo <= inject_Z (Z.of_nat v) /\ inject_Z (Z.of_nat v) <= hi) ->
  pixels <> [] ->
  sampledAll P pixels ->
  exists s c,
    frameLuma pixels = (Fin s, S c)
    /\ (Fin s / ofNat (S c))%num = Fin (s / inject_Z (Z.of_nat (S c)))
    /\ lo <= s / inject_Z (Z.of_nat (S c))
    /\ s / inject_Z (Z.of_nat (S c)) <= hi.
Proof.
  intros HP Hne Hall.
  destruct (luma_fold pixels P lo hi HP (sampleIndices (List.length pixels)) 0 0%nat Hall)
    as (s & E & L1 & L2).
  { change (inject_Z (Z.of_nat 0)) with 0. split; lra. }
  cbn [Nat.add] in *.
  assert (Hlen : (0 < List.length pixels)%nat).
  { destruct pixels; [congruence | cbn; lia]. }
  pose proof (sampleIndices_nonempty _ Hlen) as Hidx.
  destruct (List.length (sampleIndices (List.length pixels))) as [|c] eqn:Ec.
  { apply length_zero_iff_nil in Ec. contradiction. }
  exists s, c. unfold frameLuma. split; [exact E|].
  assert (Hpos : 0 < inject_Z (Z.of_nat (S c))).
  { change 0 with (inject_Z 0). rewrite <- Zlt_Qlt. lia. }
  split.
  - unfold ofNat, Num.div.
    destruct (Qeq_bool (inject_Z (Z.of_nat (S c))) 0) eqn:Ez; [|reflexivity].
    apply Qeq_bool_iff in Ez. rewrite Ez in Hpos. exfalso. exact (Qlt_irrefl _ Hpos).
  - split.
    + apply Qle_shift_div_l; [exact Hpos|exact L1].
    + apply Qle_shift_div_r; [exact Hpos|exact L2].
Qed.

Lemma nat_le_Q (v n : nat) : (v <= n)%nat ->
  0 <= inject_Z (Z.of_nat v) /\ inject_Z (Z.of_nat v) <= inject_Z (Z.of_nat n).
Proof.
  intros H. split.
  - change 0 with (inject_Z 0). rewrite <- Zle_Qle. lia.
  - rewrite <- Zle_Qle. lia.
Qed.

(** X19.  With a scene and pixel data, [isFrameLikelyBlack] answers
    [true] when the red, green and blue bytes of every fourth pixel are
    at most 2, and [false] when they are all at least 3; the bytes of the
    other pixels and the alpha bytes do not matter. *)
Theorem isFrameLikelyBlack_thresholds (pixels : list nat) (r : G1Robot) :
  sceneRef (render r) = true ->
  pixels <> [] ->
  (sampledAll (fun v => (v <= 2)%nat) pixels ->
   isFrameLikelyBlack (frame_pixels pixels) r = true)
  /\ (sampledAll (fun v => (3 <= v <= 255)%nat) pixels ->
      isFrameLikelyBlack (frame_pixels pixels) r = false)
  /\ (forall other,
        List.length other = List.length pixels ->
        (forall j, In j (sampledBytes pixels) -> nth_error other j = nth_error pixels j) ->
        isFrameLikelyBlack (frame_pixels other) r
        = isFrameLikelyBlack (frame_pixels pixels) r).
Proof.
  intros Hscene Hne. unfold isFrameLikelyBlack. rewrite Hscene. cbn [negb].
  split; [|split].
  - intros Hall.
    destruct (luma_average (fun v => (v <= 2)%nat) 0 2 pixels) as (s & c & E & Ed & L1 & L2);
      auto.
    { intros v Hv. apply (nat_le_Q v 2 Hv). }
    rewrite E. cbn [Nat.leb]. rewrite Ed.
    unfold Num.ltb, Num.Qltb. apply negb_true_iff.
    destruct (Qle_bool 2.5 (s / inject_Z (Z.of_nat (S c)))) eqn:Eb; [|reflexivity].
    apply Qle_bool_iff in Eb. exfalso. lra.
  - intros Hall.
    destruct (luma_average (fun v => (3 <= v <= 255)%nat) 3 255 pixels)
      as (s & c & E & Ed & L1 & L2); auto.
    { intros v (Hv1 & Hv2). split.
      - change 3 with (inject_Z 3). rewrite <- Zle_Qle. lia.
      - change 255 with (inject_Z 255). rewrite <- Zle_Qle. lia. }
    rewrite E. cbn [Nat.leb]. rewrite Ed.
    unfold Num.ltb, Num.Qltb. apply negb_false_iff. apply Qle_bool_iff. lra.
  - intros other Hlen Hsame.
    assert (Efold : frameLuma other = frameLuma pixels).
    { unfold frameLuma. rewrite Hlen.
      unfold sampledBytes in Hsame.
      generalize (Fin 0, 0%nat).
      induction (sampleIndices (List.length pixels)) as [|i rest IH]; intros acc.
      - reflexivity.
      - cbn [fold_left].
        assert (Estep : lumaStep other acc i = lumaStep pixels acc i).
        { unfold lumaStep, pixelAt.
          rewrite !Hsame; [reflexivity| | |]; cbn [flat_map app In]; auto. }
        rewrite Estep. apply IH.
        intros j Hj. apply Hsame. cbn [flat_map]. apply in_or_app. right. exact Hj. }
    rewrite Efold. reflexivity.
Qed.

Lemma isFrameLikelyBlack_thresholds_witness :
  (sampledAll (fun v => (v <= 2)%nat) darkSampleFrame ->
   isFrameLikelyBlack (frame_pixels darkSampleFrame) walkingRobot = true)
  /\ (sampledAll (fun v => (3 <= v <= 255)%nat) darkSampleFrame ->
      isFrameLikelyBlack (frame_pixels darkSampleFrame) walkingRobot = false)
  /\ (forall other,
        List.length other = List.length darkSampleFrame ->
        (forall j, In j (sampledBytes darkSampleFrame) ->
           nth_error other j = nth_error darkSampleFrame j) ->
        isFrameLikelyBlack (frame_pixels other) walkingRobot
        = isFrameLikelyBlack (frame_pixels darkSampleFrame) walkingRobot).
Proof.
  apply (isFrameLikelyBlack_thresholds darkSampleFrame walkingRobot);
    [reflexivity | discriminate].
Defined.

Example isFrameLikelyBlack_example :
  isFrameLikelyBlack (frame_pixels darkSampleFrame) walkingRobot = true
  /\ isFrameLikelyBlack (frame_pixels (repeat 3%nat 64)) walkingRobot = false
  /\ isFrameLikelyBlack (frame_pixels []) walkingRobot = false
  /\ isFrameLikelyBlack (frame_pixels darkSampleFrame) exampleRobot = false.
Proof. repeat split; vm_compute; reflexivity. Qed.

(** ** Vehicle state snapshots *)

Lemma getState_scratch r scratch :
  snd (getState r scratch) = snd (getPosition r scratch).
Proof. reflexivity. Qed.

Lemma readBy_last readers scratch :
  readBy readers scratch
  = match rev readers with
    | last :: _ => position (render last)
    | [] => scratch
    end.
Proof.
  unfold readBy. revert scratch.
  induction readers as [|x rest IH]; intros scratch; cbn [fold_left rev].
  - reflexivity.
  - rewrite IH. cbn [getPosition snd].
    destruct (rev rest) as [|l tl] eqn:E; reflexivity.
Qed.

Lemma updateModelMatrix_keeps r :
  position (render (updateModelMatrix r)) = position (render r)
  /\ hpRoll (render (updateModelMatrix r)) = hpRoll (render r)
  /\ motion (updateModelMatrix r) = motion r.
Proof.
  unfold updateModelMatrix. destruct (primitive (render r)); cbn; auto.
Qed.

(** X20.  The state [getState] returns holds the vehicles' shared
    scratch position, not a copy: [setState] of that state restores the
    heading, pitch, roll, velocity and speed of the vehicle it was taken
    from, but as position that of the vehicle whose position or state was
    read last in between, and the source's own only when there was no
    such read. *)
Theorem getState_position_is_shared (source target : G1Robot)
  (readers : list G1Robot) (scratch0 : Cartesian3) :
  let state := fst (getState source scratch0) in
  let scratch := readBy readers (snd (getState source scratch0)) in
  let restored := setState state scratch target in
  hpRoll (render restored) = hpRoll (render source)
  /\ velocity (motion restored) = velocity (motion source)
  /\ speed (motion restored) = speed (motion source)
  /\ position (render restored)
     = match rev readers with
       | last :: _ => position (render last)
       | [] => position (render source)
       end.
Proof.
  intros state scratch restored.
  unfold restored, setState.
  match goal with
  | |- context [updateModelMatrix ?x] =>
      destruct (updateModelMatrix_keeps x) as (Hp & Hh & Hm)
  end.
  rewrite Hp, Hh, Hm. cbn [render set_render set_motion motion position hpRoll
                           velocity speed].
  unfold state, scratch. cbn [getState fst snd vs_heading vs_pitch vs_roll
                              vs_velocity vs_speed vs_position deref].
  rewrite readBy_last.
  repeat split.
  destruct (hpRoll (render source)); reflexivity.
Qed.

(** ** Destroying twice *)

Lemma stopPerceptionStreaming_pending r :
  frameCaptureTimer (conn (stopPerceptionStreaming r)) = None
  /\ terrainProbeTimer (conn (stopPerceptionStreaming r)) = None
  /\ pendingVisionCapture (conn (stopPerceptionStreaming r)) = false
  /\ pendingVisionCaptureListener (conn (stopPerceptionStreaming r)) = None
  /\ pendingVisionCaptureRestore (conn (stopPerceptionStreaming r)) = None
  /\ destroyed (conn (stopPerceptionStreaming r)) = destroyed (conn r)
  /\ reconnectTimer (conn (stopPerceptionStreaming r)) = reconnectTimer (conn r)
  /\ ws (conn (stopPerceptionStreaming r)) = ws (conn r).
Proof.
  unfold stopPerceptionStreaming. cbv zeta.
  destruct (frameCaptureTimer (conn (cancelPendingVisionCapture r))) eqn:E1;
    match goal with
    | |- context [match ?x with Some _ => _ | None => _ end] => destruct x eqn:E2
    end; cbn in *; auto 10.
Qed.

Lemma closeSocket_conn r :
  conn (closeSocket r)
  = {| ws := None;
       reconnectTimer := reconnectTimer (conn r);
       destroyed := destroyed (conn r);
       frameCaptureTimer := frameCaptureTimer (conn r);
       terrainProbeTimer := terrainProbeTimer (conn r);
       pendingVisionCapture := pendingVisionCapture (conn r);
       pendingVisionCaptureListener := pendingVisionCaptureListener (conn r);
       pendingVisionCaptureRestore := pendingVisionCaptureRestore (conn r);
       terrainProbeSeq := terrainProbeSeq (conn r);
       dynamicObstacleSeq := dynamicObstacleSeq (conn r) |}
  /\ render (closeSocket r) = render r.
Proof.
  unfold closeSocket, socket_close.
  destruct (ws (conn r)) as [sock|] eqn:E.
  - destruct (readyState r sock) as [[| | |]|]; split; reflexivity.
  - destruct r as [? ? ? ? ? ? ? ? cn ? ?]. destruct cn. cbn in *. subst.
    split; reflexivity.
Qed.

Lemma destroy_released (r : G1Robot) : released (destroy r).
Proof.
  unfold destroy.
  set (r1 := cancelPendingVisionCapture (set_destroyed true r)).
  assert (Hd : destroyed (conn r1) = true) by reflexivity.
  clearbody r1.
  destruct (stopPerceptionStreaming_pending r1)
    as (S1 & S2 & S3 & S4 & S5 & S6 & S7 & S8).
  rewrite Hd in S6.
  set (r2 := stopPerceptionStreaming r1) in *. clearbody r2.
  set (r3 := match reconnectTimer (conn r2) with
             | Some id => set_reconnectTimer None (clearTimer id r2)
             | None => r2
             end).
  assert (H3 : reconnectTimer (conn r3) = None
               /\ frameCaptureTimer (conn r3) = None
               /\ terrainProbeTimer (conn r3) = None
               /\ pendingVisionCapture (conn r3) = false
               /\ pendingVisionCaptureListener (conn r3) = None
               /\ pendingVisionCaptureRestore (conn r3) = None
               /\ destroyed (conn r3) = true).
  { unfold r3. destruct (reconnectTimer (conn r2)) eqn:E; cbn; auto 10. }
  clearbody r3. destruct H3 as (T1 & T2 & T3 & T4 & T5 & T6 & T7).
  destruct (closeSocket_conn r3) as (Hc & _).
  set (r4 := closeSocket r3) in *. clearbody r4.
  assert (H5 : conn (emitStreamState offline r4) = conn r4).
  { unfold emitStreamState. destruct (onStreamStateChange (config r4)); reflexivity. }
  set (r5 := emitStreamState offline r4) in *. clearbody r5.
  assert (H6 : conn (Vehicle_destroy r5) = conn r5
               /\ primitive (render (Vehicle_destroy r5)) = None).
  { unfold Vehicle_destroy. destruct (primitive (render r5)) eqn:E; cbn; auto. }
  destruct H6 as (H6 & H7).
  unfold released. rewrite H6, H5, Hc, H7. cbn. auto 10.
Qed.

Lemma destroy_again (r : G1Robot) :
  released r -> destroy r = emitStreamState offline r.
Proof.
  unfold released.
  destruct r as [cfg ing ter cal ren mot prf lnk cn br ou].
  destruct cn as [sock rt d fct tpt pvc pvl pvr tseq dseq].
  destruct br as [socks tms next lis cam store].
  destruct ren as [pos hpr sm prim ready scene].
  destruct cfg as [cp ch cpi cr co cl cbs cbst cbn_].
  cbn. intros (-> & -> & -> & -> & -> & -> & -> & -> & ->).
  destruct cbs; reflexivity.
Qed.

(** X21.  After [destroy] the robot holds no socket, no timer, no pending
    capture and no model and is marked destroyed, and a second [destroy]
    does nothing but report [offline] once more. *)
Theorem destroy_twice (r : G1Robot) :
  released (destroy r)
  /\ destroy (destroy r) = emitStreamState offline (destroy r).
Proof.
  split; [apply destroy_released|].
  apply destroy_again. apply destroy_released.
Qed.

(** ** Sequence numbers *)

Lemma seqs_conn r r' : conn r' = conn r -> seqs r' = seqs r.
Proof. unfold seqs. intros ->. reflexivity. Qed.

Lemma seqs_wiring r r' : wiring r' = wiring r -> seqs r' = seqs r.
Proof. intros H. apply seqs_conn. apply wiring_conn. exact H. Qed.

Lemma stopPerceptionStreaming_seqs r : seqs (stopPerceptionStreaming r) = seqs r.
Proof.
  unfold stopPerceptionStreaming. cbv zeta.
  destruct (frameCaptureTimer (conn (cancelPendingVisionCapture r)));
    match goal with
    | |- context [match ?x with Some _ => _ | None => _ end] => destruct x
    end; reflexivity.
Qed.

Lemma closeSocket_seqs r : seqs (closeSocket r) = seqs r.
Proof.
  unfold closeSocket, socket_close.
  destruct (ws (conn r)) as [sock|]; [|reflexivity].
  destruct (readyState r sock) as [[| | |]|]; reflexivity.
Qed.

Lemma emitStreamState_seqs s r : seqs (emitStreamState s r) = seqs r.
Proof. unfold emitStreamState. destruct (onStreamStateChange (config r)); reflexivity. Qed.

Lemma set_ws_seqs v r : seqs (set_ws v r) = seqs r.
Proof. reflexivity. Qed.

Lemma set_sockets_seqs l r : seqs (set_sockets l r) = seqs r.
Proof. reflexivity. Qed.

Lemma connectStream_seqs r : seqs (connectStream r) = seqs r.
Proof.
  unfold connectStream. destruct (destroyed (conn r)); [reflexivity|].
  cbv zeta.
  rewrite set_ws_seqs, set_sockets_seqs, emitStreamState_seqs, closeSocket_seqs.
  apply stopPerceptionStreaming_seqs.
Qed.

Lemma ws_onerror_seqs r : seqs (ws_onerror r) = seqs r.
Proof.
  unfold ws_onerror. rewrite stopPerceptionStreaming_seqs. apply emitStreamState_seqs.
Qed.

Lemma ws_onclose_seqs r : seqs (ws_onclose r) = seqs r.
Proof.
  unfold ws_onclose. cbv zeta.
  set (r1 := stopPerceptionStreaming (emitStreamState offline r)).
  assert (E : seqs r1 = seqs r).
  { unfold r1. rewrite stopPerceptionStreaming_seqs. apply emitStreamState_seqs. }
  clearbody r1. rewrite <- E.
  destruct (destroyed (conn r1)); [reflexivity|].
  destruct (reconnectTimer (conn r1)); reflexivity.
Qed.

Lemma Vehicle_destroy_seqs r : seqs (Vehicle_destroy r) = seqs r.
Proof. unfold Vehicle_destroy. destruct (primitive (render r)); reflexivity. Qed.

Lemma set_reconnectTimer_seqs v r : seqs (set_reconnectTimer v r) = seqs r.
Proof. reflexivity. Qed.

Lemma clearTimer_seqs id r : seqs (clearTimer id r) = seqs r.
Proof. reflexivity. Qed.

Lemma cancelPendingVisionCapture_seqs r : seqs (cancelPendingVisionCapture r) = seqs r.
Proof. reflexivity. Qed.

Lemma set_destroyed_seqs v r : seqs (set_destroyed v r) = seqs r.
Proof. reflexivity. Qed.

Lemma destroy_seqs r : seqs (destroy r) = seqs r.
Proof.
  unfold destroy. cbv zeta.
  rewrite Vehicle_destroy_seqs, emitStreamState_seqs, closeSocket_seqs.
  match goal with
  | |- context [match ?x with Some _ => _ | None => _ end] => destruct x
  end.
  - rewrite set_reconnectTimer_seqs, clearTimer_seqs, stopPerceptionStreaming_seqs,
      cancelPendingVisionCapture_seqs.
    apply set_destroyed_seqs.
  - rewrite stopPerceptionStreaming_seqs, cancelPendingVisionCapture_seqs.
    apply set_destroyed_seqs.
Qed.

Lemma initialize_seqs g f r : seqs (initialize g f r) = seqs r.
Proof.
  unfold initialize. rewrite connectStream_seqs.
  apply seqs_wiring. rewrite loadNodeMap_wiring. apply Vehicle_initialize_wiring.
Qed.

Lemma numbers_same r r' :
  sentLog r' = sentLog r -> seqs r' = seqs r -> numbers r r'.
Proof.
  intros Hl Hs. unfold seqs in Hs. inversion Hs as [[H1 H2]].
  exists []. rewrite app_nil_r, H1, H2, !Nat.sub_diag. cbn. auto.
Qed.

Lemma probeSeqs_app a b : probeSeqs (a ++ b) = probeSeqs a ++ probeSeqs b.
Proof. unfold probeSeqs. apply flat_map_app. Qed.

Lemma obstacleSeqs_app a b : obstacleSeqs (a ++ b) = obstacleSeqs a ++ obstacleSeqs b.
Proof. unfold obstacleSeqs. apply flat_map_app. Qed.

Lemma seq_join start a b c :
  (a <= b)%nat -> (b <= c)%nat ->
  seq (S (start + a)) (b - a) ++ seq (S (start + b)) (c - b)
  = seq (S (start + a)) (c - a).
Proof.
  intros H1 H2.
  replace (c - a)%nat with ((b - a) + (c - b))%nat by lia.
  rewrite seq_app. repeat f_equal. lia.
Qed.

Lemma numbers_trans r1 r2 r3 : numbers r1 r2 -> numbers r2 r3 -> numbers r1 r3.
Proof.
  intros (n1 & L1 & T1 & P1 & D1 & O1) (n2 & L2 & T2 & P2 & D2 & O2).
  exists (n1 ++ n2). rewrite L2, L1, app_assoc.
  split; [reflexivity|]. split; [lia|].
  rewrite probeSeqs_app, obstacleSeqs_app, P1, P2, O1, O2.
  split; [|split; [lia|]].
  - apply (seq_join 0); assumption.
  - apply (seq_join 0); assumption.
Qed.

Lemma sendWsPayload_numbers p r :
  probeSeqs [(0%nat, p)] = [] -> obstacleSeqs [(0%nat, p)] = [] ->
  numbers r (sendWsPayload p r).
Proof.
  intros Hp Ho. unfold sendWsPayload.
  destruct (negb (canSendToServer r)); [apply numbers_same; reflexivity|].
  destruct (ws (conn r)) as [sock|]; [|apply numbers_same; reflexivity].
  exists [(sock, p)]. cbn [conn bump_perfWsOut set_perf set_out].
  rewrite !Nat.sub_diag.
  split; [reflexivity|]. split; [lia|]. split; [exact Hp|]. split; [lia|exact Ho].
Qed.

Lemma sendDynamicObstacles_numbers d obs r :
  numbers r (sendDynamicObstacles d obs r).
Proof.
  unfold sendDynamicObstacles.
  destruct (negb (canSendToServer r)) eqn:Hcan; [apply numbers_same; reflexivity|].
  destruct (List.length obs =? 0)%nat; [apply numbers_same; reflexivity|].
  destruct (List.length _ =? 0)%nat; [apply numbers_same; reflexivity|].
  apply negb_false_iff in Hcan.
  set (r1 := set_dynamicObstacleSeq (S (dynamicObstacleSeq (conn r))) r).
  assert (Hcan1 : canSendToServer r1 = true) by exact Hcan.
  unfold canSendToServer in Hcan.
  destruct (ws (conn r)) as [sock|] eqn:Hws; [|discriminate].
  assert (Hws1 : ws (conn r1) = Some sock) by exact Hws.
  exists [(sock, dynamic_obstacles (dynamicObstacleSeq (conn r1)) (Fin d)
                   (filter validObstacle (map cleanObstacle obs)))].
  rewrite sendWsPayload_conn.
  split; [rewrite (sendWsPayload_open _ r1 sock Hws1 Hcan1); reflexivity|].
  cbn [r1 conn set_dynamicObstacleSeq set_conn terrainProbeSeq dynamicObstacleSeq].
  rewrite Nat.sub_diag.
  replace (S (dynamicObstacleSeq (conn r)) - dynamicObstacleSeq (conn r))%nat
    with 1%nat by lia.
  split; [lia|]. split; [reflexivity|]. split; [lia|reflexivity].
Qed.

Lemma sendTerrainProbe_numbers e r :
  numbers r (settled (sendTerrainProbe e r)).
Proof.
  unfold sendTerrainProbe.
  destruct (negb (canSendToServer r) || negb (sceneRef (render r))) eqn:G;
    [apply numbers_same; reflexivity|].
  apply orb_false_iff in G. destruct G as [Hcan _]. apply negb_false_iff in Hcan.
  destruct (buildRobotTelemetry r) as [robot|]; [|apply numbers_same; reflexivity].
  set (base := cachedHeightOrZero r).
  set (fan := list_prod probeBearingsDeg probeDistancesM). clearbody fan.
  pose proof (probeFan_sentLog e base fan [] r) as Hlog.
  pose proof (probeFan_schedule e base fan [] r) as Hsch.
  pose proof (probeFan_conn e base fan [] r) as Hconn.
  destruct (probeFan e base fan [] r) as [q r1]. cbn [fst snd] in *.
  assert (Hsame : numbers r r1).
  { apply numbers_same; [exact Hlog|]. apply seqs_conn. exact Hconn. }
  destruct q as [|samples]; cbn [settled]; [exact Hsame|].
  destruct (List.length samples =? 0)%nat; cbn [settled]; [exact Hsame|].
  apply (numbers_trans r r1); [exact Hsame|].
  assert (Hcan1 : canSendToServer (bump_terrainProbe r1) = true).
  { rewrite <- Hcan. apply canSendToServer_schedule. rewrite <- Hsch. reflexivity. }
  unfold canSendToServer in Hcan.
  destruct (ws (conn r)) as [sock|] eqn:Hws; [|discriminate].
  assert (Hws1 : ws (conn (bump_terrainProbe r1)) = Some sock).
  { cbn. rewrite Hconn. exact Hws. }
  exists [(sock, terrain_probe (terrainProbeSeq (conn (bump_terrainProbe r1)))
                   (Fin (probe_Date_now e)) base samples robot)].
  rewrite (wiring_conn _ _ (maybeEmitPerfStatus_wiring _ _)), sendWsPayload_conn.
  split.
  { rewrite maybeEmitPerfStatus_sentLog.
    rewrite (sendWsPayload_open _ _ sock Hws1 Hcan1). reflexivity. }
  cbn [conn bump_terrainProbe set_perf set_conn terrainProbeSeq dynamicObstacleSeq].
  rewrite Nat.sub_diag.
  replace (S (terrainProbeSeq (conn r1)) - terrainProbeSeq (conn r1))%nat
    with 1%nat by lia.
  split; [lia|]. split; [reflexivity|]. split; [lia|reflexivity].
Qed.

Lemma ws_onopen_numbers e r : numbers r (ws_onopen e r).
Proof.
  unfold ws_onopen.
  set (r1 := emitStatus _ (emitStreamState live r)).
  assert (E1 : numbers r r1).
  { apply numbers_same; [unfold r1; frame|].
    unfold r1. apply seqs_conn.
    rewrite (wiring_conn _ _ (emitStatus_wiring _ _)).
    apply (wiring_conn _ _ (emitStreamState_wiring _ _)). }
  clearbody r1. apply (numbers_trans r r1); [exact E1|]. clear E1.
  unfold startPerceptionStreaming.
  rewrite (surjective_pairing (setTimer true cb_sendCameraFrame _ _)).
  rewrite (surjective_pairing (setTimer true cb_sendTerrainProbe _ _)).
  match goal with
  | |- context [sendTerrainProbe ?e ?x] => set (r2 := x)
  end.
  assert (E2 : numbers r1 r2).
  { apply numbers_same.
    - unfold r2. frame.
    - unfold r2, setTimer. cbn [fst snd].
      unfold seqs. cbn [conn set_perceptionTimers set_conn set_timers set_browser
                        terrainProbeSeq dynamicObstacleSeq].
      apply stopPerceptionStreaming_seqs. }
  clearbody r2. apply (numbers_trans r1 r2); [exact E2|]. clear E2.
  pose proof (sendTerrainProbe_numbers (open_probe e) r2) as E3.
  destruct (sendTerrainProbe (open_probe e) r2) as [r3|r3]; cbn [settled] in E3.
  - apply (numbers_trans r2 r3); [exact E3|].
    apply sendWsPayload_numbers; reflexivity.
  - exact E3.
Qed.

Lemma step_numbers (L : Lib) (ev : Event) (r r' : G1Robot) :
  step L ev r = Some r' -> numbers r r'.
Proof.
  destruct ev; cbn [step]; intros H.
  - injection H as <-. apply numbers_same; [frame|apply initialize_seqs].
  - injection H as <-. apply numbers_same; [frame|].
    apply seqs_wiring. apply modelReady_wiring.
  - apply numbers_same; [eapply update_sentLog; eauto|].
    apply seqs_wiring. eapply update_wiring; eauto.
  - unfold bind in H.
    destruct (setModelHeadingOffsetRad offsetRad r) as [res|] eqn:E; [|discriminate].
    injection H as <-.
    apply numbers_same; [eapply setModelHeadingOffsetRad_sentLog; eauto|].
    apply seqs_wiring. eapply setModelHeadingOffsetRad_wiring; eauto.
  - injection H as <-. apply sendDynamicObstacles_numbers.
  - injection H as Hr.
    pose proof (ws_onopen_numbers e
                  (set_sockets (setReadyState sock OPEN (sockets (browser r))) r)) as N.
    rewrite Hr in N.
    apply (numbers_trans r _ r' (numbers_same r _ eq_refl eq_refl) N).
  - injection H as <-. apply numbers_same; [frame|].
    apply seqs_wiring. apply ws_onmessage_wiring.
  - injection H as <-. apply numbers_same; [frame|apply ws_onerror_seqs].
  - injection H as <-. apply numbers_same; [frame|].
    rewrite ws_onclose_seqs. reflexivity.
  - destruct (pendingTimer id r) as [t|]; [|injection H as <-; apply numbers_same; reflexivity].
    destruct (timer_repeat t), (timer_callback t); injection H as <-;
      try (apply numbers_same; reflexivity).
    apply numbers_same; [frame|]. rewrite connectStream_seqs. reflexivity.
  - destruct (pendingTimer id r) as [t|]; [|injection H as <-; apply numbers_same; reflexivity].
    destruct (timer_repeat t), (timer_callback t);
      try (injection H as <-; apply numbers_same; reflexivity).
    injection H as Hr.
    pose proof (sendTerrainProbe_numbers e r) as N. rewrite Hr in N. exact N.
  - injection H as <-. apply numbers_same; [frame|apply destroy_seqs].
Qed.

Lemma run_numbers (L : Lib) (evs : list Event) : forall r r',
  run L evs r = Some r' -> numbers r r'.
Proof.
  induction evs as [|ev rest IH]; intros r r' H; cbn [run] in H.
  - injection H as <-. apply numbers_same; reflexivity.
  - unfold bind in H. destruct (step L ev r) as [r1|] eqn:E; [|discriminate].
    apply (numbers_trans r r1); [eapply step_numbers; eauto | apply IH; exact H].
Qed.

(** X22.  In every state a constructed robot reaches, the
    [terrain_probe] messages it has sent carry the sequence numbers 1, 2,
    ... up to [terrainProbeSeq], in the order they were sent, and its
    [dynamic_obstacles] messages the numbers 1, 2, ... up to
    [dynamicObstacleSeq]: no number is skipped or used twice. *)
Theorem messages_are_numbered_in_order (L : Lib) (cfg : Config) (now : Q)
  (b : Browser) (evs : list Event) (r0 r : G1Robot) :
  construct cfg now b = Some r0 ->
  run L evs r0 = Some r ->
  probeSeqs (sent (out r)) = seq 1 (terrainProbeSeq (conn r))
  /\ obstacleSeqs (sent (out r)) = seq 1 (dynamicObstacleSeq (conn r)).
Proof.
  intros Hc Hrun.
  assert (H0 : sentLog r0 = [] /\ seqs r0 = (0%nat, 0%nat)).
  { unfold construct, loadHeadingOffsetFromStorage, bind in Hc.
    repeat (break_head Hc; try discriminate Hc).
    all: inversion Hc; subst; split; reflexivity. }
  destruct H0 as (Hl & Hs). unfold seqs in Hs. inversion Hs as [[T0 D0]].
  destruct (run_numbers L evs r0 r Hrun) as (new & Elog & _ & P & _ & O).
  unfold sentLog in *. rewrite Elog, Hl, T0, D0 in *. cbn [app].
  rewrite !Nat.sub_0_r in *. auto.
Qed.

Lemma messages_are_numbered_in_order_witness :
  probeSeqs (sent (out probingRobot)) = seq 1 (terrainProbeSeq (conn probingRobot))
  /\ obstacleSeqs (sent (out probingRobot))
     = seq 1 (dynamicObstacleSeq (conn probingRobot)).
Proof.
  apply (messages_are_numbered_in_order flatLib exampleConfig 0 exampleBrowser
           probingHistory exampleRobot probingRobot);
    vm_compute; reflexivity.
Defined.

(** The robot of that witness has sent two terrain probes and two
    obstacle messages. *)
Example probing_robot_messages :
  probeSeqs (sent (out probingRobot)) = [1; 2]%nat
  /\ obstacleSeqs (sent (out probingRobot)) = [1; 2]%nat.
Proof. split; vm_compute; reflexivity. Qed.

(** ** The mount node of the vision rig *)

Lemma getNode_found m name r :
  fst (getNode m name r) = resolvable m r name
  /\ (forall n, resolvable m (snd (getNode m name r)) n = true ->
        resolvable m r n = true)
  /\ (forall n, resolvable m r n = true ->
        resolvable m (snd (getNode m name r)) n = true)
  /\ out (snd (getNode m name r)) = out r
  /\ config (snd (getNode m name r)) = config r.
Proof.
  unfold getNode, resolvable.
  destruct (member name (nodeCache (links r))) eqn:Ec; cbn [fst snd orb].
  { repeat split; auto. }
  destruct (member name (gltfNodes m)) eqn:Eg; cbn [fst snd].
  2:{ repeat split; auto. }
  split; [reflexivity|]. cbn [links set_links nodeCache out config].
  split; [|split; [|split; reflexivity]].
  - intros n H. unfold member in *. cbn [existsb] in H.
    apply orb_true_iff in H. destruct H as [H|H].
    + apply orb_true_iff in H. destruct H as [H|H].
      * apply String.eqb_eq in H. subst n. rewrite Eg. apply orb_true_r.
      * rewrite H. reflexivity.
    + rewrite H. apply orb_true_r.
  - intros n H. unfold member in *. cbn [existsb].
    apply orb_true_iff in H. destruct H as [H|H].
    + rewrite H. rewrite orb_true_r. reflexivity.
    + rewrite H. apply orb_true_r.
Qed.

Lemma resolveCandidates_first m candidates : forall v r,
  let '(name, v', r') := resolveCandidates m candidates v r in
  name = find (resolvable m r) candidates
  /\ (name = None -> v' = v /\ statuses (out r') = statuses (out r))
  /\ (forall n, name = Some n ->
        v' = {| visionMountNodeName := Some n; visionMountAnnounced := true |}
        /\ statuses (out r')
           = if negb (visionMountAnnounced v) && onStatus (config r)
             then statuses (out r)
                  ++ [status_text ("Gemini vision rig mounted to " ++ n ++ ".")]
             else statuses (out r)).
Proof.
  induction candidates as [|c rest IH]; intros v r.
  - cbn. split; [reflexivity|]. split; [auto|]. intros n H. discriminate.
  - cbn [resolveCandidates find].
    destruct (getNode_found m c r) as (Hf & Hback & Hfwd & Hout & Hcfg).
    destruct (getNode m c r) as [found r1]. cbn [fst snd] in *. subst found.
    destruct (resolvable m r c) eqn:Ec; cbn [negb].
    + split; [reflexivity|]. split; [intros H; discriminate|].
      intros n H. injection H as <-. split; [reflexivity|].
      destruct (visionMountAnnounced v); cbn [negb andb].
      * rewrite Hout. reflexivity.
      * unfold emitStatus. rewrite Hcfg.
        destruct (onStatus (config r)); cbn; rewrite Hout; reflexivity.
    + specialize (IH v r1).
      destruct (resolveCandidates m rest v r1) as [[name v'] r'].
      destruct IH as (I1 & I2 & I3).
      assert (Efind : find (resolvable m r1) rest = find (resolvable m r) rest).
      { clear -Hback Hfwd. induction rest as [|x rest IH]; [reflexivity|].
        cbn [find].
        destruct (resolvable m r x) eqn:E.
        - rewrite (Hfwd x E). reflexivity.
        - destruct (resolvable m r1 x) eqn:E1; [|exact IH].
          apply Hback in E1. congruence. }
      rewrite <- Efind, <- Hout, <- Hcfg. auto.
Qed.

(** X23.  While no mount node is remembered,
    [resolveVisionMountNodeName] returns the first of its six candidates
    that resolves on the model or from the node cache, and [null] when
    none does.  A name it has returned is remembered: every later call
    returns it, for any model, even one without that node.  The mount is
    announced at most once. *)
Theorem resolveVisionMountNodeName_first_and_sticky (m : Model) (v : VisionMount)
  (r : G1Robot) :
  let '(name, v', r') := resolveVisionMountNodeName m v r in
  (visionMountNodeName v = None ->
   name = find (resolvable m r) visionNodeCandidates
   /\ (name = None -> v' = v /\ statuses (out r') = statuses (out r)))
  /\ (forall n, name = Some n ->
        forall m2 r2,
          resolveVisionMountNodeName m2 v' r2 = (Some n, v', r2))
  /\ (visionMountAnnounced v = true -> statuses (out r') = statuses (out r))
  /\ (List.length (statuses (out r')) <= S (List.length (statuses (out r))))%nat.
Proof.
  unfold resolveVisionMountNodeName.
  destruct (truthy (visionMountNodeName v)) eqn:Et.
  - split; [intros H; rewrite H in Et; discriminate|].
    split; [|split; [reflexivity|lia]].
    intros n Hn m2 r2. rewrite Et. rewrite Hn. reflexivity.
  - pose proof (resolveCandidates_first m visionNodeCandidates v r) as H.
    destruct (resolveCandidates m visionNodeCandidates v r) as [[name v'] r'].
    destruct H as (H1 & H2 & H3).
    split; [intros _; split; assumption|].
    split; [|split].
    + intros n Hn m2 r2. destruct (H3 n Hn) as (Ev & _). subst v'.
      cbn [visionMountNodeName truthy].
      assert (Hne : String.eqb n EmptyString = false).
      { rewrite Hn in H1. symmetry in H1. apply find_some in H1.
        destruct H1 as (Hin & _). cbn in Hin.
        repeat (destruct Hin as [<-|Hin]; [reflexivity|]). destruct Hin. }
      rewrite Hne. reflexivity.
    + intros Ha. destruct name as [n|].
      * destruct (H3 n eq_refl) as (_ & Es). rewrite Es, Ha. reflexivity.
      * destruct (H2 eq_refl) as (_ & Es). exact Es.
    + destruct name as [n|].
      * destruct (H3 n eq_refl) as (_ & Es). rewrite Es.
        destruct (negb (visionMountAnnounced v) && onStatus (config r));
          [rewrite length_app; cbn; lia|lia].
      * destruct (H2 eq_refl) as (_ & Es). rewrite Es. lia.
Qed.

(** On the model of the examples the rig is mounted to the head link,
    and stays there on a model without that node. *)
Example resolveVisionMountNodeName_example :
  let fresh := {| visionMountNodeName := None; visionMountAnnounced := false |} in
  let '(name, v, r) := resolveVisionMountNodeName animatedModel fresh animatedRobot in
  name = Some "head_link"%string
  /\ statuses (out r)
     = statuses (out animatedRobot)
       ++ [status_text "Gemini vision rig mounted to head_link."]
  /\ fst (fst (resolveVisionMountNodeName
                 {| modelMatrix := modelMatrix animatedModel;
                    gltfNodes := []; nodeMatrices := [] |} v exampleRobot))
     = Some "head_link"%string.
Proof. vm_compute. repeat split. Qed.
